(** * Codec CDN: the TCF, ICF and VCF codecs

    A shallow embedding of the TypeScript codecs of the repository
    ([src/codecs/text/tcf-codec.ts], [src/codecs/image/icf-codec.ts],
    [src/codecs/video/vcf-codec.ts]) and the properties their
    specification states about them.

    Conventions.
    - A Node [Buffer] is a [list byte]; a JavaScript [number[]] is a
      [list N] or [list Z] until [Buffer.from] truncates it to bytes.
    - A [throw] is a value [Err e]; the constructors of [error] are the
      messages the source throws.
    - A JavaScript string is a [string].  For the JSON text of a header
      or an index, [Buffer.from(s, 'utf8')] and [buf.toString('utf8')]
      are [list_byte_of_string] and [string_of_list_byte].  The text the
      text codec encodes and returns is modelled when it is ASCII: see
      [TextCodec].
    - Memory is taken to be there: allocating a buffer or a typed array
      of a valid size succeeds. *)

From Stdlib Require Import List ZArith NArith Lia Bool Arith.
From Stdlib Require Import QArith Qround Qabs Qpower Qreduction Lqa.
From Stdlib.Strings Require Import Byte Ascii String.
Import ListNotations.

Close Scope Q_scope.

(** ** Results of fallible code *)

Inductive error : Type :=
| TooSmall              (* 'Invalid ... file: too small' *)
| InvalidMagic          (* 'Invalid ... magic number' *)
| HeaderSizeMismatch    (* 'Invalid ... file: header size mismatch' *)
| UnsupportedVersion    (* 'Unsupported ... version: ...' *)
| ChecksumMismatch      (* 'TCF checksum mismatch' *)
| NoDimensions          (* 'Cannot determine image dimensions' *)
| PFrameWithoutIFrame   (* 'P-frame without previous I-frame' *)
| InvalidPFrame         (* 'Invalid P-frame data' *)
| DataTooSmall          (* 'Invalid compressed data: too small' *)
| IndexSizeMismatch     (* 'Invalid compressed data: index size mismatch' *)
| SyntaxError           (* thrown by JSON.parse *)
| TypeError             (* thrown by the runtime on null/undefined access *)
| RangeError.           (* thrown by the runtime on an out-of-range value *)

Inductive result (A : Type) : Type :=
| Ok (a : A)
| Err (e : error).
Arguments Ok {A} a.
Arguments Err {A} e.

Definition bind {A B} (r : result A) (k : A -> result B) : result B :=
  match r with
  | Ok a => k a
  | Err e => Err e
  end.

Notation "x <- r ;; k" := (bind r (fun x => k))
  (at level 61, r at next level, right associativity).
Notation "' p <- r ;; k" := (bind r (fun p => k))
  (at level 61, p pattern, r at next level, right associativity).

Definition is_ok {A} (r : result A) : bool :=
  match r with Ok _ => true | Err _ => false end.

(** The value of a result known to be [Ok], for examples. *)
Definition unwrap {A} (r : result (list A)) : list A :=
  match r with
  | Ok a => a
  | Err _ => []
  end.

(** ** Buffers *)

Definition Buffer := list byte.

(** [Buffer.from(array)]: every entry is reduced modulo 256. *)
Definition Buffer_from (a : list N) : Buffer :=
  map (fun n => match Byte.of_N (n mod 256) with Some b => b | None => x00 end) a.

Definition byteN (b : byte) : N := Byte.to_N b.

(** ** The text codec's compression pipeline *)

Module TextRLE.

(** What the outer loop of [simpleCompress] pushes for one run. *)
Definition emit (currentByte : byte) (runLength : nat) : list N :=
  if 3 <? runLength
  then [255%N; byteN currentByte; N.of_nat runLength]
  else repeat (byteN currentByte) runLength.

(** The two nested loops of [simpleCompress], with the run in progress
    ([currentByte], [runLength]) as accumulator: the inner loop extends
    the run while the next byte is the same, and when it stops the outer
    loop emits the run and starts again at the next byte. *)
Fixpoint scan (currentByte : byte) (runLength : nat) (rest : list byte)
  : list N :=
  match rest with
  | [] => emit currentByte runLength
  | x :: rest' =>
      if Byte.eqb x currentByte
      then scan currentByte (S runLength) rest'
      else emit currentByte runLength ++ scan x 1 rest'
  end.

Definition simpleCompress (data : Buffer) : Buffer :=
  Buffer_from
    match data with
    | [] => []
    | currentByte :: rest => scan currentByte 1 rest
    end.

(** [simpleDecompress]: a byte 0xFF with at least two bytes after it
    ([i + 2 < length]) is a run marker; anything else is a literal. *)
Fixpoint simpleDecompress (compressedData : Buffer) : Buffer :=
  match compressedData with
  | [] => []
  | c :: rest =>
      match rest with
      | b :: n :: rest' =>
          if Byte.eqb c xff
          then repeat b (N.to_nat (byteN n)) ++ simpleDecompress rest'
          else c :: simpleDecompress rest
      | _ => c :: simpleDecompress rest
      end
  end.

(** Inputs on which the pipeline is the identity: no byte 0xFF, and
    no run of equal bytes longer than 255.  [short_runs] follows [scan]
    and checks every run it would emit. *)
Definition no_marker (data : Buffer) : Prop :=
  Forall (fun b => b <> xff) data.

Fixpoint short_runs (currentByte : byte) (runLength : nat)
    (rest : list byte) : bool :=
  match rest with
  | [] => runLength <=? 255
  | x :: rest' =>
      if Byte.eqb x currentByte
      then short_runs currentByte (S runLength) rest'
      else (runLength <=? 255) && short_runs x 1 rest'
  end.

Definition runs_fit (data : Buffer) : Prop :=
  match data with
  | [] => True
  | currentByte :: rest => short_runs currentByte 1 rest = true
  end.

End TextRLE.

(** ** SHA-256

    [createHash('sha256').update(data).digest('hex')] of Node's [crypto]
    module: FIPS 180-4 SHA-256 over 32-bit words held in [Z], the digest
    printed as 64 lower-case hexadecimal digits. *)

Module SHA256.
Local Open Scope Z_scope.

Definition w32 (x : Z) : Z := x mod 2 ^ 32.
Definition add32 (x y : Z) : Z := w32 (x + y).
Definition rotr (n x : Z) : Z :=
  Z.lor (Z.shiftr x n) (w32 (Z.shiftl x (32 - n))).
Definition not32 (x : Z) : Z := Z.lxor x 0xffffffff.

Definition Ch (x y z : Z) : Z := Z.lxor (Z.land x y) (Z.land (not32 x) z).
Definition Maj (x y z : Z) : Z :=
  Z.lxor (Z.lxor (Z.land x y) (Z.land x z)) (Z.land y z).
Definition Sigma0 (x : Z) : Z :=
  Z.lxor (Z.lxor (rotr 2 x) (rotr 13 x)) (rotr 22 x).
Definition Sigma1 (x : Z) : Z :=
  Z.lxor (Z.lxor (rotr 6 x) (rotr 11 x)) (rotr 25 x).
Definition sigma0 (x : Z) : Z :=
  Z.lxor (Z.lxor (rotr 7 x) (rotr 18 x)) (Z.shiftr x 3).
Definition sigma1 (x : Z) : Z :=
  Z.lxor (Z.lxor (rotr 17 x) (rotr 19 x)) (Z.shiftr x 10).

(** The constants, as FIPS 180-4 defines them: the first 32 bits of the
    fractional parts of the cube roots (round constants) and of the square
    roots (initial state) of the first primes. *)
Definition is_prime (n : nat) : bool :=
  forallb (fun d => negb (n mod d =? 0)%nat) (seq 2 (n - 2)).

Definition primes : list Z :=
  map Z.of_nat (filter is_prime (seq 2 310)).

(** The largest [r] below 2^40 with [r ^ k <= n], found bit by bit. *)
Definition iroot (k n : Z) : Z :=
  fold_left (fun r b => let r' := r + 2 ^ b in if r' ^ k <=? n then r' else r)
            (map Z.of_nat (rev (seq 0 40))) 0.

Definition root_fraction (k p : Z) : Z :=
  iroot k (p * 2 ^ (32 * k)) mod 2 ^ 32.

Definition K : list Z :=
  Eval vm_compute in map (root_fraction 3) primes.

(** Message padding: a 1 bit, zeros up to 56 modulo 64 bytes, and the
    bit length as a 64-bit big-endian integer. *)
Definition be_bytes (n : nat) (x : Z) : list Z :=
  map (fun i => (x / 2 ^ (8 * Z.of_nat i)) mod 256) (rev (seq 0 n)).

Definition pad (msg : list Z) : list Z :=
  let len := Z.of_nat (List.length msg) in
  let zeros := Z.to_nat ((55 - len) mod 64) in
  msg ++ [0x80] ++ repeat 0 zeros ++ be_bytes 8 (8 * len).

Fixpoint words (bytes : list Z) : list Z :=
  match bytes with
  | a :: b :: c :: d :: rest =>
      (((a * 256 + b) * 256 + c) * 256 + d) :: words rest
  | _ => []
  end.

(** The message schedule, most recent word first. *)
Fixpoint schedule (n : nat) (w : list Z) : list Z :=
  match n with
  | O => w
  | S n' =>
      let next :=
        add32 (add32 (sigma1 (nth 1 w 0)) (nth 6 w 0))
              (add32 (sigma0 (nth 14 w 0)) (nth 15 w 0)) in
      schedule n' (next :: w)
  end.

Definition state := (Z * Z * Z * Z * Z * Z * Z * Z)%type.

Definition round (s : state) (kw : Z * Z) : state :=
  let '(a, b, c, d, e, f, g, h) := s in
  let '(k, w) := kw in
  let t1 := add32 (add32 (add32 h (Sigma1 e)) (add32 (Ch e f g) k)) w in
  let t2 := add32 (Sigma0 a) (Maj a b c) in
  (add32 t1 t2, a, b, c, add32 d t1, e, f, g).

Definition compress (s : state) (block : list Z) : state :=
  let w := rev (schedule 48 (rev block)) in
  let '(a, b, c, d, e, f, g, h) := fold_left round (combine K w) s in
  let '(a0, b0, c0, d0, e0, f0, g0, h0) := s in
  (add32 a0 a, add32 b0 b, add32 c0 c, add32 d0 d,
   add32 e0 e, add32 f0 f, add32 g0 g, add32 h0 h).

Fixpoint blocks (n : nat) (ws : list Z) : list (list Z) :=
  match n with
  | O => []
  | S n' => firstn 16 ws :: blocks n' (skipn 16 ws)
  end.

Definition init : state :=
  Eval vm_compute in
    match map (root_fraction 2) (firstn 8 primes) with
    | [a; b; c; d; e; f; g; h] => (a, b, c, d, e, f, g, h)
    | _ => (0, 0, 0, 0, 0, 0, 0, 0)
    end.

Definition hash_words (msg : list Z) : list Z :=
  let ws := words (pad msg) in
  let '(a, b, c, d, e, f, g, h) :=
    fold_left compress (blocks (List.length ws / 16) ws) init in
  [a; b; c; d; e; f; g; h].

Definition hex_digit (d : Z) : ascii :=
  nth (Z.to_nat d)
      (list_ascii_of_string "0123456789abcdef") "0"%char.

Definition hex_byte (b : Z) : list ascii :=
  [hex_digit (b / 16); hex_digit (b mod 16)].

(** [.digest('hex')] *)
Definition digest_hex (data : Buffer) : string :=
  string_of_list_ascii
    (flat_map hex_byte
       (flat_map (be_bytes 4)
          (hash_words (map (fun b => Z.of_N (Byte.to_N b)) data)))).

End SHA256.

(** ** JavaScript numbers

    A finite double is the rational it denotes; every arithmetic operation
    computes the exact rational result and rounds it to 53 significant
    bits, ties to even ([fl]).  A store into a [Float32Array] rounds to 24
    bits ([fround]).  Division by zero and overflow give the infinities
    and [NaN] as in IEEE 754.  The model has no negative zero and no
    gradual underflow: a result below the normal range keeps full
    precision. *)

Module JSNumber.
Local Open Scope Q_scope.

Inductive number : Type :=
| Num (q : Q)
| NaN
| Inf (negative : bool).

Definition two_pow (k : Z) : Q := Qpower 2 k.

(** [floor (log2 |x|)] for [x] not zero. *)
Definition ilog2 (x : Q) : Z :=
  let a := Z.abs (Qnum x) in
  let b := Zpos (Qden x) in
  let d := (Z.log2 a - Z.log2 b)%Z in
  let above :=
    if (0 <=? d)%Z then (b * 2 ^ d <=? a)%Z else (b <=? a * 2 ^ (- d))%Z in
  if above then d else (d - 1)%Z.

(** Nearest integer, ties to even. *)
Definition half_even (q : Q) : Z :=
  let f := Qfloor q in
  match Qcompare (q - inject_Z f) (1 # 2) with
  | Lt => f
  | Gt => (f + 1)%Z
  | Eq => if Z.even f then f else (f + 1)%Z
  end.

(** Rounding to [p] significant bits. *)
Definition roundTo (p : Z) (x : Q) : Q :=
  if Qeq_bool x 0 then 0
  else
    let s := (p - 1 - ilog2 x)%Z in
    Qred (inject_Z (half_even (x * two_pow s)) * two_pow (- s)).

Definition negQ (x : Q) : bool :=
  match Qcompare x 0 with Lt => true | _ => false end.

Definition overflow (emax : Z) (x r : Q) : number :=
  if Qle_bool (two_pow emax) (Qabs r) then Inf (negQ x) else Num r.

(** The double nearest to a rational. *)
Definition fl (x : Q) : number := overflow 1024 x (roundTo 53 x).

(** [Math.fround], the conversion done by a [Float32Array] store. *)
Definition fround (n : number) : number :=
  match n with
  | Num x => overflow 128 x (roundTo 24 x)
  | _ => n
  end.

Definition ofZ (z : Z) : number := fl (inject_Z z).

Definition neg (a : number) : number :=
  match a with
  | Num x => Num (- x)
  | NaN => NaN
  | Inf s => Inf (negb s)
  end.

Definition add (a b : number) : number :=
  match a, b with
  | Num x, Num y => fl (x + y)
  | NaN, _ | _, NaN => NaN
  | Inf s, Inf t => if Bool.eqb s t then Inf s else NaN
  | Inf s, Num _ | Num _, Inf s => Inf s
  end.

Definition sub (a b : number) : number := add a (neg b).

Definition mul (a b : number) : number :=
  match a, b with
  | Num x, Num y => fl (x * y)
  | NaN, _ | _, NaN => NaN
  | Inf s, Inf t => Inf (xorb s t)
  | Inf s, Num y | Num y, Inf s =>
      if Qeq_bool y 0 then NaN else Inf (xorb s (negQ y))
  end.

Definition div (a b : number) : number :=
  match a, b with
  | Num x, Num y =>
      if Qeq_bool y 0
      then (if Qeq_bool x 0 then NaN else Inf (negQ x))
      else fl (x / y)
  | NaN, _ | _, NaN => NaN
  | Inf _, Inf _ => NaN
  | Inf s, Num y => Inf (xorb s (negQ y))
  | Num _, Inf _ => Num 0
  end.

(** [a < b] *)
Definition lt (a b : number) : bool :=
  match a, b with
  | Num x, Num y => match Qcompare x y with Lt => true | _ => false end
  | NaN, _ | _, NaN => false
  | Inf s, Inf t => s && negb t
  | Inf s, Num _ => s
  | Num _, Inf t => negb t
  end.

(** [Math.round]: [floor (x + 0.5)], computed exactly. *)
Definition Math_round (a : number) : number :=
  match a with
  | Num x => Num (inject_Z (Qfloor (x + (1 # 2))))
  | _ => a
  end.

Definition Math_min (a b : number) : number :=
  match a, b with
  | NaN, _ | _, NaN => NaN
  | _, _ => if lt b a then b else a
  end.

Definition Math_max (a b : number) : number :=
  match a, b with
  | NaN, _ | _, NaN => NaN
  | _, _ => if lt a b then b else a
  end.

(** The conversion of a store into a [Buffer] or [Uint8Array] slot:
    truncate towards zero, reduce modulo 256; [NaN] and the infinities
    become 0. *)
Definition toUint8 (a : number) : byte :=
  match a with
  | Num x =>
      match Byte.of_N (Z.to_N (Z.quot (Qnum x) (Zpos (Qden x)) mod 256)) with
      | Some b => b
      | None => x00
      end
  | _ => x00
  end.

End JSNumber.

(** ** JSON

    [JSON.stringify] and [JSON.parse] of the runtime, over the values the
    codecs print and read. *)

Module JSON.
Import JSNumber.
Local Open Scope string_scope.

#[warnings="-register-all"]
Inductive json : Type :=
| JNull
| JBool (b : bool)
| JNum (n : number)
| JStr (s : string)
| JArr (items : list json)
| JObj (members : list (string * json)).

(** *** Number to string *)

Definition digit_char (d : Z) : ascii := ascii_of_nat (48 + Z.to_nat d).

(** Decimal digits of a natural number, least significant first. *)
Fixpoint rdigits (fuel : nat) (n : Z) : list Z :=
  match fuel with
  | O => []
  | S f => (n mod 10)%Z :: (if (n <? 10)%Z then [] else rdigits f (n / 10)%Z)
  end.

Definition digits (n : Z) : list Z :=
  rev (rdigits (S (Z.to_nat (Z.log2 n))) n).

Definition nat_string (n : Z) : string :=
  string_of_list_ascii (map digit_char (digits n)).

Definition zeros (n : Z) : string :=
  string_of_list_ascii (repeat "0"%char (Z.to_nat n)).

Definition pow10 (k : Z) : Q := Qpower 10 k.

(** The [n] with [10^(n-1) <= x < 10^n], for [x > 0]. *)
Definition decimal_exponent (x : Q) : Z :=
  let n0 := (ilog2 x * 30103 / 100000)%Z in
  if Qle_bool (pow10 (n0 + 1)) x then (n0 + 2)%Z
  else if Qle_bool (pow10 n0) x then (n0 + 1)%Z
  else n0.

(** The shortest decimal [s * 10^(n-k)] with [k] digits that reads back
    as the double [x] (ECMA-262, Number::toString), searched for
    [k = 1, 2, ...]; of two candidates the nearer to [x]. *)
Fixpoint shortest (fuel : nat) (k : Z) (n : Z) (x : Q) : Z * Z :=
  match fuel with
  | O => (Qfloor x, n)
  | S f =>
      let scale := pow10 (n - k) in
      let lo := Qfloor (x / scale) in
      let hi := (lo + 1)%Z in
      let reads s := Qeq_bool (roundTo 53 (inject_Z s * scale)) x in
      let pick s := if (s =? 10 ^ k)%Z then ((s / 10)%Z, (n + 1)%Z) else (s, n) in
      let nearer_lo :=
        Qle_bool (x - inject_Z lo * scale) (inject_Z hi * scale - x) in
      match reads lo, reads hi with
      | true, true => if nearer_lo then pick lo else pick hi
      | true, false => pick lo
      | false, true => pick hi
      | false, false => shortest f (k + 1)%Z n x
      end
  end.

Definition split_at (n : nat) (s : string) : string * string :=
  (substring 0 n s, substring n (String.length s - n) s).

Definition positive_toString (x : Q) : string :=
  let '(s, n) := shortest 17 1 (decimal_exponent x) x in
  let ds := nat_string s in
  let k := Z.of_nat (String.length ds) in
  if ((k <=? n) && (n <=? 21))%Z%bool then ds ++ zeros (n - k)
  else if ((0 <? n) && (n <=? 21))%Z%bool then
    let '(a, b) := split_at (Z.to_nat n) ds in a ++ "." ++ b
  else if ((-6 <? n) && (n <=? 0))%Z%bool then "0." ++ zeros (- n) ++ ds
  else
    let e := (n - 1)%Z in
    let '(a, b) := split_at 1 ds in
    (if (k =? 1)%Z then a else a ++ "." ++ b)
      ++ "e" ++ (if (e <? 0)%Z then "-" else "+") ++ nat_string (Z.abs e).

Definition is_integer (x : Q) : bool := Qeq_bool x (inject_Z (Qfloor x)).

(** Number::toString on a finite value.  An integer up to 2^53 is its own
    shortest decimal, so it prints as its digits. *)
Definition Number_toString (x : Q) : string :=
  if Qeq_bool x 0 then "0"
  else
    (if negQ x then "-" else EmptyString) ++
    (if is_integer x && Qle_bool (Qabs x) (two_pow 53)
     then nat_string (Z.abs (Qfloor x))
     else positive_toString (Qabs x)).

(** *** Quoting of strings *)

Definition hex4 (n : nat) : string :=
  let h d := SHA256.hex_digit (Z.of_nat d) in
  string_of_list_ascii
    [h (n / 4096 mod 16)%nat; h (n / 256 mod 16)%nat;
     h (n / 16 mod 16)%nat; h (n mod 16)%nat].

Definition dquote : ascii := ascii_of_nat 34.
Definition backslash : ascii := ascii_of_nat 92.
Definition str1 (c : ascii) : string := String c EmptyString.
Definition esc (c : ascii) : string := String backslash (str1 c).

Definition escape_char (c : ascii) : string :=
  let n := nat_of_ascii c in
  if (n =? 34)%nat then esc dquote
  else if (n =? 92)%nat then esc backslash
  else if (n =? 8)%nat then esc "b"
  else if (n =? 12)%nat then esc "f"
  else if (n =? 10)%nat then esc "n"
  else if (n =? 13)%nat then esc "r"
  else if (n =? 9)%nat then esc "t"
  else if (n <? 32)%nat then esc "u" ++ hex4 n
  else str1 c.

Fixpoint escape (s : string) : string :=
  match s with
  | EmptyString => EmptyString
  | String c s' => escape_char c ++ escape s'
  end.

Definition quote (s : string) : string :=
  String dquote (escape s ++ str1 dquote).

(** *** [JSON.stringify] *)

Fixpoint join (sep : string) (l : list string) : string :=
  match l with
  | [] => EmptyString
  | [x] => x
  | x :: l' => x ++ sep ++ join sep l'
  end.

Fixpoint stringify (v : json) : string :=
  match v with
  | JNull => "null"
  | JBool true => "true"
  | JBool false => "false"
  | JNum (Num x) => Number_toString x
  | JNum _ => "null"
  | JStr s => quote s
  | JArr items => "[" ++ join "," (map stringify items) ++ "]"
  | JObj members =>
      "{" ++ join ","
               (map (fun m => quote (fst m) ++ ":" ++ stringify (snd m))
                    members)
          ++ "}"
  end.

(** *** [JSON.parse] *)

Definition is_ws (c : ascii) : bool :=
  let n := nat_of_ascii c in
  ((n =? 32) || (n =? 9) || (n =? 10) || (n =? 13))%nat.

Fixpoint skip_ws (s : string) : string :=
  match s with
  | String c s' => if is_ws c then skip_ws s' else s
  | EmptyString => s
  end.

Definition digit_of (c : ascii) : option Z :=
  let n := nat_of_ascii c in
  if ((48 <=? n) && (n <=? 57))%nat then Some (Z.of_nat (n - 48)) else None.

Definition hex_of (c : ascii) : option nat :=
  let n := nat_of_ascii c in
  if ((48 <=? n) && (n <=? 57))%nat then Some (n - 48)%nat
  else if ((65 <=? n) && (n <=? 70))%nat then Some (n - 55)%nat
  else if ((97 <=? n) && (n <=? 102))%nat then Some (n - 87)%nat
  else None.

(** The leading decimal digits of a string, and what follows them. *)
Fixpoint take_digits (s : string) : list Z * string :=
  match s with
  | String c s' =>
      match digit_of c with
      | Some d => let '(ds, r) := take_digits s' in (d :: ds, r)
      | None => ([], s)
      end
  | EmptyString => ([], s)
  end.

Definition value_of (ds : list Z) : Z :=
  fold_left (fun a d => (a * 10 + d)%Z) ds 0%Z.

Definition parse_fraction (s : string) : option (list Z * string) :=
  match s with
  | String "." s' =>
      match take_digits s' with
      | ([], _) => None
      | (ds, r) => Some (ds, r)
      end
  | _ => Some ([], s)
  end.

Definition parse_exponent (s : string) : option (Z * string) :=
  let unsigned (neg : bool) (s' : string) :=
    match take_digits s' with
    | ([], _) => None
    | (ds, r) => Some (if neg then (- value_of ds)%Z else value_of ds, r)
    end in
  match s with
  | String c s' =>
      if (Ascii.eqb c "e" || Ascii.eqb c "E")%bool then
        match s' with
        | String "+" s'' => unsigned false s''
        | String "-" s'' => unsigned true s''
        | _ => unsigned false s'
        end
      else Some (0%Z, s)
  | EmptyString => Some (0%Z, s)
  end.

(** A number token: an optional minus sign, an integer part (a single 0,
    or digits that do not start with 0), an optional fraction and an
    optional exponent, read as the double nearest to its decimal
    value. *)
Definition parse_number (s : string) : option (number * string) :=
  let '(neg, s1) :=
    match s with
    | String "-" s' => (true, s')
    | _ => (false, s)
    end in
  let int_part :=
    match s1 with
    | String "0" s' => Some ([0%Z], s')
    | _ => match take_digits s1 with
           | ([], _) => None
           | (ds, r) => Some (ds, r)
           end
    end in
  match int_part with
  | None => None
  | Some (ids, s2) =>
      match parse_fraction s2 with
      | None => None
      | Some (fds, s3) =>
          match parse_exponent s3 with
          | None => None
          | Some (e, s4) =>
              let m := value_of (ids ++ fds) in
              let x := (inject_Z m * pow10 (e - Z.of_nat (List.length fds)))%Q in
              Some (fl (if neg then (- x)%Q else x), s4)
          end
      end
  end.

(** UTF-8 of a code point. *)
Definition utf8 (cp : N) : string :=
  let a (n : N) := ascii_of_N n in
  (if cp <? 128 then str1 (a cp)
   else if cp <? 2048 then
     String (a (192 + cp / 64)) (str1 (a (128 + cp mod 64)))
   else if cp <? 65536 then
     String (a (224 + cp / 4096))
       (String (a (128 + cp / 64 mod 64)) (str1 (a (128 + cp mod 64))))
   else
     String (a (240 + cp / 262144))
       (String (a (128 + cp / 4096 mod 64))
          (String (a (128 + cp / 64 mod 64))
             (str1 (a (128 + cp mod 64))))))%N.

Definition replacement : string := utf8 65533.

Definition is_high (cu : N) : bool := ((55296 <=? cu) && (cu <? 56320))%N.
Definition is_low (cu : N) : bool := ((56320 <=? cu) && (cu <? 57344))%N.

(** A code unit read from a [\u] escape, after a pending high surrogate
    or not: what it adds to the string, and the new pending surrogate. *)
Definition code_unit (pending : option N) (cu : N)
  : string * option N :=
  match pending with
  | Some h =>
      if is_low cu
      then (utf8 (65536 + (h - 55296) * 1024 + (cu - 56320))%N, None)
      else if is_high cu then (replacement, Some cu)
      else (replacement ++ utf8 cu, None)
  | None =>
      if is_high cu then (EmptyString, Some cu)
      else if is_low cu then (replacement, None)
      else (utf8 cu, None)
  end.

Definition flush (pending : option N) : string :=
  match pending with
  | Some _ => replacement
  | None => EmptyString
  end.

(** The body of a string token, after its opening quote. *)
Fixpoint parse_string_body (pending : option N) (s : string)
  : option (string * string) :=
  let cons (pre : string) (r : option (string * string)) :=
    match r with
    | Some (str, rest) => Some (pre ++ str, rest)
    | None => None
    end in
  match s with
  | EmptyString => None
  | String c s' =>
      if Ascii.eqb c dquote then Some (flush pending, s')
      else if Ascii.eqb c backslash then
        match s' with
        | String e s'' =>
            let simple (n : nat) :=
              cons (flush pending ++ str1 (ascii_of_nat n))
                   (parse_string_body None s'') in
            if Ascii.eqb e dquote then simple 34%nat
            else if Ascii.eqb e backslash then simple 92%nat
            else if Ascii.eqb e "/" then simple 47%nat
            else if Ascii.eqb e "b" then simple 8%nat
            else if Ascii.eqb e "f" then simple 12%nat
            else if Ascii.eqb e "n" then simple 10%nat
            else if Ascii.eqb e "r" then simple 13%nat
            else if Ascii.eqb e "t" then simple 9%nat
            else if Ascii.eqb e "u" then
              match s'' with
              | String h1 (String h2 (String h3 (String h4 s4))) =>
                  match hex_of h1, hex_of h2, hex_of h3, hex_of h4 with
                  | Some a, Some b, Some c', Some d =>
                      let cu := N.of_nat (((a * 16 + b) * 16 + c') * 16 + d)%nat in
                      let '(pre, pending') := code_unit pending cu in
                      cons pre (parse_string_body pending' s4)
                  | _, _, _, _ => None
                  end
              | _ => None
              end
            else None
        | EmptyString => None
        end
      else if (nat_of_ascii c <? 32)%nat then None
      else cons (flush pending ++ str1 c) (parse_string_body None s')
  end.

Fixpoint strip_prefix (p s : string) : option string :=
  match p, s with
  | EmptyString, _ => Some s
  | String a p', String b s' => if Ascii.eqb a b then strip_prefix p' s' else None
  | String _ _, EmptyString => None
  end.

Fixpoint parse_value (fuel : nat) (s : string) : option (json * string) :=
  match fuel with
  | O => None
  | S f =>
      match skip_ws s with
      | EmptyString => None
      | String c s' =>
          if Ascii.eqb c "{" then
            match skip_ws s' with
            | String "}" r => Some (JObj [], r)
            | _ => parse_members f s' []
            end
          else if Ascii.eqb c "[" then
            match skip_ws s' with
            | String "]" r => Some (JArr [], r)
            | _ => parse_elements f s' []
            end
          else if Ascii.eqb c dquote then
            match parse_string_body None s' with
            | Some (str, r) => Some (JStr str, r)
            | None => None
            end
          else if Ascii.eqb c "n" then
            option_map (pair JNull) (strip_prefix "ull" s')
          else if Ascii.eqb c "t" then
            option_map (pair (JBool true)) (strip_prefix "rue" s')
          else if Ascii.eqb c "f" then
            option_map (pair (JBool false)) (strip_prefix "alse" s')
          else
            match parse_number (String c s') with
            | Some (n, r) => Some (JNum n, r)
            | None => None
            end
      end
  end

with parse_elements (fuel : nat) (s : string) (acc : list json)
  : option (json * string) :=
  match fuel with
  | O => None
  | S f =>
      match parse_value f s with
      | Some (v, r) =>
          match skip_ws r with
          | String "," r' => parse_elements f r' (v :: acc)
          | String "]" r' => Some (JArr (rev (v :: acc)), r')
          | _ => None
          end
      | None => None
      end
  end

with parse_members (fuel : nat) (s : string) (acc : list (string * json))
  : option (json * string) :=
  match fuel with
  | O => None
  | S f =>
      match skip_ws s with
      | String c s' =>
          if Ascii.eqb c dquote then
            match parse_string_body None s' with
            | Some (key, r1) =>
                match skip_ws r1 with
                | String ":" r2 =>
                    match parse_value f r2 with
                    | Some (v, r3) =>
                        match skip_ws r3 with
                        | String "," r4 => parse_members f r4 ((key, v) :: acc)
                        | String "}" r4 => Some (JObj (rev ((key, v) :: acc)), r4)
                        | _ => None
                        end
                    | None => None
                    end
                | _ => None
                end
            | None => None
            end
          else None
      | EmptyString => None
      end
  end.

Definition parse (text : string) : result json :=
  match parse_value (String.length text + 2) text with
  | Some (v, r) =>
      match skip_ws r with
      | EmptyString => Ok v
      | _ => Err SyntaxError
      end
  | None => Err SyntaxError
  end.

(** *** Property access on a parsed value

    [v.key]: a [TypeError] on [null]; [undefined] ([None]) when the value
    has no such property.  Of a repeated key [JSON.parse] keeps the last
    value. *)

Fixpoint lookup (key : string) (members : list (string * json))
  : option json :=
  match members with
  | [] => None
  | (k, v) :: rest =>
      match lookup key rest with
      | Some v' => Some v'
      | None => if String.eqb k key then Some v else None
      end
  end.

Definition get (v : json) (key : string) : result (option json) :=
  match v with
  | JNull => Err TypeError
  | JObj members => Ok (lookup key members)
  | _ => Ok None
  end.

End JSON.

(** ** Container framing

    [createContainer] and [parseContainer] are the same code in the three
    codecs, up to the magic constant. *)

Module Container.
Import JSON.

(** [buf.writeUInt32LE(value, 0)] on a fresh 4-byte buffer. *)
Definition writeUInt32LE (value : N) : result Buffer :=
  if (value <? 2 ^ 32)%N
  then Ok (Buffer_from [value; value / 256; value / 65536; value / 16777216]%N)
  else Err RangeError.

(** [buf.readUInt32LE(4)], for a buffer of at least 8 bytes. *)
Definition readUInt32LE_4 (buf : Buffer) : N :=
  match skipn 4 buf with
  | b0 :: b1 :: b2 :: b3 :: _ =>
      (byteN b0 + 256 * (byteN b1 + 256 * (byteN b2 + 256 * byteN b3)))%N
  | _ => 0%N
  end.

(** [buf.toString('ascii')]: the high bit of every byte is dropped. *)
Definition toString_ascii (buf : Buffer) : string :=
  string_of_list_ascii (map (fun b => ascii_of_N (byteN b mod 128)) buf).

Section Framing.
Variable MAGIC : string.

Definition createContainer (header : json) (compressedData : Buffer)
  : result Buffer :=
  let headerJson := stringify header in
  let headerData := list_byte_of_string headerJson in
  headerSize <- writeUInt32LE (N.of_nat (List.length headerData)) ;;
  Ok (list_byte_of_string MAGIC ++ headerSize ++ headerData ++ compressedData).

Definition parseContainer (data : Buffer) : result (json * Buffer) :=
  if (List.length data <? 8)%nat then Err TooSmall
  else
    let magic := toString_ascii (firstn 4 data) in
    if negb (String.eqb magic MAGIC) then Err InvalidMagic
    else
      let headerSize := N.to_nat (readUInt32LE_4 data) in
      if (List.length data <? 8 + headerSize)%nat then Err HeaderSizeMismatch
      else
        let headerData := firstn headerSize (skipn 8 data) in
        header <- parse (string_of_list_byte headerData) ;;
        let compressedData := skipn (8 + headerSize) data in
        Ok (header, compressedData).
End Framing.

End Container.

(** ** Values of unexpected type

    [JSON.parse] gives the codecs values of any shape, and JavaScript
    converts them where the code expects a number.  The conversions of
    strings and arrays to numbers are not modelled: on such a value a
    function of this development stops with [OutsideModel], which is not
    an error of the program and is never caught by its [catch]. *)

Module Dynamic.
Import JSNumber JSON.

Inductive outcome (A : Type) : Type :=
| Returns (a : A)
| Throws (e : error)
| OutsideModel.
Arguments Returns {A} a.
Arguments Throws {A} e.
Arguments OutsideModel {A}.

Definition obind {A B} (r : outcome A) (k : A -> outcome B) : outcome B :=
  match r with
  | Returns a => k a
  | Throws e => Throws e
  | OutsideModel => OutsideModel
  end.

Definition lift {A} (r : result A) : outcome A :=
  match r with
  | Ok a => Returns a
  | Err e => Throws e
  end.

(** The list a computation is known to return, for examples. *)
Definition returned {A} (r : outcome (list A)) : list A :=
  match r with
  | Returns a => a
  | _ => []
  end.

(** ToNumber of a property value ([None] is [undefined]).  An object is
    converted through [valueOf] and [toString]: a parsed object inherits
    both and gives [NaN], unless it has a member named [toString], which
    hides the inherited method by a value that cannot be called, and the
    conversion throws. *)
Definition ToNumber (v : option json) : outcome number :=
  match v with
  | None => Returns NaN
  | Some JNull => Returns (Num 0)
  | Some (JBool b) => Returns (Num (if b then 1 else 0))
  | Some (JNum n) => Returns n
  | Some (JObj members) =>
      match lookup "toString" members with
      | Some _ => Throws TypeError
      | None => Returns NaN
      end
  | Some (JStr _) | Some (JArr _) => OutsideModel
  end.

Definition kMaxLength : Z := 2 ^ 53 - 1.

(** A length argument: [Buffer.alloc(size)] throws unless [size] is a
    number between 0 and [kMaxLength], and drops its fraction.  Memory
    is taken to be there: an allocation of a size in that range
    succeeds. *)
Definition alloc_size (v : option json) : outcome nat :=
  match v with
  | Some (JNum (Num q)) =>
      if Qle_bool 0 q && Qle_bool q (inject_Z kMaxLength)
      then Returns (Z.to_nat (Qfloor q))
      else Throws RangeError
  | Some (JNum _) => Throws RangeError
  | _ => Throws TypeError
  end.

End Dynamic.

Notation "x <~ r ;; k" := (Dynamic.obind r (fun x => k))
  (at level 61, r at next level, right associativity).
Notation "' p <~ r ;; k" := (Dynamic.obind r (fun p => k))
  (at level 61, p pattern, r at next level, right associativity).

(** ** The text codec (TCF) *)

Module TextCodec.
Import JSNumber JSON TextRLE Dynamic.
Local Open Scope string_scope.

Definition MAGIC : string := "TCF1".
Definition VERSION : Z := 1.

Record TCFHeader : Type := {
  magic : string;
  version : Z;
  flags : Z;
  originalSize : Z;
  compressedSize : Z;
  checksum : string
}.

(** The header as the object [JSON.stringify] sees, keys in the order of
    the object literal. *)
Definition header_json (h : TCFHeader) : json :=
  JObj [ ("magic", JStr (magic h));
         ("version", JNum (ofZ (version h)));
         ("flags", JNum (ofZ (flags h)));
         ("originalSize", JNum (ofZ (originalSize h)));
         ("compressedSize", JNum (ofZ (compressedSize h)));
         ("checksum", JStr (checksum h)) ].

Definition createContainer (header : TCFHeader) (compressedData : Buffer)
  : result Buffer :=
  Container.createContainer MAGIC (header_json header) compressedData.

Definition parseContainer (tcfData : Buffer) : result (json * Buffer) :=
  Container.parseContainer MAGIC tcfData.

(** [v !== s] for a string [s], and [v !== z] for an integer [z]. *)
Definition differs_str (v : option json) (s : string) : bool :=
  match v with
  | Some (JStr s') => negb (String.eqb s' s)
  | _ => true
  end.

Definition differs_int (v : option json) (z : Z) : bool :=
  match v with
  | Some (JNum (Num q)) => negb (Qeq_bool q (inject_Z z))
  | _ => true
  end.

(** Text.  [text.normalize('NFC')], [Buffer.from(text, 'utf8')] and
    [buf.toString('utf8')] belong to the runtime.  They are modelled on
    ASCII text, where normalization changes nothing and UTF-8 has one
    byte for every character; on any other text, and on bytes that are
    not all below 0x80, they stop with [OutsideModel]. *)
Definition is_ascii (buf : Buffer) : bool :=
  forallb (fun b => (byteN b <? 128)%N) buf.

Definition normalize_NFC (text : string) : outcome string :=
  if is_ascii (list_byte_of_string text) then Returns text else OutsideModel.

Definition Buffer_from_utf8 (text : string) : outcome Buffer :=
  if is_ascii (list_byte_of_string text)
  then Returns (list_byte_of_string text)
  else OutsideModel.

Definition toString_utf8 (buf : Buffer) : outcome string :=
  if is_ascii buf then Returns (string_of_list_byte buf) else OutsideModel.

Definition encode (text : string) : outcome Buffer :=
  normalizedText <~ normalize_NFC text ;;
  originalData <~ Buffer_from_utf8 normalizedText ;;
  let compressedData := simpleCompress originalData in
  let header :=
    {| magic := MAGIC;
       version := VERSION;
       flags := 0;
       originalSize := Z.of_nat (List.length originalData);
       compressedSize := Z.of_nat (List.length compressedData);
       checksum := SHA256.digest_hex originalData |} in
  lift (createContainer header compressedData).

Definition decode (tcfData : Buffer) : outcome string :=
  '(header, compressedData) <~ lift (parseContainer tcfData) ;;
  m <~ lift (get header "magic") ;;
  if differs_str m MAGIC then Throws InvalidMagic
  else
    v <~ lift (get header "version") ;;
    if differs_int v VERSION then Throws UnsupportedVersion
    else
      let decompressedData := simpleDecompress compressedData in
      let actualChecksum := SHA256.digest_hex decompressedData in
      c <~ lift (get header "checksum") ;;
      if differs_str c actualChecksum then Throws ChecksumMismatch
      else toString_utf8 decompressedData.

End TextCodec.

(** ** The video codec (VCF) *)

Module VideoCodec.
Import JSNumber JSON Dynamic.
Local Open Scope string_scope.

Definition MAGIC : string := "VCF1".
Definition VERSION : Z := 1.

Inductive FrameType : Type := I | P.

Record VCFFrame : Type := {
  type : FrameType;
  timestamp : number;
  size : nat;
  offset : nat;
  data : Buffer
}.

Definition type_json (t : FrameType) : json :=
  JStr (match t with I => "I" | P => "P" end).

Definition ofNat (n : nat) : number := ofZ (Z.of_nat n).

(** *** Encoding *)

(** [compressPFrame]: the byte differences over the common prefix, scaled
    by [quality / 100] and rounded, in a JSON object. *)
Definition compressPFrame (currentFrame previousFrame : Buffer) (quality : Z)
  : Buffer :=
  let diff :=
    map (fun cp => (Z.of_N (byteN (fst cp)) - Z.of_N (byteN (snd cp)))%Z)
        (combine currentFrame previousFrame) in
  let qualityFactor := div (ofZ quality) (ofZ 100) in
  let compressed := map (fun d => Math_round (mul (ofZ d) qualityFactor)) diff in
  let pFrameData :=
    JObj [ ("type", JStr "P");
           ("baseLength", JNum (ofNat (List.length previousFrame)));
           ("diff", JArr (map JNum compressed));
           ("quality", JNum (ofZ quality)) ] in
  list_byte_of_string (stringify pFrameData).

(** [i % gopSize === 0] for integers; the remainder by 0 is [NaN]. *)
Definition is_gop_start (i : nat) (gopSize : Z) : bool :=
  if (gopSize =? 0)%Z then false
  else (Z.rem (Z.of_nat i) gopSize =? 0)%Z.

(** One iteration of the loop of [encodeFrames]: the frame pushed and the
    new [previousFrame]. *)
Definition encodeFrame (fps : number) (quality gopSize : Z)
    (i : nat) (frameData : Buffer) (previousFrame : option Buffer)
  : VCFFrame * option Buffer :=
  let timestamp := mul (div (ofNat i) fps) (ofZ 1000) in
  let frameType := if is_gop_start i gopSize then I else P in
  let compressedData :=
    match frameType, previousFrame with
    | I, _ | _, None => frameData
    | P, Some prev => compressPFrame frameData prev quality
    end in
  ({| type := frameType;
      timestamp := timestamp;
      size := List.length compressedData;
      offset := 0;
      data := compressedData |},
   match frameType with
   | I => Some frameData
   | P => previousFrame
   end).

Fixpoint encodeFrames_loop (fps : number) (quality gopSize : Z)
    (i : nat) (files : list Buffer) (previousFrame : option Buffer)
  : list VCFFrame :=
  match files with
  | [] => []
  | frameData :: rest =>
      let '(frame, previousFrame') :=
        encodeFrame fps quality gopSize i frameData previousFrame in
      frame :: encodeFrames_loop fps quality gopSize (S i) rest previousFrame'
  end.

(** [encodeFrames]: [frameFiles] is given by the contents of the files. *)
Definition encodeFrames (frameFiles : list Buffer) (fps : number)
    (quality gopSize : Z) : list VCFFrame :=
  encodeFrames_loop fps quality gopSize 0 frameFiles None.

(** *** The frame index *)

Record IndexEntry : Type := {
  entry_type : FrameType;
  entry_timestamp : number;
  entry_size : nat;
  entry_offset : nat
}.

(** The offset loop of [serializeFrames], from [currentOffset] on. *)
Fixpoint index_from (currentOffset : nat) (frames : list VCFFrame)
  : list IndexEntry :=
  match frames with
  | [] => []
  | frame :: rest =>
      {| entry_type := type frame;
         entry_timestamp := timestamp frame;
         entry_size := size frame;
         entry_offset := currentOffset |}
        :: index_from (currentOffset + List.length (data frame)) rest
  end.

Definition frameIndex (frames : list VCFFrame) : list IndexEntry :=
  index_from 0 frames.

Definition allFrameData (frames : list VCFFrame) : Buffer :=
  List.concat (map data frames).

Definition entry_json (e : IndexEntry) : json :=
  JObj [ ("type", type_json (entry_type e));
         ("timestamp", JNum (entry_timestamp e));
         ("size", JNum (ofNat (entry_size e)));
         ("offset", JNum (ofNat (entry_offset e))) ].

Definition serializeFrames (frames : list VCFFrame) : result Buffer :=
  let indexJson := stringify (JArr (map entry_json (frameIndex frames))) in
  let indexData := list_byte_of_string indexJson in
  indexSize <- Container.writeUInt32LE (N.of_nat (List.length indexData)) ;;
  Ok (indexSize ++ indexData ++ allFrameData frames)%list.

(** [buf.subarray(start, end)] for [0 <= start]. *)
Definition subarray (buf : Buffer) (start final : nat) : Buffer :=
  firstn (final - start) (skipn start buf).

(** The loop of [deserializeFrames] over a parsed index whose entries
    have the four fields with their types; [frameData] is the region
    that starts at [frameDataStart]. *)
Definition sliceFrames (index : list IndexEntry) (frameData : Buffer)
  : list VCFFrame :=
  map (fun e =>
         {| type := entry_type e;
            timestamp := entry_timestamp e;
            size := entry_size e;
            offset := entry_offset e;
            data := subarray frameData (entry_offset e)
                             (entry_offset e + entry_size e) |})
      index.

(** *** Decoding *)

(** The body of the [try] block of [decompressPFrame]. *)
Definition reconstruct (pFrameData previousFrame : Buffer) : outcome Buffer :=
  pFrame <~ lift (parse (string_of_list_byte pFrameData)) ;;
  t <~ lift (get pFrame "type") ;;
  if TextCodec.differs_str t "P" then Throws InvalidPFrame
  else
    bl <~ lift (get pFrame "baseLength") ;;
    baseLength <~ alloc_size bl ;;
    q <~ lift (get pFrame "quality") ;;
    quality <~ ToNumber q ;;
    let qualityFactor := div quality (ofZ 100) in
    d <~ lift (get pFrame "diff") ;;
    let n := Nat.min baseLength (List.length previousFrame) in
    (fix loop (i : nat) (prev : Buffer) (k : nat) : outcome Buffer :=
       match k, prev with
       | S k', p :: prev' =>
           diff <~
             match d with
             | None | Some JNull => Throws TypeError
             | Some (JArr items) =>
                 match nth_error items i with
                 | Some item =>
                     x <~ ToNumber (Some item) ;; Returns (div x qualityFactor)
                 | None => Returns (Num 0)
                 end
             | Some (JNum _) | Some (JBool _) => Returns (Num 0)
             | Some (JStr _) | Some (JObj _) => OutsideModel
             end ;;
           let v :=
             Math_max (Num 0)
               (Math_min (Num 255)
                  (add (ofZ (Z.of_N (byteN p))) (Math_round diff))) in
           rest <~ loop (S i) prev' k' ;;
           Returns (toUint8 v :: rest)
       | _, _ => Returns (repeat x00 (baseLength - i))
       end) 0%nat previousFrame n.

(** [decompressPFrame]: whatever the [try] block throws, the [catch]
    returns the previous frame. *)
Definition decompressPFrame (pFrameData previousFrame : Buffer)
  : outcome Buffer :=
  match reconstruct pFrameData previousFrame with
  | Returns reconstructed => Returns reconstructed
  | Throws _ => Returns previousFrame
  | OutsideModel => OutsideModel
  end.

(** [decodeFrames]: the decoded frames, in the order they are written. *)
Fixpoint decodeFrames_loop (frames : list VCFFrame)
    (previousFrame : option Buffer) : outcome (list Buffer) :=
  match frames with
  | [] => Returns []
  | frame :: rest =>
      '(decodedFrame, previousFrame') <~
        match type frame with
        | I => Returns (data frame, Some (data frame))
        | P =>
            match previousFrame with
            | None => Throws PFrameWithoutIFrame
            | Some prev =>
                decoded <~ decompressPFrame (data frame) prev ;;
                Returns (decoded, previousFrame)
            end
        end ;;
      others <~ decodeFrames_loop rest previousFrame' ;;
      Returns (decodedFrame :: others)
  end.

Definition decodeFrames (frames : list VCFFrame) : outcome (list Buffer) :=
  decodeFrames_loop frames None.

Definition createContainer (header : json) (compressedData : Buffer)
  : result Buffer :=
  Container.createContainer MAGIC header compressedData.

Definition parseContainer (vcfData : Buffer) : result (json * Buffer) :=
  Container.parseContainer MAGIC vcfData.

End VideoCodec.

(** ** The image codec (ICF) *)

Module ImageCodec.
Import JSNumber JSON Dynamic.
Local Open Scope string_scope.

Definition MAGIC : string := "ICF1".
Definition VERSION : Z := 1.
Definition BLOCK_SIZE : nat := 8.

(** A typed array: a read past the end is [undefined], which every use
    below converts to [NaN]; a write past the end is ignored. *)
Definition Float32Array := list number.

Definition read (a : Float32Array) (i : nat) : number := nth i a NaN.

Fixpoint write {A} (a : list A) (i : nat) (v : A) : list A :=
  match a, i with
  | [], _ => []
  | _ :: a', O => v :: a'
  | x :: a', S i' => x :: write a' i' v
  end.

(** A byte of a [Buffer] as a number; [undefined] past the end. *)
Definition sample (buf : Buffer) (i : nat) : number :=
  match nth_error buf i with
  | Some b => ofZ (Z.of_N (byteN b))
  | None => NaN
  end.

Definition two : number := Num 2.
Definition n255 : number := Num 255.

(** *** Colour transform *)

(** The body of the loop of [rgbToYCoCg], with the three stores into the
    [Float32Array]. *)
Definition rgbToYCoCg_pixel (r8 g8 b8 : number) : number * number * number :=
  let r := div r8 n255 in
  let g := div g8 n255 in
  let b := div b8 n255 in
  let co := sub r b in
  let t := add b (div co two) in
  let cg := sub g t in
  let y := add t (div cg two) in
  (fround y, fround co, fround cg).

Definition rgbToYCoCg (rgbData : Buffer) (width height channels : nat)
  : Float32Array :=
  let pixelCount := (width * height)%nat in
  flat_map
    (fun i =>
       let srcOffset := (i * channels)%nat in
       let '(y, co, cg) :=
         rgbToYCoCg_pixel (sample rgbData srcOffset)
                          (sample rgbData (srcOffset + 1))
                          (sample rgbData (srcOffset + 2)) in
       [y; co; cg])
    (seq 0 pixelCount).

Definition clamp255 (x : number) : number :=
  Math_max (Num 0) (Math_min n255 (Math_round (mul x n255))).

(** The body of the loop of [ycocgToRgb], up to the three values
    stored. *)
Definition ycocgToRgb_pixel (y co cg : number) : number * number * number :=
  let t := sub y (div cg two) in
  let g := add cg t in
  let b := sub t (div co two) in
  let r := add b co in
  (clamp255 r, clamp255 g, clamp255 b).

Definition ycocgToRgb_step (ycocgData : Float32Array) (channels : nat)
    (rgbData : Buffer) (i : nat) : Buffer :=
  let srcOffset := (i * 3)%nat in
  let dstOffset := (i * channels)%nat in
  let '(r, g, b) :=
    ycocgToRgb_pixel (read ycocgData srcOffset)
                     (read ycocgData (srcOffset + 1))
                     (read ycocgData (srcOffset + 2)) in
  let rgbData := write rgbData dstOffset (toUint8 r) in
  let rgbData := write rgbData (dstOffset + 1) (toUint8 g) in
  let rgbData := write rgbData (dstOffset + 2) (toUint8 b) in
  if (3 <? channels)%nat
  then write rgbData (dstOffset + 3) xff
  else rgbData.

Definition ycocgToRgb (ycocgData : Float32Array) (width height channels : nat)
  : Buffer :=
  let pixelCount := (width * height)%nat in
  fold_left (ycocgToRgb_step ycocgData channels)
            (seq 0 pixelCount)
            (repeat x00 (pixelCount * channels)).

(** *** Blocks *)

Record ICFBlock : Type := {
  x : nat;
  y : nat;
  width : nat;
  height : nat;
  data : list number
}.

(** The values of a loop variable that starts at 0 and advances by
    [BLOCK_SIZE] while below [limit]. *)
Definition steps (limit : nat) : list nat :=
  map (fun k => (k * BLOCK_SIZE)%nat)
      (seq 0 ((limit + BLOCK_SIZE - 1) / BLOCK_SIZE)).

(** The iterations of the three nested loops of [compressBlocks] and
    [decompressBlocks]: [(y, x, channel)]. *)
Definition block_positions (width height : nat) : list (nat * nat * nat) :=
  flat_map (fun y =>
    flat_map (fun x => map (fun channel => (y, x, channel)) [0; 1; 2]%nat)
             (steps width))
    (steps height).

Definition qFactor (quality : number) : number :=
  if lt quality (Num 50)
  then div (Num 50) quality
  else sub two (div quality (Num 50)).

Definition channelQFactor (qFactor : number) (channel : nat) : number :=
  if (channel =? 0)%nat then qFactor else mul qFactor (Num (3 # 2)).

Definition extractBlock (data : Float32Array) (width x y : nat)
    (blockWidth blockHeight channel : nat) : Float32Array :=
  flat_map (fun by_ =>
    map (fun bx =>
           fround (read data (((y + by_) * width + (x + bx)) * 3 + channel)))
        (seq 0 blockWidth))
    (seq 0 blockHeight).

Definition placeBlock (data : Float32Array) (width x y : nat)
    (blockWidth blockHeight channel : nat) (blockData : Float32Array)
  : Float32Array :=
  fold_left (fun data by_ =>
    fold_left (fun data bx =>
                 let srcIndex := (by_ * blockWidth + bx)%nat in
                 let dstIndex := (((y + by_) * width + (x + bx)) * 3 + channel)%nat in
                 write data dstIndex (fround (read blockData srcIndex)))
              (seq 0 blockWidth) data)
    (seq 0 blockHeight) data.

(** [applyDCT] and [applyInverseDCT] copy their argument into a new
    [Float32Array]. *)
Definition applyDCT (blockData : Float32Array) : Float32Array :=
  map fround blockData.
Definition applyInverseDCT (dctData : Float32Array) : Float32Array :=
  map fround dctData.

Definition quantize (dctData : Float32Array) (qFactor : number) (channel : nat)
  : list number :=
  map (fun c => Math_round (mul c (channelQFactor qFactor channel))) dctData.

Definition compressBlocks (ycocgData : Float32Array) (width height : nat)
    (quality : number) : list ICFBlock :=
  let qf := qFactor quality in
  map (fun p =>
         let '(y, x, channel) := p in
         let blockWidth := Nat.min BLOCK_SIZE (width - x) in
         let blockHeight := Nat.min BLOCK_SIZE (height - y) in
         let blockData :=
           extractBlock ycocgData width x y blockWidth blockHeight channel in
         let dctData := applyDCT blockData in
         {| x := x; y := y; width := blockWidth; height := blockHeight;
            data := quantize dctData qf channel |})
      (block_positions width height).

Definition ofNat (n : nat) : number := ofZ (Z.of_nat n).

Definition block_json (b : ICFBlock) : json :=
  JObj [ ("x", JNum (ofNat (x b)));
         ("y", JNum (ofNat (y b)));
         ("width", JNum (ofNat (width b)));
         ("height", JNum (ofNat (height b)));
         ("data", JArr (map JNum (data b))) ].

Definition serializeBlocks (blocks : list ICFBlock) : Buffer :=
  list_byte_of_string (stringify (JArr (map block_json blocks))).

(** [deserializeBlocks]: the payload read as JSON. *)
Definition deserializeBlocks (data : Buffer) : result json :=
  parse (string_of_list_byte data).

(** *** Encoding *)

(** What [sharp] gives [encode]: the metadata ([None] for a dimension it
    does not report) and the raw pixels with their layout. *)
Record RawImage : Type := {
  metadata_width : option nat;
  metadata_height : option nat;
  raw_data : Buffer;
  info_width : nat;
  info_height : nat;
  info_channels : nat
}.

Record ICFHeader : Type := {
  h_magic : string;
  h_version : Z;
  h_width : nat;
  h_height : nat;
  h_channels : nat;
  h_colorSpace : string;
  h_quality : Z;
  h_compressedSize : nat;
  h_checksum : string
}.

Definition header_json (h : ICFHeader) : json :=
  JObj [ ("magic", JStr (h_magic h));
         ("version", JNum (ofZ (h_version h)));
         ("width", JNum (ofNat (h_width h)));
         ("height", JNum (ofNat (h_height h)));
         ("channels", JNum (ofNat (h_channels h)));
         ("colorSpace", JStr (h_colorSpace h));
         ("quality", JNum (ofZ (h_quality h)));
         ("compressedSize", JNum (ofNat (h_compressedSize h)));
         ("checksum", JStr (h_checksum h)) ].

Definition createContainer (header : ICFHeader) (compressedData : Buffer)
  : result Buffer :=
  Container.createContainer MAGIC (header_json header) compressedData.

Definition parseContainer (icfData : Buffer) : result (json * Buffer) :=
  Container.parseContainer MAGIC icfData.

(** [!metadata.width]: the dimension is missing or 0. *)
Definition falsy (d : option nat) : bool :=
  match d with
  | Some (S _) => false
  | _ => true
  end.

Definition encode (image : RawImage) (quality : Z) : result Buffer :=
  if falsy (metadata_width image) || falsy (metadata_height image)
  then Err NoDimensions
  else
    let w := info_width image in
    let h := info_height image in
    let ycocgData := rgbToYCoCg (raw_data image) w h (info_channels image) in
    let compressedBlocks := compressBlocks ycocgData w h (ofZ quality) in
    let compressedData := serializeBlocks compressedBlocks in
    let header :=
      {| h_magic := MAGIC;
         h_version := VERSION;
         h_width := w;
         h_height := h;
         h_channels := info_channels image;
         h_colorSpace := "YCoCg";
         h_quality := quality;
         h_compressedSize := List.length compressedData;
         h_checksum := SHA256.digest_hex (raw_data image) |} in
    createContainer header compressedData.

(** *** Decoding *)

(** A header field used as a dimension of the image.  Only a
    non-negative integer is modelled. *)
Definition dimension (v : option json) : outcome nat :=
  match v with
  | Some (JNum (Num q)) =>
      if is_integer q && Qle_bool 0 q
      then Returns (Z.to_nat (Qfloor q))
      else OutsideModel
  | _ => OutsideModel
  end.

(** [blocks[blockIndex]] on whatever [deserializeBlocks] returned. *)
Definition element (blocks : json) (blockIndex : nat) : result (option json) :=
  match blocks with
  | JNull => Err TypeError
  | JArr items => Ok (nth_error items blockIndex)
  | JObj members => Ok (lookup (nat_string (Z.of_nat blockIndex)) members)
  | JStr _ | JNum _ | JBool _ => Ok None
  end.

(** [block.data]; whatever the block is, a string or a number has no
    such property. *)
Definition block_data (block : option json) : result (option json) :=
  match block with
  | None | Some JNull => Err TypeError
  | Some (JObj members) => Ok (lookup "data" members)
  | Some _ => Ok None
  end.

Fixpoint numbers (items : list json) : outcome (list number) :=
  match items with
  | [] => Returns []
  | item :: rest =>
      n <~ ToNumber (Some item) ;;
      ns <~ numbers rest ;;
      Returns (n :: ns)
  end.

Definition dequantize (quantizedData : option json) (qFactor : number)
    (channel : nat) : outcome Float32Array :=
  match quantizedData with
  | None | Some JNull => Throws TypeError
  | Some (JArr items) =>
      ns <~ numbers items ;;
      Returns (map (fun q => fround (div q (channelQFactor qFactor channel))) ns)
  | Some (JNum _) | Some (JBool _) => Returns []
  | Some (JStr _) | Some (JObj _) => OutsideModel
  end.

Fixpoint decompressBlocks_loop (blocks : json) (width height : nat)
    (qf : number) (positions : list (nat * nat * nat)) (blockIndex : nat)
    (ycocgData : Float32Array) : outcome Float32Array :=
  match positions with
  | [] => Returns ycocgData
  | (y, x, channel) :: rest =>
      let blockWidth := Nat.min BLOCK_SIZE (width - x) in
      let blockHeight := Nat.min BLOCK_SIZE (height - y) in
      block <~ lift (element blocks blockIndex) ;;
      d <~ lift (block_data block) ;;
      dequantizedData <~ dequantize d qf channel ;;
      let spatialData := applyInverseDCT dequantizedData in
      decompressBlocks_loop blocks width height qf rest (S blockIndex)
        (placeBlock ycocgData width x y blockWidth blockHeight channel
                    spatialData)
  end.

Definition decompressBlocks (blocks : json) (width height : nat)
    (quality : number) : outcome Float32Array :=
  decompressBlocks_loop blocks width height (qFactor quality)
    (block_positions width height) 0
    (repeat (Num 0) (width * height * 3)).

Record DecodedImage : Type := {
  decoded_data : Buffer;
  decoded_width : nat;
  decoded_height : nat;
  decoded_channels : nat
}.

Definition decode (icfData : Buffer) : outcome DecodedImage :=
  '(header, compressedData) <~ lift (parseContainer icfData) ;;
  m <~ lift (get header "magic") ;;
  if TextCodec.differs_str m MAGIC then Throws InvalidMagic
  else
    v <~ lift (get header "version") ;;
    if TextCodec.differs_int v VERSION then Throws UnsupportedVersion
    else
      compressedBlocks <~ lift (parse (string_of_list_byte compressedData)) ;;
      w <~ lift (get header "width") ;;
      h <~ lift (get header "height") ;;
      q <~ lift (get header "quality") ;;
      c <~ lift (get header "channels") ;;
      width <~ dimension w ;;
      height <~ dimension h ;;
      quality <~ ToNumber q ;;
      ycocgData <~ decompressBlocks compressedBlocks width height quality ;;
      channels <~ dimension c ;;
      Returns {| decoded_data := ycocgToRgb ycocgData width height channels;
                 decoded_width := width;
                 decoded_height := height;
                 decoded_channels := channels |}.

End ImageCodec.

(** ** The text codec: statistics *)

Module TextStats.
Import JSNumber.

Record Stats : Type := {
  originalSize : nat;
  compressedSize : nat;
  compressionRatio : number;
  savings : number
}.

Definition ofNat (n : nat) : number := ofZ (Z.of_nat n).

(** [getStats]: [originalText] is the text as UTF-8 bytes. *)
Definition getStats (originalText tcfData : Buffer) : Stats :=
  let originalSize := List.length originalText in
  let compressedSize := List.length tcfData in
  {| originalSize := originalSize;
     compressedSize := compressedSize;
     compressionRatio := div (ofNat originalSize) (ofNat compressedSize);
     savings :=
       mul (div (sub (ofNat originalSize) (ofNat compressedSize))
                (ofNat originalSize))
           (Num 100) |}.

End TextStats.

(** ** The command-line tools: reading the options *)

Module CLI.
Import JSNumber JSON.
Local Open Scope string_scope.

Inductive cli_error : Type :=
| QualityRange          (* 'Quality must be a number between 1 and 100' *)
| BitrateRange          (* 'Bitrate must be a positive number' *)
| GopRange              (* 'GOP size must be a positive number' *)
| UnknownOption (arg : string).

Inductive checked (A : Type) : Type :=
| Accepted (a : A)
| Rejected (e : cli_error).
Arguments Accepted {A} a.
Arguments Rejected {A} e.

(** *** [parseInt(string, 10)] *)

(** The code points [parseInt] skips at the start: white space and line
    terminators. *)
Definition white_space : list N :=
  [9; 10; 11; 12; 13; 32; 160; 5760; 8192; 8193; 8194; 8195; 8196; 8197;
   8198; 8199; 8200; 8201; 8202; 8232; 8233; 8239; 8287; 12288; 65279]%N.

Fixpoint strip_any (prefixes : list string) (s : string) : option string :=
  match prefixes with
  | [] => None
  | p :: rest =>
      match strip_prefix p s with
      | Some s' => Some s'
      | None => strip_any rest s
      end
  end.

Fixpoint trim_start (fuel : nat) (s : string) : string :=
  match fuel with
  | O => s
  | S f =>
      match strip_any (map utf8 white_space) s with
      | Some s' => trim_start f s'
      | None => s
      end
  end.

(** The integer [parseInt] reads: an optional sign and the longest run of
    decimal digits after the leading white space; [None] when there is
    no digit. *)
Definition parseInt_value (s : string) : option Z :=
  let trimmed := trim_start (String.length s) s in
  let '(negative, body) :=
    match trimmed with
    | String "-" r => (true, r)
    | String "+" r => (false, r)
    | _ => (false, trimmed)
    end in
  match take_digits body with
  | ([], _) => None
  | (ds, _) => Some (if negative then (- value_of ds)%Z else value_of ds)
  end.

Definition parseInt (s : string) : number :=
  match parseInt_value s with
  | Some z => ofZ z
  | None => NaN
  end.

Definition isNaN (n : number) : bool :=
  match n with
  | NaN => true
  | _ => false
  end.

(** *** The image tool *)

Definition validateQuality (quality : string) : checked number :=
  let q := parseInt quality in
  if isNaN q || lt q (Num 1) || lt (Num 100) q
  then Rejected QualityRange
  else Accepted q.

(** *** The video tool *)

Record Options : Type := {
  quality : option number;
  bitrate : option number;
  gopSize : option number
}.

Definition no_options : Options :=
  {| quality := None; bitrate := None; gopSize := None |}.

Definition startsWith (prefix s : string) : bool :=
  match strip_prefix prefix s with
  | Some _ => true
  | None => false
  end.

(** The loop of [parseOptions] from argument [i] on; [i + 1 < length]
    holds when an argument follows. *)
Fixpoint parseOptions_loop (args : list string) (options : Options)
    (remainingArgs : list string) : checked (Options * list string) :=
  match args with
  | [] => Accepted (options, remainingArgs)
  | arg :: rest =>
      let positional :=
        if negb (startsWith "--" arg)
        then parseOptions_loop rest options (remainingArgs ++ [arg])
        else Rejected (UnknownOption arg) in
      match rest with
      | value :: rest' =>
          if String.eqb arg "--quality" then
            let q := parseInt value in
            if isNaN q || lt q (Num 1) || lt (Num 100) q
            then Rejected QualityRange
            else parseOptions_loop rest'
                   {| quality := Some q;
                      bitrate := bitrate options;
                      gopSize := gopSize options |}
                   remainingArgs
          else if String.eqb arg "--bitrate" then
            let b := parseInt value in
            if isNaN b || lt b (Num 1)
            then Rejected BitrateRange
            else parseOptions_loop rest'
                   {| quality := quality options;
                      bitrate := Some b;
                      gopSize := gopSize options |}
                   remainingArgs
          else if String.eqb arg "--gop" then
            let g := parseInt value in
            if isNaN g || lt g (Num 1)
            then Rejected GopRange
            else parseOptions_loop rest'
                   {| quality := quality options;
                      bitrate := bitrate options;
                      gopSize := Some g |}
                   remainingArgs
          else positional
      | [] => positional
      end
  end.

Definition parseOptions (args : list string)
  : checked (Options * list string) :=
  parseOptions_loop args no_options [].

End CLI.

(** ** The header readers of the command-line tools *)

Module CLIHeader.
Import JSON Container.
Local Open Scope string_scope.

Section Header.
Variable MAGIC : string.

(** [parseICFHeader] and [parseVCFHeader], which differ in the magic
    number they expect. *)
Definition parseHeader (data : Buffer) : result json :=
  if (List.length data <? 8)%nat then Err TooSmall
  else
    let magic := toString_ascii (firstn 4 data) in
    if negb (String.eqb magic MAGIC) then Err InvalidMagic
    else
      let headerSize := N.to_nat (readUInt32LE_4 data) in
      if (List.length data <? 8 + headerSize)%nat then Err HeaderSizeMismatch
      else
        let headerData := firstn headerSize (skipn 8 data) in
        header <- parse (string_of_list_byte headerData) ;;
        Ok header.
End Header.

Definition parseICFHeader (icfData : Buffer) : result json :=
  parseHeader "ICF1" icfData.

Definition parseVCFHeader (vcfData : Buffer) : result json :=
  parseHeader "VCF1" vcfData.

End CLIHeader.

(** * Properties *)

(** ** The compression pipeline of the text codec *)

Module TextRLEFacts.
Import TextRLE.

Lemma byte_eqb_refl (b : byte) : Byte.eqb b b = true.
Proof. apply Byte.byte_dec_lb. reflexivity. Qed.

Lemma byte_eqb_neq {a b : byte} : a <> b -> Byte.eqb a b = false.
Proof.
  intros Hne. destruct (Byte.eqb a b) eqn:E; [|reflexivity].
  apply Byte.byte_dec_bl in E. contradiction.
Qed.

Lemma of_byteN (b : byte) :
  Buffer_from [byteN b] = [b].
Proof.
  unfold Buffer_from, byteN. simpl.
  rewrite N.mod_small.
  - rewrite Byte.of_to_N. reflexivity.
  - pose proof (Byte.to_N_bounded b). lia.
Qed.

Lemma Buffer_from_app (a b : list N) :
  Buffer_from (a ++ b) = Buffer_from a ++ Buffer_from b.
Proof. apply map_app. Qed.

Lemma Buffer_from_repeat (b : byte) (n : nat) :
  Buffer_from (repeat (byteN b) n) = repeat b n.
Proof.
  induction n as [|n IH]; [reflexivity|].
  change (repeat (byteN b) (S n)) with ([byteN b] ++ repeat (byteN b) n).
  rewrite Buffer_from_app, of_byteN, IH. reflexivity.
Qed.

(** A run length that fits a byte survives [Buffer.from]. *)
Lemma Buffer_from_length {n : nat} :
  n <= 255 ->
  exists b, Buffer_from [N.of_nat n] = [b] /\ N.to_nat (byteN b) = n.
Proof.
  intros Hn. unfold Buffer_from. simpl.
  rewrite N.mod_small by lia.
  destruct (Byte.of_N (N.of_nat n)) as [b|] eqn:E.
  - exists b. split; [reflexivity|].
    apply Byte.to_of_N in E. unfold byteN. rewrite E. lia.
  - apply Byte.of_N_None_iff in E. lia.
Qed.

Lemma decompress_literal (c : byte) (l : Buffer) :
  c <> xff -> simpleDecompress (c :: l) = c :: simpleDecompress l.
Proof.
  intros Hc. simpl. rewrite (byte_eqb_neq Hc).
  destruct l as [|b [|n l']]; reflexivity.
Qed.

Lemma decompress_literals (c : byte) (n : nat) (l : Buffer) :
  c <> xff ->
  simpleDecompress (repeat c n ++ l) = repeat c n ++ simpleDecompress l.
Proof.
  intros Hc. induction n as [|n IH]; [reflexivity|].
  change (repeat c (S n) ++ l) with (c :: (repeat c n ++ l)).
  rewrite (decompress_literal _ _ Hc), IH. reflexivity.
Qed.

Lemma decompress_run (b n : byte) (l : Buffer) :
  simpleDecompress (xff :: b :: n :: l)
  = repeat b (N.to_nat (byteN n)) ++ simpleDecompress l.
Proof. reflexivity. Qed.

(** What one emitted run decodes to, whatever follows it. *)
Lemma decompress_emit (c : byte) (n : nat) (l : list N) :
  c <> xff -> n <= 255 ->
  simpleDecompress (Buffer_from (emit c n ++ l))
  = repeat c n ++ simpleDecompress (Buffer_from l).
Proof.
  intros Hc Hn. rewrite Buffer_from_app. unfold emit.
  destruct (3 <? n) eqn:E.
  - change [255%N; byteN c; N.of_nat n]
      with ([255%N] ++ [byteN c] ++ [N.of_nat n]).
    rewrite !Buffer_from_app, of_byteN.
    destruct (Buffer_from_length Hn) as [b [Hb Hlen]].
    rewrite Hb. change (Buffer_from [255%N]) with [xff].
    simpl app. rewrite decompress_run, Hlen. reflexivity.
  - rewrite Buffer_from_repeat. apply decompress_literals, Hc.
Qed.

Lemma repeat_snoc (c : byte) (n : nat) (l : Buffer) :
  repeat c n ++ c :: l = repeat c (S n) ++ l.
Proof.
  induction n as [|n IH]; [reflexivity|].
  simpl. f_equal. exact IH.
Qed.

(** The loop invariant of [simpleCompress]: the run in progress and the
    rest of the input decode to themselves. *)
Lemma decompress_scan (rest : list byte) :
  forall (c : byte) (n : nat),
    c <> xff -> no_marker rest -> short_runs c n rest = true ->
    simpleDecompress (Buffer_from (scan c n rest)) = repeat c n ++ rest.
Proof.
  induction rest as [|x rest IH]; intros c n Hc Hrest Hruns; simpl in *.
  - apply Nat.leb_le in Hruns.
    rewrite <- (app_nil_r (emit c n)), decompress_emit by assumption.
    reflexivity.
  - inversion Hrest as [|? ? Hx Hrest']; subst.
    destruct (Byte.eqb x c) eqn:E.
    + apply Byte.byte_dec_bl in E. subst x.
      rewrite (IH c (S n) Hc Hrest' Hruns). symmetry. apply repeat_snoc.
    + apply andb_true_iff in Hruns. destruct Hruns as [Hn Hruns].
      apply Nat.leb_le in Hn.
      rewrite decompress_emit by assumption.
      rewrite (IH x 1 Hx Hrest' Hruns). reflexivity.
Qed.

(** On an input without the marker byte and without a run longer than
    255, decompression undoes compression. *)
Theorem simpleDecompress_simpleCompress (data : Buffer) :
  no_marker data -> runs_fit data ->
  simpleDecompress (simpleCompress data) = data.
Proof.
  destruct data as [|c rest]; intros Hm Hr; [reflexivity|].
  inversion Hm; subst. unfold simpleCompress.
  rewrite decompress_scan by assumption. reflexivity.
Qed.

(** Compression never makes the data longer. *)
Lemma emit_length (c : byte) (n : nat) : List.length (emit c n) <= n.
Proof.
  unfold emit. destruct (3 <? n) eqn:E.
  - apply Nat.ltb_lt in E. simpl. lia.
  - rewrite repeat_length. lia.
Qed.

Lemma scan_length (rest : list byte) :
  forall c n, List.length (scan c n rest) <= n + List.length rest.
Proof.
  induction rest as [|x rest IH]; intros c n; simpl.
  - pose proof (emit_length c n). lia.
  - destruct (Byte.eqb x c).
    + specialize (IH c (S n)). lia.
    + rewrite length_app. pose proof (emit_length c n).
      specialize (IH x 1). lia.
Qed.

(** X2.  Compression never makes the data longer: a run of more than 3 bytes
    becomes 3 bytes, a shorter run is copied. *)
Lemma simpleCompress_length (data : Buffer) :
  List.length (simpleCompress data) <= List.length data.
Proof.
  unfold simpleCompress, Buffer_from. rewrite length_map.
  destruct data as [|c rest]; [simpl; lia|].
  pose proof (scan_length rest c 1). simpl. lia.
Qed.

(** The two inputs on which the pipeline loses data: a literal 0xFF
    followed by two bytes is read back as a run, and a run of 256 bytes
    is stored with length 0. *)
Example marker_is_misread :
  simpleDecompress (simpleCompress [xff; x01; x02; x03]) = [x01; x01; x03].
Proof. reflexivity. Qed.

Example long_run_is_lost :
  simpleDecompress (simpleCompress (repeat x61 256)) = [].
Proof. reflexivity. Qed.

End TextRLEFacts.

(** ** The video codec: frame types and the frame index *)

Module VideoCodecFacts.
Import JSNumber JSON Dynamic VideoCodec.

Lemma is_gop_start_spec (i : nat) {gopSize : Z} :
  (1 <= gopSize)%Z ->
  is_gop_start i gopSize = true <-> (Z.of_nat i mod gopSize = 0)%Z.
Proof.
  intros Hg. unfold is_gop_start.
  destruct (Z.eqb_spec gopSize 0) as [E|_]; [lia|].
  rewrite Z.rem_mod_nonneg by lia.
  apply Z.eqb_eq.
Qed.

Lemma encodeFrame_type fps quality gopSize i frameData previousFrame :
  type (fst (encodeFrame fps quality gopSize i frameData previousFrame))
  = if is_gop_start i gopSize then I else P.
Proof. reflexivity. Qed.

Lemma encodeFrame_size fps quality gopSize i frameData previousFrame :
  let frame := fst (encodeFrame fps quality gopSize i frameData previousFrame) in
  size frame = List.length (data frame).
Proof. reflexivity. Qed.

Lemma encodeFrames_loop_cons fps quality gopSize i frameData rest prev :
  encodeFrames_loop fps quality gopSize i (frameData :: rest) prev
  = fst (encodeFrame fps quality gopSize i frameData prev)
      :: encodeFrames_loop fps quality gopSize (S i) rest
           (snd (encodeFrame fps quality gopSize i frameData prev)).
Proof.
  cbn [encodeFrames_loop].
  destruct (encodeFrame fps quality gopSize i frameData prev). reflexivity.
Qed.

(** The frame at position [k] of the loop that starts at index [i] has
    the type of index [i + k]. *)
Lemma encodeFrames_loop_type fps quality gopSize (files : list Buffer) :
  forall i previousFrame k frame,
    nth_error (encodeFrames_loop fps quality gopSize i files previousFrame) k
    = Some frame ->
    type frame = if is_gop_start (i + k) gopSize then I else P.
Proof.
  induction files as [|frameData rest IH]; intros i prev k frame Hk.
  - destruct k; discriminate.
  - rewrite encodeFrames_loop_cons in Hk.
    destruct k as [|k]; cbn [nth_error] in Hk.
    + injection Hk as <-. rewrite Nat.add_0_r. apply encodeFrame_type.
    + apply IH in Hk. rewrite Hk.
      replace (S i + k) with (i + S k) by lia. reflexivity.
Qed.

Lemma encodeFrames_loop_size fps quality gopSize (files : list Buffer) :
  forall i previousFrame,
    Forall (fun frame => size frame = List.length (data frame))
           (encodeFrames_loop fps quality gopSize i files previousFrame).
Proof.
  induction files as [|frameData rest IH]; intros i prev.
  - constructor.
  - rewrite encodeFrames_loop_cons.
    constructor; [apply encodeFrame_size|apply IH].
Qed.

Lemma encodeFrames_loop_length fps quality gopSize (files : list Buffer) :
  forall i previousFrame,
    List.length (encodeFrames_loop fps quality gopSize i files previousFrame)
    = List.length files.
Proof.
  induction files as [|frameData rest IH]; intros i prev.
  - reflexivity.
  - rewrite encodeFrames_loop_cons. simpl. rewrite IH. reflexivity.
Qed.

(** Every file gives one frame. *)
Lemma encodeFrames_length files fps quality gopSize :
  List.length (encodeFrames files fps quality gopSize) = List.length files.
Proof. apply encodeFrames_loop_length. Qed.

(** C7.  With a GOP size of at least 1, the encoder gives frame [i] the
    type I exactly when [i mod gopSize = 0], and the type P otherwise; the
    first frame is of type I. *)
Theorem gop_structure (files : list Buffer) (fps : number)
    (quality gopSize : Z) (i : nat) (frame : VCFFrame) :
  (1 <= gopSize)%Z ->
  nth_error (encodeFrames files fps quality gopSize) i = Some frame ->
  (type frame = I <-> (Z.of_nat i mod gopSize = 0)%Z)
  /\ (type frame = P <-> (Z.of_nat i mod gopSize <> 0)%Z)
  /\ (i = 0 -> type frame = I).
Proof.
  intros Hg Hi. apply encodeFrames_loop_type in Hi. simpl in Hi.
  pose proof (is_gop_start_spec i Hg) as Hspec.
  destruct (is_gop_start i gopSize).
  - assert (Hz : (Z.of_nat i mod gopSize = 0)%Z) by (apply Hspec; reflexivity).
    rewrite Hi. repeat split; intros; try congruence.
  - assert (Hz : (Z.of_nat i mod gopSize <> 0)%Z).
    { intros Hz. apply Hspec in Hz. discriminate. }
    rewrite Hi. repeat split; intros; try congruence.
    subst i. exfalso. apply Hz. apply Z.mod_0_l. lia.
Qed.

Lemma gop_structure_witness :
  let files := [[x01]; [x02]; [x03]; [x04]] in
  exists frame,
    nth_error (encodeFrames files (Num 30) 85 3) 3 = Some frame
    /\ type frame = I.
Proof.
  eexists. split; [reflexivity|].
  refine (proj2 (proj1 (@gop_structure [[x01]; [x02]; [x03]; [x04]]
                          (Num 30) 85 3 3 _ _ _)) _);
    [lia|reflexivity|reflexivity].
Defined.

(** *** The frame index *)

Definition total_size (index : list IndexEntry) : nat :=
  fold_right (fun e acc => entry_size e + acc) 0 index.

Lemma allFrameData_cons frame frames :
  allFrameData (frame :: frames) = data frame ++ allFrameData frames.
Proof. reflexivity. Qed.

Lemma index_from_nth (frames : list VCFFrame) :
  forall currentOffset k e,
    nth_error (index_from currentOffset frames) k = Some e ->
    entry_offset e
    = currentOffset + List.length (allFrameData (firstn k frames))
    /\ exists frame, nth_error frames k = Some frame
                     /\ entry_size e = size frame
                     /\ entry_type e = type frame.
Proof.
  induction frames as [|frame rest IH]; intros off k e Hk.
  - destruct k; discriminate.
  - destruct k as [|k]; simpl in Hk.
    + injection Hk as <-. simpl. split; [lia|].
      exists frame. repeat split.
    + apply IH in Hk. destruct Hk as [Hoff Hframe]. split.
      * rewrite Hoff. simpl firstn. rewrite allFrameData_cons, length_app. lia.
      * exact Hframe.
Qed.

Lemma firstn_S_nth {A} (l : list A) :
  forall k a, nth_error l k = Some a -> firstn (S k) l = firstn k l ++ [a].
Proof.
  induction l as [|x l IH]; intros k a Hk.
  - destruct k; discriminate.
  - destruct k as [|k]; simpl in Hk.
    + injection Hk as <-. reflexivity.
    + simpl. f_equal. apply IH, Hk.
Qed.

Lemma allFrameData_app a b :
  allFrameData (a ++ b) = allFrameData a ++ allFrameData b.
Proof. unfold allFrameData. rewrite map_app, concat_app. reflexivity. Qed.

Lemma total_size_index_from (frames : list VCFFrame) :
  Forall (fun frame => size frame = List.length (data frame)) frames ->
  forall currentOffset,
    total_size (index_from currentOffset frames)
    = List.length (allFrameData frames).
Proof.
  induction 1 as [|frame rest Hsize _ IH]; intros off; simpl.
  - reflexivity.
  - rewrite IH, allFrameData_cons, length_app, Hsize. reflexivity.
Qed.

(** Consecutive entries: the next offset is this offset plus this size. *)
Lemma index_contiguous (frames : list VCFFrame) (k : nat) (e e' : IndexEntry) :
  Forall (fun frame => size frame = List.length (data frame)) frames ->
  nth_error (frameIndex frames) k = Some e ->
  nth_error (frameIndex frames) (S k) = Some e' ->
  entry_offset e' = entry_offset e + entry_size e.
Proof.
  intros Hsize Hk Hk'. unfold frameIndex in *.
  apply index_from_nth in Hk. destruct Hk as [Hoff [frame [Hf [Hs _]]]].
  apply index_from_nth in Hk'. destruct Hk' as [Hoff' _].
  rewrite Hoff', Hoff, (firstn_S_nth _ _ _ Hf), allFrameData_app, length_app.
  rewrite Forall_forall in Hsize.
  rewrite Hs, (Hsize frame (nth_error_In _ _ Hf)).
  unfold allFrameData at 2. simpl. rewrite app_nil_r. lia.
Qed.

(** What [compressPFrame] returns is the text of an object: it is not
    empty. *)
Lemma compressPFrame_not_empty (currentFrame previousFrame : Buffer)
    (quality : Z) :
  compressPFrame currentFrame previousFrame quality <> [].
Proof.
  unfold compressPFrame. cbv zeta. cbn [stringify].
  unfold list_byte_of_string. cbn [append list_ascii_of_string map].
  discriminate.
Qed.

Lemma encodeFrames_loop_not_empty fps quality gopSize (files : list Buffer) :
  Forall (fun frameData => frameData <> []) files ->
  forall i previousFrame,
    Forall (fun frame => data frame <> [])
           (encodeFrames_loop fps quality gopSize i files previousFrame).
Proof.
  induction 1 as [|frameData rest Hne _ IH]; intros i prev.
  - constructor.
  - rewrite encodeFrames_loop_cons. constructor; [|apply IH].
    unfold encodeFrame. cbn [fst data].
    destruct (is_gop_start i gopSize); [exact Hne|].
    destruct prev as [prev|]; [apply compressPFrame_not_empty|exact Hne].
Qed.

(** C8.  For the frames of an encoded video the index agrees with the
    frame data: every offset is the total length of the data of the
    earlier frames, the sizes add up to the length of the concatenated
    frame data, and consecutive entries are contiguous (the next offset
    is the offset plus the size, so there is neither gap nor overlap).
    The offset increases strictly after every frame whose data is not
    empty; when no frame file is empty, as for the image files the
    encoder reads, no frame's data is empty and the offsets are strictly
    increasing. *)
Theorem frame_index_consistent (files : list Buffer) (fps : number)
    (quality gopSize : Z) :
  let frames := encodeFrames files fps quality gopSize in
  let index := frameIndex frames in
  (forall k e, nth_error index k = Some e ->
               entry_offset e = List.length (allFrameData (firstn k frames)))
  /\ total_size index = List.length (allFrameData frames)
  /\ (forall k e e',
        nth_error index k = Some e -> nth_error index (S k) = Some e' ->
        entry_offset e' = entry_offset e + entry_size e)
  /\ (forall k e e',
        nth_error index k = Some e -> nth_error index (S k) = Some e' ->
        0 < entry_size e -> entry_offset e < entry_offset e')
  /\ (Forall (fun frameData => frameData <> []) files ->
      forall k e e',
        nth_error index k = Some e -> nth_error index (S k) = Some e' ->
        entry_offset e < entry_offset e').
Proof.
  intros frames index.
  assert (Hsize : Forall (fun f => size f = List.length (data f)) frames)
    by apply encodeFrames_loop_size.
  repeat split.
  - intros k e Hk. apply index_from_nth in Hk. destruct Hk as [Hoff _].
    exact Hoff.
  - apply total_size_index_from, Hsize.
  - intros k e e' Hk Hk'. exact (@index_contiguous frames k e e' Hsize Hk Hk').
  - intros k e e' Hk Hk' Hpos.
    rewrite (@index_contiguous frames k e e' Hsize Hk Hk'). lia.
  - intros Hfiles k e e' Hk Hk'.
    rewrite (@index_contiguous frames k e e' Hsize Hk Hk').
    apply index_from_nth in Hk. destruct Hk as [_ [frame [Hf [Hs _]]]].
    pose proof (encodeFrames_loop_not_empty fps quality gopSize files Hfiles
                  0 None) as Hne.
    fold (encodeFrames files fps quality gopSize) in Hne. fold frames in Hne.
    rewrite Forall_forall in Hsize, Hne.
    pose proof (Hne frame (nth_error_In _ _ Hf)) as Hdata.
    rewrite Hs, (Hsize frame (nth_error_In _ _ Hf)).
    destruct (data frame); [contradiction|cbn [List.length]; lia].
Qed.

Lemma frame_index_consistent_witness :
  let frames := encodeFrames [[x01]; [x02; x03]; [x04]] (Num 30) 85 2 in
  exists e e',
    nth_error (frameIndex frames) 1 = Some e
    /\ nth_error (frameIndex frames) 2 = Some e'
    /\ entry_offset e < entry_offset e'.
Proof.
  do 2 eexists. split; [reflexivity|]. split; [reflexivity|].
  apply (proj2 (proj2 (proj2 (proj2
           (frame_index_consistent [[x01]; [x02; x03]; [x04]] (Num 30) 85 2))))
           ltac:(repeat constructor; discriminate) 1);
    reflexivity.
Defined.

(** The files have to be non-empty for that: two frame files of length 0
    give two entries with the same offset. *)
Lemma offsets_not_strictly_increasing :
  let frames := encodeFrames [[]; []] (Num 30) 85 1 in
  exists e e',
    nth_error (frameIndex frames) 0 = Some e
    /\ nth_error (frameIndex frames) 1 = Some e'
    /\ ~ entry_offset e < entry_offset e'.
Proof.
  do 2 eexists. split; [reflexivity|]. split; [reflexivity|].
  simpl. lia.
Qed.

(** The slices [deserializeFrames] takes with the index are the data of
    the frames. *)
Lemma subarray_app (before this after : Buffer) :
  subarray (before ++ this ++ after) (List.length before)
           (List.length before + List.length this) = this.
Proof.
  unfold subarray.
  rewrite skipn_app, skipn_all, Nat.sub_diag. simpl.
  replace (List.length before + List.length this - List.length before)
    with (List.length this + 0) by lia.
  rewrite firstn_app_2. simpl. apply app_nil_r.
Qed.

Lemma sliceFrames_index_from (frames : list VCFFrame) :
  Forall (fun frame => size frame = List.length (data frame)) frames ->
  forall before,
    map data (sliceFrames (index_from (List.length before) frames)
                          (before ++ allFrameData frames))
    = map data frames.
Proof.
  induction 1 as [|frame rest Hsize _ IH]; intros before; simpl.
  - reflexivity.
  - f_equal.
    + rewrite allFrameData_cons, Hsize. apply subarray_app.
    + specialize (IH (before ++ data frame)).
      rewrite length_app, <- app_assoc in IH. exact IH.
Qed.

(** X19.  The frame data survive serialization: the slices that
    [deserializeFrames] cuts out of the concatenated data, at the offsets
    and sizes of the index, are the data of the frames. *)
Theorem sliceFrames_frameIndex (files : list Buffer) (fps : number)
    (quality gopSize : Z) :
  let frames := encodeFrames files fps quality gopSize in
  map data (sliceFrames (frameIndex frames) (allFrameData frames))
  = map data frames.
Proof.
  intros frames.
  apply (sliceFrames_index_from _ (encodeFrames_loop_size _ _ _ _ _ _) []).
Qed.

End VideoCodecFacts.

(** ** The video codec: P-frames that fail to decode *)

Module VideoDecodeFacts.
Import JSNumber JSON Dynamic VideoCodec.
Local Open Scope string_scope.

(** A payload that is not JSON makes the [try] block throw. *)
Lemma reconstruct_unparseable (pFrameData previousFrame : Buffer) (e : error) :
  parse (string_of_list_byte pFrameData) = Err e ->
  reconstruct pFrameData previousFrame = Throws e.
Proof. intros H. unfold reconstruct. rewrite H. reflexivity. Qed.

(** So does JSON whose [type] is not the string ['P']. *)
Lemma reconstruct_wrong_type (pFrameData previousFrame : Buffer)
    (pFrame : json) (t : option json) :
  parse (string_of_list_byte pFrameData) = Ok pFrame ->
  get pFrame "type" = Ok t ->
  TextCodec.differs_str t "P" = true ->
  reconstruct pFrameData previousFrame = Throws InvalidPFrame.
Proof.
  intros Hp Ht Hd. unfold reconstruct. rewrite Hp. simpl.
  rewrite Ht. simpl. rewrite Hd. reflexivity.
Qed.







(** The one error [decodeFrames] raises is that of a P-frame that no
    I-frame precedes. *)
Lemma decodeFrames_loop_throws (frames : list VCFFrame) :
  forall previousFrame e,
    decodeFrames_loop frames previousFrame = Throws e ->
    e = PFrameWithoutIFrame.
Proof.
  induction frames as [|frame rest IH]; intros prev e H.
  - discriminate.
  - cbn [decodeFrames_loop] in H.
    destruct (type frame).
    + simpl in H.
      destruct (decodeFrames_loop rest (Some (data frame))) eqn:E;
        simpl in H; try discriminate.
      injection H as <-. exact (IH _ _ E).
    + destruct prev as [prev|]; simpl in H.
      * unfold decompressPFrame in H.
        destruct (reconstruct (data frame) prev); simpl in H;
          try discriminate;
          (destruct (decodeFrames_loop rest (Some prev)) eqn:E;
           simpl in H; try discriminate;
           injection H as <-; exact (IH _ _ E)).
      * injection H as <-. reflexivity.
Qed.

Lemma decodeFrames_throws (frames : list VCFFrame) (e : error) :
  decodeFrames frames = Throws e -> e = PFrameWithoutIFrame.
Proof. apply decodeFrames_loop_throws. Qed.

End VideoDecodeFacts.

(** ** The image codec: the alpha channel *)

Module ImageAlphaFacts.
Import JSNumber JSON Dynamic ImageCodec.

Lemma write_length {A} (a : list A) :
  forall i v, List.length (write a i v) = List.length a.
Proof.
  induction a as [|x a IH]; intros [|i] v; simpl; try reflexivity.
  rewrite IH. reflexivity.
Qed.

Lemma write_same {A} (a : list A) :
  forall i v, i < List.length a -> nth_error (write a i v) i = Some v.
Proof.
  induction a as [|x a IH]; intros [|i] v Hi; simpl in *; try lia.
  - reflexivity.
  - apply IH. lia.
Qed.

Lemma write_other {A} (a : list A) :
  forall i j v, i <> j -> nth_error (write a i v) j = nth_error a j.
Proof.
  induction a as [|x a IH]; intros [|i] [|j] v Hij; simpl;
    try reflexivity; try congruence.
  apply IH. congruence.
Qed.

(** One iteration of [ycocgToRgb] on a four-channel buffer keeps the
    length, sets the alpha byte of its pixel and leaves the other alpha
    bytes alone. *)
Lemma step_length ycocgData channels rgbData i :
  List.length (ycocgToRgb_step ycocgData channels rgbData i)
  = List.length rgbData.
Proof.
  unfold ycocgToRgb_step.
  destruct (ycocgToRgb_pixel _ _ _) as [[r g] b].
  destruct (3 <? channels); rewrite ?write_length; reflexivity.
Qed.

Lemma step_alpha ycocgData rgbData i :
  i * 4 + 3 < List.length rgbData ->
  nth_error (ycocgToRgb_step ycocgData 4 rgbData i) (i * 4 + 3) = Some xff.
Proof.
  intros Hi. unfold ycocgToRgb_step.
  destruct (ycocgToRgb_pixel _ _ _) as [[r g] b].
  change (3 <? 4) with true. cbv iota.
  apply write_same. rewrite !write_length. exact Hi.
Qed.

Lemma step_other_alpha ycocgData rgbData i j :
  i <> j ->
  nth_error (ycocgToRgb_step ycocgData 4 rgbData i) (j * 4 + 3)
  = nth_error rgbData (j * 4 + 3).
Proof.
  intros Hij. unfold ycocgToRgb_step.
  destruct (ycocgToRgb_pixel _ _ _) as [[r g] b].
  change (3 <? 4) with true. cbv iota.
  rewrite !write_other by lia. reflexivity.
Qed.

(** The loop invariant: after the first [n] iterations the alpha bytes
    of the first [n] pixels are 255. *)
Lemma loop_alpha ycocgData (n : nat) :
  forall rgbData j,
    n * 4 <= List.length rgbData -> j < n ->
    nth_error (fold_left (ycocgToRgb_step ycocgData 4) (seq 0 n) rgbData)
              (j * 4 + 3)
    = Some xff.
Proof.
  induction n as [|n IH]; intros rgbData j Hlen Hj; [lia|].
  rewrite seq_S, fold_left_app. simpl.
  destruct (Nat.eq_dec j n) as [->|Hne].
  - apply step_alpha.
    assert (Hl : forall l b, List.length
              (fold_left (ycocgToRgb_step ycocgData 4) l b) = List.length b).
    { induction l as [|a l IHl]; intros b; simpl; [reflexivity|].
      rewrite IHl. apply step_length. }
    rewrite Hl. lia.
  - rewrite step_other_alpha by congruence.
    apply IH; lia.
Qed.

Lemma ycocgToRgb_alpha ycocgData (width height i : nat) :
  i < width * height ->
  nth_error (ycocgToRgb ycocgData width height 4) (i * 4 + 3) = Some xff.
Proof.
  intros Hi. unfold ycocgToRgb.
  apply loop_alpha; [rewrite repeat_length; lia|exact Hi].
Qed.

Lemma flat_map_ext_on {A B} (f g : A -> list B) (l : list A) :
  (forall a, In a l -> f a = g a) -> flat_map f l = flat_map g l.
Proof.
  induction l as [|a l IH]; intros H; [reflexivity|].
  simpl. rewrite (H a) by (left; reflexivity).
  rewrite IH; [reflexivity|].
  intros a' Ha'. apply H. right. exact Ha'.
Qed.

(** X12.  [rgbToYCoCg] does not read the alpha channel: two buffers with the
    same red, green and blue bytes have the same transform. *)
Lemma rgbToYCoCg_ignores_alpha (rgb1 rgb2 : Buffer) (width height : nat) :
  (forall i c, i < width * height -> c < 3 ->
               nth_error rgb1 (i * 4 + c) = nth_error rgb2 (i * 4 + c)) ->
  rgbToYCoCg rgb1 width height 4 = rgbToYCoCg rgb2 width height 4.
Proof.
  intros Hsame. unfold rgbToYCoCg.
  apply flat_map_ext_on. intros i Hi.
  apply in_seq in Hi.
  assert (Hlt : i < width * height) by lia.
  pose proof (Hsame i 0 Hlt ltac:(lia)) as H0.
  pose proof (Hsame i 1 Hlt ltac:(lia)) as H1.
  pose proof (Hsame i 2 Hlt ltac:(lia)) as H2.
  rewrite Nat.add_0_r in H0.
  unfold sample. rewrite H0, H1, H2. reflexivity.
Qed.

(** Whatever the container, when the decoder reconstructs a
    four-channel image every pixel of the buffer it returns has the
    alpha byte 255. *)
Lemma returned_alpha_is_255 (icfData : Buffer) (image : DecodedImage)
    (i : nat) :
  decode icfData = Returns image ->
  decoded_channels image = 4 ->
  i < decoded_width image * decoded_height image ->
  nth_error (decoded_data image) (i * 4 + 3) = Some xff.
Proof.
  unfold decode. intros Hd Hc Hi.
  repeat match type of Hd with
         | obind ?r _ = Returns _ =>
             let v := fresh "v" in
             destruct r as [v| |] eqn:?; simpl in Hd; try discriminate;
             try (destruct v as [? ?]; simpl in Hd)
         | (if ?b then _ else _) = Returns _ =>
             destruct b; try discriminate
         end.
  injection Hd as <-. simpl in Hc, Hi |- *. subst.
  apply ycocgToRgb_alpha, Hi.
Qed.

(** A 2 x 1 RGBA image with two different alpha values. *)
Definition two_pixels : RawImage :=
  {| metadata_width := Some 2;
     metadata_height := Some 1;
     raw_data := [xc8; x11; x63; x80; x00; xff; x80; x10];
     info_width := 2;
     info_height := 1;
     info_channels := 4 |}.

Definition two_pixels_icf : Buffer :=
  Eval vm_compute in unwrap (encode two_pixels 85).

End ImageAlphaFacts.

(** ** Numbers: integers are exact *)

Module JSNumberFacts.
Import JSNumber.
Local Open Scope Q_scope.

Lemma Qred_inject_Z (z : Z) : Qred (inject_Z z) = inject_Z z.
Proof.
  unfold Qred, inject_Z. simpl Qnum. simpl Qden.
  pose proof (Z.ggcd_gcd z 1) as Hg.
  pose proof (Z.ggcd_correct_divisors z 1) as Hd.
  destruct (Z.ggcd z 1) as [g [aa bb]]. simpl in *.
  rewrite Z.gcd_1_r in Hg. subst g.
  destruct Hd as [Ha Hb].
  rewrite Z.mul_1_l in Ha, Hb. rewrite <- Ha, <- Hb. reflexivity.
Qed.

Lemma two_pow_nonneg {k : Z} :
  (0 <= k)%Z -> two_pow k == inject_Z (2 ^ k).
Proof. intros Hk. unfold two_pow. rewrite Zpower_Qpower by exact Hk. reflexivity. Qed.

Lemma two_pow_pos (k : Z) : 0 < two_pow k.
Proof. apply Qpower_0_lt. reflexivity. Qed.

Lemma two_pow_add (a b : Z) : two_pow (a + b) == two_pow a * two_pow b.
Proof. apply Qpower_plus. discriminate. Qed.

Lemma two_pow_opp (k : Z) : two_pow k * two_pow (- k) == 1.
Proof.
  rewrite <- two_pow_add, Z.add_opp_diag_r. reflexivity.
Qed.

Lemma two_pow_le (a b : Z) : (a <= b)%Z -> two_pow a <= two_pow b.
Proof. intros H. apply Qpower_le_compat_l; [exact H|discriminate]. Qed.

(** An integer is its own nearest integer. *)
Lemma half_even_integer {q : Q} {k : Z} :
  q == inject_Z k -> half_even q = k.
Proof.
  intros Hq.
  assert (Hf : Qfloor q = k) by (rewrite (Qfloor_comp _ _ Hq); apply Qfloor_Z).
  unfold half_even. rewrite Hf.
  assert (E : Qcompare (inject_Z k - inject_Z k) (1 # 2) = Lt).
  { rewrite <- Qlt_alt. ring_simplify (inject_Z k - inject_Z k). reflexivity. }
  assert (E' : Qcompare (q - inject_Z k) (1 # 2) = Lt).
  { rewrite <- E. apply Qcompare_comp; [rewrite Hq|]; reflexivity. }
  rewrite E'. reflexivity.
Qed.

Lemma ilog2_integer {z : Z} :
  z <> 0%Z -> ilog2 (inject_Z z) = Z.log2 (Z.abs z).
Proof.
  intros Hz. unfold ilog2, inject_Z. simpl Qnum. simpl Qden.
  change (Z.log2 1) with 0%Z. rewrite Z.sub_0_r.
  pose proof (Z.log2_nonneg (Z.abs z)) as Hl.
  destruct (Z.leb_spec 0 (Z.log2 (Z.abs z))) as [_|Hneg]; [|lia].
  pose proof (Z.log2_spec (Z.abs z) ltac:(lia)) as [Hlo _].
  destruct (Z.leb_spec (1 * 2 ^ Z.log2 (Z.abs z)) (Z.abs z)); [reflexivity|lia].
Qed.

(** Rounding to 53 bits leaves an integer below 2^53 alone. *)
Lemma roundTo_integer {z : Z} :
  (Z.abs z < 2 ^ 53)%Z -> roundTo 53 (inject_Z z) = inject_Z z.
Proof.
  intros Hz. unfold roundTo.
  destruct (Qeq_bool (inject_Z z) 0) eqn:E0.
  - apply Qeq_bool_eq in E0. unfold Qeq in E0. simpl in E0.
    assert (z = 0%Z) by lia. subst. reflexivity.
  - assert (Hnz : z <> 0%Z).
    { intros ->. discriminate. }
    rewrite (ilog2_integer Hnz).
    set (e := Z.log2 (Z.abs z)).
    assert (He : (0 <= e < 53)%Z).
    { split; [apply Z.log2_nonneg|].
      apply Z.log2_lt_pow2; lia. }
    set (s := (53 - 1 - e)%Z).
    assert (Hs : (0 <= s)%Z) by (unfold s; lia).
    assert (Hscaled : inject_Z z * two_pow s == inject_Z (z * 2 ^ s)).
    { rewrite (two_pow_nonneg Hs), inject_Z_mult. reflexivity. }
    rewrite (half_even_integer Hscaled).
    rewrite <- (Qred_inject_Z z).
    apply Qred_complete.
    rewrite inject_Z_mult, <- (two_pow_nonneg Hs), <- Qmult_assoc.
    rewrite two_pow_opp. ring.
Qed.

Lemma Qabs_inject_Z (z : Z) : Qabs (inject_Z z) = inject_Z (Z.abs z).
Proof. reflexivity. Qed.

(** A safe integer is a double. *)
Lemma ofZ_exact {z : Z} :
  (Z.abs z < 2 ^ 53)%Z -> ofZ z = Num (inject_Z z).
Proof.
  intros Hz. unfold ofZ, fl, overflow.
  rewrite (roundTo_integer Hz).
  destruct (Qle_bool (two_pow 1024) (Qabs (inject_Z z))) eqn:E; [|reflexivity].
  apply Qle_bool_imp_le in E.
  rewrite Qabs_inject_Z in E.
  rewrite (@two_pow_nonneg 1024) in E by lia.
  rewrite <- Zle_Qle in E.
  assert ((2 ^ 53 < 2 ^ 1024)%Z) by (apply Z.pow_lt_mono_r; lia).
  lia.
Qed.

End JSNumberFacts.

(** ** JSON: what [stringify] prints of a flat object, [parse] reads back *)

Module JSONFacts.
Import JSNumber JSNumberFacts JSON.
Local Open Scope string_scope.

Lemma append_assoc (a b c : string) : (a ++ b) ++ c = a ++ (b ++ c).
Proof. induction a as [|x a IH]; simpl; [reflexivity|]. rewrite IH. reflexivity. Qed.

Lemma length_append (a b : string) :
  String.length (a ++ b) = String.length a + String.length b.
Proof. induction a as [|x a IH]; simpl; [reflexivity|]. rewrite IH. reflexivity. Qed.

Lemma string_of_list_ascii_app (l1 l2 : list ascii) :
  string_of_list_ascii (l1 ++ l2)
  = string_of_list_ascii l1 ++ string_of_list_ascii l2.
Proof. induction l1 as [|x l1 IH]; simpl; [reflexivity|]. rewrite IH. reflexivity. Qed.

(** *** Decimal digits *)

Definition is_digit (d : Z) : Prop := (0 <= d <= 9)%Z.

Lemma rdigits_range (fuel : nat) :
  forall n, Forall is_digit (rdigits fuel n).
Proof.
  induction fuel as [|fuel IH]; intros n; simpl; [constructor|].
  constructor.
  - unfold is_digit. pose proof (Z.mod_pos_bound n 10). lia.
  - destruct (n <? 10)%Z; [constructor|apply IH].
Qed.

Definition value_rev (ds : list Z) : Z :=
  fold_right (fun d a => (a * 10 + d)%Z) 0%Z ds.

Lemma rdigits_value (fuel : nat) :
  forall n, (0 <= n < 2 ^ Z.of_nat fuel)%Z -> value_rev (rdigits fuel n) = n.
Proof.
  induction fuel as [|fuel IH]; intros n Hn.
  - simpl in *. lia.
  - cbn [rdigits]. destruct (Z.ltb_spec n 10) as [Hlt|Hge].
    + simpl. rewrite Z.mod_small by lia. reflexivity.
    + cbn [value_rev fold_right]. fold (value_rev (rdigits fuel (n / 10))).
      rewrite IH.
      * pose proof (Z.div_mod n 10). lia.
      * rewrite Nat2Z.inj_succ, Z.pow_succ_r in Hn by lia.
        split; [apply Z.div_pos; lia|].
        apply Z.div_lt_upper_bound; lia.
Qed.

(** The most significant digit of a positive number is not 0. *)
Lemma rdigits_last (fuel : nat) :
  forall n, (0 < n < 2 ^ Z.of_nat fuel)%Z ->
            exists l d, rdigits fuel n = (l ++ [d])%list /\ (1 <= d <= 9)%Z.
Proof.
  induction fuel as [|fuel IH]; intros n Hn.
  - simpl in *. lia.
  - cbn [rdigits]. destruct (Z.ltb_spec n 10) as [Hlt|Hge].
    + exists (@nil Z), (n mod 10)%Z. split; [reflexivity|].
      rewrite Z.mod_small by lia. lia.
    + destruct (IH (n / 10)%Z) as [l [d [Hl Hd]]].
      * rewrite Nat2Z.inj_succ, Z.pow_succ_r in Hn by lia.
        split; [apply Z.div_str_pos; lia|].
        apply Z.div_lt_upper_bound; lia.
      * exists ((n mod 10)%Z :: l), d. rewrite Hl. split; [reflexivity|exact Hd].
Qed.

Lemma fuel_enough (n : Z) :
  (0 <= n)%Z -> (n < 2 ^ Z.of_nat (S (Z.to_nat (Z.log2 n))))%Z.
Proof.
  intros Hn. rewrite Nat2Z.inj_succ, Z2Nat.id by apply Z.log2_nonneg.
  destruct (Z.eq_dec n 0) as [->|Hnz]; [reflexivity|].
  apply Z.log2_spec. lia.
Qed.

Lemma value_of_rev (ds : list Z) : value_of (rev ds) = value_rev ds.
Proof.
  unfold value_of, value_rev. rewrite <- fold_left_rev_right, rev_involutive.
  reflexivity.
Qed.

Lemma digits_value (n : Z) : (0 <= n)%Z -> value_of (digits n) = n.
Proof.
  intros Hn. unfold digits. rewrite value_of_rev.
  apply rdigits_value. split; [exact Hn|apply fuel_enough, Hn].
Qed.

Lemma digits_range (n : Z) : Forall is_digit (digits n).
Proof. unfold digits. apply Forall_rev, rdigits_range. Qed.

Lemma digits_head (n : Z) :
  (0 < n)%Z -> exists d ds, digits n = d :: ds /\ (1 <= d <= 9)%Z.
Proof.
  intros Hn. unfold digits.
  destruct (rdigits_last (S (Z.to_nat (Z.log2 n))) n) as [l [d [Hl Hd]]].
  - split; [exact Hn|apply fuel_enough; lia].
  - exists d, (rev l). rewrite Hl, rev_app_distr. split; [reflexivity|exact Hd].
Qed.

Lemma digit_of_char (d : Z) : is_digit d -> digit_of (digit_char d) = Some d.
Proof.
  intros Hd. unfold is_digit in Hd.
  assert (H : (d = 0 \/ d = 1 \/ d = 2 \/ d = 3 \/ d = 4 \/ d = 5 \/ d = 6
               \/ d = 7 \/ d = 8 \/ d = 9)%Z) by lia.
  repeat (destruct H as [H|H]; [subst d; vm_compute; reflexivity|]).
  subst d. vm_compute. reflexivity.
Qed.

(** A string that does not go on with a digit. *)
Definition no_digit_ahead (s : string) : Prop :=
  match s with
  | String c _ => digit_of c = None
  | EmptyString => True
  end.

Lemma take_digits_stop (s : string) : no_digit_ahead s -> take_digits s = ([], s).
Proof.
  destruct s as [|c s]; [reflexivity|].
  cbn [no_digit_ahead take_digits]. intros ->. reflexivity.
Qed.

Lemma take_digits_app (ds : list Z) (rest : string) :
  Forall is_digit ds -> no_digit_ahead rest ->
  take_digits (string_of_list_ascii (map digit_char ds) ++ rest) = (ds, rest).
Proof.
  intros Hds Hrest.
  induction Hds as [|d ds Hd _ IH];
    cbn [map string_of_list_ascii append take_digits].
  - apply take_digits_stop, Hrest.
  - rewrite (digit_of_char d Hd), IH. reflexivity.
Qed.

(** *** Numbers *)

Lemma Qeq_bool_inject_Z (a b : Z) :
  Qeq_bool (inject_Z a) (inject_Z b) = (a =? b)%Z.
Proof.
  destruct (Z.eqb_spec a b) as [->|Hne].
  - apply Qeq_bool_iff. reflexivity.
  - destruct (Qeq_bool (inject_Z a) (inject_Z b)) eqn:E; [|reflexivity].
    apply Qeq_bool_eq in E. apply -> inject_Z_injective in E. congruence.
Qed.

Lemma negQ_inject_Z (z : Z) : negQ (inject_Z z) = (z <? 0)%Z.
Proof.
  unfold negQ, Qcompare, inject_Z, Z.ltb. simpl Qnum. simpl Qden.
  rewrite Z.mul_1_r. reflexivity.
Qed.

Lemma Number_toString_int (z : Z) :
  (Z.abs z < 2 ^ 53)%Z ->
  Number_toString (inject_Z z)
  = if (z =? 0)%Z then "0"
    else (if (z <? 0)%Z then "-" else EmptyString) ++ nat_string (Z.abs z).
Proof.
  intros Hz. unfold Number_toString.
  change 0%Q with (inject_Z 0). rewrite Qeq_bool_inject_Z.
  destruct (z =? 0)%Z; [reflexivity|].
  rewrite negQ_inject_Z. f_equal.
  unfold is_integer. rewrite Qfloor_Z, Qeq_bool_inject_Z, Z.eqb_refl.
  assert (Hle : Qle_bool (Qabs (inject_Z z)) (two_pow 53) = true).
  { apply Qle_bool_iff. rewrite Qabs_inject_Z, (@two_pow_nonneg 53) by lia.
    rewrite <- Zle_Qle. lia. }
  rewrite Hle. reflexivity.
Qed.

(** What ends a value inside an object. *)
Definition ends_value (rest : string) : Prop :=
  exists r, rest = String "," r \/ rest = String "}" r.

Lemma ends_value_no_digit (rest : string) : ends_value rest -> no_digit_ahead rest.
Proof. intros [r [-> | ->]]; reflexivity. Qed.

Lemma fl_nat (n : Z) :
  (0 <= n < 2 ^ 53)%Z ->
  fl (inject_Z n * pow10 (0 - Z.of_nat (List.length (@nil Z)))) = Num (inject_Z n).
Proof.
  intros Hn.
  replace (inject_Z n * pow10 (0 - Z.of_nat (List.length (@nil Z))))%Q
    with (inject_Z n).
  - apply (@ofZ_exact n). lia.
  - unfold inject_Z, Qmult. simpl. rewrite Z.mul_1_r. reflexivity.
Qed.

Lemma fl_neg (n : Z) :
  (0 <= n < 2 ^ 53)%Z ->
  fl (- (inject_Z n * pow10 (0 - Z.of_nat (List.length (@nil Z)))))
  = Num (inject_Z (- n)).
Proof.
  intros Hn.
  replace (- (inject_Z n * pow10 (0 - Z.of_nat (List.length (@nil Z)))))%Q
    with (inject_Z (- n)).
  - apply (@ofZ_exact (- n)). lia.
  - unfold inject_Z, Qmult, Qopp. simpl. rewrite Z.mul_1_r. reflexivity.
Qed.

(** The string of a positive number starts with one of the digits 1 to 9.
    [leading] lists the shapes. *)
Definition leading (c : ascii) : Prop :=
  In c (list_ascii_of_string "123456789").

Lemma nat_string_head (n : Z) :
  (0 < n)%Z ->
  exists c tail, nat_string n = String c tail /\ leading c.
Proof.
  intros Hn. unfold nat_string.
  destruct (digits_head n Hn) as [d [ds [Hd Hr]]]. rewrite Hd.
  cbn [map string_of_list_ascii].
  exists (digit_char d), (string_of_list_ascii (map digit_char ds)).
  split; [reflexivity|].
  assert (H : (d = 1 \/ d = 2 \/ d = 3 \/ d = 4 \/ d = 5 \/ d = 6
               \/ d = 7 \/ d = 8 \/ d = 9)%Z) by lia.
  unfold leading.
  repeat (destruct H as [H|H]; [subst d; vm_compute; tauto|]).
  subst d. vm_compute. tauto.
Qed.

Lemma take_digits_nat_string (n : Z) (rest : string) :
  no_digit_ahead rest ->
  take_digits (nat_string n ++ rest) = (digits n, rest).
Proof.
  intros Hrest. unfold nat_string.
  apply take_digits_app; [apply digits_range|exact Hrest].
Qed.

Lemma digits_not_nil (n : Z) : (0 < n)%Z -> digits n <> [].
Proof.
  intros Hn. destruct (digits_head n Hn) as [d [ds [Hd _]]].
  rewrite Hd. discriminate.
Qed.

(** The tail of [parse_number] once the integer part is read. *)
Lemma parse_number_positive (n : Z) (rest : string) (neg : bool) :
  (0 < n < 2 ^ 53)%Z -> ends_value rest ->
  parse_number ((if neg then "-" else EmptyString) ++ nat_string n ++ rest)
  = Some (Num (inject_Z (if neg then - n else n)), rest).
Proof.
  intros Hn Hrest.
  pose proof (take_digits_nat_string n rest (ends_value_no_digit rest Hrest)) as Ht.
  pose proof (digits_not_nil n ltac:(lia)) as Hnil.
  pose proof (digits_value n ltac:(lia)) as Hv.
  destruct (nat_string_head n ltac:(lia)) as [c [tail [Hs Hc]]].
  rewrite Hs in *. cbn [append] in *.
  destruct (digits n) as [|d ds] eqn:Hd; [contradiction|].
  assert (Htail : parse_fraction rest = Some ([], rest)
                  /\ parse_exponent rest = Some (0%Z, rest)).
  { destruct Hrest as [r [-> | ->]]; split; reflexivity. }
  destruct Htail as [Hf He].
  unfold leading in Hc. cbn [list_ascii_of_string In] in Hc.
  destruct neg; cbn [append]; unfold parse_number;
    repeat (destruct Hc as [<-|Hc];
            [cbv beta iota zeta; rewrite Ht, Hf, He, app_nil_r, Hv;
             first [rewrite fl_neg by lia|rewrite fl_nat by lia];
             reflexivity|]);
    contradiction.
Qed.

(** *** Strings *)

Ltac eval_escape :=
  match goal with
  | |- context [escape_char ?c] =>
      let e := eval vm_compute in (escape_char c) in
      change (escape_char c) with e
  end.

Lemma parse_escape_char (c : ascii) (s : string) :
  parse_string_body None (escape_char c ++ s)
  = match parse_string_body None s with
    | Some (str, rest) => Some (String c str, rest)
    | None => None
    end.
Proof.
  destruct c as [[] [] [] [] [] [] [] []];
    eval_escape; cbn [append]; simpl; reflexivity.
Qed.

Lemma parse_quoted (s rest : string) :
  parse_string_body None (escape s ++ String dquote rest) = Some (s, rest).
Proof.
  induction s as [|c s IH]; cbn [escape].
  - reflexivity.
  - rewrite append_assoc, parse_escape_char, IH. reflexivity.
Qed.

Lemma quote_append (s rest : string) :
  quote s ++ rest = String dquote (escape s ++ String dquote rest).
Proof.
  unfold quote, str1. cbn [append]. rewrite append_assoc. reflexivity.
Qed.

(** *** Values *)

Lemma parse_value_string (fuel : nat) (body : string) :
  parse_value (S fuel) (String dquote body)
  = match parse_string_body None body with
    | Some (str, r) => Some (JStr str, r)
    | None => None
    end.
Proof. simpl. reflexivity. Qed.

Definition starts_number (c : ascii) : Prop :=
  In c (list_ascii_of_string "-0123456789").

Lemma parse_value_number (fuel : nat) (c : ascii) (s : string) :
  starts_number c ->
  parse_value (S fuel) (String c s)
  = match parse_number (String c s) with
    | Some (n, r) => Some (JNum n, r)
    | None => None
    end.
Proof.
  unfold starts_number. cbn [list_ascii_of_string In].
  intros H.
  repeat (destruct H as [<-|H]; [simpl parse_value; reflexivity|]).
  contradiction.
Qed.

(** The values of a header: strings and integers that a double holds. *)
Inductive simple : json -> Prop :=
| simple_str (s : string) : simple (JStr s)
| simple_int (z : Z) : (Z.abs z < 2 ^ 53)%Z -> simple (JNum (Num (inject_Z z))).

Lemma parse_value_simple (fuel : nat) (v : json) (rest : string) :
  simple v -> ends_value rest ->
  parse_value (S fuel) (stringify v ++ rest) = Some (v, rest).
Proof.
  intros Hv Hrest. destruct Hv as [s|z Hz]; cbn [stringify].
  - rewrite quote_append, parse_value_string, parse_quoted. reflexivity.
  - rewrite (Number_toString_int z Hz).
    destruct (Z.eqb_spec z 0) as [->|Hnz].
    + destruct Hrest as [r [-> | ->]]; vm_compute; reflexivity.
    + destruct (Z.ltb_spec z 0) as [Hneg|Hpos].
      * rewrite append_assoc. cbn [append].
        rewrite parse_value_number by (vm_compute; tauto).
        change (String "-" (nat_string (Z.abs z) ++ rest))
          with ((if true then "-" else EmptyString)
                  ++ nat_string (Z.abs z) ++ rest).
        rewrite parse_number_positive by (try exact Hrest; lia).
        replace (- Z.abs z)%Z with z by lia. reflexivity.
      * cbn [append].
        destruct (nat_string_head (Z.abs z) ltac:(lia)) as [c [tail [Hs Hc]]].
        assert (Hstart : starts_number c).
        { unfold starts_number, leading in *.
          cbn [list_ascii_of_string In] in *. tauto. }
        pose proof (parse_number_positive (Z.abs z) rest false
                      ltac:(lia) Hrest) as Hp.
        cbn [append] in Hp. rewrite Hs in *. cbn [append] in *.
        rewrite (parse_value_number _ _ _ Hstart), Hp.
        replace (Z.abs z) with z by lia. reflexivity.
Qed.

(** *** Objects *)

Definition member_string (m : string * json) : string :=
  quote (fst m) ++ ":" ++ stringify (snd m).

Lemma parse_members_unfold (fuel : nat) (body : string)
    (acc : list (string * json)) :
  parse_members (S fuel) (String dquote body) acc
  = match parse_string_body None body with
    | Some (key, r1) =>
        match skip_ws r1 with
        | String ":" r2 =>
            match parse_value fuel r2 with
            | Some (v, r3) =>
                match skip_ws r3 with
                | String "," r4 => parse_members fuel r4 ((key, v) :: acc)
                | String "}" r4 => Some (JObj (rev ((key, v) :: acc)), r4)
                | _ => None
                end
            | None => None
            end
        | _ => None
        end
    | None => None
    end.
Proof. simpl. reflexivity. Qed.

(** One member, followed by what [ends_value] allows. *)
Lemma parse_member (fuel : nat) (key : string) (v : json) (rest : string)
    (acc : list (string * json)) :
  simple v -> ends_value rest ->
  parse_members (S (S fuel)) (member_string (key, v) ++ rest) acc
  = match rest with
    | String "," r4 => parse_members (S fuel) r4 ((key, v) :: acc)
    | String "}" r4 => Some (JObj (rev ((key, v) :: acc)), r4)
    | _ => None
    end.
Proof.
  intros Hv Hrest. unfold member_string. cbn [fst snd].
  rewrite !append_assoc, quote_append, parse_members_unfold, parse_quoted.
  cbn [append skip_ws]. change (is_ws ":") with false. cbv iota.
  rewrite (parse_value_simple fuel v rest Hv Hrest).
  destruct Hrest as [r [-> | ->]]; reflexivity.
Qed.

Lemma join_cons (sep x y : string) (l : list string) :
  join sep (x :: y :: l) = x ++ sep ++ join sep (y :: l).
Proof. reflexivity. Qed.

Lemma parse_members_simple (members : list (string * json)) :
  forall (fuel : nat) (acc : list (string * json)) (rest : string),
    members <> [] ->
    Forall (fun m => simple (snd m)) members ->
    List.length members < fuel ->
    parse_members fuel
      (join "," (map member_string members) ++ String "}" rest) acc
    = Some (JObj (rev acc ++ members), rest).
Proof.
  induction members as [|[key v] members IH]; intros fuel acc rest Hne Hs Hfuel;
    [contradiction|].
  inversion Hs as [|? ? Hv Hs']; subst. cbn [snd] in Hv.
  destruct fuel as [|[|fuel]]; cbn [List.length] in Hfuel; try lia.
  destruct members as [|m members].
  - cbn [map join].
    rewrite parse_member by (try exact Hv; eexists; right; reflexivity).
    cbn [rev]. reflexivity.
  - cbn [map]. rewrite join_cons, !append_assoc. cbn [append].
    rewrite parse_member by (try exact Hv; eexists; left; reflexivity).
    change (member_string m :: map member_string members)
      with (map member_string (m :: members)).
    rewrite IH; [|discriminate|exact Hs'|cbn [List.length] in *; lia].
    cbn [rev]. rewrite <- app_assoc. reflexivity.
Qed.

Lemma join_length (l : list string) :
  Forall (fun s => 1 <= String.length s) l ->
  List.length l <= String.length (join "," l).
Proof.
  induction 1 as [|x l Hx Hl IH]; [simpl; lia|].
  destruct l as [|y l].
  - simpl. lia.
  - rewrite join_cons, !length_append. cbn [List.length] in *. lia.
Qed.

Lemma member_string_length (m : string * json) :
  1 <= String.length (member_string m).
Proof. unfold member_string, quote. cbn [append String.length]. lia. Qed.

Lemma parse_value_object (fuel : nat) (body : string) :
  parse_value (S fuel) (String "{" (String dquote body))
  = parse_members fuel (String dquote body) [].
Proof. simpl. reflexivity. Qed.

(** [JSON.parse (JSON.stringify o)] is [o], for an object [o] whose
    members are strings and safe integers. *)
Theorem parse_stringify_object (members : list (string * json)) :
  members <> [] ->
  Forall (fun m => simple (snd m)) members ->
  parse (stringify (JObj members)) = Ok (JObj members).
Proof.
  intros Hne Hs. unfold parse.
  assert (Htext : stringify (JObj members)
                  = String "{" (join "," (map member_string members)
                                  ++ String "}" EmptyString)).
  { reflexivity. }
  rewrite Htext.
  assert (Hhead : exists body,
             join "," (map member_string members) ++ String "}" EmptyString
             = String dquote body).
  { destruct members as [|[k v] [|m members]]; [contradiction| |].
    - cbn [map join]. unfold member_string. cbn [fst].
      rewrite append_assoc, quote_append. eexists. reflexivity.
    - cbn [map]. rewrite join_cons. unfold member_string at 1. cbn [fst].
      rewrite !append_assoc, quote_append. eexists. reflexivity. }
  destruct Hhead as [body Hbody].
  assert (Hlen : List.length members
                 <= String.length (join "," (map member_string members))).
  { rewrite <- (length_map member_string members). apply join_length.
    apply Forall_forall. intros s Hin. apply in_map_iff in Hin.
    destruct Hin as [m [<- _]]. apply member_string_length. }
  cbn [String.length]. rewrite length_append, Nat.add_comm. cbn [Nat.add].
  rewrite Hbody, parse_value_object, <- Hbody.
  rewrite parse_members_simple by
    (try assumption; cbn [String.length]; lia).
  reflexivity.
Qed.

End JSONFacts.

(** ** Container framing *)

Module ContainerFacts.
Import JSNumber JSON Container.

Lemma parse_error (text : string) (e : error) :
  parse text = Err e -> e = SyntaxError.
Proof.
  unfold parse.
  destruct (parse_value _ _) as [[v r]|]; [destruct (skip_ws r)|];
    intros H; congruence.
Qed.

Lemma byteN_of_N (m : N) :
  byteN match Byte.of_N (m mod 256) with Some b => b | None => x00 end
  = (m mod 256)%N.
Proof.
  unfold byteN.
  destruct (Byte.of_N (m mod 256)) as [b|] eqn:E.
  - apply Byte.to_of_N in E. exact E.
  - apply Byte.of_N_None_iff in E.
    pose proof (N.mod_upper_bound m 256 ltac:(discriminate)). lia.
Qed.

Lemma base256 (n : N) :
  (n < 2 ^ 32)%N ->
  (n mod 256
   + 256 * ((n / 256) mod 256
            + 256 * ((n / 65536) mod 256 + 256 * ((n / 16777216) mod 256))))%N
  = n.
Proof.
  intros Hn. change (2 ^ 32)%N with 4294967296%N in Hn.
  zify. Z.to_euclidean_division_equations. lia.
Qed.

(** The header length read back is the one written. *)
Lemma read_write (value : N) (size magic rest : Buffer) :
  writeUInt32LE value = Ok size ->
  List.length magic = 4 ->
  readUInt32LE_4 (magic ++ size ++ rest) = value
  /\ List.length size = 4.
Proof.
  unfold writeUInt32LE. intros Hw Hm.
  destruct (N.ltb_spec value (2 ^ 32)) as [Hlt|]; [|discriminate].
  injection Hw as <-.
  split; [|reflexivity].
  unfold readUInt32LE_4.
  rewrite skipn_app, skipn_all2, Hm by lia.
  cbn [Nat.sub skipn app Buffer_from map].
  rewrite !byteN_of_N. apply base256, Hlt.
Qed.

Section Framing.
Variable MAGIC : string.
Hypothesis MAGIC_length : List.length (list_byte_of_string MAGIC) = 4.
Hypothesis MAGIC_ascii : toString_ascii (list_byte_of_string MAGIC) = MAGIC.

(** [parseContainer] splits what [createContainer] joined: it reads the
    header text that was written, and returns the payload as it is. *)
Lemma parseContainer_createContainer (header : json)
    (payload container : Buffer) :
  createContainer MAGIC header payload = Ok container ->
  parseContainer MAGIC container
  = (h <- parse (stringify header) ;; Ok (h, payload)).
Proof.
  unfold createContainer. intros Hc.
  set (headerData := list_byte_of_string (stringify header)) in *.
  destruct (writeUInt32LE (N.of_nat (List.length headerData)))
    as [size|] eqn:Hw; [|discriminate].
  cbn [bind] in Hc. injection Hc as <-.
  destruct (read_write _ _ _ (headerData ++ payload) Hw MAGIC_length)
    as [Hread Hsize].
  unfold parseContainer.
  assert (Hlen : List.length
                   (list_byte_of_string MAGIC ++ size ++ headerData ++ payload)
                 = 8 + List.length headerData + List.length payload).
  { rewrite !length_app, MAGIC_length, Hsize. lia. }
  assert (Hfirst : firstn 4 (list_byte_of_string MAGIC ++ size
                               ++ headerData ++ payload)
                   = list_byte_of_string MAGIC).
  { rewrite firstn_app, MAGIC_length, firstn_all2 by lia.
    cbn [Nat.sub firstn]. apply app_nil_r. }
  assert (Hskip8 : skipn 8 (list_byte_of_string MAGIC ++ size
                               ++ headerData ++ payload)
                   = headerData ++ payload).
  { rewrite app_assoc, skipn_app, skipn_all2, length_app, MAGIC_length, Hsize
      by (rewrite length_app; lia).
    reflexivity. }
  assert (Hskip : skipn (8 + List.length headerData)
                    (list_byte_of_string MAGIC ++ size ++ headerData ++ payload)
                  = payload).
  { rewrite Nat.add_comm, <- skipn_skipn, Hskip8, skipn_app, skipn_all,
      Nat.sub_diag.
    reflexivity. }
  rewrite Hlen, Hread, Nat2N.id, Hfirst, Hskip8, Hskip.
  destruct (Nat.ltb_spec (8 + List.length headerData + List.length payload) 8);
    [lia|].
  rewrite MAGIC_ascii, String.eqb_refl. cbn [negb].
  destruct (Nat.ltb_spec (8 + List.length headerData + List.length payload)
                         (8 + List.length headerData)); [lia|].
  rewrite firstn_app, firstn_all, Nat.sub_diag.
  cbn [firstn]. rewrite app_nil_r.
  unfold headerData. rewrite string_of_list_byte_of_string. reflexivity.
Qed.

(** The container depends on the payload only in its last part. *)
Lemma createContainer_prefix (header : json) (payload container : Buffer) :
  createContainer MAGIC header payload = Ok container ->
  exists prefix,
    container = prefix ++ payload
    /\ forall payload',
         createContainer MAGIC header payload' = Ok (prefix ++ payload').
Proof.
  unfold createContainer. intros Hc.
  destruct (writeUInt32LE _) as [size|]; [|discriminate].
  cbn [bind] in *. injection Hc as <-.
  exists (list_byte_of_string MAGIC ++ size
            ++ list_byte_of_string (stringify header)).
  split; [rewrite <- !app_assoc; reflexivity|].
  intros payload'. rewrite <- !app_assoc. reflexivity.
Qed.

End Framing.

Ltac outcome_cases :=
  repeat split; intros;
  repeat match goal with
         | H : _ /\ _ |- _ => destruct H
         | H : Err _ = Err _ |- _ => injection H as ?; subst
         | H : Ok _ = Ok _ |- _ => injection H as ?; subst
         end;
  try discriminate; try congruence; try lia; try tauto; auto 6.

(** What [parseContainer] does on any buffer, as the code compares the
    magic tag: [toString('ascii')] of the first four bytes against the
    constant. *)
Lemma parseContainer_cases (MAGIC : string) (data : Buffer) :
  let headerSize := N.to_nat (readUInt32LE_4 data) in
  let magic_ok := toString_ascii (firstn 4 data) = MAGIC in
  let headerText := string_of_list_byte (firstn headerSize (skipn 8 data)) in
  (parseContainer MAGIC data = Err TooSmall <-> List.length data < 8)
  /\ (parseContainer MAGIC data = Err InvalidMagic
      <-> 8 <= List.length data /\ ~ magic_ok)
  /\ (parseContainer MAGIC data = Err HeaderSizeMismatch
      <-> 8 <= List.length data /\ magic_ok
          /\ List.length data < 8 + headerSize)
  /\ (parseContainer MAGIC data = Err SyntaxError
      <-> 8 <= List.length data /\ magic_ok
          /\ 8 + headerSize <= List.length data
          /\ parse headerText = Err SyntaxError)
  /\ (forall header payload,
        parseContainer MAGIC data = Ok (header, payload)
        <-> 8 <= List.length data /\ magic_ok
            /\ 8 + headerSize <= List.length data
            /\ parse headerText = Ok header
            /\ payload = skipn (8 + headerSize) data)
  /\ (forall e,
        parseContainer MAGIC data = Err e ->
        e = TooSmall \/ e = InvalidMagic \/ e = HeaderSizeMismatch
        \/ e = SyntaxError).
Proof.
  intros headerSize magic_ok headerText. unfold parseContainer.
  fold headerSize. fold headerText. unfold magic_ok.
  destruct (Nat.ltb_spec (List.length data) 8) as [Hs|Hs];
    [outcome_cases|].
  destruct (String.eqb_spec (toString_ascii (firstn 4 data)) MAGIC) as [Hm|Hm];
    cbn [negb]; [|outcome_cases].
  destruct (Nat.ltb_spec (List.length data) (8 + headerSize)) as [Hh|Hh];
    [outcome_cases|].
  destruct (parse headerText) as [h|e] eqn:Hp; cbn [bind].
  - outcome_cases.
  - pose proof (parse_error _ _ Hp) as ->. outcome_cases.
Qed.

(** Bytes below 0x80 read as ASCII are the characters they are. *)
Lemma toString_ascii_7bit (buf : Buffer) :
  Forall (fun b => (byteN b < 128)%N) buf ->
  toString_ascii buf = string_of_list_byte buf.
Proof.
  unfold toString_ascii, string_of_list_byte. intros H. f_equal.
  apply map_ext_in. intros b Hb.
  rewrite N.mod_small by exact (proj1 (Forall_forall _ _) H b Hb).
  unfold byteN. symmetry. apply ascii_of_byte_via_N.
Qed.

Lemma tag_is_constant (MAGIC : string) (tag : Buffer) :
  Forall (fun b => (byteN b < 128)%N) tag ->
  toString_ascii tag = MAGIC <-> tag = list_byte_of_string MAGIC.
Proof.
  intros H. rewrite (toString_ascii_7bit tag H). split.
  - intros <-. symmetry. apply list_byte_of_string_of_list_byte.
  - intros ->. apply string_of_list_byte_of_string.
Qed.

(** C6, as the code has it, on buffers whose first four bytes are ASCII
    characters.  [parseContainer] fails as a malformed container in three
    cases: fewer than 8 bytes; a magic tag that is not the constant; a
    declared header length beyond the end of the buffer.  Otherwise the
    header bytes go to [JSON.parse]: when they are not JSON the syntax
    error is the result, a fourth failure, and when they are, the result
    is the parsed header with the rest of the buffer as payload, not
    looked at. *)
Theorem parseContainer_outcome (MAGIC : string) (data : Buffer) :
  Forall (fun b => (byteN b < 128)%N) (firstn 4 data) ->
  let headerSize := N.to_nat (readUInt32LE_4 data) in
  let magic_ok := firstn 4 data = list_byte_of_string MAGIC in
  let headerText := string_of_list_byte (firstn headerSize (skipn 8 data)) in
  (parseContainer MAGIC data = Err TooSmall <-> List.length data < 8)
  /\ (parseContainer MAGIC data = Err InvalidMagic
      <-> 8 <= List.length data /\ ~ magic_ok)
  /\ (parseContainer MAGIC data = Err HeaderSizeMismatch
      <-> 8 <= List.length data /\ magic_ok
          /\ List.length data < 8 + headerSize)
  /\ (parseContainer MAGIC data = Err SyntaxError
      <-> 8 <= List.length data /\ magic_ok
          /\ 8 + headerSize <= List.length data
          /\ parse headerText = Err SyntaxError)
  /\ (forall header payload,
        parseContainer MAGIC data = Ok (header, payload)
        <-> 8 <= List.length data /\ magic_ok
            /\ 8 + headerSize <= List.length data
            /\ parse headerText = Ok header
            /\ payload = skipn (8 + headerSize) data)
  /\ (forall e,
        parseContainer MAGIC data = Err e ->
        e = TooSmall \/ e = InvalidMagic \/ e = HeaderSizeMismatch
        \/ e = SyntaxError).
Proof.
  intros Htag headerSize magic_ok headerText.
  pose proof (tag_is_constant MAGIC (firstn 4 data) Htag) as Hmagic.
  destruct (parseContainer_cases MAGIC data)
    as [H1 [H2 [H3 [H4 [H5 H6]]]]].
  fold headerSize in H3, H4, H5. fold headerText in H4, H5.
  unfold magic_ok.
  split; [exact H1|].
  split; [rewrite H2, Hmagic; reflexivity|].
  split; [rewrite H3, Hmagic; reflexivity|].
  split; [rewrite H4, Hmagic; reflexivity|].
  split; [|exact H6].
  intros header payload. rewrite H5, Hmagic. reflexivity.
Qed.

(** A container with the header [{}] and one payload byte. *)
Definition small_container : Buffer :=
  [x54; x43; x46; x31; x02; x00; x00; x00; x7b; x7d; x07].

Lemma parseContainer_outcome_witness :
  Forall (fun b => (byteN b < 128)%N) (firstn 4 small_container)
  /\ parseContainer "TCF1" small_container = Ok (JObj [], [x07]).
Proof.
  assert (Htag : Forall (fun b => (byteN b < 128)%N)
                        (firstn 4 small_container))
    by (repeat constructor).
  split; [exact Htag|].
  apply (proj2 (proj1 (proj2 (proj2 (proj2 (proj2
           (parseContainer_outcome "TCF1" small_container Htag)))))
           (JObj []) [x07])).
  repeat split; vm_compute; try reflexivity; lia.
Defined.

End ContainerFacts.

(** ** The text codec *)

Module TextCodecFacts.
Import JSNumber JSNumberFacts JSON JSONFacts Container ContainerFacts.
Import TextRLE TextRLEFacts Dynamic TextCodec.
Local Open Scope string_scope.

(** An integer that a JavaScript number holds exactly. *)
Definition safe (z : Z) : Prop := (Z.abs z < 2 ^ 53)%Z.

(** A header record whose numeric fields are such integers. *)
Definition valid_header (h : TCFHeader) : Prop :=
  safe (version h) /\ safe (flags h)
  /\ safe (originalSize h) /\ safe (compressedSize h).

Lemma MAGIC_length : List.length (list_byte_of_string MAGIC) = 4.
Proof. vm_compute. reflexivity. Qed.

Lemma MAGIC_ascii : toString_ascii (list_byte_of_string MAGIC) = MAGIC.
Proof. vm_compute. reflexivity. Qed.

Lemma parse_header (h : TCFHeader) :
  valid_header h -> parse (stringify (header_json h)) = Ok (header_json h).
Proof.
  intros [Hv [Hf [Ho Hc]]]. unfold header_json.
  rewrite !ofZ_exact by assumption.
  apply parse_stringify_object; [discriminate|].
  repeat constructor; assumption.
Qed.

(** The codec's two framing functions are the generic ones at its magic
    constant. *)
Lemma createContainer_eq (header : TCFHeader) (payload : Buffer) :
  Container.createContainer MAGIC (header_json header) payload
  = createContainer header payload.
Proof.
  exact (eq_refl (Container.createContainer MAGIC (header_json header) payload)).
Qed.

Lemma parseContainer_eq (tcfData : Buffer) :
  Container.parseContainer MAGIC tcfData = parseContainer tcfData.
Proof. exact (eq_refl (Container.parseContainer MAGIC tcfData)). Qed.

(** The header [encode] writes. *)
Definition header_of (originalData : Buffer) : TCFHeader :=
  {| magic := MAGIC;
     version := VERSION;
     flags := 0;
     originalSize := Z.of_nat (List.length originalData);
     compressedSize := Z.of_nat (List.length (simpleCompress originalData));
     checksum := SHA256.digest_hex originalData |}.

(** The UTF-8 bytes of a text. *)
Definition utf8 (text : string) : Buffer := list_byte_of_string text.

(** On ASCII text [encode] frames the compressed bytes of the text; it
    returns for no other text. *)
Lemma encode_eq (text : string) :
  encode text
  = if is_ascii (utf8 text)
    then lift (createContainer (header_of (utf8 text))
                               (simpleCompress (utf8 text)))
    else OutsideModel.
Proof.
  unfold encode, normalize_NFC, Buffer_from_utf8, utf8.
  destruct (is_ascii (list_byte_of_string text)) eqn:E; [|reflexivity].
  cbn [obind]. rewrite E. reflexivity.
Qed.

Lemma encode_returns (text : string) (container : Buffer) :
  encode text = Returns container ->
  is_ascii (utf8 text) = true
  /\ createContainer (header_of (utf8 text)) (simpleCompress (utf8 text))
     = Ok container.
Proof.
  rewrite encode_eq.
  destruct (is_ascii (utf8 text)); [|discriminate].
  destruct (createContainer _ _) as [c|e]; cbn [lift]; [|discriminate].
  intros H. injection H as <-. split; reflexivity.
Qed.

Lemma ascii_no_marker (buf : Buffer) :
  is_ascii buf = true -> no_marker buf.
Proof.
  unfold is_ascii, no_marker. intros H.
  apply Forall_forall. intros b Hb.
  apply (proj1 (forallb_forall _ _) H) in Hb.
  intros ->. discriminate Hb.
Qed.

(** C5.  Parsing the container made from a valid header and a payload
    gives back the header object, field for field, and the payload. *)
Theorem container_roundtrip (header : TCFHeader) (payload container : Buffer) :
  valid_header header ->
  createContainer header payload = Ok container ->
  parseContainer container = Ok (header_json header, payload).
Proof.
  intros Hv Hc. rewrite <- createContainer_eq in Hc.
  rewrite <- parseContainer_eq.
  rewrite (parseContainer_createContainer MAGIC MAGIC_length MAGIC_ascii
             _ _ _ Hc).
  rewrite (parse_header header Hv). reflexivity.
Qed.

Definition sample_header : TCFHeader :=
  {| magic := "TCF1"; version := 1; flags := 0; originalSize := 1234567;
     compressedSize := 3; checksum := "0f\" |}.

Lemma container_roundtrip_witness :
  exists container,
    createContainer sample_header [x01; xff; x00] = Ok container
    /\ parseContainer container
       = Ok (header_json sample_header, [x01; xff; x00]).
Proof.
  destruct (createContainer sample_header [x01; xff; x00])
    as [container|] eqn:E; [|vm_compute in E; discriminate E].
  exists container. split; [reflexivity|].
  apply container_roundtrip; [|exact E].
  repeat split; vm_compute; reflexivity.
Defined.

(** The same for any container made by [createContainer], as the
    lemmas below use it. *)
Lemma created_container_parses (header : TCFHeader)
    (payload container : Buffer) :
  valid_header header ->
  createContainer header payload = Ok container ->
  parseContainer container = Ok (header_json header, payload).
Proof.
  intros Hv Hc. rewrite <- createContainer_eq in Hc.
  rewrite <- parseContainer_eq.
  rewrite (parseContainer_createContainer MAGIC MAGIC_length MAGIC_ascii
             _ _ _ Hc).
  rewrite (parse_header header Hv). reflexivity.
Qed.

(** *** Decoding a container whose header is known *)

Lemma lookup_fields (v1 v2 v3 v4 v5 v6 : json) :
  let members := [("magic", v1); ("version", v2); ("flags", v3);
                  ("originalSize", v4); ("compressedSize", v5);
                  ("checksum", v6)] in
  lookup "magic" members = Some v1
  /\ lookup "version" members = Some v2
  /\ lookup "checksum" members = Some v6.
Proof. repeat split. Qed.

Lemma decode_parsed (tcfData payload : Buffer) (h : TCFHeader) :
  parseContainer tcfData = Ok (header_json h, payload) ->
  magic h = MAGIC -> version h = VERSION ->
  decode tcfData
  = if String.eqb (checksum h) (SHA256.digest_hex (simpleDecompress payload))
    then toString_utf8 (simpleDecompress payload)
    else Throws ChecksumMismatch.
Proof.
  intros Hp Hm Hv. unfold decode. rewrite Hp. cbn [lift obind].
  unfold header_json, get.
  destruct (lookup_fields (JStr (magic h)) (JNum (ofZ (version h)))
              (JNum (ofZ (flags h))) (JNum (ofZ (originalSize h)))
              (JNum (ofZ (compressedSize h))) (JStr (checksum h)))
    as [L1 [L2 L3]].
  cbn [lift obind]. rewrite L1, L2, L3, Hm, Hv.
  cbn [differs_str]. rewrite String.eqb_refl. cbn [negb].
  change (differs_int (Some (JNum (ofZ VERSION))) VERSION) with false.
  cbv iota.
  destruct (String.eqb (checksum h) _); reflexivity.
Qed.

Lemma toString_utf8_returns (buf : Buffer) (text : string) :
  toString_utf8 buf = Returns text ->
  is_ascii buf = true /\ text = string_of_list_byte buf.
Proof.
  unfold toString_utf8. destruct (is_ascii buf); [|discriminate].
  intros H. injection H as <-. split; reflexivity.
Qed.

Lemma encode_header_valid (originalData : Buffer) :
  (Z.of_nat (List.length originalData) < 2 ^ 53)%Z ->
  valid_header (header_of originalData).
Proof.
  intros Hlen.
  assert (List.length (simpleCompress originalData)
          <= List.length originalData).
  { unfold simpleCompress, Buffer_from. rewrite length_map.
    destruct originalData as [|c rest]; [simpl; lia|].
    pose proof (scan_length rest c 1). simpl. lia. }
  unfold valid_header, safe, header_of.
  cbn [version flags originalSize compressedSize]. unfold VERSION.
  change (2 ^ 53)%Z with 9007199254740992%Z in *.
  repeat split; lia.
Qed.

(** X27.  The text codec detects a changed payload by the digest of the
    text.  Take the container of a text and replace its payload region
    by any bytes (a change of one byte is a special case).  If [decode]
    accepts the result, what it returns is the decompression of the new
    payload, and these bytes have the SHA-256 digest of the original
    text: text with another digest is never returned.  (The decoder
    cannot tell payloads apart that decompress to the same bytes.) *)
Theorem tampered_payload (text : string) (container : Buffer) :
  (Z.of_nat (List.length (utf8 text)) < 2 ^ 53)%Z ->
  encode text = Returns container ->
  exists prefix,
    container = (prefix ++ simpleCompress (utf8 text))%list
    /\ forall payload result,
         decode (prefix ++ payload)%list = Returns result ->
         result = string_of_list_byte (simpleDecompress payload)
         /\ SHA256.digest_hex (simpleDecompress payload)
            = SHA256.digest_hex (utf8 text).
Proof.
  intros Hlen He.
  destruct (encode_returns _ _ He) as [_ Hc0].
  rewrite <- createContainer_eq in Hc0.
  pose proof (encode_header_valid (utf8 text) Hlen) as Hv.
  destruct (createContainer_prefix MAGIC _ _ _ Hc0) as [prefix [Hc Hany]].
  exists prefix. split; [exact Hc|].
  intros payload result Hd.
  specialize (Hany payload). rewrite createContainer_eq in Hany.
  pose proof (created_container_parses _ payload _ Hv Hany) as Hp.
  rewrite (decode_parsed _ _ _ Hp eq_refl eq_refl) in Hd.
  cbn [checksum header_of] in Hd.
  destruct (String.eqb_spec (SHA256.digest_hex (utf8 text))
              (SHA256.digest_hex (simpleDecompress payload))) as [Heq|];
    [|discriminate].
  apply toString_utf8_returns in Hd. destruct Hd as [_ ->].
  split; [reflexivity|]. symmetry. exact Heq.
Qed.

(** The text of three characters of code 3, and its container with the
    first payload byte changed to FF. *)
Definition three : string := string_of_list_byte [x03; x03; x03].

Definition three_container : Buffer :=
  Eval vm_compute in returned (encode three).

Definition three_prefix : Buffer :=
  firstn (List.length three_container - 3) three_container.

Lemma tampered_payload_witness :
  encode three = Returns (three_prefix ++ utf8 three)%list
  /\ decode (three_prefix ++ [xff; x03; x03])%list = Returns three
  /\ SHA256.digest_hex (simpleDecompress [xff; x03; x03])
     = SHA256.digest_hex (utf8 three).
Proof.
  assert (He : encode three = Returns three_container)
    by (vm_compute; reflexivity).
  assert (Hs : three_container = (three_prefix ++ utf8 three)%list)
    by (vm_compute; reflexivity).
  assert (Hd : decode (three_prefix ++ [xff; x03; x03])%list = Returns three)
    by (vm_compute; reflexivity).
  split; [rewrite <- Hs; exact He|]. split; [exact Hd|].
  destruct (tampered_payload three three_container
              ltac:(vm_compute; reflexivity) He) as [prefix [Hc Hany]].
  assert (Hp : prefix = three_prefix).
  { rewrite Hs in Hc. apply app_inv_tail in Hc. symmetry. exact Hc. }
  subst prefix. exact (proj2 (Hany _ _ Hd)).
Defined.

(** A changed payload that decompresses to the same bytes is accepted:
    the payload of this container is 03 03 03; with its first byte
    changed to FF the payload reads as a run of three bytes 03. *)
Lemma changed_byte_is_accepted :
  encode three = Returns (three_prefix ++ [x03; x03; x03])%list
  /\ decode (three_prefix ++ [xff; x03; x03])%list = Returns three.
Proof. split; vm_compute; reflexivity. Qed.

(** *** Round trips *)

(** X1.  ASCII text without a run of more than 255 equal characters
    decodes to itself. *)
Theorem decode_encode (text : string) (container : Buffer) :
  is_ascii (utf8 text) = true -> runs_fit (utf8 text) ->
  (Z.of_nat (List.length (utf8 text)) < 2 ^ 53)%Z ->
  encode text = Returns container ->
  decode container = Returns text.
Proof.
  intros Ha Hr Hlen He.
  destruct (encode_returns _ _ He) as [_ Hc].
  pose proof (encode_header_valid (utf8 text) Hlen) as Hv.
  pose proof (created_container_parses _ _ _ Hv Hc) as Hp.
  rewrite (decode_parsed _ _ _ Hp eq_refl eq_refl).
  rewrite (simpleDecompress_simpleCompress (utf8 text)
             (ascii_no_marker _ Ha) Hr).
  cbn [checksum header_of]. rewrite String.eqb_refl.
  unfold toString_utf8. rewrite Ha. unfold utf8.
  rewrite string_of_list_byte_of_string. reflexivity.
Qed.

(** C1 fails on the code.  A text of 256 letters [a] is one run; its
    length is stored in one byte as 0, the run decompresses to nothing,
    and [decode] rejects the container [encode] has just made. *)
Definition long_run : string := string_of_list_byte (repeat x61 256).

Definition long_run_container : Buffer :=
  Eval vm_compute in returned (encode long_run).

Theorem long_run_does_not_roundtrip :
  exists container,
    encode long_run = Returns container
    /\ decode container = Throws ChecksumMismatch.
Proof. exists long_run_container. split; vm_compute; reflexivity. Qed.

(** The empty container header: four magic bytes and a header length of
    0.  None of the three framing checks rejects it, and it is not
    parsed: the empty string is not JSON. *)
Definition empty_header : Buffer :=
  (list_byte_of_string MAGIC ++ [x00; x00; x00; x00])%list.

Lemma empty_header_is_rejected :
  ~ List.length empty_header < 8
  /\ firstn 4 empty_header = list_byte_of_string MAGIC
  /\ 8 + N.to_nat (readUInt32LE_4 empty_header) <= List.length empty_header
  /\ parseContainer empty_header = Err SyntaxError.
Proof.
  repeat split; try (vm_compute; reflexivity); vm_compute; lia.
Qed.

End TextCodecFacts.

(** ** The image codec: what [encode] validates *)

Module ImageEncodeFacts.
Import JSNumber JSNumberFacts JSON JSONFacts Container ContainerFacts.
Import ImageCodec.
Local Open Scope string_scope.

(** *** The length of a printed header *)

Lemma length_list_byte_of_string (s : string) :
  List.length (list_byte_of_string s) = String.length s.
Proof.
  unfold list_byte_of_string. rewrite length_map.
  induction s as [|c s IH]; [reflexivity|].
  cbn [list_ascii_of_string List.length String.length]. rewrite IH. reflexivity.
Qed.

Lemma length_string_of_list_ascii (l : list ascii) :
  String.length (string_of_list_ascii l) = List.length l.
Proof. induction l as [|c l IH]; simpl; [reflexivity|]. rewrite IH. reflexivity. Qed.

Lemma escape_char_length (c : ascii) : String.length (escape_char c) <= 6.
Proof.
  destruct c as [[] [] [] [] [] [] [] []]; vm_compute;
    repeat first [apply le_n|apply le_S].
Qed.

Lemma escape_length (s : string) :
  String.length (escape s) <= 6 * String.length s.
Proof.
  induction s as [|c s IH]; [simpl; lia|].
  cbn [escape String.length]. rewrite length_append.
  pose proof (escape_char_length c). lia.
Qed.

Lemma quote_length (s : string) :
  String.length (quote s) <= 6 * String.length s + 2.
Proof.
  unfold quote, str1. cbn [String.length]. rewrite length_append.
  cbn [String.length]. pose proof (escape_length s). lia.
Qed.

Lemma rdigits_length (fuel : nat) :
  forall n, List.length (rdigits fuel n) <= fuel.
Proof.
  induction fuel as [|fuel IH]; intros n; cbn [rdigits List.length]; [lia|].
  destruct (n <? 10)%Z; [simpl; lia|]. specialize (IH (n / 10)%Z). lia.
Qed.

Lemma nat_string_length (n : Z) :
  (0 <= n < 2 ^ 53)%Z -> String.length (nat_string n) <= 53.
Proof.
  intros Hn. unfold nat_string, digits.
  rewrite length_string_of_list_ascii, length_map, length_rev.
  pose proof (rdigits_length (S (Z.to_nat (Z.log2 n))) n) as H.
  assert (Z.log2 n < 53)%Z.
  { destruct (Z.eq_dec n 0) as [->|Hnz]; [reflexivity|].
    apply Z.log2_lt_pow2; lia. }
  pose proof (Z.log2_nonneg n). lia.
Qed.

(** A bound on the text of a value, and of the members of an object. *)
Definition size_bound (v : json) : nat :=
  match v with
  | JStr s => 6 * String.length s + 2
  | _ => 54
  end.

Definition members_bound (members : list (string * json)) : nat :=
  fold_right
    (fun m acc => 6 * String.length (fst m) + size_bound (snd m) + 4 + acc)
    0 members.

Lemma stringify_simple_length (v : json) :
  simple v -> String.length (stringify v) <= size_bound v.
Proof.
  intros [s|z Hz]; cbn [stringify size_bound].
  - apply quote_length.
  - rewrite (Number_toString_int z Hz).
    destruct (z =? 0)%Z; [simpl; lia|].
    rewrite length_append.
    pose proof (nat_string_length (Z.abs z) ltac:(lia)).
    destruct (z <? 0)%Z; simpl; lia.
Qed.

Lemma member_string_bound (m : string * json) :
  simple (snd m) ->
  String.length (member_string m)
  <= 6 * String.length (fst m) + size_bound (snd m) + 3.
Proof.
  intros Hs. unfold member_string. rewrite !length_append.
  pose proof (quote_length (fst m)).
  pose proof (stringify_simple_length (snd m) Hs).
  cbn [String.length]. lia.
Qed.

Lemma join_bound (members : list (string * json)) :
  Forall (fun m => simple (snd m)) members ->
  String.length (join "," (map member_string members))
  <= members_bound members.
Proof.
  induction 1 as [|m members Hm _ IH]; [simpl; lia|].
  pose proof (member_string_bound m Hm).
  cbn [members_bound fold_right]. fold (members_bound members).
  destruct members as [|m' members].
  - cbn [map join]. lia.
  - cbn [map]. rewrite join_cons, !length_append. cbn [map] in IH.
    cbn [String.length]. lia.
Qed.

Lemma stringify_object_length (members : list (string * json)) :
  Forall (fun m => simple (snd m)) members ->
  String.length (stringify (JObj members)) <= members_bound members + 2.
Proof.
  intros Hs. pose proof (join_bound members Hs) as Hj.
  change (stringify (JObj members))
    with ("{" ++ join "," (map member_string members) ++ "}").
  rewrite !length_append. cbn [String.length]. lia.
Qed.

(** A header that is short enough is framed. *)
Lemma createContainer_succeeds (MAGIC : string) (header : json)
    (payload : Buffer) :
  String.length (stringify header) < 4000 ->
  exists container,
    Container.createContainer MAGIC header payload = Ok container.
Proof.
  intros Hlen. unfold Container.createContainer, writeUInt32LE.
  rewrite length_list_byte_of_string.
  destruct (N.ltb_spec (N.of_nat (String.length (stringify header))) (2 ^ 32))
    as [_|Hge].
  - cbn [bind]. eexists. reflexivity.
  - change (2 ^ 32)%N with 4294967296%N in Hge. lia.
Qed.

(** *** The digest *)

Lemma digest_hex_length (data : Buffer) :
  String.length (SHA256.digest_hex data) = 64.
Proof.
  unfold SHA256.digest_hex, SHA256.hash_words.
  rewrite length_string_of_list_ascii.
  destruct (fold_left SHA256.compress _ _) as [[[[[[[a b] c] d] e] f] g] h].
  reflexivity.
Qed.

(** *** What [encode] checks *)

(** The payload and the header [encode] builds. *)
Definition payload_of (image : RawImage) (quality : Z) : Buffer :=
  serializeBlocks
    (compressBlocks
       (rgbToYCoCg (raw_data image) (info_width image) (info_height image)
                   (info_channels image))
       (info_width image) (info_height image) (ofZ quality)).

Definition header_of (image : RawImage) (quality : Z) : ICFHeader :=
  {| h_magic := MAGIC;
     h_version := VERSION;
     h_width := info_width image;
     h_height := info_height image;
     h_channels := info_channels image;
     h_colorSpace := "YCoCg";
     h_quality := quality;
     h_compressedSize := List.length (payload_of image quality);
     h_checksum := SHA256.digest_hex (raw_data image) |}.

(** Sizes and a quality that JavaScript numbers hold exactly. *)
Definition safe_nat (n : nat) : Prop := (Z.of_nat n < 2 ^ 53)%Z.

Definition within_limits (image : RawImage) (quality : Z) : Prop :=
  safe_nat (info_width image) /\ safe_nat (info_height image)
  /\ safe_nat (info_channels image)
  /\ (Z.abs quality < 2 ^ 53)%Z
  /\ safe_nat (List.length (payload_of image quality)).

Lemma header_length (image : RawImage) (quality : Z) :
  within_limits image quality ->
  String.length (stringify (header_json (header_of image quality))) < 4000.
Proof.
  intros [Hw [Hh [Hc [Hq Hp]]]]. unfold safe_nat in *.
  unfold header_json, header_of, ofNat.
  cbn [h_magic h_version h_width h_height h_channels h_colorSpace h_quality
       h_compressedSize h_checksum].
  rewrite !ofZ_exact by (try assumption; try lia; vm_compute; reflexivity).
  eapply Nat.le_lt_trans.
  - apply stringify_object_length.
    repeat constructor; cbn [snd]; try lia; try assumption;
      vm_compute; reflexivity.
  - unfold members_bound. cbn [fold_right fst snd size_bound].
    rewrite digest_hex_length. vm_compute. lia.
Qed.

(** C4, as the code has it.  [encode] rejects an image whose metadata
    lacks a width or a height, or has a zero one, with 'Cannot determine
    image dimensions', whatever the quality and before any other work.  It
    does not look at the quality: with both dimensions present every
    quality (0, negative, above 100) gives a container. *)
Theorem encode_validates_dimensions_only (image : RawImage) (quality : Z) :
  (falsy (metadata_width image) = true \/ falsy (metadata_height image) = true ->
   encode image quality = Err NoDimensions)
  /\ (falsy (metadata_width image) = false ->
      falsy (metadata_height image) = false ->
      within_limits image quality ->
      exists icfData, encode image quality = Ok icfData).
Proof.
  split.
  - intros H. unfold encode.
    destruct H as [-> | ->]; [reflexivity|].
    rewrite orb_true_r. reflexivity.
  - intros Hw Hh Hl. unfold encode. rewrite Hw, Hh. cbn [orb]. cbv zeta.
    unfold createContainer.
    apply createContainer_succeeds.
    exact (header_length image quality Hl).
Qed.

(** C4, as stated, fails: the quality 150 is encoded. *)
Definition quality_150_icf : Buffer :=
  Eval vm_compute in unwrap (encode ImageAlphaFacts.two_pixels 150).

Lemma out_of_range_quality_is_encoded :
  (100 < 150)%Z /\ encode ImageAlphaFacts.two_pixels 150 = Ok quality_150_icf.
Proof. split; [lia|vm_compute; reflexivity]. Qed.

Lemma zero_quality_is_encoded :
  is_ok (encode ImageAlphaFacts.two_pixels 0) = true
  /\ is_ok (encode ImageAlphaFacts.two_pixels (-7)) = true.
Proof. split; vm_compute; reflexivity. Qed.

End ImageEncodeFacts.

(** ** The image codec: no integrity check *)

Module ImageIntegrityFacts.
Import JSNumber JSNumberFacts JSON JSONFacts Container ContainerFacts Dynamic.
Import ImageCodec ImageEncodeFacts.
Local Open Scope string_scope.

Lemma icf_MAGIC_length : List.length (list_byte_of_string MAGIC) = 4.
Proof. vm_compute. reflexivity. Qed.

Lemma icf_MAGIC_ascii : toString_ascii (list_byte_of_string MAGIC) = MAGIC.
Proof. vm_compute. reflexivity. Qed.

Lemma icf_createContainer_eq (header : ICFHeader) (payload : Buffer) :
  Container.createContainer MAGIC (header_json header) payload
  = createContainer header payload.
Proof.
  exact (eq_refl (Container.createContainer MAGIC (header_json header) payload)).
Qed.

Lemma icf_parseContainer_eq (icfData : Buffer) :
  Container.parseContainer MAGIC icfData = parseContainer icfData.
Proof. exact (eq_refl (Container.parseContainer MAGIC icfData)). Qed.

Definition valid_header (h : ICFHeader) : Prop :=
  (Z.abs (h_version h) < 2 ^ 53)%Z /\ safe_nat (h_width h)
  /\ safe_nat (h_height h) /\ safe_nat (h_channels h)
  /\ (Z.abs (h_quality h) < 2 ^ 53)%Z /\ safe_nat (h_compressedSize h).

Lemma icf_parse_header (h : ICFHeader) :
  valid_header h -> parse (stringify (header_json h)) = Ok (header_json h).
Proof.
  intros [Hv [Hw [Hh [Hc [Hq Hs]]]]]. unfold safe_nat in *.
  unfold header_json, ofNat.
  rewrite !ofZ_exact by (try assumption; lia).
  apply parse_stringify_object; [discriminate|].
  repeat constructor; cbn [snd]; try assumption; lia.
Qed.

Lemma parse_container (h : ICFHeader) (payload icfData : Buffer) :
  valid_header h ->
  createContainer h payload = Ok icfData ->
  parseContainer icfData = Ok (header_json h, payload).
Proof.
  intros Hv Hc. rewrite <- icf_createContainer_eq in Hc.
  rewrite <- icf_parseContainer_eq.
  rewrite (parseContainer_createContainer MAGIC icf_MAGIC_length icf_MAGIC_ascii
             _ _ _ Hc).
  rewrite (icf_parse_header h Hv). reflexivity.
Qed.

(** The fields [decode] reads; the checksum is not among them. *)
Lemma icf_lookup_fields (v1 v2 v3 v4 v5 v6 v7 v8 v9 : json) :
  let members := [("magic", v1); ("version", v2); ("width", v3);
                  ("height", v4); ("channels", v5); ("colorSpace", v6);
                  ("quality", v7); ("compressedSize", v8);
                  ("checksum", v9)] in
  lookup "magic" members = Some v1
  /\ lookup "version" members = Some v2
  /\ lookup "width" members = Some v3
  /\ lookup "height" members = Some v4
  /\ lookup "channels" members = Some v5
  /\ lookup "quality" members = Some v7.
Proof. repeat split. Qed.

(** What [decode] does once the container is parsed. *)
Definition decode_parsed (m v w h q c : option json) (compressedData : Buffer)
  : outcome DecodedImage :=
  if TextCodec.differs_str m MAGIC then Throws InvalidMagic
  else if TextCodec.differs_int v VERSION then Throws UnsupportedVersion
  else
    compressedBlocks <~ lift (parse (string_of_list_byte compressedData)) ;;
    width <~ dimension w ;;
    height <~ dimension h ;;
    quality <~ ToNumber q ;;
    ycocgData <~ decompressBlocks compressedBlocks width height quality ;;
    channels <~ dimension c ;;
    Returns {| decoded_data := ycocgToRgb ycocgData width height channels;
               decoded_width := width;
               decoded_height := height;
               decoded_channels := channels |}.

Lemma decode_object (icfData compressedData : Buffer)
    (v1 v2 v3 v4 v5 v6 v7 v8 v9 : json) :
  parseContainer icfData
  = Ok (JObj [("magic", v1); ("version", v2); ("width", v3);
              ("height", v4); ("channels", v5); ("colorSpace", v6);
              ("quality", v7); ("compressedSize", v8); ("checksum", v9)],
        compressedData) ->
  decode icfData
  = decode_parsed (Some v1) (Some v2) (Some v3) (Some v4) (Some v7) (Some v5)
                  compressedData.
Proof.
  intros Hp. unfold decode. rewrite Hp. cbn [lift obind].
  unfold get.
  destruct (icf_lookup_fields v1 v2 v3 v4 v5 v6 v7 v8 v9)
    as [L1 [L2 [L3 [L4 [L5 L6]]]]].
  cbn [lift obind]. rewrite L1, L2, L3, L4, L5, L6.
  unfold decode_parsed.
  destruct (TextCodec.differs_str (Some v1) MAGIC); [reflexivity|].
  cbn [lift obind].
  destruct (TextCodec.differs_int (Some v2) VERSION); [reflexivity|].
  destruct (parse (string_of_list_byte compressedData)); reflexivity.
Qed.

Definition with_checksum (h : ICFHeader) (digest : string) : ICFHeader :=
  {| h_magic := h_magic h;
     h_version := h_version h;
     h_width := h_width h;
     h_height := h_height h;
     h_channels := h_channels h;
     h_colorSpace := h_colorSpace h;
     h_quality := h_quality h;
     h_compressedSize := h_compressedSize h;
     h_checksum := digest |}.

(** X11.  [decode] gives the same result whatever checksum the header holds:
    it verifies nothing. *)
Theorem decode_ignores_checksum (h : ICFHeader) (digest : string)
    (payload icfData icfData' : Buffer) :
  valid_header h ->
  createContainer h payload = Ok icfData ->
  createContainer (with_checksum h digest) payload = Ok icfData' ->
  decode icfData = decode icfData'.
Proof.
  intros Hv Hc Hc'.
  assert (Hv' : valid_header (with_checksum h digest)) by exact Hv.
  pose proof (parse_container h payload icfData Hv Hc) as Hp.
  pose proof (parse_container _ payload icfData' Hv' Hc') as Hp'.
  unfold header_json in Hp, Hp'.
  rewrite (decode_object _ _ _ _ _ _ _ _ _ _ _ Hp).
  rewrite (decode_object _ _ _ _ _ _ _ _ _ _ _ Hp').
  reflexivity.
Qed.

(** C3 fails on the code.  The image decoder verifies nothing.  In the
    container [encode] makes of the two-pixel image at quality 85, byte
    246 lies in the payload region and is a digit 0; with that one byte
    changed to the digit 9, the container decodes without error, to an
    image whose first pixel is white instead of black. *)
Theorem changed_digit_changes_pixels :
  encode ImageAlphaFacts.two_pixels 85 = Ok ImageAlphaFacts.two_pixels_icf
  /\ 8 + N.to_nat (readUInt32LE_4 ImageAlphaFacts.two_pixels_icf) <= 246
  /\ nth_error ImageAlphaFacts.two_pixels_icf 246 = Some x30
  /\ decode ImageAlphaFacts.two_pixels_icf
     = Returns {| decoded_data := [x00; x00; x00; xff; x00; x00; x00; xff];
                  decoded_width := 2;
                  decoded_height := 1;
                  decoded_channels := 4 |}
  /\ decode (write ImageAlphaFacts.two_pixels_icf 246 x39)
     = Returns {| decoded_data := [xff; xff; xff; xff; x00; x00; x00; xff];
                  decoded_width := 2;
                  decoded_height := 1;
                  decoded_channels := 4 |}.
Proof.
  split; [vm_compute; reflexivity|].
  split; [vm_compute; lia|].
  repeat split; vm_compute; reflexivity.
Qed.

End ImageIntegrityFacts.

(** ** The magic tag is compared as ASCII *)

Module MagicFacts.
Import JSNumber JSON Container.

(** A tag whose first byte is [T] with the high bit set is taken for
    [TCF1]. *)
Lemma high_bit_magic_is_accepted :
  firstn 4 [xd4; x43; x46; x31; x01; x00; x00; x00; x37; xaa]
  <> list_byte_of_string TextCodec.MAGIC
  /\ TextCodec.parseContainer
       [xd4; x43; x46; x31; x01; x00; x00; x00; x37; xaa]
     = Ok (JNum (Num 7), [xaa]).
Proof. split; [discriminate|vm_compute; reflexivity]. Qed.

End MagicFacts.

(** ** Rounding error *)

Module RoundingFacts.
Import JSNumber JSNumberFacts.
Local Open Scope Q_scope.

Lemma two_pow_succ (k : Z) : two_pow (k + 1) == 2 * two_pow k.
Proof. rewrite two_pow_add. change (two_pow 1) with 2. ring. Qed.

Lemma two_pow_le_inv (a b : Z) : two_pow a <= two_pow b -> (a <= b)%Z.
Proof.
  intros H. destruct (Z.le_gt_cases a b) as [Hab|Hab]; [exact Hab|].
  exfalso.
  assert (H1 : two_pow (b + 1) <= two_pow a) by (apply two_pow_le; lia).
  rewrite two_pow_succ in H1.
  pose proof (two_pow_pos b). lra.
Qed.

Lemma Qle_frac (q : Q) (a : Z) (d : positive) :
  q * inject_Z (Zpos d) <= inject_Z a -> q <= a # d.
Proof.
  destruct q as [qn qd]. unfold Qle, Qmult, inject_Z. simpl. nia.
Qed.

Lemma Qabs_frac (x : Q) : Qabs x = Z.abs (Qnum x) # Qden x.
Proof. destruct x. reflexivity. Qed.

(** [ilog2] does not overestimate. *)
Lemma ilog2_lower (x : Q) : ~ x == 0 -> two_pow (ilog2 x) <= Qabs x.
Proof.
  intros Hx. rewrite Qabs_frac. apply Qle_frac.
  unfold ilog2.
  set (a := Z.abs (Qnum x)). set (b := Zpos (Qden x)).
  assert (Ha : (0 < a)%Z).
  { unfold a. destruct x as [n d]. unfold Qeq in Hx. simpl in *. lia. }
  assert (Hb : (0 < b)%Z) by (unfold b; lia).
  pose proof (Z.log2_spec a Ha) as [Hla _].
  pose proof (Z.log2_spec b Hb) as [_ Hlb].
  pose proof (Z.log2_nonneg a) as Hla0.
  pose proof (Z.log2_nonneg b) as Hlb0.
  set (la := Z.log2 a) in *. set (lb := Z.log2 b) in *.
  assert (Hlow : two_pow (la - lb - 1) * inject_Z b <= inject_Z a).
  { apply Qle_trans with (two_pow (la - lb - 1) * two_pow (lb + 1)).
    - apply Qmult_le_l; [apply two_pow_pos|].
      rewrite (@two_pow_nonneg (lb + 1)) by lia.
      rewrite <- Zle_Qle. replace (lb + 1)%Z with (Z.succ lb) by lia. lia.
    - rewrite <- two_pow_add.
      replace (la - lb - 1 + (lb + 1))%Z with la by lia.
      rewrite (@two_pow_nonneg la) by lia.
      rewrite <- Zle_Qle. exact Hla. }
  destruct (Z.leb_spec 0 (la - lb)) as [Hd|Hd].
  - destruct (Z.leb_spec (b * 2 ^ (la - lb)) a) as [Hab|_]; [|exact Hlow].
    rewrite (two_pow_nonneg Hd), <- inject_Z_mult, <- Zle_Qle. lia.
  - destruct (Z.leb_spec b (a * 2 ^ (- (la - lb)))) as [Hab|_]; [|exact Hlow].
    apply Qle_trans
      with (two_pow (la - lb) * (inject_Z a * two_pow (- (la - lb)))).
    + apply Qmult_le_l; [apply two_pow_pos|].
      rewrite (@two_pow_nonneg (- (la - lb))) by lia.
      rewrite <- inject_Z_mult, <- Zle_Qle. exact Hab.
    + rewrite (Qmult_comm (inject_Z a)), Qmult_assoc, two_pow_opp.
      rewrite Qmult_1_l. apply Qle_refl.
Qed.

(** The nearest integer is within one half. *)
Lemma half_even_err (q : Q) :
  - (1 # 2) <= inject_Z (half_even q) - q <= 1 # 2.
Proof.
  unfold half_even.
  pose proof (Qfloor_le q) as Hlo.
  pose proof (Qlt_floor q) as Hhi.
  rewrite inject_Z_plus in Hhi. change (inject_Z 1) with 1 in Hhi.
  set (f := Qfloor q) in *.
  destruct (Qcompare (q - inject_Z f) (1 # 2)) eqn:E.
  - apply Qeq_alt in E.
    destruct (Z.even f); [|rewrite inject_Z_plus; change (inject_Z 1) with 1];
      lra.
  - apply Qlt_alt in E. lra.
  - apply Qgt_alt in E. rewrite inject_Z_plus. change (inject_Z 1) with 1. lra.
Qed.

Lemma roundTo_err (p : Z) (x : Q) :
  ~ x == 0 -> Qabs (roundTo p x - x) <= two_pow (ilog2 x - p).
Proof.
  intros Hx. unfold roundTo.
  destruct (Qeq_bool x 0) eqn:E0.
  { apply Qeq_bool_eq in E0. contradiction. }
  set (e := ilog2 x). set (s := (p - 1 - e)%Z).
  rewrite Qred_correct.
  pose proof (half_even_err (x * two_pow s)) as Hh.
  set (h := inject_Z (half_even (x * two_pow s))) in *.
  assert (Hd : h * two_pow (- s) - x == (h - x * two_pow s) * two_pow (- s)).
  { assert (H1 : x * two_pow s * two_pow (- s) == x).
    { rewrite <- Qmult_assoc, two_pow_opp. ring. }
    rewrite <- H1 at 1. ring. }
  rewrite Hd, Qabs_Qmult.
  rewrite (Qabs_pos (two_pow (- s))) by (apply Qlt_le_weak, two_pow_pos).
  assert (He : two_pow (e - p) == (1 # 2) * two_pow (- s)).
  { replace (e - p)%Z with (- 1 + - s)%Z by (unfold s; lia).
    rewrite two_pow_add. reflexivity. }
  rewrite He. apply Qmult_le_compat_r; [|apply Qlt_le_weak, two_pow_pos].
  apply Qabs_Qle_condition. exact Hh.
Qed.

(** Rounding a value of magnitude at most [2^k] to [p] bits moves it by
    at most [2^(k-p)], and does not overflow while [k + 1 < emax]. *)
Lemma round_err (p emax k : Z) (x : Q) :
  (0 <= p)%Z -> (k + 1 < emax)%Z ->
  Qabs x <= two_pow k ->
  exists r, overflow emax x (roundTo p x) = Num r
            /\ Qabs (r - x) <= two_pow (k - p).
Proof.
  intros Hp Hk Hx.
  assert (He : Qabs (roundTo p x - x) <= two_pow (k - p)).
  { destruct (Qeq_dec x 0) as [E|E].
    - unfold roundTo.
      destruct (Qeq_bool x 0) eqn:E0.
      + assert (H0 : 0 - x == 0) by (rewrite E; ring).
        rewrite H0. apply Qlt_le_weak, two_pow_pos.
      + exfalso. apply Qeq_eq_bool in E. congruence.
    - apply Qle_trans with (two_pow (ilog2 x - p)).
      + apply roundTo_err. exact E.
      + apply two_pow_le.
        assert (ilog2 x <= k)%Z; [|lia].
        apply two_pow_le_inv.
        apply Qle_trans with (Qabs x); [apply ilog2_lower; exact E|exact Hx]. }
  exists (roundTo p x). split; [|exact He].
  unfold overflow.
  destruct (Qle_bool (two_pow emax) (Qabs (roundTo p x))) eqn:Eo; [|reflexivity].
  exfalso. apply Qle_bool_imp_le in Eo.
  assert (H1 : Qabs (roundTo p x) <= two_pow k + two_pow (k - p)).
  { apply Qle_trans with (Qabs x + Qabs (roundTo p x - x)).
    - assert (Hs : roundTo p x == x + (roundTo p x - x)) by ring.
      rewrite Hs at 1. apply Qabs_triangle.
    - apply Qplus_le_compat; assumption. }
  assert (H2 : two_pow (k - p) <= two_pow k) by (apply two_pow_le; lia).
  assert (H3 : two_pow (k + 1) <= two_pow (emax - 1)) by (apply two_pow_le; lia).
  rewrite two_pow_succ in H3.
  assert (H4 : two_pow emax == 2 * two_pow (emax - 1)).
  { rewrite <- two_pow_succ. replace (emax - 1 + 1)%Z with emax by lia.
    reflexivity. }
  pose proof (two_pow_pos (emax - 1)).
  rewrite H4 in Eo. lra.
Qed.

(** Doubles of magnitude at most 2. *)
Lemma fl_small (x : Q) :
  - (2) <= x <= 2 ->
  exists r, fl x = Num r
            /\ - (1 # 4503599627370496) <= r - x <= 1 # 4503599627370496.
Proof.
  intros Hx.
  destruct (round_err 53 1024 1 x) as [r [Hr He]]; [lia|lia| |].
  - apply Qabs_Qle_condition. exact Hx.
  - exists r. split; [exact Hr|].
    apply Qabs_Qle_condition in He. exact He.
Qed.

(** Doubles of magnitude at most 256. *)
Lemma fl_byte (x : Q) :
  - (256) <= x <= 256 ->
  exists r, fl x = Num r
            /\ - (1 # 35184372088832) <= r - x <= 1 # 35184372088832.
Proof.
  intros Hx.
  destruct (round_err 53 1024 8 x) as [r [Hr He]]; [lia|lia| |].
  - apply Qabs_Qle_condition. exact Hx.
  - exists r. split; [exact Hr|].
    apply Qabs_Qle_condition in He. exact He.
Qed.

(** Single-precision values of magnitude at most 2. *)
Lemma fround_small (x : Q) :
  - (2) <= x <= 2 ->
  exists r, fround (Num x) = Num r
            /\ - (1 # 8388608) <= r - x <= 1 # 8388608.
Proof.
  intros Hx.
  destruct (round_err 24 128 1 x) as [r [Hr He]]; [lia|lia| |].
  - apply Qabs_Qle_condition. exact Hx.
  - exists r. split; [exact Hr|].
    apply Qabs_Qle_condition in He. exact He.
Qed.

End RoundingFacts.

(** ** The colour transform and its inverse *)

Module ColourFacts.
Import JSNumber JSNumberFacts RoundingFacts ImageCodec.
Local Open Scope Q_scope.

Lemma add_Num (a b : Q) : add (Num a) (Num b) = fl (a + b).
Proof. reflexivity. Qed.

Lemma sub_Num (a b : Q) : sub (Num a) (Num b) = fl (a + - b).
Proof. reflexivity. Qed.

Lemma div_two (a : Q) : div (Num a) two = fl (a * (1 # 2)).
Proof. reflexivity. Qed.

Lemma div_255 (a : Q) : div (Num a) n255 = fl (a * (1 # 255)).
Proof. reflexivity. Qed.

Lemma mul_255 (a : Q) : mul (Num a) n255 = fl (a * 255).
Proof. reflexivity. Qed.

(** [Math.round] of a value within a quarter of an integer. *)
Lemma Qfloor_near (x : Q) (z : Z) :
  - (1 # 4) <= x - inject_Z z <= 1 # 4 -> Qfloor (x + (1 # 2)) = z.
Proof.
  intros Hx.
  pose proof (Qfloor_le (x + (1 # 2))) as Hlo.
  pose proof (Qlt_floor (x + (1 # 2))) as Hhi.
  set (f := Qfloor (x + (1 # 2))) in *.
  assert (H1 : (f < z + 1)%Z).
  { rewrite Zlt_Qlt, inject_Z_plus. change (inject_Z 1) with 1. lra. }
  assert (H2 : (z < f + 1)%Z).
  { rewrite Zlt_Qlt. lra. }
  lia.
Qed.

Lemma clamp_exact (x : Q) (z : Z) :
  (0 <= z <= 255)%Z ->
  - (1 # 4) <= x - inject_Z z <= 1 # 4 ->
  Math_max (Num 0) (Math_min n255 (Math_round (Num x))) = Num (inject_Z z).
Proof.
  intros Hz Hx. unfold Math_round. rewrite (Qfloor_near x z Hx).
  unfold Math_min, n255, lt.
  destruct (Qcompare (inject_Z z) 255) eqn:E1.
  - apply Qeq_alt in E1. change 255 with (inject_Z 255) in E1.
    apply (proj1 (inject_Z_injective z 255)) in E1. subst z. reflexivity.
  - unfold Math_max, lt.
    destruct (Qcompare 0 (inject_Z z)) eqn:E2; [|reflexivity|].
    + apply Qeq_alt in E2. change 0 with (inject_Z 0) in E2.
      symmetry in E2. apply (proj1 (inject_Z_injective z 0)) in E2. subst z. reflexivity.
    + apply Qgt_alt in E2. change 0 with (inject_Z 0) in E2.
      rewrite <- Zlt_Qlt in E2. lia.
  - apply Qgt_alt in E1. change 255 with (inject_Z 255) in E1.
    rewrite <- Zlt_Qlt in E1. lia.
Qed.

(** The number a byte of a [Buffer] reads as. *)
Definition channel (c : byte) : number := ofZ (Z.of_N (byteN c)).

Lemma byteN_bound (c : byte) : (0 <= Z.of_N (byteN c) <= 255)%Z.
Proof.
  pose proof (Byte.to_N_bounded c) as H. unfold byteN. lia.
Qed.

Lemma channel_exact (c : byte) : channel c = Num (inject_Z (Z.of_N (byteN c))).
Proof.
  unfold channel. apply ofZ_exact.
  pose proof (byteN_bound c). change (2 ^ 53)%Z with 9007199254740992%Z. lia.
Qed.

Lemma toUint8_channel (c : byte) :
  toUint8 (Num (inject_Z (Z.of_N (byteN c)))) = c.
Proof.
  unfold toUint8, inject_Z. simpl Qnum. simpl Qden.
  rewrite Z.quot_1_r.
  pose proof (byteN_bound c) as Hc.
  rewrite Z.mod_small by lia.
  rewrite N2Z.id. unfold byteN. rewrite Byte.of_to_N. reflexivity.
Qed.

Ltac round_step :=
  rewrite ?add_Num, ?sub_Num, ?div_two, ?div_255, ?mul_255;
  match goal with
  | |- context [fround (Num ?x)] =>
      let v := fresh "v" in
      let E := fresh "E" in
      let H := fresh "H" in
      destruct (fround_small x) as [v [E H]]; [lra|rewrite !E; clear E]
  | |- context [fl (?x * 255)] =>
      let v := fresh "v" in
      let E := fresh "E" in
      let H := fresh "H" in
      destruct (fl_byte (x * 255)) as [v [E H]]; [lra|rewrite !E; clear E]
  | |- context [fl ?x] =>
      let v := fresh "v" in
      let E := fresh "E" in
      let H := fresh "H" in
      destruct (fl_small x) as [v [E H]]; [lra|rewrite !E; clear E]
  end.

(** Forward then inverse, on the numbers of one pixel. *)
Lemma pixel_roundtrip (R G B : Z) :
  (0 <= R <= 255)%Z -> (0 <= G <= 255)%Z -> (0 <= B <= 255)%Z ->
  let '(y, co, cg) :=
    rgbToYCoCg_pixel (Num (inject_Z R)) (Num (inject_Z G))
                     (Num (inject_Z B)) in
  ycocgToRgb_pixel y co cg
  = (Num (inject_Z R), Num (inject_Z G), Num (inject_Z B)).
Proof.
  intros HR HG HB.
  assert (HR' : 0 <= inject_Z R <= 255).
  { change 0 with (inject_Z 0). change 255 with (inject_Z 255).
    rewrite <- !Zle_Qle. exact HR. }
  assert (HG' : 0 <= inject_Z G <= 255).
  { change 0 with (inject_Z 0). change 255 with (inject_Z 255).
    rewrite <- !Zle_Qle. exact HG. }
  assert (HB' : 0 <= inject_Z B <= 255).
  { change 0 with (inject_Z 0). change 255 with (inject_Z 255).
    rewrite <- !Zle_Qle. exact HB. }
  set (r := inject_Z R) in *. set (g := inject_Z G) in *.
  set (b := inject_Z B) in *.
  unfold rgbToYCoCg_pixel. cbv zeta.
  do 12 round_step.
  unfold ycocgToRgb_pixel. cbv zeta.
  do 6 round_step.
  unfold clamp255.
  do 3 round_step.
  rewrite (clamp_exact _ R HR), (clamp_exact _ G HG), (clamp_exact _ B HB);
    [reflexivity|fold b; lra|fold g; lra|fold r; lra].
Qed.

End ColourFacts.

(** ** Forward and inverse transform of an image *)

Module ColourRoundTrip.
Import JSNumber ImageCodec ColourFacts.

Lemma sample_channel (buf : Buffer) (i : nat) (c : byte) :
  nth_error buf i = Some c -> sample buf i = channel c.
Proof. intros H. unfold sample. rewrite H. reflexivity. Qed.

(** One pixel, from bytes to bytes. *)
Lemma pixel_bytes (r g b : byte) :
  let '(y, co, cg) := rgbToYCoCg_pixel (channel r) (channel g) (channel b) in
  let '(r', g', b') := ycocgToRgb_pixel y co cg in
  (toUint8 r', toUint8 g', toUint8 b') = (r, g, b).
Proof.
  rewrite !channel_exact.
  pose proof (pixel_roundtrip _ _ _ (byteN_bound r) (byteN_bound g)
                              (byteN_bound b)) as H.
  destruct (rgbToYCoCg_pixel _ _ _) as [[y co] cg].
  rewrite H. rewrite !toUint8_channel. reflexivity.
Qed.

(** The three coefficients of pixel [i] in the array built by
    [rgbToYCoCg]. *)
Lemma read_flat (F : nat -> number * number * number) (l : list nat)
    (i : nat) (ycocgData : Float32Array) :
  (i < List.length l)%nat ->
  ycocgData = flat_map (fun j => let '(y, co, cg) := F j in [y; co; cg]) l ->
  (read ycocgData (i * 3), read ycocgData (i * 3 + 1),
   read ycocgData (i * 3 + 2)) = F (nth i l 0%nat).
Proof.
  intros Hi ->. revert i Hi.
  induction l as [|j l IH]; intros i Hi; [simpl in Hi; lia|].
  cbn [flat_map]. destruct i as [|i].
  - cbn [nth]. destruct (F j) as [[y co] cg]. reflexivity.
  - cbn [nth]. rewrite <- (IH i) by (simpl in Hi; lia).
    destruct (F j) as [[y co] cg].
    replace (S i * 3)%nat with (S (S (S (i * 3)))) by lia.
    reflexivity.
Qed.

Lemma write_app {A} (l1 l2 : list A) (k : nat) (v : A) :
  write (l1 ++ l2) (List.length l1 + k) v = l1 ++ write l2 k v.
Proof.
  induction l1 as [|x l1 IH]; [reflexivity|].
  cbn [List.length Nat.add app write]. rewrite IH. reflexivity.
Qed.

Lemma write_three {A} (l1 rest : list A) (x0 x1 x2 a b c : A) (k : nat) :
  List.length l1 = k ->
  write (write (write (l1 ++ x0 :: x1 :: x2 :: rest) k a) (k + 1) b)
        (k + 2) c
  = l1 ++ a :: b :: c :: rest.
Proof.
  intros <-.
  assert (E0 : write (l1 ++ x0 :: x1 :: x2 :: rest) (List.length l1) a
               = l1 ++ a :: x1 :: x2 :: rest).
  { rewrite <- (Nat.add_0_r (List.length l1)). rewrite write_app.
    reflexivity. }
  rewrite E0, !write_app. reflexivity.
Qed.

(** Three consecutive elements of a list. *)
Lemma split_three {A} (l : list A) (k : nat) :
  (k + 3 <= List.length l)%nat ->
  exists a b c,
    nth_error l k = Some a
    /\ nth_error l (k + 1) = Some b
    /\ nth_error l (k + 2) = Some c
    /\ firstn (k + 3) l = firstn k l ++ [a; b; c]
    /\ skipn k l = a :: b :: c :: skipn (k + 3) l.
Proof.
  revert l. induction k as [|k IH]; intros l Hl.
  - destruct l as [|a [|b [|c l]]]; simpl in Hl; try lia.
    exists a, b, c. repeat split.
  - destruct l as [|x l]; [simpl in Hl; lia|].
    destruct (IH l) as [a [b [c [H0 [H1 [H2 [Hf Hs]]]]]]];
      [simpl in Hl; lia|].
    exists a, b, c. cbn [Nat.add nth_error firstn skipn].
    rewrite Hf. repeat split; assumption.
Qed.

Lemma ycocgToRgb_step_pixel (rgbData buf : Buffer) (width height i : nat)
    (r g b : byte) :
  (i < width * height)%nat ->
  nth_error rgbData (i * 3) = Some r ->
  nth_error rgbData (i * 3 + 1) = Some g ->
  nth_error rgbData (i * 3 + 2) = Some b ->
  ycocgToRgb_step (rgbToYCoCg rgbData width height 3) 3 buf i
  = write (write (write buf (i * 3) r) (i * 3 + 1) g) (i * 3 + 2) b.
Proof.
  intros Hi Hr Hg Hb. unfold ycocgToRgb_step.
  assert (Hlen : (i < List.length (seq 0 (width * height)))%nat)
    by (rewrite length_seq; exact Hi).
  pose proof (read_flat
                (fun j => rgbToYCoCg_pixel (sample rgbData (j * 3))
                                           (sample rgbData (j * 3 + 1))
                                           (sample rgbData (j * 3 + 2)))
                _ i (rgbToYCoCg rgbData width height 3) Hlen eq_refl) as E.
  rewrite seq_nth in E by exact Hi. cbn [Nat.add] in E.
  rewrite (sample_channel _ _ _ Hr), (sample_channel _ _ _ Hg),
    (sample_channel _ _ _ Hb) in E.
  pose proof (pixel_bytes r g b) as P.
  destruct (rgbToYCoCg_pixel (channel r) (channel g) (channel b))
    as [[y co] cg].
  injection E as E0 E1 E2. rewrite E0, E1, E2.
  destruct (ycocgToRgb_pixel y co cg) as [[r' g'] b'].
  injection P as -> -> ->. reflexivity.
Qed.

Lemma ycocgToRgb_prefix (rgbData init : Buffer) (width height m : nat) :
  List.length rgbData = (width * height * 3)%nat ->
  List.length init = (width * height * 3)%nat ->
  (m <= width * height)%nat ->
  fold_left (ycocgToRgb_step (rgbToYCoCg rgbData width height 3) 3)
            (seq 0 m) init
  = firstn (m * 3) rgbData ++ skipn (m * 3) init.
Proof.
  intros Hd Hi. induction m as [|m IH]; intros Hm; [reflexivity|].
  rewrite seq_S, fold_left_app, IH by lia. cbn [Nat.add fold_left].
  destruct (split_three rgbData (m * 3)) as [r [g [b [Hr [Hg [Hb [Hf _]]]]]]];
    [nia|].
  destruct (split_three init (m * 3)) as [x0 [x1 [x2 [_ [_ [_ [_ Hs]]]]]]];
    [nia|].
  rewrite (ycocgToRgb_step_pixel _ _ _ _ _ r g b) by (try assumption; lia).
  assert (Hl : List.length (firstn (m * 3) rgbData) = (m * 3)%nat)
    by (rewrite length_firstn; nia).
  rewrite Hs, (write_three _ _ _ _ _ _ _ _ _ Hl).
  replace (S m * 3)%nat with (m * 3 + 3)%nat by lia.
  rewrite Hf, <- app_assoc. reflexivity.
Qed.

(** C9.  Converting the pixels of a three-channel image to YCoCg with
    [rgbToYCoCg] and back with [ycocgToRgb], the coefficients untouched
    in between, gives back every byte of the image: the roundings done
    on the way (doubles, the single-precision store into the
    [Float32Array]) are absorbed by the final [Math.round]. *)
Theorem rgb_ycocg_rgb (rgbData : Buffer) (width height : nat) :
  List.length rgbData = (width * height * 3)%nat ->
  ycocgToRgb (rgbToYCoCg rgbData width height 3) width height 3 = rgbData.
Proof.
  intros Hd. unfold ycocgToRgb.
  rewrite (ycocgToRgb_prefix rgbData _ width height (width * height) Hd);
    [|apply repeat_length|apply Nat.le_refl].
  rewrite <- Hd, firstn_all.
  rewrite skipn_all2 by (rewrite repeat_length; lia).
  apply app_nil_r.
Qed.

Definition four_pixels : Buffer :=
  [x00; x00; x00; xff; xff; xff; x01; x80; xfe; xc8; x37; x10].

Lemma rgb_ycocg_rgb_witness :
  List.length four_pixels = (2 * 2 * 3)%nat
  /\ ycocgToRgb (rgbToYCoCg four_pixels 2 2 3) 2 2 3 = four_pixels.
Proof.
  split; [reflexivity|apply (rgb_ycocg_rgb four_pixels 2 2); reflexivity].
Defined.

End ColourRoundTrip.

(** ** [JSON.parse] after [JSON.stringify] *)

Module JSONRoundTrip.
Import JSNumber JSNumberFacts JSON JSONFacts.
Local Open Scope string_scope.

(** Induction on a value and, inside it, on the values it holds. *)
Fixpoint json_induction (P : json -> Prop)
    (Hnull : P JNull)
    (Hbool : forall b, P (JBool b))
    (Hnum : forall n, P (JNum n))
    (Hstr : forall s, P (JStr s))
    (Harr : forall items, Forall P items -> P (JArr items))
    (Hobj : forall members,
        Forall (fun m => P (snd m)) members -> P (JObj members))
    (v : json) : P v :=
  let rec := json_induction P Hnull Hbool Hnum Hstr Harr Hobj in
  match v with
  | JNull => Hnull
  | JBool b => Hbool b
  | JNum n => Hnum n
  | JStr s => Hstr s
  | JArr items =>
      Harr items
        ((fix all (l : list json) : Forall P l :=
            match l with
            | [] => Forall_nil P
            | x :: l' => Forall_cons x (rec x) (all l')
            end) items)
  | JObj members =>
      Hobj members
        ((fix all (l : list (string * json))
            : Forall (fun m => P (snd m)) l :=
            match l with
            | [] => Forall_nil _
            | m :: l' => Forall_cons m (rec (snd m)) (all l')
            end) members)
  end.

(** The values that print as themselves: no [NaN] and no infinity (they
    print as [null]), and numbers that are integers a double holds. *)
Fixpoint printable (v : json) : Prop :=
  match v with
  | JNull | JBool _ | JStr _ => True
  | JNum (Num q) => exists z, q = inject_Z z /\ (Z.abs z < 2 ^ 53)%Z
  | JNum _ => False
  | JArr items => fold_right (fun x rest => printable x /\ rest) True items
  | JObj members =>
      fold_right (fun m rest => printable (snd m) /\ rest) True members
  end.

(** Fuel that [parse_value] needs on the text of a value. *)
Fixpoint cost (v : json) : nat :=
  match v with
  | JArr items => S (fold_right (fun x n => S (cost x + n)) 0 items)
  | JObj members => S (fold_right (fun m n => S (cost (snd m) + n)) 0 members)
  | _ => 1
  end.

Definition elements_cost (items : list json) : nat :=
  fold_right (fun x n => S (cost x + n)) 0 items.

Definition members_cost (members : list (string * json)) : nat :=
  fold_right (fun m n => S (cost (snd m) + n)) 0 members.

(** What may follow a value: nothing, or the comma or bracket that ends
    it. *)
Definition terminated (rest : string) : Prop :=
  match rest with
  | EmptyString => True
  | String c _ => In c (list_ascii_of_string ",]}")
  end.

(** How the text of a value may start. *)
Definition heads : list ascii := list_ascii_of_string "{[ntf-0123456789".

Definition head_ok (s : string) : Prop :=
  match s with
  | EmptyString => False
  | String c _ => c = dquote \/ In c heads
  end.

Lemma append_nil_r (s : string) : s ++ EmptyString = s.
Proof. induction s as [|c s IH]; simpl; [reflexivity|]. rewrite IH. reflexivity. Qed.

Lemma head_ok_append (s rest : string) : head_ok s -> head_ok (s ++ rest).
Proof. destruct s; [contradiction|]. exact (fun H => H). Qed.

(** *** Numbers *)

Lemma terminated_no_digit (rest : string) :
  terminated rest -> no_digit_ahead rest.
Proof.
  destruct rest as [|c r]; [reflexivity|]. cbn [terminated no_digit_ahead].
  cbn [list_ascii_of_string In].
  intros [<-|[<-|[<-|[]]]]; reflexivity.
Qed.

Lemma terminated_tail (rest : string) :
  terminated rest ->
  parse_fraction rest = Some ([], rest)
  /\ parse_exponent rest = Some (0%Z, rest).
Proof.
  destruct rest as [|c r]; [split; reflexivity|]. cbn [terminated].
  cbn [list_ascii_of_string In].
  intros [<-|[<-|[<-|[]]]]; split; reflexivity.
Qed.

Lemma parse_number_digits (n : Z) (rest : string) (neg : bool) :
  (0 < n < 2 ^ 53)%Z -> terminated rest ->
  parse_number ((if neg then "-" else EmptyString) ++ nat_string n ++ rest)
  = Some (Num (inject_Z (if neg then - n else n)), rest).
Proof.
  intros Hn Hrest.
  pose proof (take_digits_nat_string n rest (terminated_no_digit rest Hrest))
    as Ht.
  pose proof (digits_not_nil n ltac:(lia)) as Hnil.
  pose proof (digits_value n ltac:(lia)) as Hv.
  destruct (nat_string_head n ltac:(lia)) as [c [tail [Hs Hc]]].
  rewrite Hs in *. cbn [append] in *.
  destruct (digits n) as [|d ds] eqn:Hd; [contradiction|].
  destruct (terminated_tail rest Hrest) as [Hf He].
  unfold leading in Hc. cbn [list_ascii_of_string In] in Hc.
  destruct neg; cbn [append]; unfold parse_number;
    repeat (destruct Hc as [<-|Hc];
            [cbv beta iota zeta; rewrite Ht, Hf, He, app_nil_r, Hv;
             first [rewrite fl_neg by lia|rewrite fl_nat by lia];
             reflexivity|]);
    contradiction.
Qed.

Lemma parse_zero (fuel : nat) (rest : string) :
  terminated rest ->
  parse_value (S fuel) (String "0" rest) = Some (JNum (Num (inject_Z 0)), rest).
Proof.
  intros Hrest.
  rewrite parse_value_number by (vm_compute; tauto).
  destruct (terminated_tail rest Hrest) as [Hf He].
  unfold parse_number. rewrite Hf, He. reflexivity.
Qed.

Lemma parse_value_int (fuel : nat) (z : Z) (rest : string) :
  (Z.abs z < 2 ^ 53)%Z -> terminated rest ->
  parse_value (S fuel) (Number_toString (inject_Z z) ++ rest)
  = Some (JNum (Num (inject_Z z)), rest).
Proof.
  intros Hz Hrest. rewrite (Number_toString_int z Hz).
  destruct (Z.eqb_spec z 0) as [->|Hnz].
  - apply parse_zero, Hrest.
  - destruct (Z.ltb_spec z 0) as [Hneg|Hpos].
    + rewrite append_assoc. cbn [append].
      rewrite parse_value_number by (vm_compute; tauto).
      change (String "-" (nat_string (Z.abs z) ++ rest))
        with ((if true then "-" else EmptyString)
                ++ nat_string (Z.abs z) ++ rest).
      rewrite parse_number_digits by (try exact Hrest; lia).
      replace (- Z.abs z)%Z with z by lia. reflexivity.
    + cbn [append].
      destruct (nat_string_head (Z.abs z) ltac:(lia)) as [c [tail [Hs Hc]]].
      assert (Hstart : starts_number c).
      { unfold starts_number, leading in *.
        cbn [list_ascii_of_string In] in *. tauto. }
      pose proof (parse_number_digits (Z.abs z) rest false
                    ltac:(lia) Hrest) as Hp.
      cbn [append] in Hp. rewrite Hs in *. cbn [append] in *.
      rewrite (parse_value_number _ _ _ Hstart), Hp.
      replace (Z.abs z) with z by lia. reflexivity.
Qed.


(** *** The first character of a printed value *)

Lemma nat_string_head_ok (n : Z) : (0 < n)%Z -> head_ok (nat_string n).
Proof.
  intros Hn. destruct (nat_string_head n Hn) as [c [tail [-> Hc]]].
  right. unfold leading, heads in *. cbn [list_ascii_of_string In] in *.
  tauto.
Qed.

Lemma stringify_head (v : json) : printable v -> head_ok (stringify v).
Proof.
  destruct v as [|[]|[q| |]|s|items|members]; cbn [printable stringify];
    try contradiction; intros Hv;
    try (right; unfold heads; cbn [list_ascii_of_string In]; tauto).
  - destruct Hv as [z [-> Hz]]. rewrite (Number_toString_int z Hz).
    destruct (Z.eqb_spec z 0) as [_|Hnz];
      [right; unfold heads; cbn [list_ascii_of_string In]; tauto|].
    destruct (z <? 0)%Z.
    + right. unfold heads. cbn [list_ascii_of_string In append]. tauto.
    + apply nat_string_head_ok. lia.
  - left. reflexivity.
Qed.

(** *** Atoms *)

Lemma parse_null (fuel : nat) (rest : string) :
  parse_value (S fuel) ("null" ++ rest) = Some (JNull, rest).
Proof. reflexivity. Qed.

Lemma parse_true (fuel : nat) (rest : string) :
  parse_value (S fuel) ("true" ++ rest) = Some (JBool true, rest).
Proof. reflexivity. Qed.

Lemma parse_false (fuel : nat) (rest : string) :
  parse_value (S fuel) ("false" ++ rest) = Some (JBool false, rest).
Proof. reflexivity. Qed.

(** *** Arrays *)

Lemma parse_elements_unfold (fuel : nat) (s : string) (acc : list json) :
  parse_elements (S fuel) s acc
  = match parse_value fuel s with
    | Some (v, r) =>
        match skip_ws r with
        | String "," r' => parse_elements fuel r' (v :: acc)
        | String "]" r' => Some (JArr (rev (v :: acc)), r')
        | _ => None
        end
    | None => None
    end.
Proof. reflexivity. Qed.

Lemma parse_value_empty_array (fuel : nat) (rest : string) :
  parse_value (S fuel) ("[]" ++ rest) = Some (JArr [], rest).
Proof. reflexivity. Qed.

Lemma parse_value_empty_object (fuel : nat) (rest : string) :
  parse_value (S fuel) ("{}" ++ rest) = Some (JObj [], rest).
Proof. reflexivity. Qed.

Lemma parse_value_array (fuel : nat) (body : string) :
  head_ok body ->
  parse_value (S fuel) (String "[" body) = parse_elements fuel body [].
Proof.
  destruct body as [|c t]; [contradiction|]. cbn [head_ok].
  unfold heads. cbn [list_ascii_of_string In].
  intros [->|H]; [reflexivity|].
  repeat (destruct H as [<-|H]; [reflexivity|]). contradiction.
Qed.

(** The statement proved of every value, by induction. *)
Definition reads_back (v : json) : Prop :=
  forall (fuel : nat) (rest : string),
    cost v <= fuel -> terminated rest ->
    parse_value fuel (stringify v ++ rest) = Some (v, rest).

Lemma parse_elements_printable (items : list json) :
  Forall (fun v => printable v -> reads_back v) items ->
  fold_right (fun x rest => printable x /\ rest) True items ->
  items <> [] ->
  forall (fuel : nat) (acc : list json) (rest : string),
    elements_cost items <= fuel ->
    parse_elements fuel
      (join "," (map stringify items) ++ String "]" rest) acc
    = Some (JArr (rev acc ++ items), rest).
Proof.
  induction 1 as [|x items Hx _ IH]; intros Hp Hne fuel acc rest Hfuel;
    [contradiction|].
  destruct Hp as [Hpx Hp].
  unfold elements_cost in Hfuel. cbn [fold_right] in Hfuel.
  fold (elements_cost items) in Hfuel.
  destruct fuel as [|fuel]; [lia|].
  rewrite parse_elements_unfold.
  destruct items as [|y items].
  - cbn [map join].
    rewrite (Hx Hpx fuel (String "]" rest)); [|lia|].
    + cbn [skip_ws]. change (is_ws "]") with false. cbv iota.
      cbn [rev]. reflexivity.
    + cbn [terminated list_ascii_of_string In]. tauto.
  - cbn [map]. rewrite join_cons, !append_assoc. cbn [append].
    rewrite (Hx Hpx fuel); [|lia|].
    + cbn [skip_ws]. change (is_ws ",") with false. cbv iota.
      change (stringify y :: map stringify items)
        with (map stringify (y :: items)).
      rewrite IH; [|exact Hp|discriminate|lia].
      cbn [rev]. rewrite <- app_assoc. reflexivity.
    + cbn [terminated list_ascii_of_string In]. tauto.
Qed.

(** *** Objects *)

Lemma parse_members_printable (members : list (string * json)) :
  Forall (fun m => printable (snd m) -> reads_back (snd m)) members ->
  fold_right (fun m rest => printable (snd m) /\ rest) True members ->
  members <> [] ->
  forall (fuel : nat) (acc : list (string * json)) (rest : string),
    members_cost members <= fuel ->
    parse_members fuel
      (join "," (map member_string members) ++ String "}" rest) acc
    = Some (JObj (rev acc ++ members), rest).
Proof.
  induction 1 as [|[key v] members Hx _ IH];
    intros Hp Hne fuel acc rest Hfuel; [contradiction|].
  destruct Hp as [Hpx Hp]. cbn [snd] in Hx, Hpx.
  unfold members_cost in Hfuel. cbn [fold_right snd] in Hfuel.
  fold (members_cost members) in Hfuel.
  destruct fuel as [|fuel]; [lia|].
  destruct members as [|m members].
  - cbn [map join]. unfold member_string. cbn [fst snd].
    rewrite !append_assoc, quote_append, parse_members_unfold, parse_quoted.
    cbn [append skip_ws]. change (is_ws ":") with false. cbv iota.
    rewrite (Hx Hpx fuel (String "}" rest)); [|lia|].
    + cbn [skip_ws]. change (is_ws "}") with false. cbv iota.
      cbn [rev]. reflexivity.
    + cbn [terminated list_ascii_of_string In]. tauto.
  - cbn [map]. rewrite join_cons. unfold member_string at 1. cbn [fst snd].
    rewrite !append_assoc, quote_append, parse_members_unfold, parse_quoted.
    cbn [append skip_ws]. change (is_ws ":") with false. cbv iota.
    rewrite (Hx Hpx fuel); [|lia|].
    + cbn [skip_ws]. change (is_ws ",") with false. cbv iota.
      change (member_string m :: map member_string members)
        with (map member_string (m :: members)).
      rewrite IH; [|exact Hp|discriminate|lia].
      cbn [rev]. rewrite <- app_assoc. reflexivity.
    + cbn [terminated list_ascii_of_string In]. tauto.
Qed.

Lemma stringify_array (items : list json) :
  stringify (JArr items)
  = String "[" (join "," (map stringify items) ++ "]").
Proof. reflexivity. Qed.

Lemma stringify_object (members : list (string * json)) :
  stringify (JObj members)
  = String "{" (join "," (map member_string members) ++ "}").
Proof. reflexivity. Qed.

Lemma join_head (x : string) (l : list string) (rest : string) :
  head_ok x -> head_ok (join "," (x :: l) ++ rest).
Proof.
  intros Hx. destruct l as [|y l].
  - apply head_ok_append, Hx.
  - rewrite join_cons. apply head_ok_append, head_ok_append, Hx.
Qed.

(** *** Every printable value *)

Lemma printable_reads_back (v : json) : printable v -> reads_back v.
Proof.
  induction v as [|b|n|s|items IH|members IH] using json_induction;
    intros Hv fuel rest Hfuel Hrest;
    (destruct fuel as [|fuel]; [cbn [cost] in Hfuel; lia|]).
  - apply parse_null.
  - destruct b; [apply parse_true|apply parse_false].
  - destruct n as [q| |]; try contradiction.
    destruct Hv as [z [-> Hz]]. cbn [stringify].
    apply parse_value_int; assumption.
  - cbn [stringify]. rewrite quote_append, parse_value_string, parse_quoted.
    reflexivity.
  - destruct items as [|x items]; [apply parse_value_empty_array|].
    rewrite stringify_array. cbn [append]. rewrite append_assoc.
    cbn [append].
    rewrite parse_value_array.
    + rewrite (parse_elements_printable (x :: items) IH Hv); [reflexivity| |].
      * discriminate.
      * cbn [cost] in Hfuel. unfold elements_cost. lia.
    + cbn [map]. apply join_head, stringify_head. exact (proj1 Hv).
  - destruct members as [|[key x] members]; [apply parse_value_empty_object|].
    rewrite stringify_object. cbn [append]. rewrite append_assoc.
    cbn [append].
    assert (Hhead : exists body,
               join "," (map member_string ((key, x) :: members))
                 ++ String "}" rest = String dquote body).
    { destruct members as [|m members]; cbn [map].
      - cbn [join]. unfold member_string. cbn [fst].
        rewrite append_assoc, quote_append. eexists. reflexivity.
      - rewrite join_cons. unfold member_string at 1. cbn [fst].
        rewrite !append_assoc, quote_append. eexists. reflexivity. }
    destruct Hhead as [body Hbody].
    rewrite Hbody, parse_value_object, <- Hbody.
    rewrite (parse_members_printable ((key, x) :: members) IH Hv);
      [reflexivity|discriminate|].
    cbn [cost] in Hfuel. unfold members_cost. lia.
Qed.

(** *** Fuel *)

Lemma join_length_sum (l : list string) :
  l <> [] ->
  String.length (join "," l) + 1
  = fold_right (fun x n => S (String.length x + n)) 0 l.
Proof.
  induction l as [|x l IH]; intros Hne; [contradiction|].
  destruct l as [|y l].
  - cbn [join fold_right]. lia.
  - rewrite join_cons, !length_append. cbn [fold_right String.length] in *.
    specialize (IH ltac:(discriminate)). lia.
Qed.

Lemma quote_length_pos (s : string) : 2 <= String.length (quote s).
Proof.
  unfold quote, str1. cbn [String.length]. rewrite length_append.
  cbn [String.length]. lia.
Qed.

Lemma cost_length (v : json) :
  printable v -> cost v <= String.length (stringify v).
Proof.
  induction v as [|b|n|s|items IH|members IH] using json_induction;
    intros Hv.
  - cbn. lia.
  - destruct b; cbn; lia.
  - pose proof (stringify_head (JNum n) Hv) as Hh.
    destruct (stringify (JNum n)); [contradiction|].
    cbn [cost String.length]. lia.
  - cbn [cost stringify]. pose proof (quote_length_pos s). lia.
  - destruct items as [|x items]; [cbn; lia|].
    rewrite stringify_array. cbn [cost String.length].
    rewrite length_append. cbn [String.length].
    pose proof (join_length_sum (map stringify (x :: items))
                  ltac:(discriminate)) as Hj.
    assert (Hsum : fold_right (fun y n => S (cost y + n)) 0 (x :: items)
                   <= fold_right (fun y n => S (String.length y + n)) 0
                        (map stringify (x :: items))).
    { clear Hj. revert Hv. induction IH as [|y l Hy _ IHl]; intros Hv.
      - cbn. lia.
      - destruct Hv as [Hpy Hpl]. cbn [map fold_right].
        specialize (Hy Hpy). specialize (IHl Hpl). lia. }
    lia.
  - destruct members as [|m members]; [cbn; lia|].
    rewrite stringify_object. cbn [cost String.length].
    rewrite length_append. cbn [String.length].
    pose proof (join_length_sum (map member_string (m :: members))
                  ltac:(discriminate)) as Hj.
    assert (Hsum : fold_right (fun y n => S (cost (snd y) + n)) 0
                     (m :: members)
                   <= fold_right (fun y n => S (String.length y + n)) 0
                        (map member_string (m :: members))).
    { clear Hj. revert Hv. induction IH as [|y l Hy _ IHl]; intros Hv.
      - cbn. lia.
      - destruct Hv as [Hpy Hpl]. cbn [map fold_right].
        specialize (Hy Hpy). specialize (IHl Hpl).
        unfold member_string at 1. rewrite !length_append. lia. }
    lia.
Qed.

(** [JSON.parse (JSON.stringify v)] is [v], for every value [v] built
    from [null], booleans, strings, integers a double holds, arrays and
    objects. *)
Lemma parse_stringify (v : json) :
  printable v -> parse (stringify v) = Ok v.
Proof.
  intros Hv. unfold parse.
  pose proof (cost_length v Hv) as Hc.
  rewrite <- (append_nil_r (stringify v)) at 2.
  rewrite (printable_reads_back v Hv); [reflexivity|lia|exact I].
Qed.

End JSONRoundTrip.

(** ** Quantization at high quality *)

Module QuantizeFacts.
Import JSNumber JSNumberFacts RoundingFacts ImageCodec ColourFacts.
Local Open Scope Q_scope.

(** A finite number of magnitude at most [B]. *)
Definition within (B : Q) (n : number) : Prop :=
  exists v, n = Num v /\ - B <= v <= B.

Lemma within_le (B B' : Q) (n : number) :
  B <= B' -> within B n -> within B' n.
Proof. intros HB [v [-> Hv]]. exists v. split; [reflexivity|lra]. Qed.

Lemma fround_within (B : Q) (n : number) :
  B <= 3 # 2 -> within B n -> within (B + (1 # 1000)) (fround n).
Proof.
  intros HB [v [-> Hv]].
  destruct (fround_small v) as [r [-> Hr]]; [lra|].
  exists r. split; [reflexivity|lra].
Qed.

(** The three coefficients of a pixel are at most 1, up to rounding. *)
Lemma forward_within (r g b : byte) :
  let '(y, co, cg) := rgbToYCoCg_pixel (channel r) (channel g) (channel b) in
  within (101 # 100) y /\ within (101 # 100) co /\ within (101 # 100) cg.
Proof.
  rewrite !channel_exact.
  pose proof (byteN_bound r) as HR. pose proof (byteN_bound g) as HG.
  pose proof (byteN_bound b) as HB.
  assert (HR' : 0 <= inject_Z (Z.of_N (byteN r)) <= 255).
  { change 0 with (inject_Z 0). change 255 with (inject_Z 255).
    rewrite <- !Zle_Qle. exact HR. }
  assert (HG' : 0 <= inject_Z (Z.of_N (byteN g)) <= 255).
  { change 0 with (inject_Z 0). change 255 with (inject_Z 255).
    rewrite <- !Zle_Qle. exact HG. }
  assert (HB' : 0 <= inject_Z (Z.of_N (byteN b)) <= 255).
  { change 0 with (inject_Z 0). change 255 with (inject_Z 255).
    rewrite <- !Zle_Qle. exact HB. }
  set (R := inject_Z (Z.of_N (byteN r))) in *.
  set (G := inject_Z (Z.of_N (byteN g))) in *.
  set (B := inject_Z (Z.of_N (byteN b))) in *.
  unfold rgbToYCoCg_pixel. cbv zeta.
  do 12 round_step.
  repeat split; eexists; (split; [reflexivity|lra]).
Qed.

(** [Math.round] of a value strictly between -1/2 and 1/2. *)
Lemma Math_round_zero (x : Q) :
  - (1 # 2) <= x -> x < 1 # 2 -> Math_round (Num x) = Num 0.
Proof.
  intros Hlo Hhi. unfold Math_round.
  pose proof (Qfloor_le (x + (1 # 2))) as H1.
  pose proof (Qlt_floor (x + (1 # 2))) as H2.
  set (f := Qfloor (x + (1 # 2))) in *.
  assert (Hf : f = 0%Z).
  { assert (f < 1)%Z by (rewrite Zlt_Qlt; change (inject_Z 1) with 1; lra).
    assert (-1 < f)%Z.
    { rewrite Zlt_Qlt. rewrite inject_Z_plus in H2.
      change (inject_Z 1) with 1 in H2. change (inject_Z (-1)) with (-(1)).
      lra. }
    lia. }
  rewrite Hf. reflexivity.
Qed.

Lemma product_bound (v c B C : Q) :
  - B <= v <= B -> - C <= c <= C ->
  - (B * C) <= v * c <= B * C.
Proof.
  intros Hv Hc.
  assert (HB : 0 <= B) by lra. assert (HC : 0 <= C) by lra.
  assert (H : Qabs (v * c) <= B * C).
  { rewrite Qabs_Qmult.
    apply Qmult_le_compat_nonneg.
    - split; [apply Qabs_nonneg|apply Qabs_Qle_condition; exact Hv].
    - split; [apply Qabs_nonneg|apply Qabs_Qle_condition; exact Hc]. }
  apply Qabs_Qle_condition in H. exact H.
Qed.

(** A coefficient times a factor below 0.481 rounds to 0. *)
Lemma quantize_zero (n : number) (c : Q) :
  within (103 # 100) n ->
  - (481 # 1000) <= c <= 481 # 1000 ->
  Math_round (mul n (Num c)) = Num 0.
Proof.
  intros [v [-> Hv]] Hc.
  pose proof (product_bound v c _ _ Hv Hc) as Hp.
  change ((103 # 100) * (481 # 1000)) with (49543 # 100000) in Hp.
  change (mul (Num v) (Num c)) with (fl (v * c)).
  destruct (fl_small (v * c)) as [x [-> Hx]]; [lra|].
  apply Math_round_zero; lra.
Qed.

(** The quantization factor of a quality from 84 to 100. *)
Lemma qFactor_small (quality : Z) :
  (84 <= quality <= 100)%Z ->
  exists f, qFactor (ofZ quality) = Num f
            /\ - (1 # 1000) <= f <= 3201 # 10000.
Proof.
  intros Hq.
  rewrite ofZ_exact by (change (2 ^ 53)%Z with 9007199254740992%Z; lia).
  assert (Hq' : 84 <= inject_Z quality <= 100).
  { change 84 with (inject_Z 84). change 100 with (inject_Z 100).
    rewrite <- !Zle_Qle. exact Hq. }
  set (q := inject_Z quality) in *.
  unfold qFactor.
  assert (Hlt : lt (Num q) (Num 50) = false).
  { unfold lt. destruct (Qcompare q 50) eqn:E; try reflexivity.
    apply Qlt_alt in E. lra. }
  rewrite Hlt.
  change (div (Num q) (Num 50)) with (fl (q * (1 # 50))).
  destruct (fl_small (q * (1 # 50))) as [d [-> Hd]]; [lra|].
  unfold two. rewrite sub_Num.
  destruct (fl_small (2 + - d)) as [f [-> Hf]]; [lra|].
  exists f. split; [reflexivity|lra].
Qed.

Lemma channelQFactor_small (f : Q) (channel : nat) :
  - (1 # 1000) <= f <= 3201 # 10000 ->
  exists c, channelQFactor (Num f) channel = Num c
            /\ - (481 # 1000) <= c <= 481 # 1000.
Proof.
  intros Hf. unfold channelQFactor.
  destruct (channel =? 0)%nat.
  - exists f. split; [reflexivity|lra].
  - change (mul (Num f) (Num (3 # 2))) with (fl (f * (3 # 2))).
    destruct (fl_small (f * (3 # 2))) as [c [-> Hc]]; [lra|].
    exists c. split; [reflexivity|lra].
Qed.

(** *** What the decoder makes of a zero *)

Definition zero_or_nan (n : number) : Prop := n = Num 0 \/ n = NaN.

Lemma fl_zero (x : Q) : x == 0 -> fl x = Num 0.
Proof.
  intros Hx. unfold fl, roundTo.
  rewrite (proj2 (Qeq_bool_iff x 0) Hx). reflexivity.
Qed.

Lemma dequantize_zero (c : number) :
  (exists v, c = Num v) -> zero_or_nan (fround (div (Num 0) c)).
Proof.
  intros [v ->]. unfold div.
  destruct (Qeq_bool v 0).
  - right. reflexivity.
  - left. rewrite fl_zero by (unfold Qdiv; ring). reflexivity.
Qed.

Lemma fround_zero_or_nan (n : number) :
  zero_or_nan n -> zero_or_nan (fround n).
Proof. intros [-> | ->]; [left|right]; reflexivity. Qed.

(** A pixel whose coefficients are 0 or [NaN] is stored as three zero
    bytes. *)
Lemma pixel_black (y co cg : number) :
  zero_or_nan y -> zero_or_nan co -> zero_or_nan cg ->
  let '(r, g, b) := ycocgToRgb_pixel y co cg in
  toUint8 r = x00 /\ toUint8 g = x00 /\ toUint8 b = x00.
Proof.
  intros [-> | ->] [-> | ->] [-> | ->]; vm_compute; repeat split.
Qed.

End QuantizeFacts.

(** ** The image codec, from pixels to pixels *)

Module ImagePipelineFacts.
Import JSNumber JSNumberFacts JSON JSONFacts JSONRoundTrip.
Import Container ContainerFacts Dynamic.
Import ImageCodec ImageEncodeFacts ImageIntegrityFacts.
Import ColourFacts ColourRoundTrip QuantizeFacts.
Local Open Scope string_scope.

(** *** The tiling *)

Lemma steps_below (limit k : nat) : In k (steps limit) -> k < limit.
Proof.
  unfold steps, BLOCK_SIZE. intros H. apply in_map_iff in H.
  destruct H as [j [<- Hj]]. apply in_seq in Hj.
  pose proof (Nat.Div0.mul_div_le (limit + 8 - 1) 8). lia.
Qed.

Lemma block_positions_in (width height y x channel : nat) :
  In (y, x, channel) (block_positions width height) ->
  y < height /\ x < width /\ channel < 3.
Proof.
  unfold block_positions. intros H.
  apply in_flat_map in H. destruct H as [y' [Hy H]].
  apply in_flat_map in H. destruct H as [x' [Hx H]].
  apply in_map_iff in H. destruct H as [c [E Hc]].
  injection E as <- <- <-.
  apply steps_below in Hy, Hx.
  repeat split; try assumption.
  cbn [In] in Hc. lia.
Qed.

(** *** The coefficients [rgbToYCoCg] stores *)

Lemma rgbToYCoCg_within (rgbData : Buffer) (width height channels : nat) :
  3 <= channels ->
  List.length rgbData = width * height * channels ->
  Forall (within (101 # 100)%Q) (rgbToYCoCg rgbData width height channels).
Proof.
  intros Hc Hlen. apply Forall_forall. intros n Hn.
  unfold rgbToYCoCg in Hn. apply in_flat_map in Hn.
  destruct Hn as [i [Hi Hn]]. apply in_seq in Hi.
  assert (Hget : forall k, k < 3 ->
             exists c, nth_error rgbData (i * channels + k) = Some c).
  { intros k Hk.
    destruct (nth_error rgbData (i * channels + k)) as [c|] eqn:E;
      [exists c; reflexivity|].
    apply nth_error_None in E. nia. }
  destruct (Hget 0 ltac:(lia)) as [r Hr].
  destruct (Hget 1 ltac:(lia)) as [g Hg].
  destruct (Hget 2 ltac:(lia)) as [b Hb].
  rewrite Nat.add_0_r in Hr.
  rewrite (sample_channel _ _ _ Hr), (sample_channel _ _ _ Hg),
    (sample_channel _ _ _ Hb) in Hn.
  pose proof (forward_within r g b) as Hw.
  destruct (rgbToYCoCg_pixel (channel r) (channel g) (channel b))
    as [[y co] cg].
  destruct Hw as [Hy [Hco Hcg]].
  cbn [In] in Hn. destruct Hn as [<-|[<-|[<-|[]]]]; assumption.
Qed.

Lemma flat_map_length_const {A B} (f : A -> list B) (k : nat) (l : list A) :
  (forall a, List.length (f a) = k) ->
  List.length (flat_map f l) = List.length l * k.
Proof.
  intros Hf. induction l as [|a l IH]; [reflexivity|].
  cbn [flat_map List.length]. rewrite length_app, IH, Hf. lia.
Qed.

Lemma rgbToYCoCg_length (rgbData : Buffer) (width height channels : nat) :
  List.length (rgbToYCoCg rgbData width height channels)
  = width * height * 3.
Proof.
  unfold rgbToYCoCg. rewrite (flat_map_length_const _ 3).
  - rewrite length_seq. reflexivity.
  - intros i. destruct (rgbToYCoCg_pixel _ _ _) as [[y co] cg]. reflexivity.
Qed.

(** *** Blocks *)

Lemma read_within (B : Q) (data : Float32Array) (i : nat) :
  Forall (within B) data -> i < List.length data -> within B (read data i).
Proof.
  intros Hd Hi. unfold read.
  apply (proj1 (Forall_forall _ _) Hd). apply nth_In, Hi.
Qed.

Lemma extractBlock_within (B : Q) (data : Float32Array)
    (width height x y blockWidth blockHeight channel : nat) :
  (B <= 3 # 2)%Q ->
  Forall (within B) data ->
  List.length data = width * height * 3 ->
  y + blockHeight <= height -> x + blockWidth <= width -> channel < 3 ->
  Forall (within (B + (1 # 1000))%Q)
         (extractBlock data width x y blockWidth blockHeight channel).
Proof.
  intros HB Hd Hlen Hy Hx Hc. apply Forall_forall. intros n Hn.
  unfold extractBlock in Hn. apply in_flat_map in Hn.
  destruct Hn as [by_ [Hby Hn]]. apply in_map_iff in Hn.
  destruct Hn as [bx [<- Hbx]]. apply in_seq in Hby, Hbx.
  apply fround_within; [exact HB|].
  apply read_within; [exact Hd|]. nia.
Qed.

(** A block as the encoder makes it at a quality of 84 or more: every
    quantized coefficient is 0. *)
Definition zero_block (width height : nat) (b : ICFBlock) : Prop :=
  Forall (eq (Num 0)) (ImageCodec.data b)
  /\ ImageCodec.x b <= width /\ ImageCodec.y b <= height
  /\ ImageCodec.width b <= 8 /\ ImageCodec.height b <= 8.

Lemma compressBlocks_zero (ycocgData : Float32Array) (width height : nat)
    (quality : Z) :
  (84 <= quality <= 100)%Z ->
  Forall (within (101 # 100)%Q) ycocgData ->
  List.length ycocgData = width * height * 3 ->
  Forall (zero_block width height)
         (compressBlocks ycocgData width height (ofZ quality)).
Proof.
  intros Hq Hd Hlen. apply Forall_forall. intros b Hb.
  unfold compressBlocks in Hb. cbv zeta in Hb. apply in_map_iff in Hb.
  destruct Hb as [[[y x] channel] [<- Hp]].
  apply block_positions_in in Hp. destruct Hp as [Hy [Hx Hc]].
  destruct (qFactor_small quality Hq) as [f [Hf Hfb]].
  destruct (channelQFactor_small f channel Hfb) as [c [Hcq Hcb]].
  unfold zero_block, BLOCK_SIZE.
  cbn [ImageCodec.data ImageCodec.x ImageCodec.y ImageCodec.width
       ImageCodec.height].
  repeat split; try lia.
  unfold quantize, applyDCT. rewrite Hf, Hcq.
  apply Forall_forall. intros n Hn.
  apply in_map_iff in Hn. destruct Hn as [d [<- Hn]].
  apply in_map_iff in Hn. destruct Hn as [e [<- Hn]].
  symmetry. apply quantize_zero; [|exact Hcb].
  apply (within_le ((101 # 100) + (1 # 1000) + (1 # 1000))%Q); [vm_compute; discriminate|].
  apply fround_within; [vm_compute; discriminate|].
  revert e Hn. apply Forall_forall.
  apply (extractBlock_within _ _ width height); try assumption; try lia.
  vm_compute. discriminate.
Qed.

(** *** The payload *)

Lemma zeros_printable (l : list number) :
  Forall (eq (Num 0)) l ->
  fold_right (fun v rest => printable v /\ rest) True (map JNum l).
Proof.
  induction 1 as [|n l <- _ IH]; [exact I|].
  cbn [map fold_right printable]. split; [|exact IH].
  exists 0%Z. split; [reflexivity|reflexivity].
Qed.

Lemma ofNat_exact (n : nat) :
  safe_nat n -> ofNat n = Num (inject_Z (Z.of_nat n)).
Proof. intros Hn. unfold ofNat. apply ofZ_exact. unfold safe_nat in Hn. lia. Qed.

Lemma blocks_printable (width height : nat) (blocks : list ICFBlock) :
  safe_nat width -> safe_nat height ->
  Forall (zero_block width height) blocks ->
  printable (JArr (map block_json blocks)).
Proof.
  intros Hw Hh Hb. cbn [printable].
  induction Hb as [|b blocks [Hd [Hx [Hy [Hbw Hbh]]]] _ IH]; [exact I|].
  cbn [map fold_right]. split; [|exact IH].
  unfold safe_nat in *. change (2 ^ 53)%Z with 9007199254740992%Z in *.
  unfold block_json.
  rewrite !ofNat_exact
    by (unfold safe_nat; change (2 ^ 53)%Z with 9007199254740992%Z; lia).
  cbn [printable fold_right snd].
  repeat split;
    try (eexists; split; [reflexivity|];
         change (2 ^ 53)%Z with 9007199254740992%Z; lia).
  apply zeros_printable, Hd.
Qed.

Lemma string_of_serializeBlocks (blocks : list ICFBlock) :
  string_of_list_byte (serializeBlocks blocks)
  = stringify (JArr (map block_json blocks)).
Proof. unfold serializeBlocks. apply string_of_list_byte_of_string. Qed.


(** *** Decompression *)

Lemma numbers_JNum (l : list number) : numbers (map JNum l) = Returns l.
Proof.
  induction l as [|n l IH]; [reflexivity|].
  cbn [map numbers ToNumber obind]. rewrite IH. reflexivity.
Qed.

Lemma write_Forall {A} (P : A -> Prop) (a : list A) (i : nat) (v : A) :
  Forall P a -> P v -> Forall P (write a i v).
Proof.
  intros Ha Hv. revert i.
  induction Ha as [|x a Hx Ha IH]; intros [|i]; cbn [write];
    constructor; auto.
Qed.

Lemma fold_left_invariant {A B} (P : A -> Prop) (f : A -> B -> A)
    (l : list B) (init : A) :
  (forall acc b, P acc -> P (f acc b)) -> P init -> P (fold_left f l init).
Proof.
  intros Hf. revert init.
  induction l as [|b l IH]; intros init Hi; [exact Hi|].
  cbn [fold_left]. apply IH, Hf, Hi.
Qed.

Lemma read_zero_or_nan (data : Float32Array) (i : nat) :
  Forall zero_or_nan data -> zero_or_nan (read data i).
Proof.
  intros Hd. unfold read.
  destruct (nth_in_or_default i data NaN) as [Hin | ->].
  - apply (proj1 (Forall_forall _ _) Hd), Hin.
  - right. reflexivity.
Qed.

Lemma placeBlock_zero_or_nan (data blockData : Float32Array)
    (width x y blockWidth blockHeight channel : nat) :
  Forall zero_or_nan data -> Forall zero_or_nan blockData ->
  Forall zero_or_nan
    (placeBlock data width x y blockWidth blockHeight channel blockData).
Proof.
  intros Hd Hb. unfold placeBlock.
  apply fold_left_invariant; [|exact Hd]. intros acc by_ Hacc.
  apply fold_left_invariant; [|exact Hacc]. intros acc' bx Hacc'.
  apply write_Forall; [exact Hacc'|].
  apply fround_zero_or_nan, read_zero_or_nan, Hb.
Qed.

Lemma block_data_json (b : ICFBlock) :
  block_data (Some (block_json b))
  = Ok (Some (JArr (map JNum (ImageCodec.data b)))).
Proof. reflexivity. Qed.

Lemma decompressBlocks_loop_zero (width height : nat) (blocks : list ICFBlock)
    (f : Q) :
  (- (1 # 1000) <= f <= 3201 # 10000)%Q ->
  Forall (zero_block width height) blocks ->
  forall (positions : list (nat * nat * nat)) (blockIndex : nat)
         (ycocgData : Float32Array),
    blockIndex + List.length positions <= List.length blocks ->
    Forall zero_or_nan ycocgData ->
    exists out,
      decompressBlocks_loop (JArr (map block_json blocks)) width height
        (Num f) positions blockIndex ycocgData = Returns out
      /\ Forall zero_or_nan out.
Proof.
  intros Hf Hb.
  induction positions as [|[[y x] channel] rest IH];
    intros blockIndex ycocgData Hlen Hd.
  - exists ycocgData. split; [reflexivity|exact Hd].
  - cbn [List.length] in Hlen.
    destruct (nth_error blocks blockIndex) as [b|] eqn:Eb;
      [|apply nth_error_None in Eb; lia].
    assert (Hzero : zero_block width height b).
    { apply (proj1 (Forall_forall _ _) Hb). eapply nth_error_In, Eb. }
    destruct Hzero as [Hdata _].
    cbn [decompressBlocks_loop]. cbv zeta.
    unfold element. rewrite (map_nth_error block_json _ _ Eb).
    cbn [lift obind]. rewrite block_data_json. cbn [lift obind].
    unfold dequantize. rewrite numbers_JNum. cbn [obind].
    apply IH; [lia|].
    apply placeBlock_zero_or_nan; [exact Hd|].
    unfold applyInverseDCT.
    apply Forall_forall. intros n Hn.
    apply in_map_iff in Hn. destruct Hn as [d [<- Hn]].
    apply in_map_iff in Hn. destruct Hn as [q [<- Hn]].
    apply fround_zero_or_nan.
    rewrite <- (proj1 (Forall_forall _ _) Hdata q Hn).
    apply dequantize_zero.
    destruct (channelQFactor_small f channel Hf) as [c [-> _]].
    exists c. reflexivity.
Qed.

Lemma decompressBlocks_zero (width height : nat) (blocks : list ICFBlock)
    (quality : Z) :
  (84 <= quality <= 100)%Z ->
  Forall (zero_block width height) blocks ->
  List.length blocks = List.length (block_positions width height) ->
  exists out,
    decompressBlocks (JArr (map block_json blocks)) width height
                     (ofZ quality) = Returns out
    /\ Forall zero_or_nan out.
Proof.
  intros Hq Hb Hlen. unfold decompressBlocks.
  destruct (qFactor_small quality Hq) as [f [-> Hf]].
  apply decompressBlocks_loop_zero; try assumption; [lia|].
  apply Forall_forall. intros n Hn. apply repeat_spec in Hn.
  left. exact Hn.
Qed.

(** *** Back to bytes *)

(** A black pixel, opaque when there is an alpha channel. *)
Definition black_pixel (channels : nat) : list byte :=
  ([x00; x00; x00] ++ (if (3 <? channels)%nat then [xff] else []))%list.

Definition black_image (width height channels : nat) : Buffer :=
  List.concat (repeat (black_pixel channels) (width * height)).

Lemma write_zero (n i : nat) : write (repeat x00 n) i x00 = repeat x00 n.
Proof.
  revert i. induction n as [|n IH]; intros [|i]; cbn [repeat write];
    try reflexivity.
  rewrite IH. reflexivity.
Qed.

Lemma ycocgToRgb_step_black (ycocgData : Float32Array) (channels i : nat)
    (rgbData : Buffer) :
  Forall zero_or_nan ycocgData ->
  ycocgToRgb_step ycocgData channels rgbData i
  = let cleared :=
      write (write (write rgbData (i * channels) x00)
                   (i * channels + 1) x00)
            (i * channels + 2) x00 in
    if (3 <? channels)%nat
    then write cleared (i * channels + 3) xff
    else cleared.
Proof.
  intros Hd. unfold ycocgToRgb_step.
  pose proof (pixel_black _ _ _
                (read_zero_or_nan ycocgData (i * 3) Hd)
                (read_zero_or_nan ycocgData (i * 3 + 1) Hd)
                (read_zero_or_nan ycocgData (i * 3 + 2) Hd)) as Hp.
  destruct (ycocgToRgb_pixel _ _ _) as [[r g] b].
  destruct Hp as [-> [-> ->]]. reflexivity.
Qed.

Lemma concat_repeat_length {A} (l : list A) (n : nat) :
  List.length (List.concat (repeat l n)) = n * List.length l.
Proof.
  induction n as [|n IH]; [reflexivity|].
  cbn [repeat List.concat]. rewrite length_app, IH. lia.
Qed.

Lemma concat_repeat_snoc {A} (l : list A) (n : nat) :
  List.concat (repeat l (S n)) = (List.concat (repeat l n) ++ l)%list.
Proof.
  change (repeat l (S n)) with (l :: repeat l n).
  rewrite repeat_cons, concat_app. cbn [List.concat].
  rewrite app_nil_r. reflexivity.
Qed.

Lemma ycocgToRgb_black_prefix (ycocgData : Float32Array)
    (channels pixelCount : nat) :
  Forall zero_or_nan ycocgData ->
  channels = 3 \/ channels = 4 ->
  forall m, m <= pixelCount ->
    fold_left (ycocgToRgb_step ycocgData channels) (seq 0 m)
              (repeat x00 (pixelCount * channels))
    = (List.concat (repeat (black_pixel channels) m)
         ++ repeat x00 ((pixelCount - m) * channels))%list.
Proof.
  intros Hd Hc. induction m as [|m IH]; intros Hm.
  - cbn [seq fold_left repeat List.concat app]. rewrite Nat.sub_0_r.
    reflexivity.
  - rewrite seq_S, fold_left_app, IH by lia. cbn [Nat.add fold_left].
    rewrite (ycocgToRgb_step_black _ _ _ _ Hd). cbv zeta.
    rewrite (concat_repeat_snoc (black_pixel channels) m), <- app_assoc.
    set (prefix := List.concat (repeat (black_pixel channels) m)).
    assert (Hl : List.length prefix = m * channels).
    { unfold prefix. rewrite (concat_repeat_length (black_pixel channels)).
      destruct Hc as [-> | ->]; reflexivity. }
    replace ((pixelCount - m) * channels)
      with (channels + (pixelCount - S m) * channels) by nia.
    rewrite repeat_app.
    destruct Hc as [-> | ->].
    + change (repeat x00 3) with [x00; x00; x00]. cbn [app].
      rewrite (write_three _ _ _ _ _ _ _ _ _ Hl). reflexivity.
    + change (repeat x00 4) with [x00; x00; x00; x00]. cbn [app].
      rewrite (write_three _ _ _ _ _ _ _ _ _ Hl).
      change (3 <? 4)%nat with true. cbv iota.
      rewrite <- Hl, write_app. reflexivity.
Qed.

Lemma ycocgToRgb_black (ycocgData : Float32Array)
    (width height channels : nat) :
  Forall zero_or_nan ycocgData ->
  channels = 3 \/ channels = 4 ->
  ycocgToRgb ycocgData width height channels
  = black_image width height channels.
Proof.
  intros Hd Hc. unfold ycocgToRgb, black_image.
  rewrite (ycocgToRgb_black_prefix _ _ _ Hd Hc _ (Nat.le_refl _)).
  rewrite Nat.sub_diag. cbn [Nat.mul repeat]. apply app_nil_r.
Qed.


(** *** Encoding, then decoding *)

Lemma encode_created (image : RawImage) (quality : Z) (icfData : Buffer) :
  encode image quality = Ok icfData ->
  createContainer (header_of image quality) (payload_of image quality)
  = Ok icfData.
Proof.
  unfold encode.
  destruct (falsy (metadata_width image) || falsy (metadata_height image));
    [discriminate|].
  exact (fun H => H).
Qed.

Lemma header_of_valid (image : RawImage) (quality : Z) :
  within_limits image quality -> valid_header (header_of image quality).
Proof.
  intros [Hw [Hh [Hc [Hq Hp]]]].
  repeat split; assumption.
Qed.

Lemma dimension_ofNat (n : nat) :
  safe_nat n -> dimension (Some (JNum (ofNat n))) = Returns n.
Proof.
  intros Hn. rewrite (ofNat_exact n Hn). unfold dimension, is_integer.
  rewrite Qfloor_Z, Qeq_bool_inject_Z, Z.eqb_refl.
  assert (Hle : Qle_bool 0 (inject_Z (Z.of_nat n)) = true).
  { apply Qle_bool_iff. change 0%Q with (inject_Z 0).
    rewrite <- Zle_Qle. lia. }
  rewrite Hle. cbn [andb]. rewrite Nat2Z.id. reflexivity.
Qed.

Lemma header_checks_pass :
  TextCodec.differs_str (Some (JStr MAGIC)) MAGIC = false
  /\ TextCodec.differs_int (Some (JNum (ofZ VERSION))) VERSION = false.
Proof. split; vm_compute; reflexivity. Qed.

(** X9.  At a quality from 84 to 100 the quantization step is so coarse
    that every coefficient is stored as 0 (at 100 the factor is 0 and
    the decoder divides 0 by 0): whatever the picture, decoding what
    [encode] returns gives a black image of the same dimensions, opaque
    if it has an alpha channel. *)
Theorem high_quality_decodes_black (image : RawImage) (quality : Z)
    (icfData : Buffer) :
  (84 <= quality <= 100)%Z ->
  info_channels image = 3 \/ info_channels image = 4 ->
  List.length (raw_data image)
  = info_width image * info_height image * info_channels image ->
  within_limits image quality ->
  encode image quality = Ok icfData ->
  decode icfData
  = Returns {| decoded_data :=
                 black_image (info_width image) (info_height image)
                             (info_channels image);
               decoded_width := info_width image;
               decoded_height := info_height image;
               decoded_channels := info_channels image |}.
Proof.
  intros Hq Hc Hlen Hl He.
  apply encode_created in He.
  pose proof (parse_container _ _ _ (header_of_valid _ _ Hl) He) as Hp.
  destruct Hl as [Hw [Hh [Hch _]]].
  unfold header_json in Hp.
  rewrite (decode_object _ _ _ _ _ _ _ _ _ _ _ Hp).
  unfold decode_parsed.
  cbn [header_of h_magic h_version h_width h_height h_channels h_quality].
  destruct header_checks_pass as [-> ->].
  unfold payload_of. rewrite string_of_serializeBlocks.
  set (width := info_width image) in *.
  set (height := info_height image) in *.
  set (ycocgData := rgbToYCoCg (raw_data image) width height
                               (info_channels image)).
  set (blocks := compressBlocks ycocgData width height (ofZ quality)).
  assert (Hz : Forall (zero_block width height) blocks).
  { apply compressBlocks_zero; [exact Hq| |apply rgbToYCoCg_length].
    apply rgbToYCoCg_within; [destruct Hc as [-> | ->]; lia|exact Hlen]. }
  assert (Hn : List.length blocks
               = List.length (block_positions width height)).
  { unfold blocks, compressBlocks. apply length_map. }
  rewrite (parse_stringify _ (blocks_printable width height blocks Hw Hh Hz)).
  cbn [lift obind].
  rewrite !dimension_ofNat by assumption. cbn [obind ToNumber].
  destruct (decompressBlocks_zero width height blocks quality Hq Hz Hn)
    as [out [-> Hout]].
  cbn [obind]. rewrite (ycocgToRgb_black _ _ _ _ Hout Hc). reflexivity.
Qed.

Lemma high_quality_decodes_black_witness :
  decode ImageAlphaFacts.two_pixels_icf
  = Returns {| decoded_data := [x00; x00; x00; xff; x00; x00; x00; xff];
               decoded_width := 2;
               decoded_height := 1;
               decoded_channels := 4 |}.
Proof.
  apply (high_quality_decodes_black ImageAlphaFacts.two_pixels 85).
  - lia.
  - right. reflexivity.
  - reflexivity.
  - repeat split; vm_compute; reflexivity.
  - vm_compute. reflexivity.
Defined.

End ImagePipelineFacts.

(** ** The video codec: which streams decode, and to what *)

Module VideoRoundTrip.
Import JSNumber JSNumberFacts JSON JSONFacts JSONRoundTrip Dynamic.
Import VideoCodec VideoCodecFacts VideoDecodeFacts ColourFacts.
Local Open Scope string_scope.

(** *** The one error of [decodeFrames] *)

(** Once a reference frame is there, nothing throws. *)
Lemma decodeFrames_loop_total (frames : list VCFFrame) :
  forall prev e, decodeFrames_loop frames (Some prev) <> Throws e.
Proof.
  induction frames as [|frame rest IH]; intros prev e H; [discriminate|].
  cbn [decodeFrames_loop] in H.
  destruct (type frame).
  - cbn [obind] in H.
    destruct (decodeFrames_loop rest (Some (data frame))) eqn:E;
      cbn [obind] in H; try discriminate.
    injection H as <-. exact (IH _ _ E).
  - unfold decompressPFrame in H.
    destruct (reconstruct (data frame) prev); cbn [obind] in H;
      try discriminate;
      (destruct (decodeFrames_loop rest (Some prev)) eqn:E;
       cbn [obind] in H; try discriminate;
       injection H as <-; exact (IH _ _ E)).
Qed.

(** X16.  [decodeFrames] throws exactly when the first frame is a
    P-frame, and then it throws 'P-frame without previous I-frame'. *)
Theorem decodeFrames_error (frames : list VCFFrame) (e : error) :
  decodeFrames frames = Throws e
  <-> e = PFrameWithoutIFrame
      /\ exists frame rest, frames = frame :: rest /\ type frame = P.
Proof.
  unfold decodeFrames. split.
  - intros H. destruct frames as [|frame rest]; [discriminate|].
    cbn [decodeFrames_loop] in H.
    destruct (type frame) eqn:Et.
    + exfalso. cbn [obind] in H.
      destruct (decodeFrames_loop rest (Some (data frame))) eqn:E;
        cbn [obind] in H; try discriminate.
      injection H as <-. exact (decodeFrames_loop_total _ _ _ E).
    + cbn [obind] in H. injection H as <-.
      split; [reflexivity|]. exists frame, rest. split; [reflexivity|exact Et].
  - intros [-> [frame [rest [-> Et]]]].
    cbn [decodeFrames_loop]. rewrite Et. reflexivity.
Qed.

(** *** Streams of I-frames *)

Lemma is_gop_start_1 (i : nat) : is_gop_start i 1 = true.
Proof.
  unfold is_gop_start. change (1 =? 0)%Z with false. cbv iota.
  rewrite Z.rem_1_r. reflexivity.
Qed.

Lemma gop_1_loop (fps : number) (quality : Z) (files : list Buffer) :
  forall i encoderPrevious decoderPrevious,
    decodeFrames_loop
      (encodeFrames_loop fps quality 1 i files encoderPrevious)
      decoderPrevious
    = Returns files.
Proof.
  induction files as [|frameData rest IH]; intros i ep dp; [reflexivity|].
  rewrite encodeFrames_loop_cons. unfold encodeFrame.
  rewrite is_gop_start_1. cbv zeta iota.
  cbn [decodeFrames_loop fst snd type data obind]. rewrite IH. reflexivity.
Qed.

(** X14.  With a GOP size of 1 every frame is an I-frame, and decoding
    the encoded frames gives back the frame files, whatever the
    quality. *)
Theorem gop_1_roundtrip (files : list Buffer) (fps : number) (quality : Z) :
  decodeFrames (encodeFrames files fps quality 1) = Returns files.
Proof. apply gop_1_loop. Qed.

(** *** A GOP size of 0 *)

Lemma gop_0_loop (fps : number) (quality : Z) (files : list Buffer) :
  forall i,
    map (fun frame => (type frame, data frame))
        (encodeFrames_loop fps quality 0 i files None)
    = map (fun frameData => (P, frameData)) files.
Proof.
  induction files as [|frameData rest IH]; intros i; [reflexivity|].
  rewrite encodeFrames_loop_cons. unfold encodeFrame.
  change (is_gop_start i 0) with false. cbv zeta iota.
  cbn [map fst snd type data]. rewrite IH. reflexivity.
Qed.

(** X15.  With a GOP size of 0 ([i % 0] is [NaN]) no frame is an
    I-frame: every frame is marked P, holds its file as it is (there is
    no reference to subtract), and a stream with at least one frame is
    rejected by [decodeFrames]. *)
Theorem gop_0_is_undecodable (frameData : Buffer) (files : list Buffer)
    (fps : number) (quality : Z) :
  let frames := encodeFrames (frameData :: files) fps quality 0 in
  map type frames = map (fun _ => P) (frameData :: files)
  /\ map data frames = frameData :: files
  /\ decodeFrames frames = Throws PFrameWithoutIFrame.
Proof.
  intros frames.
  pose proof (gop_0_loop fps quality (frameData :: files) 0) as H.
  fold (encodeFrames (frameData :: files) fps quality 0) in H.
  fold frames in H.
  assert (Ht : map type frames = map (fun _ => P) (frameData :: files)).
  { apply (f_equal (map fst)) in H. rewrite !map_map in H. exact H. }
  assert (Hd : map data frames = frameData :: files).
  { apply (f_equal (map snd)) in H. rewrite !map_map in H.
    cbn [snd] in H. rewrite map_id in H. exact H. }
  split; [exact Ht|]. split; [exact Hd|].
  unfold decodeFrames.
  destruct frames as [|frame rest]; [discriminate|].
  cbn [map] in Ht. injection Ht as Ht _.
  cbn [decodeFrames_loop]. rewrite Ht. reflexivity.
Qed.


(** *** P-frames at quality 100 *)

(** The loop of [decompressPFrame], as [reconstruct] has it. *)
Definition reconstruct_loop (d : option json) (qualityFactor : number)
    (baseLength : nat) : nat -> Buffer -> nat -> outcome Buffer :=
  fix loop (i : nat) (prev : Buffer) (k : nat) : outcome Buffer :=
    match k, prev with
    | S k', p :: prev' =>
        diff <~
          match d with
          | None | Some JNull => Throws TypeError
          | Some (JArr items) =>
              match nth_error items i with
              | Some item =>
                  x <~ ToNumber (Some item) ;; Returns (div x qualityFactor)
              | None => Returns (Num 0)
              end
          | Some (JNum _) | Some (JBool _) => Returns (Num 0)
          | Some (JStr _) | Some (JObj _) => OutsideModel
          end ;;
        let v :=
          Math_max (Num 0)
            (Math_min (Num 255)
               (add (ofZ (Z.of_N (byteN p))) (Math_round diff))) in
        rest <~ loop (S i) prev' k' ;;
        Returns (toUint8 v :: rest)
    | _, _ => Returns (repeat x00 (baseLength - i))
    end.

Lemma reconstruct_eq (pFrameData previousFrame : Buffer) :
  reconstruct pFrameData previousFrame
  = (pFrame <~ lift (parse (string_of_list_byte pFrameData)) ;;
     t <~ lift (get pFrame "type") ;;
     if TextCodec.differs_str t "P" then Throws InvalidPFrame
     else
       bl <~ lift (get pFrame "baseLength") ;;
       baseLength <~ alloc_size bl ;;
       q <~ lift (get pFrame "quality") ;;
       quality <~ ToNumber q ;;
       d <~ lift (get pFrame "diff") ;;
       reconstruct_loop d (div quality (ofZ 100)) baseLength 0 previousFrame
         (Nat.min baseLength (List.length previousFrame))).
Proof. reflexivity. Qed.

Lemma Qmult_1 (z : Z) : (inject_Z z * 1)%Q = inject_Z z.
Proof. unfold inject_Z, Qmult. simpl. rewrite Z.mul_1_r. reflexivity. Qed.

Lemma safe_byte_sum (z : Z) :
  (-255 <= z <= 510)%Z -> (Z.abs z < 2 ^ 53)%Z.
Proof. change (2 ^ 53)%Z with 9007199254740992%Z. lia. Qed.

(** At quality 100 the factor is 1: a difference is stored as it is. *)
Lemma stored_difference (z : Z) :
  (-255 <= z <= 255)%Z ->
  Math_round (mul (ofZ z) (div (ofZ 100) (ofZ 100))) = Num (inject_Z z).
Proof.
  intros Hz.
  change (div (ofZ 100) (ofZ 100)) with (Num 1).
  rewrite ofZ_exact by (apply safe_byte_sum; lia).
  change (mul (Num (inject_Z z)) (Num 1)) with (fl (inject_Z z * 1)).
  rewrite Qmult_1. fold (ofZ z).
  rewrite ofZ_exact by (apply safe_byte_sum; lia).
  unfold Math_round. rewrite (Qfloor_near (inject_Z z) z); [reflexivity|].
  split; ring_simplify (inject_Z z - inject_Z z)%Q; discriminate.
Qed.

Lemma read_difference (z : Z) :
  (-255 <= z <= 255)%Z ->
  Math_round (div (Num (inject_Z z)) (Num 1)) = Num (inject_Z z).
Proof.
  intros Hz.
  change (div (Num (inject_Z z)) (Num 1)) with (fl (inject_Z z * 1)).
  rewrite Qmult_1. fold (ofZ z).
  rewrite ofZ_exact by (apply safe_byte_sum; lia).
  unfold Math_round. rewrite (Qfloor_near (inject_Z z) z); [reflexivity|].
  split; ring_simplify (inject_Z z - inject_Z z)%Q; discriminate.
Qed.

Lemma clamp_byte (z : Z) :
  (0 <= z <= 255)%Z ->
  Math_max (Num 0) (Math_min (Num 255) (Num (inject_Z z)))
  = Num (inject_Z z).
Proof.
  intros Hz.
  pose proof (clamp_exact (inject_Z z) z Hz) as H.
  unfold Math_round in H. rewrite (Qfloor_near (inject_Z z) z) in H.
  - apply H. split; ring_simplify (inject_Z z - inject_Z z)%Q; discriminate.
  - split; ring_simplify (inject_Z z - inject_Z z)%Q; discriminate.
Qed.

(** The byte the decoder stores for a reference byte [p] and a
    difference [c - p]. *)
Lemma restored_byte (c p : byte) :
  toUint8
    (Math_max (Num 0)
       (Math_min (Num 255)
          (add (ofZ (Z.of_N (byteN p)))
               (Num (inject_Z (Z.of_N (byteN c) - Z.of_N (byteN p)))))))
  = c.
Proof.
  pose proof (byteN_bound c) as Hc. pose proof (byteN_bound p) as Hp.
  rewrite ofZ_exact by (apply safe_byte_sum; lia).
  rewrite add_Num, <- inject_Z_plus.
  replace (Z.of_N (byteN p) + (Z.of_N (byteN c) - Z.of_N (byteN p)))%Z
    with (Z.of_N (byteN c)) by lia.
  fold (ofZ (Z.of_N (byteN c))).
  rewrite ofZ_exact by (apply safe_byte_sum; lia).
  rewrite (clamp_byte _ Hc). apply toUint8_channel.
Qed.

Lemma kept_byte (p : byte) :
  toUint8
    (Math_max (Num 0)
       (Math_min (Num 255)
          (add (ofZ (Z.of_N (byteN p))) (Math_round (Num 0)))))
  = p.
Proof.
  pose proof (restored_byte p p) as H.
  rewrite Z.sub_diag in H. exact H.
Qed.

Definition difference (cp : byte * byte) : Z :=
  (Z.of_N (byteN (fst cp)) - Z.of_N (byteN (snd cp)))%Z.

Lemma difference_bound (cp : byte * byte) : (-255 <= difference cp <= 255)%Z.
Proof.
  unfold difference.
  pose proof (byteN_bound (fst cp)). pose proof (byteN_bound (snd cp)). lia.
Qed.

Lemma reconstruct_loop_exact (items : list json) (baseLength : nat)
    (prev : Buffer) :
  forall (cur : Buffer) (i : nat),
    (forall j,
        nth_error items (i + j)
        = option_map (fun cp => JNum (Num (inject_Z (difference cp))))
                     (nth_error (combine cur prev) j)) ->
    reconstruct_loop (Some (JArr items)) (Num 1) baseLength i prev
                     (List.length prev)
    = Returns (firstn (List.length prev) cur ++ skipn (List.length cur) prev
                 ++ repeat x00 (baseLength - (i + List.length prev)))%list.
Proof.
  induction prev as [|p prev IH]; intros cur i Hitems.
  - cbn [List.length reconstruct_loop firstn skipn app].
    rewrite Nat.add_0_r. destruct cur; reflexivity.
  - cbn [List.length reconstruct_loop].
    pose proof (Hitems 0) as H0. rewrite Nat.add_0_r in H0.
    destruct cur as [|c cur].
    + cbn [combine nth_error option_map] in H0. rewrite H0.
      cbn [obind]. rewrite kept_byte.
      rewrite (IH [] (S i)).
      * cbn [obind List.length firstn skipn app].
        replace (S i + List.length prev) with (i + S (List.length prev))
          by lia.
        destruct (List.length prev); reflexivity.
      * intros j. replace (S i + j) with (i + S j) by lia.
        rewrite (Hitems (S j)). cbn [combine]. destruct j; reflexivity.
    + cbn [combine nth_error option_map] in H0. rewrite H0.
      cbn [ToNumber obind].
      rewrite (read_difference _ (difference_bound (c, p))).
      unfold difference at 1. cbn [fst snd]. rewrite restored_byte.
      rewrite (IH cur (S i)).
      * cbn [obind List.length firstn skipn app].
        replace (S i + List.length prev) with (i + S (List.length prev))
          by lia.
        reflexivity.
      * intros j. replace (S i + j) with (i + S j) by lia.
        rewrite (Hitems (S j)). reflexivity.
Qed.


(** The object [compressPFrame] prints at quality 100. *)
Definition pframe_json (currentFrame previousFrame : Buffer) : json :=
  JObj [ ("type", JStr "P");
         ("baseLength",
          JNum (Num (inject_Z (Z.of_nat (List.length previousFrame)))));
         ("diff",
          JArr (map (fun cp => JNum (Num (inject_Z (difference cp))))
                    (combine currentFrame previousFrame)));
         ("quality", JNum (Num 100)) ].

Definition safe_length (frame : Buffer) : Prop :=
  (Z.of_nat (List.length frame) < 2 ^ 53)%Z.

Lemma compressPFrame_100 (currentFrame previousFrame : Buffer) :
  safe_length previousFrame ->
  compressPFrame currentFrame previousFrame 100
  = list_byte_of_string (stringify (pframe_json currentFrame previousFrame)).
Proof.
  intros Hlen. unfold compressPFrame, pframe_json. cbv zeta.
  unfold VideoCodec.ofNat.
  rewrite (@ofZ_exact (Z.of_nat (List.length previousFrame)))
    by (unfold safe_length in Hlen; lia).
  rewrite !map_map.
  erewrite map_ext
    by (intros cp;
        change (Z.of_N (byteN (fst cp)) - Z.of_N (byteN (snd cp)))%Z
          with (difference cp);
        rewrite (stored_difference _ (difference_bound cp));
        reflexivity).
  change (ofZ 100) with (Num 100). reflexivity.
Qed.

Lemma pframe_json_printable (currentFrame previousFrame : Buffer) :
  safe_length previousFrame ->
  printable (pframe_json currentFrame previousFrame).
Proof.
  intros Hlen. unfold pframe_json. cbn [printable fold_right snd].
  repeat split.
  - eexists. split; [reflexivity|]. unfold safe_length in Hlen. lia.
  - induction (combine currentFrame previousFrame) as [|cp l IH];
      [exact Logic.I|].
    cbn [map fold_right printable]. split; [|exact IH].
    eexists. split; [reflexivity|].
    apply safe_byte_sum. pose proof (difference_bound cp). lia.
  - exists 100%Z. split; reflexivity.
Qed.

Lemma alloc_size_length (n : nat) :
  (Z.of_nat n < 2 ^ 53)%Z ->
  alloc_size (Some (JNum (Num (inject_Z (Z.of_nat n))))) = Returns n.
Proof.
  intros Hn. unfold alloc_size, kMaxLength.
  assert (H0 : Qle_bool 0 (inject_Z (Z.of_nat n)) = true).
  { apply Qle_bool_iff. change 0%Q with (inject_Z 0).
    rewrite <- Zle_Qle. lia. }
  assert (H1 : Qle_bool (inject_Z (Z.of_nat n)) (inject_Z (2 ^ 53 - 1))
               = true).
  { apply Qle_bool_iff. rewrite <- Zle_Qle. lia. }
  rewrite H0, H1. cbn [andb]. rewrite Qfloor_Z, Nat2Z.id. reflexivity.
Qed.

Lemma reconstruct_100 (currentFrame previousFrame : Buffer) :
  safe_length previousFrame ->
  reconstruct (compressPFrame currentFrame previousFrame 100) previousFrame
  = Returns (firstn (List.length previousFrame) currentFrame
               ++ skipn (List.length currentFrame) previousFrame)%list.
Proof.
  intros Hlen.
  rewrite reconstruct_eq, (compressPFrame_100 _ _ Hlen).
  rewrite string_of_list_byte_of_string.
  rewrite (parse_stringify _ (pframe_json_printable _ _ Hlen)).
  unfold pframe_json.
  cbn [lift obind get lookup String.eqb Ascii.eqb Bool.eqb].
  change (TextCodec.differs_str (Some (JStr "P")) "P") with false.
  cbv iota.
  rewrite (alloc_size_length _ Hlen). cbn [obind ToNumber].
  change (div (Num 100) (ofZ 100)) with (Num 1).
  rewrite Nat.min_id.
  rewrite (reconstruct_loop_exact _ _ _ currentFrame).
  - rewrite Nat.sub_diag. cbn [repeat]. rewrite app_nil_r. reflexivity.
  - intros j. cbn [Nat.add]. apply nth_error_map.
Qed.

(** X17.  A P-frame made at quality 100 is decoded exactly.  The decoded
    frame has the length of the reference frame: it is the current frame
    cut to that length, followed by the bytes of the reference frame
    beyond the current frame's length. *)
Theorem pframe_quality_100 (currentFrame previousFrame : Buffer) :
  safe_length previousFrame ->
  decompressPFrame (compressPFrame currentFrame previousFrame 100)
                   previousFrame
  = Returns (firstn (List.length previousFrame) currentFrame
               ++ skipn (List.length currentFrame) previousFrame)%list.
Proof.
  intros Hlen. unfold decompressPFrame.
  rewrite (reconstruct_100 _ _ Hlen). reflexivity.
Qed.

Lemma pframe_quality_100_witness :
  decompressPFrame (compressPFrame [x10; xff; x00] [x20; x00; xff; x07] 100)
                   [x20; x00; xff; x07]
  = Returns [x10; xff; x00; x07].
Proof.
  apply (pframe_quality_100 [x10; xff; x00] [x20; x00; xff; x07]).
  vm_compute. reflexivity.
Defined.


(** *** Whole streams at quality 100 *)

Lemma is_gop_start_0 (gopSize : Z) :
  gopSize <> 0%Z -> is_gop_start 0 gopSize = true.
Proof.
  intros Hg. unfold is_gop_start.
  destruct (Z.eqb_spec gopSize 0) as [E|_]; [contradiction|].
  cbn [Z.of_nat]. rewrite Z.rem_0_l by exact Hg. reflexivity.
Qed.

Lemma quality_100_loop (fps : number) (gopSize : Z) (n : nat)
    (files : list Buffer) :
  gopSize <> 0%Z -> (Z.of_nat n < 2 ^ 53)%Z ->
  Forall (fun frameData => List.length frameData = n) files ->
  forall i encoderPrevious decoderPrevious,
    (i = 0 /\ encoderPrevious = None /\ decoderPrevious = None)
    \/ (exists reference,
           encoderPrevious = Some reference
           /\ decoderPrevious = Some reference
           /\ List.length reference = n) ->
    decodeFrames_loop
      (encodeFrames_loop fps 100 gopSize i files encoderPrevious)
      decoderPrevious
    = Returns files.
Proof.
  intros Hg Hn Hfiles.
  induction Hfiles as [|frameData rest Hlen _ IH]; intros i ep dp Hinv;
    [reflexivity|].
  rewrite encodeFrames_loop_cons. unfold encodeFrame.
  destruct (is_gop_start i gopSize) eqn:E; cbv zeta iota.
  - cbn [decodeFrames_loop fst snd type data obind].
    rewrite IH; [reflexivity|].
    right. exists frameData. repeat split. exact Hlen.
  - destruct Hinv as [[-> _]|[reference [-> [-> Href]]]].
    + rewrite (is_gop_start_0 gopSize Hg) in E. discriminate.
    + cbn [decodeFrames_loop fst snd type data].
      unfold decompressPFrame.
      rewrite reconstruct_100
        by (unfold safe_length; rewrite Href; exact Hn).
      rewrite Href, <- Hlen, firstn_all. rewrite Hlen, <- Href, skipn_all.
      rewrite app_nil_r. cbn [obind].
      rewrite IH; [reflexivity|].
      right. exists reference. repeat split. exact Href.
Qed.

(** X18.  At quality 100, with a GOP size other than 0 and frame files
    that all have the same length, decoding the encoded frames gives
    back the frame files. *)
Theorem quality_100_roundtrip (files : list Buffer) (fps : number)
    (gopSize : Z) (n : nat) :
  gopSize <> 0%Z -> (Z.of_nat n < 2 ^ 53)%Z ->
  Forall (fun frameData => List.length frameData = n) files ->
  decodeFrames (encodeFrames files fps 100 gopSize) = Returns files.
Proof.
  intros Hg Hn Hfiles.
  apply (quality_100_loop fps gopSize n files Hg Hn Hfiles).
  left. repeat split.
Qed.

Definition three_frames : list Buffer :=
  [[x01; x02; x03]; [x04; x00; xff]; [xff; x02; x00]].

Lemma quality_100_roundtrip_witness :
  decodeFrames (encodeFrames three_frames (Num 25) 100 2)
  = Returns three_frames.
Proof.
  apply (quality_100_roundtrip three_frames (Num 25) 2 3).
  - discriminate.
  - reflexivity.
  - repeat constructor.
Defined.

End VideoRoundTrip.

(** ** P-frames at every quality from 1 to 100 *)

Module PFrameNumbers.
Import JSNumber JSNumberFacts RoundingFacts ColourFacts QuantizeFacts.
Local Open Scope Q_scope.

(** Doubles of magnitude at most 2^15. *)
Lemma fl_medium (x : Q) :
  - (32768) <= x <= 32768 ->
  exists r, fl x = Num r
            /\ - (1 # 274877906944) <= r - x <= 1 # 274877906944.
Proof.
  intros Hx.
  destruct (round_err 53 1024 15 x) as [r [Hr He]]; [lia|lia| |].
  - apply Qabs_Qle_condition. exact Hx.
  - exists r. split; [exact Hr|].
    apply Qabs_Qle_condition in He. exact He.
Qed.

(** [Math.round] is within one half of its argument. *)
Lemma Math_round_near (x : Q) :
  exists z, Math_round (Num x) = Num (inject_Z z)
            /\ - (1 # 2) <= inject_Z z - x <= 1 # 2.
Proof.
  exists (Qfloor (x + (1 # 2))). split; [reflexivity|].
  pose proof (Qfloor_le (x + (1 # 2))) as H1.
  pose proof (Qlt_floor (x + (1 # 2))) as H2.
  rewrite inject_Z_plus in H2. change (inject_Z 1) with 1 in H2. lra.
Qed.

(** The factor [quality / 100]. *)
Definition factor_of (quality : Z) (f : Q) : Prop :=
  - (1 # 4503599627370496) <= f - inject_Z quality * (1 # 100)
  <= 1 # 4503599627370496.

Lemma qualityFactor_of (quality : Z) :
  (1 <= quality <= 100)%Z ->
  exists f, div (ofZ quality) (ofZ 100) = Num f /\ factor_of quality f.
Proof.
  intros Hq.
  rewrite (@ofZ_exact quality)
    by (change (2 ^ 53)%Z with 9007199254740992%Z; lia).
  change (ofZ 100) with (Num 100).
  change (div (Num (inject_Z quality)) (Num 100))
    with (fl (inject_Z quality * (1 # 100))).
  assert (Hq' : 1 <= inject_Z quality <= 100).
  { change 1 with (inject_Z 1). change 100 with (inject_Z 100).
    rewrite <- !Zle_Qle. exact Hq. }
  destruct (fl_small (inject_Z quality * (1 # 100))) as [f [-> Hf]]; [lra|].
  exists f. split; [reflexivity|exact Hf].
Qed.

Lemma factor_bounds (quality : Z) (f : Q) :
  (1 <= quality <= 100)%Z -> factor_of quality f ->
  99 # 10000 <= f <= 101 # 100.
Proof.
  intros Hq Hf. unfold factor_of in Hf.
  assert (Hq' : 1 <= inject_Z quality <= 100).
  { change 1 with (inject_Z 1). change 100 with (inject_Z 100).
    rewrite <- !Zle_Qle. exact Hq. }
  lra.
Qed.

(** What the encoder stores for a difference [d]: an integer within one
    half of [d * f]. *)
Lemma stored_value (f : Q) (d : Z) :
  99 # 10000 <= f <= 101 # 100 -> (-255 <= d <= 255)%Z ->
  exists s,
    Math_round (mul (ofZ d) (Num f)) = Num (inject_Z s)
    /\ - ((1 # 2) + (1 # 1000000000)) <= inject_Z s - inject_Z d * f
       <= (1 # 2) + (1 # 1000000000)
    /\ (-258 <= s <= 258)%Z.
Proof.
  intros Hf Hd.
  rewrite ofZ_exact by (change (2 ^ 53)%Z with 9007199254740992%Z; lia).
  assert (Hd' : - (255) <= inject_Z d <= 255).
  { change (- (255)) with (inject_Z (-255)). change 255 with (inject_Z 255).
    rewrite <- !Zle_Qle. exact Hd. }
  assert (Hp : - (255 * (101 # 100)) <= inject_Z d * f <= 255 * (101 # 100)).
  { apply product_bound; lra. }
  change (255 * (101 # 100)) with (25755 # 100) in Hp.
  change (mul (Num (inject_Z d)) (Num f)) with (fl (inject_Z d * f)).
  destruct (fl_medium (inject_Z d * f)) as [a [-> Ha]]; [lra|].
  destruct (Math_round_near a) as [s [-> Hs]].
  exists s. split; [reflexivity|]. split; [lra|].
  assert (H1 : inject_Z s < 259) by lra.
  assert (H2 : - (259) < inject_Z s) by lra.
  change 259 with (inject_Z 259) in H1.
  change (- (259)) with (inject_Z (-259)) in H2.
  rewrite <- Zlt_Qlt in H1, H2. lia.
Qed.

(** What the decoder reads for a stored value [s]: an integer [t] with
    [t * f] within [f / 2] of [s]. *)
Lemma read_value (f : Q) (s : Z) :
  99 # 10000 <= f <= 101 # 100 -> (-258 <= s <= 258)%Z ->
  exists t,
    Math_round (div (Num (inject_Z s)) (Num f)) = Num (inject_Z t)
    /\ - (f * (1 # 2) + (1 # 1000000000)) <= inject_Z t * f - inject_Z s
       <= f * (1 # 2) + (1 # 1000000000)
    /\ (-26063 <= t <= 26063)%Z.
Proof.
  intros Hf Hs.
  assert (Hs' : - (258) <= inject_Z s <= 258).
  { change (- (258)) with (inject_Z (-258)). change 258 with (inject_Z 258).
    rewrite <- !Zle_Qle. exact Hs. }
  assert (Hnz : Qeq_bool f 0 = false).
  { destruct (Qeq_bool f 0) eqn:E; [|reflexivity].
    apply Qeq_bool_eq in E. lra. }
  unfold div. rewrite Hnz.
  set (x := inject_Z s / f).
  assert (Hxf : x * f == inject_Z s).
  { unfold x. field. intros E. lra. }
  assert (Hx : - (26061) <= x <= 26061).
  { split.
    - apply Qle_shift_div_l; lra.
    - apply Qle_shift_div_r; lra. }
  destruct (fl_medium x) as [b [-> Hb]]; [lra|].
  destruct (Math_round_near b) as [t [-> Ht]].
  exists t. split; [reflexivity|].
  assert (Hd : - ((1 # 2) + (1 # 274877906944)) <= inject_Z t - x
               <= (1 # 2) + (1 # 274877906944)) by lra.
  assert (Hm : - (((1 # 2) + (1 # 274877906944)) * f)
               <= (inject_Z t - x) * f
               <= ((1 # 2) + (1 # 274877906944)) * f).
  { split.
    - setoid_replace (- (((1 # 2) + (1 # 274877906944)) * f))
        with ((- ((1 # 2) + (1 # 274877906944))) * f) by ring.
      apply Qmult_le_compat_r; lra.
    - apply Qmult_le_compat_r; lra. }
  split.
  - setoid_replace (inject_Z t * f - inject_Z s)
      with ((inject_Z t - x) * f) by (rewrite <- Hxf; ring).
    lra.
  - assert (H1 : inject_Z t < 26063) by lra.
    assert (H2 : - (26063) < inject_Z t) by lra.
    change 26063 with (inject_Z 26063) in H1.
    change (- (26063)) with (inject_Z (-26063)) in H2.
    rewrite <- Zlt_Qlt in H1, H2. lia.
Qed.

(** The difference that comes back is within [50 / quality + 1 / 2] of
    the difference that went in. *)
Lemma difference_bound_q (quality : Z) (f : Q) (d s t : Z) :
  (1 <= quality <= 100)%Z -> factor_of quality f ->
  (-255 <= d <= 255)%Z -> (-26063 <= t <= 26063)%Z ->
  - ((1 # 2) + (1 # 1000000000)) <= inject_Z s - inject_Z d * f
  <= (1 # 2) + (1 # 1000000000) ->
  - (f * (1 # 2) + (1 # 1000000000)) <= inject_Z t * f - inject_Z s
  <= f * (1 # 2) + (1 # 1000000000) ->
  (2 * quality * Z.abs (t - d) <= 100 + quality)%Z.
Proof.
  intros Hq Hf Hd Ht Hs Hr.
  pose proof (factor_bounds quality f Hq Hf) as Hfb.
  unfold factor_of in Hf.
  set (n := (t - d)%Z).
  assert (Hn : (-26318 <= n <= 26318)%Z) by (unfold n; lia).
  assert (Hn' : - (26318) <= inject_Z n <= 26318).
  { change (- (26318)) with (inject_Z (-26318)).
    change 26318 with (inject_Z 26318).
    rewrite <- !Zle_Qle. exact Hn. }
  assert (HN : inject_Z n == inject_Z t - inject_Z d).
  { unfold n. unfold Z.sub. rewrite inject_Z_plus, inject_Z_opp. ring. }
  assert (Hq' : 1 <= inject_Z quality <= 100).
  { change 1 with (inject_Z 1). change 100 with (inject_Z 100).
    rewrite <- !Zle_Qle. exact Hq. }
  (* n * f is within f/2 + 1/2 of 0 *)
  assert (Hnf : - (f * (1 # 2) + (1 # 2) + (2 # 1000000000))
                <= inject_Z n * f
                <= f * (1 # 2) + (1 # 2) + (2 # 1000000000)).
  { setoid_replace (inject_Z n * f)
      with ((inject_Z t * f - inject_Z s)
            + (inject_Z s - inject_Z d * f)) by (rewrite HN; ring).
    lra. }
  (* f is quality / 100, up to rounding *)
  assert (He : - (26318 * (1 # 4503599627370496))
               <= inject_Z n * (f - inject_Z quality * (1 # 100))
               <= 26318 * (1 # 4503599627370496)).
  { apply product_bound; lra. }
  change (26318 * (1 # 4503599627370496))
    with (26318 # 4503599627370496) in He.
  assert (Hnq : - (inject_Z quality * (1 # 2) + 50 + (1 # 4))
                <= inject_Z n * inject_Z quality
                <= inject_Z quality * (1 # 2) + 50 + (1 # 4)) by lra.
  rewrite <- inject_Z_mult in Hnq.
  assert (H1 : inject_Z (2 * (n * quality)) < inject_Z (quality + 100 + 1)).
  { rewrite inject_Z_mult, !inject_Z_plus.
    change (inject_Z 2) with 2. change (inject_Z 100) with 100.
    change (inject_Z 1) with 1. lra. }
  assert (H2 : inject_Z (- (quality + 100 + 1)) < inject_Z (2 * (n * quality))).
  { rewrite inject_Z_opp, inject_Z_mult, !inject_Z_plus.
    change (inject_Z 2) with 2. change (inject_Z 100) with 100.
    change (inject_Z 1) with 1. lra. }
  rewrite <- Zlt_Qlt in H1, H2. nia.
Qed.

End PFrameNumbers.

Module PFrameBound.
Import JSNumber JSON Dynamic VideoCodec.
Import JSNumberFacts JSONFacts RoundingFacts ColourFacts JSONRoundTrip.
Import VideoCodecFacts VideoRoundTrip PFrameNumbers.
Local Open Scope string_scope.

Lemma lt_integers (a b : Z) :
  lt (Num (inject_Z a)) (Num (inject_Z b)) = (a <? b)%Z.
Proof.
  unfold lt, Qcompare, inject_Z. cbn [Qnum Qden].
  rewrite !Z.mul_1_r. unfold Z.ltb. reflexivity.
Qed.

(** The clamp [Math.max(0, Math.min(255, u))] of an integer. *)
Lemma clamp_integer (u : Z) :
  Math_max (Num 0) (Math_min (Num 255) (Num (inject_Z u)))
  = Num (inject_Z (Z.max 0 (Z.min 255 u))).
Proof.
  change (Num 255) with (Num (inject_Z 255)).
  change (Num 0) with (Num (inject_Z 0)).
  unfold Math_min. rewrite lt_integers.
  destruct (Z.ltb_spec u 255) as [H|H].
  - unfold Math_max. rewrite lt_integers.
    destruct (Z.ltb_spec 0 u) as [H'|H'].
    + f_equal. f_equal. lia.
    + f_equal. f_equal. lia.
  - unfold Math_max. rewrite lt_integers.
    change (0 <? 255)%Z with true. cbv iota.
    f_equal. f_equal. lia.
Qed.

Lemma toUint8_small (w : Z) :
  (0 <= w <= 255)%Z ->
  Z.of_N (byteN (toUint8 (Num (inject_Z w)))) = w.
Proof.
  intros Hw.
  destruct (Byte.of_N (Z.to_N w)) as [b|] eqn:E.
  - assert (Hb : Z.of_N (byteN b) = w).
    { apply Byte.to_of_N in E. unfold byteN. rewrite E. lia. }
    rewrite <- Hb at 1. rewrite toUint8_channel. exact Hb.
  - apply Byte.of_N_None_iff in E. lia.
Qed.

(** One byte through [compressPFrame] and [decompressPFrame]. *)
Lemma restored_within (quality : Z) (f : Q) (c p : byte) :
  (1 <= quality <= 100)%Z -> factor_of quality f ->
  (2 * quality
   * Z.abs
       (Z.of_N
          (byteN
             (toUint8
                (Math_max (Num 0)
                   (Math_min (Num 255)
                      (add (ofZ (Z.of_N (byteN p)))
                         (Math_round
                            (div (Math_round
                                    (mul (ofZ (difference (c, p))) (Num f)))
                                 (Num f))))))))
        - Z.of_N (byteN c))
   <= 100 + quality)%Z.
Proof.
  intros Hq Hf.
  pose proof (factor_bounds quality f Hq Hf) as Hfb.
  pose proof (difference_bound (c, p)) as Hd.
  pose proof (byteN_bound c) as Hc. pose proof (byteN_bound p) as Hp.
  destruct (stored_value f (difference (c, p)) Hfb Hd) as [s [-> [Hs Hsb]]].
  destruct (read_value f s Hfb Hsb) as [t [-> [Ht Htb]]].
  pose proof (difference_bound_q quality f _ s t Hq Hf Hd Htb Hs Ht) as Hn.
  rewrite ofZ_exact by (change (2 ^ 53)%Z with 9007199254740992%Z; lia).
  rewrite add_Num, <- inject_Z_plus.
  fold (ofZ (Z.of_N (byteN p) + t)).
  rewrite ofZ_exact by (change (2 ^ 53)%Z with 9007199254740992%Z; lia).
  rewrite clamp_integer, toUint8_small by lia.
  unfold difference in Hn. cbn [fst snd] in Hn.
  assert (Hw : (Z.abs (Z.max 0 (Z.min 255 (Z.of_N (byteN p) + t))
                       - Z.of_N (byteN c))
                <= Z.abs (t - (Z.of_N (byteN c) - Z.of_N (byteN p))))%Z)
    by lia.
  nia.
Qed.

(** What the decoded frame has to do with the current frame and the
    reference frame. *)
Definition decoded_within (quality : Z) (cur prev out : Buffer) : Prop :=
  List.length out = List.length prev
  /\ (forall j c o,
         nth_error cur j = Some c -> nth_error out j = Some o ->
         (2 * quality * Z.abs (Z.of_N (byteN o) - Z.of_N (byteN c))
          <= 100 + quality)%Z)
  /\ (forall j, List.length cur <= j -> nth_error out j = nth_error prev j).

Definition stored_item (f : Q) (cp : byte * byte) : json :=
  JNum (Math_round (mul (ofZ (difference cp)) (Num f))).

Lemma reconstruct_loop_within (quality : Z) (f : Q) (items : list json)
    (baseLength : nat) (prev : Buffer) :
  (1 <= quality <= 100)%Z -> factor_of quality f ->
  forall (cur : Buffer) (i : nat),
    (forall j,
        nth_error items (i + j)
        = option_map (stored_item f) (nth_error (combine cur prev) j)) ->
    exists out,
      reconstruct_loop (Some (JArr items)) (Num f) baseLength i prev
                       (List.length prev)
      = Returns (out ++ repeat x00 (baseLength - (i + List.length prev)))%list
      /\ decoded_within quality cur prev out.
Proof.
  intros Hq Hf.
  induction prev as [|p prev IH]; intros cur i Hitems.
  - exists []. cbn [List.length reconstruct_loop app].
    rewrite Nat.add_0_r. split; [destruct cur; reflexivity|].
    split; [reflexivity|]. split.
    + intros j c o _ Ho. destruct j; discriminate.
    + reflexivity.
  - cbn [List.length reconstruct_loop].
    pose proof (Hitems 0) as H0. rewrite Nat.add_0_r in H0.
    destruct cur as [|c cur].
    + cbn [combine nth_error option_map] in H0. rewrite H0.
      cbn [obind]. rewrite kept_byte.
      destruct (IH [] (S i)) as [out [Hout [Hlen [_ Hkeep]]]].
      { intros j. replace (S i + j) with (i + S j) by lia.
        rewrite (Hitems (S j)). cbn [combine]. destruct j; reflexivity. }
      exists (p :: out). rewrite Hout. cbn [obind app].
      replace (S i + List.length prev) with (i + S (List.length prev))
        by lia.
      split; [reflexivity|].
      split; [cbn [List.length]; lia|]. split.
      * intros j c o Hc. destruct j; discriminate.
      * intros [|j] Hj; [reflexivity|].
        cbn [nth_error]. apply Hkeep. cbn [List.length]. lia.
    + cbn [combine nth_error option_map] in H0. rewrite H0.
      unfold stored_item. cbn [ToNumber obind].
      destruct (IH cur (S i)) as [out [Hout [Hlen [Hnear Hkeep]]]].
      { intros j. replace (S i + j) with (i + S j) by lia.
        rewrite (Hitems (S j)). reflexivity. }
      pose proof (restored_within quality f c p Hq Hf) as Hbyte.
      remember (toUint8 _) as o0 eqn:Eo in Hbyte |- *. clear Eo.
      exists (o0 :: out). rewrite Hout. cbn [obind app].
      replace (S i + List.length prev) with (i + S (List.length prev))
        by lia.
      split; [reflexivity|].
      split; [cbn [List.length]; lia|]. split.
      * intros [|j] c' o Hc Ho.
        -- cbn [nth_error] in Hc, Ho.
           injection Hc as <-. injection Ho as <-. exact Hbyte.
        -- cbn [nth_error] in Hc, Ho. exact (Hnear j c' o Hc Ho).
      * intros [|j] Hj; [cbn [List.length] in Hj; lia|].
        cbn [nth_error]. apply Hkeep. cbn [List.length] in Hj. lia.
Qed.

(** The object [compressPFrame] prints. *)
Definition pframe_object (currentFrame previousFrame : Buffer) (quality : Z)
    (f : Q) : json :=
  JObj [ ("type", JStr "P");
         ("baseLength",
          JNum (Num (inject_Z (Z.of_nat (List.length previousFrame)))));
         ("diff",
          JArr (map (stored_item f) (combine currentFrame previousFrame)));
         ("quality", JNum (Num (inject_Z quality))) ].

Lemma compressPFrame_object (currentFrame previousFrame : Buffer)
    (quality : Z) (f : Q) :
  (1 <= quality <= 100)%Z -> safe_length previousFrame ->
  div (ofZ quality) (ofZ 100) = Num f ->
  compressPFrame currentFrame previousFrame quality
  = list_byte_of_string
      (stringify (pframe_object currentFrame previousFrame quality f)).
Proof.
  intros Hq Hlen Hf. unfold compressPFrame, pframe_object. cbv zeta.
  unfold VideoCodec.ofNat.
  rewrite (@ofZ_exact (Z.of_nat (List.length previousFrame)))
    by (unfold safe_length in Hlen; lia).
  rewrite Hf.
  rewrite (@ofZ_exact quality)
    by (change (2 ^ 53)%Z with 9007199254740992%Z; lia).
  rewrite !map_map. reflexivity.
Qed.

Lemma pframe_object_printable (currentFrame previousFrame : Buffer)
    (quality : Z) (f : Q) :
  (1 <= quality <= 100)%Z -> factor_of quality f ->
  safe_length previousFrame ->
  printable (pframe_object currentFrame previousFrame quality f).
Proof.
  intros Hq Hf Hlen. unfold pframe_object. cbn [printable fold_right snd].
  pose proof (factor_bounds quality f Hq Hf) as Hfb.
  repeat split.
  - eexists. split; [reflexivity|]. unfold safe_length in Hlen. lia.
  - induction (combine currentFrame previousFrame) as [|cp l IH];
      [exact Logic.I|].
    cbn [map fold_right printable]. split; [|exact IH].
    unfold stored_item.
    destruct (stored_value f (difference cp) Hfb (difference_bound cp))
      as [s [-> [_ Hs]]].
    cbn [printable].
    exists s. split; [reflexivity|].
    change (2 ^ 53)%Z with 9007199254740992%Z. lia.
  - exists quality. split; [reflexivity|].
    change (2 ^ 53)%Z with 9007199254740992%Z. lia.
Qed.

Lemma decompressPFrame_within (currentFrame previousFrame : Buffer)
    (quality : Z) :
  (1 <= quality <= 100)%Z -> safe_length previousFrame ->
  exists decoded,
    decompressPFrame (compressPFrame currentFrame previousFrame quality)
                     previousFrame
    = Returns decoded
    /\ decoded_within quality currentFrame previousFrame decoded.
Proof.
  intros Hq Hlen.
  destruct (qualityFactor_of quality Hq) as [f [Hdiv Hf]].
  destruct (reconstruct_loop_within quality f
              (map (stored_item f) (combine currentFrame previousFrame))
              (List.length previousFrame) previousFrame Hq Hf
              currentFrame 0) as [out [Hout Hw]].
  { intros j. cbn [Nat.add]. apply nth_error_map. }
  exists out. split; [|exact Hw].
  unfold decompressPFrame.
  rewrite reconstruct_eq, (compressPFrame_object _ _ _ f Hq Hlen Hdiv).
  rewrite string_of_list_byte_of_string.
  rewrite (parse_stringify _ (pframe_object_printable _ _ _ f Hq Hf Hlen)).
  unfold pframe_object.
  cbn [lift obind get lookup String.eqb Ascii.eqb Bool.eqb].
  change (TextCodec.differs_str (Some (JStr "P")) "P") with false.
  cbv iota.
  rewrite (alloc_size_length _ Hlen). cbn [obind ToNumber].
  rewrite (@ofZ_exact quality) in Hdiv
    by (change (2 ^ 53)%Z with 9007199254740992%Z; lia).
  rewrite Hdiv, Nat.min_id, Hout.
  rewrite Nat.sub_diag. cbn [repeat]. rewrite app_nil_r. reflexivity.
Qed.

(** X22.  A P-frame made at a quality from 1 to 100 is decoded to a frame of
    the length of the reference frame.  Where the current frame has a byte,
    the decoded byte differs from it by at most [50 / quality + 1 / 2];
    beyond the current frame's length the reference frame's bytes are
    kept. *)
Theorem pframe_error_bound (currentFrame previousFrame : Buffer)
    (quality : Z) :
  (1 <= quality <= 100)%Z -> safe_length previousFrame ->
  exists decoded,
    decompressPFrame (compressPFrame currentFrame previousFrame quality)
                     previousFrame
    = Returns decoded
    /\ List.length decoded = List.length previousFrame
    /\ (forall i c o,
           nth_error currentFrame i = Some c ->
           nth_error decoded i = Some o ->
           (2 * quality * Z.abs (Z.of_N (byteN o) - Z.of_N (byteN c))
            <= 100 + quality)%Z)
    /\ (forall i,
           List.length currentFrame <= i ->
           nth_error decoded i = nth_error previousFrame i).
Proof.
  intros Hq Hlen.
  exact (decompressPFrame_within currentFrame previousFrame quality Hq Hlen).
Qed.

Lemma pframe_error_bound_witness :
  exists decoded,
    decompressPFrame (compressPFrame [x10; xff; x00] [x20; x00; xff; x07] 30)
                     [x20; x00; xff; x07]
    = Returns decoded
    /\ List.length decoded = 4
    /\ (forall i c o,
           nth_error [x10; xff; x00] i = Some c ->
           nth_error decoded i = Some o ->
           (2 * 30 * Z.abs (Z.of_N (byteN o) - Z.of_N (byteN c))
            <= 100 + 30)%Z)
    /\ (forall i,
           3 <= i ->
           nth_error decoded i = nth_error [x20; x00; xff; x07] i).
Proof.
  apply (pframe_error_bound [x10; xff; x00] [x20; x00; xff; x07] 30).
  - lia.
  - vm_compute. reflexivity.
Defined.


(** *** Whole streams at every quality from 1 to 100 *)

(** A decoded frame of the length of the frame file, each byte within
    [50 / quality + 1 / 2] of the file's. *)
Definition frame_close (quality : Z) (frameData decoded : Buffer) : Prop :=
  List.length decoded = List.length frameData
  /\ forall i c o,
       nth_error frameData i = Some c -> nth_error decoded i = Some o ->
       (2 * quality * Z.abs (Z.of_N (byteN o) - Z.of_N (byteN c))
        <= 100 + quality)%Z.

Lemma frame_close_refl (quality : Z) (frameData : Buffer) :
  (1 <= quality <= 100)%Z -> frame_close quality frameData frameData.
Proof.
  intros Hq. split; [reflexivity|].
  intros i c o Hc Ho. rewrite Hc in Ho. injection Ho as <-.
  rewrite Z.sub_diag. cbn [Z.abs]. lia.
Qed.

Lemma lossy_loop (fps : number) (quality gopSize : Z) (n : nat)
    (files : list Buffer) :
  (1 <= quality <= 100)%Z -> gopSize <> 0%Z -> (Z.of_nat n < 2 ^ 53)%Z ->
  Forall (fun frameData => List.length frameData = n) files ->
  forall i encoderPrevious decoderPrevious,
    (i = 0 /\ encoderPrevious = None /\ decoderPrevious = None)
    \/ (exists reference,
           encoderPrevious = Some reference
           /\ decoderPrevious = Some reference
           /\ List.length reference = n) ->
    exists decoded,
      decodeFrames_loop
        (encodeFrames_loop fps quality gopSize i files encoderPrevious)
        decoderPrevious
      = Returns decoded
      /\ Forall2 (frame_close quality) files decoded.
Proof.
  intros Hq Hg Hn Hfiles.
  induction Hfiles as [|frameData rest Hlen _ IH]; intros i ep dp Hinv.
  - exists []. split; [reflexivity|constructor].
  - rewrite encodeFrames_loop_cons. unfold encodeFrame.
    destruct (is_gop_start i gopSize) eqn:E; cbv zeta iota.
    + destruct (IH (S i) (Some frameData) (Some frameData))
        as [decoded [Hdec Hrest]].
      { right. exists frameData. repeat split. exact Hlen. }
      exists (frameData :: decoded). split.
      * cbn [decodeFrames_loop fst snd type data obind].
        unfold Buffer in *. rewrite Hdec. reflexivity.
      * constructor; [apply frame_close_refl; exact Hq|exact Hrest].
    + destruct Hinv as [[-> _]|[reference [-> [-> Href]]]].
      * rewrite (is_gop_start_0 gopSize Hg) in E. discriminate.
      * destruct (decompressPFrame_within frameData reference quality Hq)
          as [out [Hdecoded [Hout [Hnear _]]]].
        { unfold safe_length. rewrite Href. exact Hn. }
        destruct (IH (S i) (Some reference) (Some reference))
          as [decoded [Hdec Hrest]].
        { right. exists reference. repeat split. exact Href. }
        exists (out :: decoded). split.
        -- cbn [decodeFrames_loop fst snd type data].
           unfold Buffer in *. rewrite Hdecoded. cbn [obind].
           rewrite Hdec. reflexivity.
        -- constructor; [|exact Hrest].
           split; [rewrite Hout, Href, Hlen; reflexivity|exact Hnear].
Qed.

(** X23.  At a quality from 1 to 100, with a GOP size other than 0 and frame
    files that all have the same length, the encoded frames are decoded
    to as many frames of that length, and every decoded byte differs from
    the byte of its frame file by at most [50 / quality + 1 / 2]: the
    error does not grow along a group of pictures. *)
Theorem lossy_roundtrip (files : list Buffer) (fps : number)
    (quality gopSize : Z) (n : nat) :
  (1 <= quality <= 100)%Z -> gopSize <> 0%Z -> (Z.of_nat n < 2 ^ 53)%Z ->
  Forall (fun frameData => List.length frameData = n) files ->
  exists decoded,
    decodeFrames (encodeFrames files fps quality gopSize) = Returns decoded
    /\ Forall2 (frame_close quality) files decoded.
Proof.
  intros Hq Hg Hn Hfiles.
  apply (lossy_loop fps quality gopSize n files Hq Hg Hn Hfiles).
  left. repeat split.
Qed.

Lemma lossy_roundtrip_witness :
  exists decoded,
    decodeFrames (encodeFrames three_frames (Num 25) 40 2) = Returns decoded
    /\ Forall2 (frame_close 40) three_frames decoded.
Proof.
  apply (lossy_roundtrip three_frames (Num 25) 40 2 3).
  - lia.
  - discriminate.
  - reflexivity.
  - repeat constructor.
Defined.

End PFrameBound.

(** ** The image codec: blocks and sizes *)

Module ImageBlocksFacts.
Import JSNumber JSNumberFacts JSON JSONFacts JSONRoundTrip Dynamic.
Import ImageCodec ImageEncodeFacts ImageAlphaFacts ImagePipelineFacts.
Local Open Scope string_scope.

(** *** The tiling *)

Lemma steps_length (limit : nat) :
  List.length (steps limit) = (limit + 7) / 8.
Proof.
  unfold steps, BLOCK_SIZE. rewrite length_map, length_seq.
  replace (limit + 8 - 1) with (limit + 7) by lia. reflexivity.
Qed.

Lemma steps_multiple (limit k : nat) : In k (steps limit) -> k mod 8 = 0.
Proof.
  unfold steps, BLOCK_SIZE. intros H. apply in_map_iff in H.
  destruct H as [j [<- _]]. apply Nat.Div0.mod_mul.
Qed.

Lemma block_positions_length (width height : nat) :
  List.length (block_positions width height)
  = 3 * ((width + 7) / 8) * ((height + 7) / 8).
Proof.
  unfold block_positions.
  rewrite (flat_map_length_const _ (((width + 7) / 8) * 3)).
  - rewrite steps_length. lia.
  - intros y. rewrite (flat_map_length_const _ 3).
    + rewrite steps_length. reflexivity.
    + intros x. reflexivity.
Qed.

Lemma extractBlock_length (data : Float32Array)
    (width x y blockWidth blockHeight channel : nat) :
  List.length (extractBlock data width x y blockWidth blockHeight channel)
  = blockWidth * blockHeight.
Proof.
  unfold extractBlock. rewrite (flat_map_length_const _ blockWidth).
  - rewrite length_seq. lia.
  - intros by_. rewrite length_map, length_seq. reflexivity.
Qed.

(** X6.  [compressBlocks] cuts the image into tiles of at most 8 x 8
    samples, three blocks (one per channel) for each tile: there are
    [3 * ceil(width / 8) * ceil(height / 8)] blocks, every block starts
    at multiples of 8, lies inside the image, is not empty, and holds
    one coefficient for each of its samples. *)
Theorem compressBlocks_tiling (ycocgData : Float32Array)
    (width height : nat) (quality : number) :
  let blocks := compressBlocks ycocgData width height quality in
  List.length blocks = 3 * ((width + 7) / 8) * ((height + 7) / 8)
  /\ Forall (fun b =>
               ImageCodec.x b mod 8 = 0 /\ ImageCodec.y b mod 8 = 0
               /\ 1 <= ImageCodec.width b <= 8
               /\ 1 <= ImageCodec.height b <= 8
               /\ ImageCodec.x b + ImageCodec.width b <= width
               /\ ImageCodec.y b + ImageCodec.height b <= height
               /\ List.length (ImageCodec.data b)
                  = ImageCodec.width b * ImageCodec.height b)
            blocks.
Proof.
  intros blocks. split.
  - unfold blocks, compressBlocks. rewrite length_map.
    apply block_positions_length.
  - apply Forall_forall. intros b Hb.
    unfold blocks, compressBlocks in Hb. cbv zeta in Hb.
    apply in_map_iff in Hb. destruct Hb as [[[y x] channel] [<- Hp]].
    cbn [ImageCodec.data ImageCodec.x ImageCodec.y ImageCodec.width
         ImageCodec.height].
    assert (Hx : In x (steps width) /\ In y (steps height)).
    { unfold block_positions in Hp.
      apply in_flat_map in Hp. destruct Hp as [y' [Hy Hp]].
      apply in_flat_map in Hp. destruct Hp as [x' [Hx Hp]].
      apply in_map_iff in Hp. destruct Hp as [c [E _]].
      injection E as <- <- _. split; assumption. }
    destruct Hx as [Hx Hy].
    pose proof (steps_multiple _ _ Hx). pose proof (steps_multiple _ _ Hy).
    apply steps_below in Hx, Hy.
    unfold quantize, applyDCT, BLOCK_SIZE.
    rewrite !length_map, extractBlock_length.
    repeat split; try assumption; lia.
Qed.

(** *** The size of a decoded image *)

Lemma ycocgToRgb_length (ycocgData : Float32Array)
    (width height channels : nat) :
  List.length (ycocgToRgb ycocgData width height channels)
  = width * height * channels.
Proof.
  unfold ycocgToRgb.
  assert (Hl : forall l b,
             List.length
               (fold_left (ycocgToRgb_step ycocgData channels) l b)
             = List.length b).
  { induction l as [|a l IHl]; intros b; cbn [fold_left]; [reflexivity|].
    rewrite IHl. apply step_length. }
  rewrite Hl. apply repeat_length.
Qed.

(** A header field that holds the non-negative integer [n]. *)
Definition header_integer (header : json) (key : string) (n : nat) : Prop :=
  exists q,
    get header key = Ok (Some (JNum (Num q)))
    /\ (q == inject_Z (Z.of_nat n))%Q.

Lemma dimension_field (header : json) (key : string) (v : option json)
    (n : nat) :
  lift (get header key) = Returns v -> dimension v = Returns n ->
  header_integer header key n.
Proof.
  intros Hg Hd.
  destruct (get header key) as [v'|] eqn:G; [|discriminate].
  cbn [lift] in Hg. injection Hg as ->.
  unfold dimension in Hd.
  destruct v as [[| |[q| |]| | |]|]; try discriminate.
  destruct (is_integer q) eqn:Ei; [|discriminate].
  destruct (Qle_bool 0 q) eqn:Ep; [|discriminate].
  cbn [andb] in Hd. injection Hd as <-.
  exists q. split; [exact G|].
  unfold is_integer in Ei. apply Qeq_bool_eq in Ei.
  apply Qle_bool_imp_le in Ep.
  assert (H0 : (0 <= Qfloor q)%Z).
  { change 0%Z with (Qfloor 0). apply Qfloor_resp_le, Ep. }
  rewrite Z2Nat.id by exact H0. exact Ei.
Qed.

(** X10.  When [decode] returns an image, the header gives the width, the
    height and the number of channels as non-negative integers (other
    headers are not modelled), the image has these dimensions, and its
    buffer has [width * height * channels] bytes. *)
Theorem decoded_size (icfData : Buffer) (image : DecodedImage) :
  decode icfData = Returns image ->
  exists header payload,
    parseContainer icfData = Ok (header, payload)
    /\ header_integer header "width" (decoded_width image)
    /\ header_integer header "height" (decoded_height image)
    /\ header_integer header "channels" (decoded_channels image)
    /\ List.length (decoded_data image)
       = decoded_width image * decoded_height image * decoded_channels image.
Proof.
  unfold decode. intros Hd.
  destruct (parseContainer icfData) as [[header payload]|] eqn:Hp;
    [|discriminate].
  cbn [lift obind] in Hd.
  repeat match type of Hd with
         | obind ?r _ = Returns _ =>
             let v := fresh "v" in
             destruct r as [v| |] eqn:?; cbn [obind] in Hd;
             try discriminate
         | (if ?b then _ else _) = Returns _ =>
             destruct b; try discriminate
         end.
  injection Hd as <-.
  cbn [decoded_data decoded_width decoded_height decoded_channels].
  exists header, payload. split; [reflexivity|].
  split; [eapply dimension_field; eassumption|].
  split; [eapply dimension_field; eassumption|].
  split; [eapply dimension_field; eassumption|].
  apply ycocgToRgb_length.
Qed.

Lemma decoded_size_witness :
  exists image header payload,
    decode two_pixels_icf = Returns image
    /\ parseContainer two_pixels_icf = Ok (header, payload)
    /\ header_integer header "width" (decoded_width image)
    /\ header_integer header "height" (decoded_height image)
    /\ header_integer header "channels" (decoded_channels image)
    /\ List.length (decoded_data image)
       = decoded_width image * decoded_height image * decoded_channels image.
Proof.
  assert (D : exists image, decode two_pixels_icf = Returns image)
    by (eexists; vm_compute; reflexivity).
  destruct D as [image D].
  destruct (decoded_size two_pixels_icf image D) as [header [payload H]].
  exists image, header, payload. split; [exact D|exact H].
Defined.

(** *** The payload *)

(** A block whose coordinates and coefficients are integers that a
    double holds. *)
Definition integral (n : number) : Prop :=
  exists z, n = Num (inject_Z z) /\ (Z.abs z < 2 ^ 53)%Z.

Definition integral_block (b : ICFBlock) : Prop :=
  safe_nat (ImageCodec.x b) /\ safe_nat (ImageCodec.y b)
  /\ safe_nat (ImageCodec.width b) /\ safe_nat (ImageCodec.height b)
  /\ Forall integral (ImageCodec.data b).

Lemma integral_printable (l : list number) :
  Forall integral l ->
  fold_right (fun v rest => printable v /\ rest) True (map JNum l).
Proof.
  induction 1 as [|n l [z [-> Hz]] _ IH]; [exact I|].
  cbn [map fold_right printable]. split; [|exact IH].
  exists z. split; [reflexivity|exact Hz].
Qed.

Lemma integral_blocks_printable (blocks : list ICFBlock) :
  Forall integral_block blocks ->
  printable (JArr (map block_json blocks)).
Proof.
  intros Hb. cbn [printable].
  induction Hb as [|b blocks [Hx [Hy [Hw [Hh Hd]]]] _ IH]; [exact I|].
  cbn [map fold_right]. split; [|exact IH].
  unfold block_json. rewrite !ofNat_exact by assumption.
  cbn [printable fold_right snd]. unfold safe_nat in *.
  repeat split; try (eexists; split; [reflexivity|lia]).
  apply integral_printable, Hd.
Qed.

(** X7.  [deserializeBlocks] undoes [serializeBlocks]: it gives back the
    array of the blocks, each with its five properties, when the
    coordinates and the coefficients are integers that a double
    holds. *)
Theorem deserializeBlocks_serializeBlocks (blocks : list ICFBlock) :
  Forall integral_block blocks ->
  deserializeBlocks (serializeBlocks blocks)
  = Ok (JArr (map block_json blocks)).
Proof.
  intros Hb. unfold deserializeBlocks.
  rewrite string_of_serializeBlocks.
  apply parse_stringify, integral_blocks_printable, Hb.
Qed.

Definition sample_blocks : list ICFBlock :=
  [ {| ImageCodec.x := 0; ImageCodec.y := 8; ImageCodec.width := 2;
       ImageCodec.height := 1;
       ImageCodec.data := [Num 0; Num (inject_Z (-3))] |};
    {| ImageCodec.x := 8; ImageCodec.y := 8; ImageCodec.width := 1;
       ImageCodec.height := 1;
       ImageCodec.data := [] |} ].

Lemma deserializeBlocks_serializeBlocks_witness :
  deserializeBlocks (serializeBlocks sample_blocks)
  = Ok (JArr (map block_json sample_blocks)).
Proof.
  apply (deserializeBlocks_serializeBlocks sample_blocks).
  repeat constructor;
    try (exists 0%Z; split; reflexivity);
    try (exists (-3)%Z; split; reflexivity).
Defined.

End ImageBlocksFacts.

(** ** The text codec: runs, and what [decode] returns *)

Module TextCodecRuns.
Import JSNumber JSON Container TextRLE TextRLEFacts Dynamic TextCodec.
Import TextCodecFacts.
Local Open Scope string_scope.

Lemma scan_run (c : byte) (m : nat) :
  forall runLength, scan c runLength (repeat c m) = emit c (runLength + m).
Proof.
  induction m as [|m IH]; intros k; cbn [repeat scan].
  - rewrite Nat.add_0_r. reflexivity.
  - rewrite (byte_eqb_refl c), IH. f_equal. lia.
Qed.

Lemma Buffer_from_one (n : nat) :
  exists b, Buffer_from [N.of_nat n] = [b]
            /\ N.to_nat (byteN b) = n mod 256.
Proof.
  unfold Buffer_from. cbn [map].
  assert (Hlt : (N.of_nat n mod 256 < 256)%N) by (apply N.mod_lt; lia).
  destruct (Byte.of_N (N.of_nat n mod 256)) as [b|] eqn:E.
  - exists b. split; [reflexivity|].
    apply Byte.to_of_N in E. unfold byteN. rewrite E.
    change 256%N with (N.of_nat 256).
    rewrite <- Nat2N.inj_mod, Nat2N.id. reflexivity.
  - apply Byte.of_N_None_iff in E. lia.
Qed.

(** X3.  A run of 4 or more equal bytes is stored as three bytes with its
    length in one byte, so what comes back is a run of the length modulo
    256: 255 bytes are kept, 256 bytes are lost, 260 bytes come back
    as 4. *)
Theorem run_roundtrip (c : byte) (n : nat) :
  3 < n ->
  List.length (simpleCompress (repeat c n)) = 3
  /\ simpleDecompress (simpleCompress (repeat c n)) = repeat c (n mod 256).
Proof.
  intros Hn. destruct n as [|m]; [lia|].
  unfold simpleCompress. cbn [repeat]. rewrite scan_run.
  unfold emit. destruct (Nat.ltb_spec 3 (1 + m)) as [_|Hle]; [|lia].
  change [255%N; byteN c; N.of_nat (1 + m)]
    with ([255%N] ++ [byteN c] ++ [N.of_nat (1 + m)])%list.
  rewrite !Buffer_from_app, of_byteN.
  destruct (Buffer_from_one (1 + m)) as [b [-> Hb]].
  change (Buffer_from [255%N]) with [xff]. cbn [app].
  split; [reflexivity|].
  rewrite decompress_run, Hb. cbn [simpleDecompress]. apply app_nil_r.
Qed.

Lemma run_roundtrip_witness :
  List.length (simpleCompress (repeat x61 260)) = 3
  /\ simpleDecompress (simpleCompress (repeat x61 260)) = repeat x61 4.
Proof. apply (run_roundtrip x61 260). lia. Defined.

(** *** What [decode] returns *)

Lemma differs_str_false (v : option json) (s : string) :
  differs_str v s = false -> v = Some (JStr s).
Proof.
  destruct v as [[| | |s'| |]|]; cbn [differs_str]; try discriminate.
  intros H. apply negb_false_iff, String.eqb_eq in H. subst. reflexivity.
Qed.

Lemma differs_int_false (v : option json) (z : Z) :
  differs_int v z = false ->
  exists q, v = Some (JNum (Num q)) /\ (q == inject_Z z)%Q.
Proof.
  destruct v as [[| |[q| |]| | |]|]; cbn [differs_int]; try discriminate.
  intros H. apply negb_false_iff, Qeq_bool_eq in H.
  exists q. split; [reflexivity|exact H].
Qed.

(** X4.  Whatever the container, when [decode] returns a text, the
    decompressed payload is ASCII and the text is that payload, the
    header says [TCF1] and version 1, and the SHA-256 digest of the
    decompressed payload is the header's checksum: text from bytes with
    another digest is never returned. *)
Theorem decode_sound (tcfData : Buffer) (text : string) :
  decode tcfData = Returns text ->
  exists header payload,
    parseContainer tcfData = Ok (header, payload)
    /\ is_ascii (simpleDecompress payload) = true
    /\ text = string_of_list_byte (simpleDecompress payload)
    /\ get header "magic" = Ok (Some (JStr MAGIC))
    /\ (exists q, get header "version" = Ok (Some (JNum (Num q)))
                  /\ (q == inject_Z VERSION)%Q)
    /\ get header "checksum"
       = Ok (Some (JStr (SHA256.digest_hex (simpleDecompress payload)))).
Proof.
  unfold decode. intros H.
  destruct (parseContainer tcfData) as [[header payload]|]; [|discriminate].
  cbn [lift obind] in H.
  destruct (get header "magic") as [m|] eqn:Gm; [|discriminate].
  cbn [lift obind] in H.
  destruct (differs_str m MAGIC) eqn:Em; [discriminate|].
  destruct (get header "version") as [v|] eqn:Gv; [|discriminate].
  cbn [lift obind] in H.
  destruct (differs_int v VERSION) eqn:Ev; [discriminate|].
  cbv zeta in H.
  destruct (get header "checksum") as [c|] eqn:Gc; [|discriminate].
  cbn [lift obind] in H.
  destruct (differs_str c _) eqn:Ec; [discriminate|].
  apply toString_utf8_returns in H. destruct H as [Ha ->].
  exists header, payload.
  rewrite Gm, Gv, Gc.
  rewrite (differs_str_false _ _ Em), (differs_str_false _ _ Ec).
  destruct (differs_int_false _ _ Ev) as [q [-> Hq]].
  repeat split; try assumption. exists q. split; [reflexivity|exact Hq].
Qed.

Definition aaaaab : string := "aaaaab".

Definition aaaaab_container : Buffer :=
  Eval vm_compute in returned (encode aaaaab).

Lemma decode_sound_witness :
  exists header payload,
    parseContainer aaaaab_container = Ok (header, payload)
    /\ is_ascii (simpleDecompress payload) = true
    /\ aaaaab = string_of_list_byte (simpleDecompress payload)
    /\ get header "magic" = Ok (Some (JStr MAGIC))
    /\ (exists q, get header "version" = Ok (Some (JNum (Num q)))
                  /\ (q == inject_Z VERSION)%Q)
    /\ get header "checksum"
       = Ok (Some (JStr (SHA256.digest_hex (simpleDecompress payload)))).
Proof.
  apply (decode_sound aaaaab_container aaaaab).
  vm_compute. reflexivity.
Defined.

(** The round trip on a text with a run. *)
Lemma decode_encode_witness : decode aaaaab_container = Returns aaaaab.
Proof.
  apply (TextCodecFacts.decode_encode aaaaab aaaaab_container).
  - reflexivity.
  - reflexivity.
  - vm_compute. reflexivity.
  - vm_compute. reflexivity.
Defined.

End TextCodecRuns.

(** ** The video codec: what [encodeFrames] stores *)

Module VideoEncodeFacts.
Import JSNumber JSON Dynamic VideoCodec VideoCodecFacts.

Lemma encodeFrames_loop_frames (fps : number) (quality gopSize : Z)
    (files : list Buffer) :
  forall (i : nat) (previousFrame : option Buffer) (k : nat)
         (frame : VCFFrame),
    nth_error (encodeFrames_loop fps quality gopSize i files previousFrame) k
    = Some frame ->
    size frame = List.length (data frame)
    /\ offset frame = 0
    /\ timestamp frame = mul (div (ofNat (i + k)) fps) (ofZ 1000)
    /\ (type frame = I -> nth_error files k = Some (data frame))
    /\ (previousFrame = None -> k = 0 ->
        nth_error files k = Some (data frame)).
Proof.
  induction files as [|frameData rest IH]; intros i prev k frame H.
  - destruct k; discriminate.
  - rewrite encodeFrames_loop_cons in H. destruct k as [|k].
    + cbn [nth_error] in H. injection H as <-.
      unfold encodeFrame. cbn [fst size offset timestamp type data].
      rewrite Nat.add_0_r.
      destruct (is_gop_start i gopSize); cbn [nth_error].
      * repeat split.
      * repeat split; try discriminate.
        intros -> _. reflexivity.
    + cbn [nth_error] in H. apply IH in H.
      destruct H as [Hs [Ho [Ht [Hi _]]]].
      replace (i + S k) with (S i + k) by lia.
      repeat split; try assumption. discriminate.
Qed.

(** X13.  Frame [k] of [encodeFrames] has the timestamp
    [(k / fps) * 1000], the offset 0 and, as its size, the length of its
    data; an I-frame holds its file as it is, and so does the first
    frame whatever its type. *)
Theorem encodeFrames_frames (files : list Buffer) (fps : number)
    (quality gopSize : Z) (k : nat) (frame : VCFFrame) :
  nth_error (encodeFrames files fps quality gopSize) k = Some frame ->
  size frame = List.length (data frame)
  /\ offset frame = 0
  /\ timestamp frame = mul (div (ofNat k) fps) (ofZ 1000)
  /\ (type frame = I -> nth_error files k = Some (data frame))
  /\ (k = 0 -> nth_error files k = Some (data frame)).
Proof.
  intros H. unfold encodeFrames in H.
  apply encodeFrames_loop_frames in H.
  destruct H as [Hs [Ho [Ht [Hi H0]]]].
  repeat split; try assumption. exact (H0 eq_refl).
Qed.

Lemma encodeFrames_frames_witness :
  exists frame,
    nth_error (encodeFrames [[x01; x02]; [x03; x04]] (Num 25) 85 2) 0
    = Some frame
    /\ data frame = [x01; x02] /\ size frame = 2.
Proof.
  destruct (nth_error (encodeFrames [[x01; x02]; [x03; x04]] (Num 25) 85 2) 0)
    as [frame|] eqn:E; [|vm_compute in E; discriminate E].
  exists frame. split; [reflexivity|].
  destruct (encodeFrames_frames _ _ _ _ _ _ E) as [Hs [_ [_ [_ H0]]]].
  specialize (H0 eq_refl). cbn [nth_error] in H0.
  injection H0 as H0. split; [symmetry; exact H0|].
  rewrite Hs, <- H0. reflexivity.
Defined.

End VideoEncodeFacts.

(** ** The text codec: statistics of an empty text *)

Module TextStatsFacts.
Import JSNumber JSNumberFacts QuantizeFacts TextStats.

Lemma negative_size (c : Z) :
  (0 + - inject_Z c)%Q = inject_Z (- c).
Proof. unfold Qplus, Qopp, inject_Z. simpl. rewrite Z.mul_1_r. reflexivity. Qed.

(** X5.  For an empty text and a container that is not empty, [getStats]
    reports a compression ratio of 0 and savings of minus infinity: the
    division by the original size is a division by 0. *)
Theorem getStats_empty_text (tcfData : Buffer) :
  tcfData <> [] ->
  (Z.of_nat (List.length tcfData) < 2 ^ 53)%Z ->
  compressionRatio (getStats [] tcfData) = Num 0
  /\ savings (getStats [] tcfData) = Inf true.
Proof.
  intros Hne Hlen. unfold getStats. cbv zeta.
  cbn [compressionRatio savings List.length].
  assert (Hpos : (0 < Z.of_nat (List.length tcfData))%Z).
  { destruct tcfData; [contradiction|]. cbn [List.length]. lia. }
  unfold ofNat. change (ofZ (Z.of_nat 0)) with (Num 0).
  rewrite ofZ_exact by lia.
  set (c := Z.of_nat (List.length tcfData)) in *.
  assert (Hc : Qeq_bool (inject_Z c) 0 = false).
  { change 0%Q with (inject_Z 0).
    rewrite JSONFacts.Qeq_bool_inject_Z. apply Z.eqb_neq. lia. }
  split.
  - unfold div. rewrite Hc. apply fl_zero. unfold Qdiv. ring.
  - unfold sub, neg, add. rewrite negative_size. fold (ofZ (- c)).
    rewrite ofZ_exact by lia.
    unfold div. change (Qeq_bool 0 0) with true. cbv iota.
    assert (Hn : Qeq_bool (inject_Z (- c)) 0 = false).
    { change 0%Q with (inject_Z 0).
      rewrite JSONFacts.Qeq_bool_inject_Z. apply Z.eqb_neq. lia. }
    rewrite Hn, JSONFacts.negQ_inject_Z.
    destruct (Z.ltb_spec (- c) 0) as [_|Hge]; [reflexivity|lia].
Qed.

Lemma getStats_empty_text_witness :
  compressionRatio (getStats [] [x54; x43; x46; x31]) = Num 0
  /\ savings (getStats [] [x54; x43; x46; x31]) = Inf true.
Proof.
  apply (getStats_empty_text [x54; x43; x46; x31]);
    [discriminate|reflexivity].
Defined.

End TextStatsFacts.

(** ** The image codec at every quality from 1 to 100 *)

Module QuantizeRange.
Import JSNumber JSNumberFacts RoundingFacts ImageCodec ColourFacts.
Import QuantizeFacts.
Local Open Scope Q_scope.

(** The quantization factor of a quality from 1 to 100 is at most 50. *)
Lemma qFactor_range (quality : Z) :
  (1 <= quality <= 100)%Z ->
  exists f, qFactor (ofZ quality) = Num f /\ - (1 # 1000) <= f <= 50001 # 1000.
Proof.
  intros Hq.
  rewrite ofZ_exact by (change (2 ^ 53)%Z with 9007199254740992%Z; lia).
  assert (Hq' : 1 <= inject_Z quality <= 100).
  { change 1 with (inject_Z 1). change 100 with (inject_Z 100).
    rewrite <- !Zle_Qle. exact Hq. }
  set (q := inject_Z quality) in *.
  unfold qFactor. unfold lt.
  destruct (Qcompare q 50) eqn:E.
  - apply Qeq_alt in E.
    change (div (Num q) (Num 50)) with (fl (q * (1 # 50))).
    destruct (fl_small (q * (1 # 50))) as [d [-> Hd]]; [lra|].
    unfold two. rewrite sub_Num.
    destruct (fl_small (2 + - d)) as [f [-> Hf]]; [lra|].
    exists f. split; [reflexivity|lra].
  - apply Qlt_alt in E.
    assert (Hnz : Qeq_bool q 0 = false).
    { destruct (Qeq_bool q 0) eqn:E0; [|reflexivity].
      apply Qeq_bool_eq in E0. lra. }
    unfold div. rewrite Hnz.
    assert (Hb : 0 <= 50 / q <= 50).
    { split.
      - apply Qle_shift_div_l; lra.
      - apply Qle_shift_div_r; lra. }
    destruct (fl_byte (50 / q)) as [f [-> Hf]]; [lra|].
    exists f. split; [reflexivity|lra].
  - apply Qgt_alt in E.
    change (div (Num q) (Num 50)) with (fl (q * (1 # 50))).
    destruct (fl_small (q * (1 # 50))) as [d [-> Hd]]; [lra|].
    unfold two. rewrite sub_Num.
    destruct (fl_small (2 + - d)) as [f [-> Hf]]; [lra|].
    exists f. split; [reflexivity|lra].
Qed.

Lemma channelQFactor_range (f : Q) (channel : nat) :
  - (1 # 1000) <= f <= 50001 # 1000 ->
  exists c, channelQFactor (Num f) channel = Num c /\ - (76) <= c <= 76.
Proof.
  intros Hf. unfold channelQFactor.
  destruct (channel =? 0)%nat.
  - exists f. split; [reflexivity|lra].
  - change (mul (Num f) (Num (3 # 2))) with (fl (f * (3 # 2))).
    destruct (fl_byte (f * (3 # 2))) as [c [-> Hc]]; [lra|].
    exists c. split; [reflexivity|lra].
Qed.

(** A quantized coefficient is an integer of magnitude at most 80. *)
Lemma quantize_integer (n : number) (c : Q) :
  within (103 # 100) n -> - (76) <= c <= 76 ->
  exists z, Math_round (mul n (Num c)) = Num (inject_Z z)
            /\ (Z.abs z <= 80)%Z.
Proof.
  intros [v [-> Hv]] Hc.
  pose proof (product_bound v c _ _ Hv Hc) as Hp.
  change ((103 # 100) * 76) with (7828 # 100) in Hp.
  change (mul (Num v) (Num c)) with (fl (v * c)).
  destruct (fl_byte (v * c)) as [x [-> Hx]]; [lra|].
  unfold Math_round. exists (Qfloor (x + (1 # 2))).
  split; [reflexivity|].
  pose proof (Qfloor_le (x + (1 # 2))) as H1.
  pose proof (Qlt_floor (x + (1 # 2))) as H2.
  set (fz := Qfloor (x + (1 # 2))) in *.
  rewrite inject_Z_plus in H2. change (inject_Z 1) with 1 in H2.
  assert (fz < 80)%Z.
  { rewrite Zlt_Qlt. change (inject_Z 80) with 80. lra. }
  assert (-80 < fz)%Z.
  { rewrite Zlt_Qlt. change (inject_Z (-80)) with (-(80)). lra. }
  lia.
Qed.

End QuantizeRange.

Module ImageDecodeTotal.
Import JSNumber JSNumberFacts JSON JSONFacts JSONRoundTrip.
Import Container ContainerFacts Dynamic.
Import ImageCodec ImageEncodeFacts ImageIntegrityFacts ImageAlphaFacts.
Import ColourFacts QuantizeFacts QuantizeRange ImagePipelineFacts.
Import ImageBlocksFacts.
Local Open Scope string_scope.

Lemma compressBlocks_integral (ycocgData : Float32Array)
    (width height : nat) (quality : Z) :
  (1 <= quality <= 100)%Z ->
  safe_nat width -> safe_nat height ->
  Forall (within (101 # 100)%Q) ycocgData ->
  List.length ycocgData = width * height * 3 ->
  Forall integral_block (compressBlocks ycocgData width height (ofZ quality)).
Proof.
  intros Hq Hw Hh Hd Hlen. apply Forall_forall. intros b Hb.
  unfold compressBlocks in Hb. cbv zeta in Hb. apply in_map_iff in Hb.
  destruct Hb as [[[y x] channel] [<- Hp]].
  apply block_positions_in in Hp. destruct Hp as [Hy [Hx Hc]].
  destruct (qFactor_range quality Hq) as [f [Hf Hfb]].
  destruct (channelQFactor_range f channel Hfb) as [c [Hcq Hcb]].
  unfold integral_block, BLOCK_SIZE, safe_nat in *.
  cbn [ImageCodec.data ImageCodec.x ImageCodec.y ImageCodec.width
       ImageCodec.height].
  change (2 ^ 53)%Z with 9007199254740992%Z in *.
  repeat split; try lia.
  unfold quantize, applyDCT. rewrite Hf, Hcq.
  apply Forall_forall. intros n Hn.
  apply in_map_iff in Hn. destruct Hn as [d [<- Hn]].
  apply in_map_iff in Hn. destruct Hn as [e [<- Hn]].
  destruct (quantize_integer (fround e) c) as [z [-> Hz]]; [|exact Hcb|].
  - apply (within_le ((101 # 100) + (1 # 1000) + (1 # 1000))%Q);
      [vm_compute; discriminate|].
    apply fround_within; [vm_compute; discriminate|].
    revert e Hn. apply Forall_forall.
    apply (extractBlock_within _ _ width height); try assumption; try lia.
    vm_compute. discriminate.
  - exists z. split; [reflexivity|].
    change (2 ^ 53)%Z with 9007199254740992%Z. lia.
Qed.

(** Blocks printed by [serializeBlocks] are all read by the decoder. *)
Lemma decompressBlocks_loop_returns (width height : nat)
    (blocks : list ICFBlock) (qf : number) :
  forall (positions : list (nat * nat * nat)) (blockIndex : nat)
         (ycocgData : Float32Array),
    blockIndex + List.length positions <= List.length blocks ->
    exists out,
      decompressBlocks_loop (JArr (map block_json blocks)) width height
        qf positions blockIndex ycocgData = Returns out.
Proof.
  induction positions as [|[[y x] channel] rest IH];
    intros blockIndex ycocgData Hlen.
  - exists ycocgData. reflexivity.
  - cbn [List.length] in Hlen.
    destruct (nth_error blocks blockIndex) as [b|] eqn:Eb;
      [|apply nth_error_None in Eb; lia].
    cbn [decompressBlocks_loop]. cbv zeta.
    unfold element. rewrite (map_nth_error block_json _ _ Eb).
    cbn [lift obind]. rewrite block_data_json. cbn [lift obind].
    unfold dequantize. rewrite numbers_JNum. cbn [obind].
    apply IH. lia.
Qed.

(** What [encode] returns is decoded without error, to an image of the
    same dimensions. *)
Lemma decode_after_encode (image : RawImage) (quality : Z)
    (icfData : Buffer) :
  (1 <= quality <= 100)%Z ->
  3 <= info_channels image ->
  List.length (raw_data image)
  = info_width image * info_height image * info_channels image ->
  within_limits image quality ->
  encode image quality = Ok icfData ->
  exists data,
    decode icfData
    = Returns {| decoded_data := data;
                 decoded_width := info_width image;
                 decoded_height := info_height image;
                 decoded_channels := info_channels image |}
    /\ List.length data
       = info_width image * info_height image * info_channels image.
Proof.
  intros Hq Hc Hlen Hl He.
  apply encode_created in He.
  pose proof (parse_container _ _ _ (header_of_valid _ _ Hl) He) as Hp.
  destruct Hl as [Hw [Hh [Hch _]]].
  unfold header_json in Hp.
  rewrite (decode_object _ _ _ _ _ _ _ _ _ _ _ Hp).
  unfold decode_parsed.
  cbn [header_of h_magic h_version h_width h_height h_channels h_quality].
  destruct header_checks_pass as [-> ->].
  unfold payload_of. rewrite string_of_serializeBlocks.
  set (width := info_width image) in *.
  set (height := info_height image) in *.
  set (ycocgData := rgbToYCoCg (raw_data image) width height
                               (info_channels image)).
  set (blocks := compressBlocks ycocgData width height (ofZ quality)).
  assert (Hz : Forall integral_block blocks).
  { apply compressBlocks_integral; try assumption;
      [|apply rgbToYCoCg_length].
    apply rgbToYCoCg_within; assumption. }
  assert (Hn : List.length blocks
               = List.length (block_positions width height)).
  { unfold blocks, compressBlocks. apply length_map. }
  rewrite (parse_stringify _ (integral_blocks_printable blocks Hz)).
  cbn [lift obind].
  rewrite !dimension_ofNat by assumption. cbn [obind ToNumber].
  unfold decompressBlocks.
  destruct (decompressBlocks_loop_returns width height blocks
              (qFactor (ofZ quality)) (block_positions width height) 0
              (repeat (Num 0) (width * height * 3)) ltac:(lia))
    as [out ->].
  cbn [obind]. eexists. split; [reflexivity|].
  apply ycocgToRgb_length.
Qed.

(** X8.  At every quality from 1 to 100, what [encode] returns for an
    image of three or more channels is decoded without error, to an
    image of the same width, height and number of channels. *)
Theorem decode_encode_dimensions (image : RawImage) (quality : Z)
    (icfData : Buffer) :
  (1 <= quality <= 100)%Z ->
  3 <= info_channels image ->
  List.length (raw_data image)
  = info_width image * info_height image * info_channels image ->
  within_limits image quality ->
  encode image quality = Ok icfData ->
  exists data,
    decode icfData
    = Returns {| decoded_data := data;
                 decoded_width := info_width image;
                 decoded_height := info_height image;
                 decoded_channels := info_channels image |}
    /\ List.length data
       = info_width image * info_height image * info_channels image.
Proof.
  intros Hq Hc Hlen Hl He.
  exact (decode_after_encode image quality icfData Hq Hc Hlen Hl He).
Qed.

Lemma decode_encode_dimensions_witness :
  exists data,
    decode two_pixels_icf
    = Returns {| decoded_data := data;
                 decoded_width := 2;
                 decoded_height := 1;
                 decoded_channels := 4 |}
    /\ List.length data = 2 * 1 * 4.
Proof.
  apply (decode_encode_dimensions two_pixels 85).
  - lia.
  - cbn. lia.
  - reflexivity.
  - repeat split; vm_compute; reflexivity.
  - vm_compute. reflexivity.
Defined.

(** C10.  For every four-channel image, at every quality from 1 to 100,
    decoding what [encode] returns gives an image of the same width and
    height, with four channels, in which the alpha byte of every pixel
    is 255, whatever the alpha values of the image that was encoded:
    [rgbToYCoCg] never reads them and [ycocgToRgb] writes the
    constant. *)
Theorem decoded_alpha_is_255 (image : RawImage) (quality : Z)
    (icfData : Buffer) :
  (1 <= quality <= 100)%Z ->
  info_channels image = 4 ->
  List.length (raw_data image)
  = info_width image * info_height image * 4 ->
  within_limits image quality ->
  encode image quality = Ok icfData ->
  exists data,
    decode icfData
    = Returns {| decoded_data := data;
                 decoded_width := info_width image;
                 decoded_height := info_height image;
                 decoded_channels := 4 |}
    /\ List.length data = info_width image * info_height image * 4
    /\ forall i,
         i < info_width image * info_height image ->
         nth_error data (i * 4 + 3) = Some xff.
Proof.
  intros Hq Hc Hlen Hl He.
  destruct (decode_after_encode image quality icfData Hq) as [data [Hd Hn]];
    try assumption; [lia|rewrite Hc; exact Hlen|].
  rewrite Hc in Hd, Hn.
  exists data. split; [exact Hd|]. split; [exact Hn|].
  intros i Hi.
  exact (returned_alpha_is_255 icfData _ i Hd eq_refl Hi).
Qed.

Lemma decoded_alpha_is_255_witness :
  exists data,
    decode two_pixels_icf
    = Returns {| decoded_data := data;
                 decoded_width := 2;
                 decoded_height := 1;
                 decoded_channels := 4 |}
    /\ List.length data = 2 * 1 * 4
    /\ forall i, i < 2 * 1 -> nth_error data (i * 4 + 3) = Some xff.
Proof.
  apply (decoded_alpha_is_255 two_pixels 85).
  - lia.
  - reflexivity.
  - reflexivity.
  - repeat split; vm_compute; reflexivity.
  - vm_compute. reflexivity.
Defined.

End ImageDecodeTotal.

(** ** Examples for the image codec *)

Module ImageExamples.
Import JSNumber JSON Dynamic ImageCodec ImageEncodeFacts ImageAlphaFacts.
Import ImageIntegrityFacts.
Local Open Scope string_scope.

(** The container of the two-pixel image with another checksum in its
    header. *)
Definition two_pixels_other_checksum : Buffer :=
  Eval vm_compute in
    unwrap (createContainer (with_checksum (header_of two_pixels 85) "00")
                            (payload_of two_pixels 85)).

Lemma decode_ignores_checksum_witness :
  decode two_pixels_icf = decode two_pixels_other_checksum.
Proof.
  apply (decode_ignores_checksum (header_of two_pixels 85) "00"
           (payload_of two_pixels 85)).
  - repeat split; vm_compute; reflexivity.
  - vm_compute. reflexivity.
  - vm_compute. reflexivity.
Defined.

Lemma rgbToYCoCg_ignores_alpha_witness :
  rgbToYCoCg [x01; x02; x03; x04] 1 1 4
  = rgbToYCoCg [x01; x02; x03; xc8] 1 1 4.
Proof.
  apply (rgbToYCoCg_ignores_alpha [x01; x02; x03; x04]
                                  [x01; x02; x03; xc8] 1 1).
  intros i c Hi Hc.
  destruct i as [|i]; [|lia].
  destruct c as [|[|[|c]]]; try reflexivity. lia.
Defined.

End ImageExamples.

(** ** The image codec at the qualities below 50 *)

Module ImageLossyNumbers.
Import JSNumber JSNumberFacts RoundingFacts ImageCodec ColourFacts.
Import QuantizeFacts PFrameNumbers PFrameBound.
Local Open Scope Q_scope.

(** How far a decoded coefficient may be from the coefficient that was
    encoded: half a quantization step, [quality / 100] for the luma
    channel and [quality / 150] for the two chroma channels, and the
    roundings. *)
Definition tolerance (quality : Z) (channel : nat) : Q :=
  if (channel =? 0)%nat
  then inject_Z quality * (1 # 100) + (1 # 1000000)
  else inject_Z quality * (1 # 150) + (1 # 1000000).

Definition close (t : Q) (original decoded : number) : Prop :=
  exists o v, original = Num o /\ decoded = Num v /\ - t <= v - o <= t.

Lemma quality_range (quality : Z) :
  (1 <= quality <= 49)%Z -> 1 <= inject_Z quality <= 49.
Proof.
  intros Hq. change 1 with (inject_Z 1). change 49 with (inject_Z 49).
  rewrite <- !Zle_Qle. exact Hq.
Qed.

(** The quantization factor of a quality below 50 is [50 / quality]. *)
Lemma qFactor_low (quality : Z) :
  (1 <= quality <= 49)%Z ->
  exists f, qFactor (ofZ quality) = Num f
            /\ 102 # 100 <= f <= 50001 # 1000
            /\ - (1 # 1000000000) <= f * inject_Z quality - 50
               <= 1 # 1000000000.
Proof.
  intros Hq.
  rewrite ofZ_exact by (change (2 ^ 53)%Z with 9007199254740992%Z; lia).
  pose proof (quality_range quality Hq) as Hq'.
  set (q := inject_Z quality) in *.
  unfold qFactor.
  assert (Hlt : lt (Num q) (Num 50) = true).
  { unfold lt. destruct (Qcompare q 50) eqn:E; try reflexivity.
    - apply Qeq_alt in E. lra.
    - apply Qgt_alt in E. lra. }
  rewrite Hlt.
  assert (Hnz : Qeq_bool q 0 = false).
  { destruct (Qeq_bool q 0) eqn:E0; [|reflexivity].
    apply Qeq_bool_eq in E0. lra. }
  unfold div. rewrite Hnz.
  set (x := 50 / q).
  assert (Hxq : x * q == 50).
  { unfold x. field. intros E. lra. }
  assert (Hb : 50 # 49 <= x <= 50).
  { split.
    - apply Qle_shift_div_l; lra.
    - apply Qle_shift_div_r; lra. }
  destruct (fl_byte x) as [f [-> Hf]]; [lra|].
  exists f. split; [reflexivity|]. split; [lra|].
  assert (He : - ((1 # 35184372088832) * 49) <= (f - x) * q
               <= (1 # 35184372088832) * 49).
  { apply product_bound; lra. }
  change ((1 # 35184372088832) * 49) with (49 # 35184372088832) in He.
  setoid_replace (f * q - 50) with ((f - x) * q) by (rewrite <- Hxq; ring).
  lra.
Qed.

(** The factor of a channel: 50 / quality for the luma channel, 75 /
    quality for the others. *)
Definition scale (channel : nat) : Q :=
  if (channel =? 0)%nat then 50 else 75.

Lemma channelQFactor_low (quality : Z) (channel : nat) :
  (1 <= quality <= 49)%Z ->
  exists c, channelQFactor (qFactor (ofZ quality)) channel = Num c
            /\ 102 # 100 <= c <= 75002 # 1000
            /\ - (1 # 100000000) <= c * inject_Z quality - scale channel
               <= 1 # 100000000.
Proof.
  intros Hq.
  pose proof (quality_range quality Hq) as Hq'.
  destruct (qFactor_low quality Hq) as [f [-> [Hf Hfq]]].
  unfold channelQFactor, scale.
  destruct (channel =? 0)%nat.
  - exists f. split; [reflexivity|]. split; lra.
  - change (mul (Num f) (Num (3 # 2))) with (fl (f * (3 # 2))).
    destruct (fl_byte (f * (3 # 2))) as [c [-> Hc]]; [lra|].
    exists c. split; [reflexivity|]. split; [lra|].
    assert (He : - ((1 # 35184372088832) * 49)
                 <= (c - f * (3 # 2)) * inject_Z quality
                 <= (1 # 35184372088832) * 49).
    { apply product_bound; lra. }
    change ((1 # 35184372088832) * 49) with (49 # 35184372088832) in He.
    setoid_replace (c * inject_Z quality - 75)
      with ((c - f * (3 # 2)) * inject_Z quality
            + (3 # 2) * (f * inject_Z quality - 50)) by ring.
    lra.
Qed.

(** A number within [(1/2 + small) / c] of another is within the
    tolerance of the channel. *)
Lemma step_tolerance (quality : Z) (channel : nat) (c e : Q) :
  (1 <= quality <= 49)%Z ->
  102 # 100 <= c <= 75002 # 1000 ->
  - (1 # 100000000) <= c * inject_Z quality - scale channel
  <= 1 # 100000000 ->
  - ((1 # 2) + (1 # 1000000000)) <= e * c <= (1 # 2) + (1 # 1000000000) ->
  - (tolerance quality channel - (7 # 10000000)) <= e
  <= tolerance quality channel - (7 # 10000000).
Proof.
  intros Hq Hc Hcq He.
  pose proof (quality_range quality Hq) as Hq'.
  set (q := inject_Z quality) in *.
  (* a first bound on e *)
  assert (He0 : - (1 # 2) <= e <= 1 # 2).
  { assert (H1 : e * c <= (1 # 2) * c) by lra.
    assert (H2 : (- (1 # 2)) * c <= e * c) by lra.
    split.
    - apply (Qmult_le_r _ _ c); lra.
    - apply (Qmult_le_r _ _ c); lra. }
  assert (Hm : - (((1 # 2) + (1 # 1000000000)) * 49) <= (e * c) * q
               <= ((1 # 2) + (1 # 1000000000)) * q).
  { split.
    - assert (H : - (((1 # 2) + (1 # 1000000000)) * q) <= (e * c) * q).
      { setoid_replace (- (((1 # 2) + (1 # 1000000000)) * q))
          with ((- ((1 # 2) + (1 # 1000000000))) * q) by ring.
        apply Qmult_le_compat_r; lra. }
      lra.
    - apply Qmult_le_compat_r; lra. }
  assert (Hm' : - (((1 # 2) + (1 # 1000000000)) * q) <= (e * c) * q).
  { setoid_replace (- (((1 # 2) + (1 # 1000000000)) * q))
      with ((- ((1 # 2) + (1 # 1000000000))) * q) by ring.
    apply Qmult_le_compat_r; lra. }
  assert (Hr : - ((1 # 2) * (1 # 100000000))
               <= e * (c * q - scale channel)
               <= (1 # 2) * (1 # 100000000)).
  { apply product_bound; lra. }
  change ((1 # 2) * (1 # 100000000)) with (1 # 200000000) in Hr.
  assert (Hs : e * scale channel
               == (e * c) * q - e * (c * q - scale channel)) by ring.
  unfold tolerance. fold q. unfold scale in *.
  destruct (channel =? 0)%nat.
  - assert (H50 : e * 50 <= ((1 # 2) + (1 # 1000000000)) * q
                           + (1 # 200000000)) by lra.
    assert (H50' : - (((1 # 2) + (1 # 1000000000)) * q) - (1 # 200000000)
                   <= e * 50) by lra.
    lra.
  - assert (H75 : e * 75 <= ((1 # 2) + (1 # 1000000000)) * q
                           + (1 # 200000000)) by lra.
    assert (H75' : - (((1 # 2) + (1 # 1000000000)) * q) - (1 # 200000000)
                   <= e * 75) by lra.
    lra.
Qed.

(** One coefficient from [extractBlock] to [placeBlock]: stored as an
    integer, and read back within the tolerance of its channel. *)
Lemma coefficient_close (quality : Z) (channel : nat) (o : Q) :
  (1 <= quality <= 49)%Z ->
  - (101 # 100) <= o <= 101 # 100 ->
  exists s v,
    Math_round
      (mul (fround (fround (Num o)))
           (channelQFactor (qFactor (ofZ quality)) channel))
    = Num (inject_Z s)
    /\ (Z.abs s <= 80)%Z
    /\ fround
         (fround
            (fround
               (div (Num (inject_Z s))
                    (channelQFactor (qFactor (ofZ quality)) channel))))
       = Num v
    /\ - tolerance quality channel <= v - o <= tolerance quality channel.
Proof.
  intros Hq Ho.
  destruct (channelQFactor_low quality channel Hq) as [c [-> [Hc Hcq]]].
  destruct (fround_small o) as [a1 [-> Ha1]]; [lra|].
  destruct (fround_small a1) as [a2 [-> Ha2]]; [lra|].
  assert (Hp : - ((102 # 100) * (75002 # 1000)) <= a2 * c
               <= (102 # 100) * (75002 # 1000)).
  { apply product_bound; lra. }
  change ((102 # 100) * (75002 # 1000)) with (7650204 # 100000) in Hp.
  change (mul (Num a2) (Num c)) with (fl (a2 * c)).
  destruct (fl_medium (a2 * c)) as [m [-> Hm]]; [lra|].
  destruct (Math_round_near m) as [s [-> Hs]].
  exists s.
  assert (Hsb : (Z.abs s <= 80)%Z).
  { assert (H1 : inject_Z s < 80) by lra.
    assert (H2 : - (80) < inject_Z s) by lra.
    change 80 with (inject_Z 80) in H1.
    change (- (80)) with (inject_Z (-80)) in H2.
    rewrite <- Zlt_Qlt in H1, H2. lia. }
  assert (Hnz : Qeq_bool c 0 = false).
  { destruct (Qeq_bool c 0) eqn:E; [|reflexivity].
    apply Qeq_bool_eq in E. lra. }
  unfold div. rewrite Hnz.
  set (x := inject_Z s / c).
  assert (Hxc : x * c == inject_Z s).
  { unfold x. field. intros E. lra. }
  assert (Hac : (- (102 # 100)) * c <= a2 * c <= (102 # 100) * c).
  { split; apply Qmult_le_compat_r; lra. }
  assert (Hx : - (16 # 10) <= x <= 16 # 10).
  { split.
    - apply Qle_shift_div_l; lra.
    - apply Qle_shift_div_r; lra. }
  destruct (fl_small x) as [d [-> Hd]]; [lra|].
  destruct (fround_small d) as [b1 [-> Hb1]]; [lra|].
  destruct (fround_small b1) as [b2 [-> Hb2]]; [lra|].
  destruct (fround_small b2) as [b3 [-> Hb3]]; [lra|].
  exists b3. split; [reflexivity|]. split; [exact Hsb|].
  split; [reflexivity|].
  assert (He : - ((1 # 2) + (1 # 1000000000)) <= (x - a2) * c
               <= (1 # 2) + (1 # 1000000000)).
  { setoid_replace ((x - a2) * c) with (inject_Z s - a2 * c)
      by (rewrite <- Hxc; ring).
    lra. }
  pose proof (step_tolerance quality channel c (x - a2) Hq Hc Hcq He) as Ht.
  lra.
Qed.

Ltac lossy_step :=
  rewrite ?add_Num, ?sub_Num, ?div_two, ?div_255, ?mul_255;
  match goal with
  | |- context [fround (Num ?x)] =>
      let v := fresh "v" in
      let E := fresh "E" in
      let H := fresh "H" in
      destruct (fround_small x) as [v [E H]]; [lra|rewrite !E; clear E]
  | |- context [fl ?x] =>
      let v := fresh "v" in
      let E := fresh "E" in
      let H := fresh "H" in
      destruct (fl_medium x) as [v [E H]]; [lra|rewrite !E; clear E]
  end.

(** A channel of a decoded pixel: [clamp255] of a value near [R / 255]. *)
Lemma clamp255_close (quality R : Z) (x : Q) :
  (1 <= quality <= 49)%Z -> (0 <= R <= 255)%Z ->
  - (inject_Z quality * (1 # 60) + (1 # 100000))
  <= x - inject_Z R * (1 # 255)
  <= inject_Z quality * (1 # 60) + (1 # 100000) ->
  exists R',
    clamp255 (Num x) = Num (inject_Z R')
    /\ (0 <= R' <= 255)%Z
    /\ (4 * Z.abs (R' - R) <= 17 * quality + 2)%Z.
Proof.
  intros Hq HR Hx.
  pose proof (quality_range quality Hq) as Hq'.
  assert (HR' : 0 <= inject_Z R <= 255).
  { change 0 with (inject_Z 0). change 255 with (inject_Z 255).
    rewrite <- !Zle_Qle. exact HR. }
  unfold clamp255. rewrite mul_255.
  destruct (fl_medium (x * 255)) as [m [-> Hm]]; [lra|].
  destruct (Math_round_near m) as [z [-> Hz]].
  unfold n255. rewrite clamp_integer.
  exists (Z.max 0 (Z.min 255 z)). split; [reflexivity|]. split; [lia|].
  assert (H1 : inject_Z (4 * (z - R)) < inject_Z (17 * quality + 3)).
  { unfold Z.sub.
    rewrite !inject_Z_mult, !inject_Z_plus, inject_Z_mult, inject_Z_opp.
    change (inject_Z 4) with 4. change (inject_Z 17) with 17.
    change (inject_Z 3) with 3. lra. }
  assert (H2 : inject_Z (- (17 * quality + 3)) < inject_Z (4 * (z - R))).
  { unfold Z.sub.
    rewrite inject_Z_opp, !inject_Z_mult, !inject_Z_plus, inject_Z_mult,
      inject_Z_opp.
    change (inject_Z 4) with 4. change (inject_Z 17) with 17.
    change (inject_Z 3) with 3. lra. }
  rewrite <- Zlt_Qlt in H1, H2. lia.
Qed.

(** One pixel: the coefficients [rgbToYCoCg] makes of it, moved within
    the tolerances, give channels within [17 * quality / 4 + 1 / 2] of
    the pixel's. *)
Lemma pixel_close (quality R G B : Z) (y' co' cg' : number) :
  (1 <= quality <= 49)%Z ->
  (0 <= R <= 255)%Z -> (0 <= G <= 255)%Z -> (0 <= B <= 255)%Z ->
  forall y co cg,
    rgbToYCoCg_pixel (Num (inject_Z R)) (Num (inject_Z G))
                     (Num (inject_Z B)) = (y, co, cg) ->
    close (tolerance quality 0) y y' ->
    close (tolerance quality 1) co co' ->
    close (tolerance quality 2) cg cg' ->
    exists R' G' B',
      ycocgToRgb_pixel y' co' cg'
      = (Num (inject_Z R'), Num (inject_Z G'), Num (inject_Z B'))
      /\ ((0 <= R' <= 255)%Z /\ (4 * Z.abs (R' - R) <= 17 * quality + 2)%Z)
      /\ ((0 <= G' <= 255)%Z /\ (4 * Z.abs (G' - G) <= 17 * quality + 2)%Z)
      /\ ((0 <= B' <= 255)%Z /\ (4 * Z.abs (B' - B) <= 17 * quality + 2)%Z).
Proof.
  intros Hq HR HG HB y co cg.
  pose proof (quality_range quality Hq) as Hq'.
  assert (HR' : 0 <= inject_Z R <= 255).
  { change 0 with (inject_Z 0). change 255 with (inject_Z 255).
    rewrite <- !Zle_Qle. exact HR. }
  assert (HG' : 0 <= inject_Z G <= 255).
  { change 0 with (inject_Z 0). change 255 with (inject_Z 255).
    rewrite <- !Zle_Qle. exact HG. }
  assert (HB' : 0 <= inject_Z B <= 255).
  { change 0 with (inject_Z 0). change 255 with (inject_Z 255).
    rewrite <- !Zle_Qle. exact HB. }
  unfold rgbToYCoCg_pixel. cbv zeta.
  do 12 lossy_step.
  intros E. injection E as <- <- <-.
  intros [y0 [yv [Ey [-> Hy]]]] [co0 [cov [Eco [-> Hco]]]]
         [cg0 [cgv [Ecg [-> Hcg]]]].
  injection Ey as <-. injection Eco as <-. injection Ecg as <-.
  unfold tolerance in Hy, Hco, Hcg. cbn [Nat.eqb] in Hy, Hco, Hcg.
  unfold ycocgToRgb_pixel. cbv zeta.
  do 6 lossy_step.
  match goal with
  | |- context [(clamp255 (Num ?r), clamp255 (Num ?g), clamp255 (Num ?b))] =>
      destruct (clamp255_close quality R r Hq HR) as [R' [-> HR'']];
        [lra|];
      destruct (clamp255_close quality G g Hq HG) as [G' [-> HG'']];
        [lra|];
      destruct (clamp255_close quality B b Hq HB) as [B' [-> HB'']];
        [lra|]
  end.
  exists R', G', B'. split; [reflexivity|]. repeat split; tauto.
Qed.

End ImageLossyNumbers.

Module ImageLossyBlocks.
Import JSNumber JSNumberFacts JSON JSONFacts JSONRoundTrip Dynamic.
Import ImageCodec ImageAlphaFacts ColourFacts ColourRoundTrip QuantizeFacts.
Import ImagePipelineFacts ImageBlocksFacts ImageLossyNumbers.

(** *** Reading what was written *)

Lemma read_nth_error (data : Float32Array) (i : nat) :
  read data i = match nth_error data i with Some v => v | None => NaN end.
Proof.
  unfold read. revert i.
  induction data as [|v data IH]; intros [|i]; cbn [nth nth_error];
    try reflexivity.
  apply IH.
Qed.

Lemma read_write_same (data : Float32Array) (i : nat) (v : number) :
  i < List.length data -> read (write data i v) i = v.
Proof.
  intros Hi. rewrite read_nth_error, (write_same data i v Hi). reflexivity.
Qed.

Lemma read_write_other (data : Float32Array) (i j : nat) (v : number) :
  i <> j -> read (write data i v) j = read data j.
Proof.
  intros Hij. rewrite !read_nth_error, (write_other data i j v Hij).
  reflexivity.
Qed.

Lemma read_map (f : number -> number) (l : Float32Array) (i : nat) :
  i < List.length l -> read (map f l) i = f (read l i).
Proof.
  intros Hi. unfold read.
  rewrite (nth_indep _ NaN (f NaN)) by (rewrite length_map; exact Hi).
  apply map_nth.
Qed.

(** Element [i * m + j] of [n] rows of [m] elements. *)
Lemma nth_rows {A} (g : nat -> nat -> A) (m : nat) (d : A) :
  forall n s i j,
    i < n -> j < m ->
    nth (i * m + j) (flat_map (fun r => map (g r) (seq 0 m)) (seq s n)) d
    = g (s + i) j.
Proof.
  induction n as [|n IH]; intros s i j Hi Hj; [lia|].
  cbn [seq flat_map]. destruct i as [|i].
  - cbn [Nat.mul Nat.add]. rewrite Nat.add_0_r.
    rewrite app_nth1 by (rewrite length_map, length_seq; exact Hj).
    rewrite (nth_indep _ d (g s 0)) by (rewrite length_map, length_seq; exact Hj).
    rewrite map_nth, seq_nth by exact Hj. reflexivity.
  - rewrite app_nth2 by (rewrite length_map, length_seq; lia).
    rewrite length_map, length_seq.
    replace (S i * m + j - m) with (i * m + j) by lia.
    rewrite (IH (S s) i j) by lia.
    f_equal. lia.
Qed.

Definition index_of (width x y channel by_ bx : nat) : nat :=
  ((y + by_) * width + (x + bx)) * 3 + channel.

Lemma extractBlock_read (data : Float32Array)
    (width x y blockWidth blockHeight channel by_ bx : nat) :
  by_ < blockHeight -> bx < blockWidth ->
  read (extractBlock data width x y blockWidth blockHeight channel)
       (by_ * blockWidth + bx)
  = fround (read data (index_of width x y channel by_ bx)).
Proof.
  intros Hby Hbx. unfold extractBlock, read at 1.
  rewrite (nth_rows
             (fun r c =>
                fround (read data (((y + r) * width + (x + c)) * 3 + channel)))
             blockWidth NaN blockHeight 0 by_ bx Hby Hbx).
  reflexivity.
Qed.

(** A loop inside a loop is a loop over the pairs. *)
Lemma fold_left_pairs {A B C} (f : A -> B -> C -> A) (lc : list C) :
  forall (lb : list B) (a : A),
    fold_left (fun a b => fold_left (fun a c => f a b c) lc a) lb a
    = fold_left (fun a p => f a (fst p) (snd p)) (list_prod lb lc) a.
Proof.
  induction lb as [|b lb IH]; intros a; [reflexivity|].
  cbn [fold_left list_prod]. rewrite fold_left_app, <- IH. f_equal.
  generalize a. clear.
  induction lc as [|c lc IH]; intros a; [reflexivity|].
  cbn [map fold_left fst snd]. apply IH.
Qed.

Lemma placeBlock_pairs (data : Float32Array)
    (width x y blockWidth blockHeight channel : nat)
    (blockData : Float32Array) :
  placeBlock data width x y blockWidth blockHeight channel blockData
  = fold_left
      (fun data p =>
         write data (index_of width x y channel (fst p) (snd p))
               (fround (read blockData (fst p * blockWidth + snd p))))
      (list_prod (seq 0 blockHeight) (seq 0 blockWidth)) data.
Proof.
  unfold placeBlock.
  exact (fold_left_pairs
           (fun data by_ bx =>
              write data (index_of width x y channel by_ bx)
                    (fround (read blockData (by_ * blockWidth + bx))))
           (seq 0 blockWidth) (seq 0 blockHeight) data).
Qed.

(** *** The coefficients the decoder puts back *)

Section Decoded.
Variable original : Float32Array.
Variable quality : Z.
Variables width height : nat.
Hypothesis quality_low : (1 <= quality <= 49)%Z.
Hypothesis original_length : List.length original = width * height * 3.
Hypothesis original_within : Forall (within (101 # 100)%Q) original.

(** The decoded coefficient at [idx] is near the original one. *)
Definition near (idx : nat) (v : number) : Prop :=
  close (tolerance quality (idx mod 3)) (read original idx) v.

(** The array has the size of the original and is near it at the
    indices of [S]. *)
Definition near_on (S : nat -> Prop) (data : Float32Array) : Prop :=
  List.length data = List.length original
  /\ forall idx, S idx -> near idx (read data idx).

Lemma near_on_weaken (S S' : nat -> Prop) (data : Float32Array) :
  (forall idx, S' idx -> S idx) -> near_on S data -> near_on S' data.
Proof.
  intros HS [Hlen Hn]. split; [exact Hlen|].
  intros idx Hidx. apply Hn, HS, Hidx.
Qed.

Lemma near_on_write (S : nat -> Prop) (data : Float32Array) (dst : nat)
    (v : number) :
  near_on S data -> dst < List.length original -> near dst v ->
  near_on (fun idx => S idx \/ idx = dst) (write data dst v).
Proof.
  intros [Hlen Hn] Hdst Hv. split; [rewrite write_length; exact Hlen|].
  intros idx Hidx.
  destruct (Nat.eq_dec dst idx) as [<-|Hne].
  - rewrite read_write_same by (rewrite Hlen; exact Hdst). exact Hv.
  - rewrite read_write_other by exact Hne.
    destruct Hidx as [Hidx|Hidx]; [apply Hn, Hidx|congruence].
Qed.

Lemma near_on_fold {B} (dst : B -> nat) (val : B -> number) (l : list B) :
  forall (S : nat -> Prop) (data : Float32Array),
    near_on S data ->
    (forall b, In b l -> dst b < List.length original /\ near (dst b) (val b)) ->
    near_on (fun idx => S idx \/ exists b, In b l /\ idx = dst b)
            (fold_left (fun data b => write data (dst b) (val b)) l data).
Proof.
  induction l as [|b l IH]; intros S data Hd Hl.
  - cbn [fold_left]. revert Hd. apply near_on_weaken.
    intros idx [H|[b [[] _]]]. exact H.
  - cbn [fold_left].
    destruct (Hl b (or_introl eq_refl)) as [Hb Hv].
    pose proof (near_on_write S data (dst b) (val b) Hd Hb Hv) as H1.
    pose proof (IH _ _ H1 (fun b' Hb' => Hl b' (or_intror Hb'))) as H2.
    revert H2. apply near_on_weaken.
    intros idx [H|[b' [[<-|Hb'] E]]].
    + left. left. exact H.
    + left. right. exact E.
    + right. exists b'. split; assumption.
Qed.

(** The cells of the block at a position. *)
Definition in_block (p : nat * nat * nat) (idx : nat) : Prop :=
  let '(y, x, channel) := p in
  exists by_ bx,
    by_ < Nat.min BLOCK_SIZE (height - y)
    /\ bx < Nat.min BLOCK_SIZE (width - x)
    /\ idx = index_of width x y channel by_ bx.

Lemma index_of_below (x y channel by_ bx : nat) :
  channel < 3 ->
  by_ < Nat.min BLOCK_SIZE (height - y) ->
  bx < Nat.min BLOCK_SIZE (width - x) ->
  index_of width x y channel by_ bx < List.length original.
Proof.
  intros Hc Hby Hbx. rewrite original_length. unfold index_of.
  assert (Hrow : y + by_ < height) by lia.
  assert (Hcol : x + bx < width) by lia.
  nia.
Qed.

Lemma index_of_channel (x y channel by_ bx : nat) :
  channel < 3 -> index_of width x y channel by_ bx mod 3 = channel.
Proof.
  intros Hc. unfold index_of.
  rewrite Nat.add_comm, Nat.Div0.mod_add. apply Nat.mod_small, Hc.
Qed.

(** The block the encoder stores for a position. *)
Definition block_at (p : nat * nat * nat) : ICFBlock :=
  let '(y, x, channel) := p in
  let blockWidth := Nat.min BLOCK_SIZE (width - x) in
  let blockHeight := Nat.min BLOCK_SIZE (height - y) in
  {| ImageCodec.x := x; ImageCodec.y := y;
     ImageCodec.width := blockWidth; ImageCodec.height := blockHeight;
     ImageCodec.data :=
       quantize
         (applyDCT
            (extractBlock original width x y blockWidth blockHeight channel))
         (qFactor (ofZ quality)) channel |}.

Lemma compressBlocks_block_at :
  compressBlocks original width height (ofZ quality)
  = map block_at (block_positions width height).
Proof.
  unfold compressBlocks. cbv zeta. apply map_ext.
  intros [[y x] channel]. reflexivity.
Qed.

(** What [placeBlock] writes for a cell of a block the encoder made. *)
Lemma placed_near (y x channel by_ bx : nat) :
  channel < 3 ->
  by_ < Nat.min BLOCK_SIZE (height - y) ->
  bx < Nat.min BLOCK_SIZE (width - x) ->
  near (index_of width x y channel by_ bx)
       (fround
          (read
             (applyInverseDCT
                (map (fun q =>
                        fround
                          (div q (channelQFactor (qFactor (ofZ quality))
                                                 channel)))
                     (ImageCodec.data (block_at (y, x, channel)))))
             (by_ * Nat.min BLOCK_SIZE (width - x) + bx))).
Proof.
  intros Hc Hby Hbx.
  set (blockWidth := Nat.min BLOCK_SIZE (width - x)) in *.
  set (blockHeight := Nat.min BLOCK_SIZE (height - y)) in *.
  assert (Hi : by_ * blockWidth + bx < blockWidth * blockHeight) by nia.
  unfold block_at. cbn [ImageCodec.data]. fold blockWidth blockHeight.
  unfold applyInverseDCT, quantize, applyDCT.
  rewrite !read_map
    by (rewrite ?length_map, extractBlock_length; exact Hi).
  rewrite (extractBlock_read _ _ _ _ _ _ _ _ _ Hby Hbx).
  pose proof (index_of_below x y channel by_ bx Hc Hby Hbx) as Hlt.
  destruct (read_within _ original _ original_within Hlt) as [o [Eo Ho]].
  rewrite Eo.
  destruct (coefficient_close quality channel o quality_low Ho)
    as [s [v [-> [_ [-> Hv]]]]].
  unfold near. rewrite (index_of_channel _ _ _ _ _ Hc), Eo.
  exists o, v. repeat split; apply Hv.
Qed.

Lemma placeBlock_near (S : nat -> Prop) (data : Float32Array)
    (y x channel : nat) :
  channel < 3 ->
  near_on S data ->
  near_on (fun idx => S idx \/ in_block (y, x, channel) idx)
    (placeBlock data width x y (Nat.min BLOCK_SIZE (width - x))
       (Nat.min BLOCK_SIZE (height - y)) channel
       (applyInverseDCT
          (map (fun q =>
                  fround
                    (div q (channelQFactor (qFactor (ofZ quality)) channel)))
               (ImageCodec.data (block_at (y, x, channel)))))).
Proof.
  intros Hc Hd. rewrite placeBlock_pairs.
  set (blockData := applyInverseDCT _).
  pose proof (near_on_fold
                (fun p => index_of width x y channel (fst p) (snd p))
                (fun p =>
                   fround
                     (read blockData
                        (fst p * Nat.min BLOCK_SIZE (width - x) + snd p)))
                (list_prod (seq 0 (Nat.min BLOCK_SIZE (height - y)))
                           (seq 0 (Nat.min BLOCK_SIZE (width - x))))
                S data Hd) as H.
  cbv beta in H.
  assert (Hcells : forall p,
             In p (list_prod (seq 0 (Nat.min BLOCK_SIZE (height - y)))
                             (seq 0 (Nat.min BLOCK_SIZE (width - x)))) ->
             fst p < Nat.min BLOCK_SIZE (height - y)
             /\ snd p < Nat.min BLOCK_SIZE (width - x)).
  { intros [by_ bx] Hp. apply in_prod_iff in Hp.
    destruct Hp as [Hby Hbx]. apply in_seq in Hby, Hbx. cbn [fst snd]. lia. }
  specialize (H (fun p Hp =>
                   conj (index_of_below x y channel (fst p) (snd p) Hc
                           (proj1 (Hcells p Hp)) (proj2 (Hcells p Hp)))
                        (placed_near y x channel (fst p) (snd p) Hc
                           (proj1 (Hcells p Hp)) (proj2 (Hcells p Hp))))).
  revert H. apply near_on_weaken.
  intros idx [Hs|[by_ [bx [Hby [Hbx ->]]]]]; [left; exact Hs|].
  right. exists (by_, bx). split; [|reflexivity].
  apply in_prod_iff. split; apply in_seq; lia.
Qed.

Lemma skipn_cons {A} (l : list A) :
  forall n a rest,
    skipn n l = a :: rest ->
    nth_error l n = Some a /\ skipn (S n) l = rest.
Proof.
  induction l as [|x l IH]; intros [|n] a rest H; try discriminate.
  - cbn [skipn] in H. injection H as -> ->. split; reflexivity.
  - cbn [skipn nth_error] in *. apply IH, H.
Qed.

(** The loop of [decompressBlocks] on the blocks the encoder made. *)
Lemma decompressBlocks_loop_near :
  forall (positions : list (nat * nat * nat)) (blockIndex : nat)
         (S : nat -> Prop) (data : Float32Array),
    positions = skipn blockIndex (block_positions width height) ->
    near_on S data ->
    exists out,
      decompressBlocks_loop
        (JArr (map block_json (map block_at (block_positions width height))))
        width height (qFactor (ofZ quality)) positions blockIndex data
      = Returns out
      /\ near_on (fun idx => S idx \/ exists p, In p positions /\ in_block p idx)
                 out.
Proof.
  induction positions as [|[[y x] channel] rest IH];
    intros blockIndex S data Hpos Hd.
  - exists data. split; [reflexivity|].
    revert Hd. apply near_on_weaken.
    intros idx [H|[p [[] _]]]. exact H.
  - symmetry in Hpos. apply skipn_cons in Hpos. destruct Hpos as [Hnth Hrest].
    assert (Hc : channel < 3).
    { apply nth_error_In in Hnth. apply block_positions_in in Hnth. lia. }
    cbn [decompressBlocks_loop]. cbv zeta.
    unfold element.
    rewrite (map_nth_error block_json _ _
               (map_nth_error block_at _ _ Hnth)).
    cbn [lift obind]. rewrite block_data_json. cbn [lift obind].
    unfold dequantize. rewrite numbers_JNum. cbn [obind].
    pose proof (placeBlock_near S data y x channel Hc Hd) as Hplaced.
    destruct (IH (Datatypes.S blockIndex) _ _ (eq_sym Hrest) Hplaced)
      as [out [Hout Hnear]].
    exists out. split; [exact Hout|].
    revert Hnear. apply near_on_weaken.
    intros idx [H|[p [[<-|Hp] Hin]]].
    + left. left. exact H.
    + left. right. exact Hin.
    + right. exists p. split; assumption.
Qed.

(** Every cell of the image is in the block of some position. *)
Lemma steps_cover (limit k : nat) :
  k < limit -> In (k / 8 * 8) (steps limit).
Proof.
  intros Hk. unfold steps, BLOCK_SIZE. apply in_map_iff.
  exists (k / 8). split; [reflexivity|].
  apply in_seq. split; [lia|]. cbn [Nat.add].
  apply Nat.Div0.div_lt_upper_bound.
  pose proof (Nat.div_mod_eq (limit + 8 - 1) 8) as E.
  pose proof (Nat.mod_upper_bound (limit + 8 - 1) 8 ltac:(lia)) as U.
  lia.
Qed.

Lemma blocks_cover (idx : nat) :
  idx < List.length original ->
  exists p, In p (block_positions width height) /\ in_block p idx.
Proof.
  rewrite original_length. intros Hidx.
  assert (Hw : 0 < width) by nia.
  set (pixel := idx / 3). set (channel := idx mod 3).
  set (row := pixel / width). set (col := pixel mod width).
  assert (Hpix : pixel < width * height).
  { unfold pixel. apply Nat.Div0.div_lt_upper_bound. lia. }
  assert (Hrow : row < height).
  { unfold row. apply Nat.Div0.div_lt_upper_bound. lia. }
  assert (Hcol : col < width) by (apply Nat.mod_upper_bound; lia).
  assert (Hch : channel < 3) by (apply Nat.mod_upper_bound; lia).
  exists (row / 8 * 8, col / 8 * 8, channel). split.
  - unfold block_positions. apply in_flat_map.
    exists (row / 8 * 8). split; [apply steps_cover, Hrow|].
    apply in_flat_map.
    exists (col / 8 * 8). split; [apply steps_cover, Hcol|].
    apply in_map_iff. exists channel. split; [reflexivity|].
    cbn [In]. lia.
  - unfold in_block, BLOCK_SIZE.
    pose proof (Nat.div_mod_eq row 8) as Er.
    pose proof (Nat.div_mod_eq col 8) as Ec.
    pose proof (Nat.mod_upper_bound row 8 ltac:(lia)) as Ur.
    pose proof (Nat.mod_upper_bound col 8 ltac:(lia)) as Uc.
    exists (row mod 8), (col mod 8).
    split; [lia|]. split; [lia|].
    unfold index_of.
    replace (row / 8 * 8 + row mod 8) with row by lia.
    replace (col / 8 * 8 + col mod 8) with col by lia.
    pose proof (Nat.div_mod_eq pixel width) as Ep.
    pose proof (Nat.div_mod_eq idx 3) as Ei.
    fold pixel channel in Ei. fold row col in Ep.
    rewrite Ei at 1. rewrite Ep at 1. lia.
Qed.

(** [decompressBlocks] on the blocks of [compressBlocks]: every
    coefficient comes back within the tolerance of its channel. *)
Lemma decompressBlocks_near :
  exists out,
    decompressBlocks
      (JArr (map block_json
                 (compressBlocks original width height (ofZ quality))))
      width height (ofZ quality)
    = Returns out
    /\ List.length out = width * height * 3
    /\ forall idx, idx < width * height * 3 -> near idx (read out idx).
Proof.
  unfold decompressBlocks. rewrite compressBlocks_block_at.
  destruct (decompressBlocks_loop_near (block_positions width height) 0
              (fun _ => False) (repeat (Num 0) (width * height * 3))
              eq_refl) as [out [Hout [Hlen Hnear]]].
  { split; [rewrite repeat_length; symmetry; exact original_length|].
    intros idx []. }
  exists out. split; [exact Hout|].
  split; [rewrite Hlen; exact original_length|].
  intros idx Hidx. apply Hnear. right.
  apply blocks_cover. rewrite original_length. exact Hidx.
Qed.

End Decoded.

End ImageLossyBlocks.

Module ImageLossy.
Import JSNumber JSNumberFacts JSON JSONFacts JSONRoundTrip.
Import Container ContainerFacts Dynamic.
Import ImageCodec ImageEncodeFacts ImageIntegrityFacts ImageAlphaFacts.
Import ColourFacts ColourRoundTrip QuantizeFacts QuantizeRange.
Import ImagePipelineFacts ImageBlocksFacts ImageDecodeTotal.
Import PFrameBound ImageLossyNumbers ImageLossyBlocks.
Local Open Scope string_scope.

(** *** Back to bytes *)

(** The bytes [ycocgToRgb] stores for pixel [i]. *)
Definition pixel_out (ycocgData : Float32Array) (channels i : nat)
  : list byte :=
  let '(r, g, b) :=
    ycocgToRgb_pixel (read ycocgData (i * 3)) (read ycocgData (i * 3 + 1))
                     (read ycocgData (i * 3 + 2)) in
  ([toUint8 r; toUint8 g; toUint8 b]
     ++ (if (3 <? channels)%nat then [xff] else []))%list.

Lemma pixel_out_length (ycocgData : Float32Array) (channels i : nat) :
  channels = 3 \/ channels = 4 ->
  List.length (pixel_out ycocgData channels i) = channels.
Proof.
  intros Hc. unfold pixel_out.
  destruct (ycocgToRgb_pixel _ _ _) as [[r g] b].
  destruct Hc as [-> | ->]; reflexivity.
Qed.

Lemma ycocgToRgb_step_out (ycocgData : Float32Array) (channels i : nat)
    (prefix : list byte) (rest : nat) :
  channels = 3 \/ channels = 4 ->
  List.length prefix = i * channels ->
  ycocgToRgb_step ycocgData channels
    (prefix ++ repeat x00 (channels + rest))%list i
  = (prefix ++ pixel_out ycocgData channels i ++ repeat x00 rest)%list.
Proof.
  intros Hc Hl. unfold ycocgToRgb_step, pixel_out.
  destruct (ycocgToRgb_pixel _ _ _) as [[r g] b].
  rewrite repeat_app.
  destruct Hc as [-> | ->].
  - change (repeat x00 3) with [x00; x00; x00]. cbn [app].
    rewrite (write_three _ _ _ _ _ _ _ _ _ Hl). reflexivity.
  - change (repeat x00 4) with [x00; x00; x00; x00]. cbn [app].
    rewrite (write_three _ _ _ _ _ _ _ _ _ Hl).
    change (3 <? 4)%nat with true. cbv iota.
    change (prefix ++ toUint8 r :: toUint8 g :: toUint8 b :: x00
                   :: repeat x00 rest)%list
      with (prefix ++ [toUint8 r; toUint8 g; toUint8 b]
                   ++ x00 :: repeat x00 rest)%list.
    rewrite app_assoc.
    replace (i * 4 + 3)
      with (List.length (prefix ++ [toUint8 r; toUint8 g; toUint8 b])%list + 0)
      by (rewrite length_app, Hl; cbn [List.length]; lia).
    rewrite write_app. cbn [write]. rewrite <- app_assoc. reflexivity.
Qed.

Lemma concat_map_length {A} (f : A -> list byte) (k : nat) (l : list A) :
  (forall a, List.length (f a) = k) ->
  List.length (List.concat (map f l)) = List.length l * k.
Proof.
  intros Hf. induction l as [|a l IH]; [reflexivity|].
  cbn [map List.concat List.length]. rewrite length_app, IH, Hf. lia.
Qed.

Lemma ycocgToRgb_prefix_out (ycocgData : Float32Array)
    (channels pixelCount : nat) :
  channels = 3 \/ channels = 4 ->
  forall m, m <= pixelCount ->
    fold_left (ycocgToRgb_step ycocgData channels) (seq 0 m)
              (repeat x00 (pixelCount * channels))
    = (List.concat (map (pixel_out ycocgData channels) (seq 0 m))
         ++ repeat x00 ((pixelCount - m) * channels))%list.
Proof.
  intros Hc. induction m as [|m IH]; intros Hm.
  - cbn [seq fold_left map List.concat app]. rewrite Nat.sub_0_r.
    reflexivity.
  - rewrite seq_S, fold_left_app, IH by lia. cbn [Nat.add fold_left].
    replace ((pixelCount - m) * channels)
      with (channels + (pixelCount - S m) * channels) by nia.
    rewrite ycocgToRgb_step_out.
    + rewrite map_app, concat_app. cbn [map List.concat].
      rewrite app_nil_r, <- app_assoc. reflexivity.
    + exact Hc.
    + rewrite (concat_map_length _ channels), length_seq; [reflexivity|].
      intros i. apply pixel_out_length, Hc.
Qed.

Lemma ycocgToRgb_out (ycocgData : Float32Array) (width height channels : nat) :
  channels = 3 \/ channels = 4 ->
  ycocgToRgb ycocgData width height channels
  = List.concat (map (pixel_out ycocgData channels) (seq 0 (width * height))).
Proof.
  intros Hc. unfold ycocgToRgb.
  rewrite (ycocgToRgb_prefix_out _ _ _ Hc _ (Nat.le_refl _)).
  rewrite Nat.sub_diag. cbn [Nat.mul repeat]. apply app_nil_r.
Qed.

(** Byte [k] of piece [i] of equally long pieces. *)
Lemma nth_error_concat_map (f : nat -> list byte) (c : nat) :
  (forall a, List.length (f a) = c) ->
  forall n s i k,
    i < n -> k < c ->
    nth_error (List.concat (map f (seq s n))) (i * c + k)
    = nth_error (f (s + i)) k.
Proof.
  intros Hf. induction n as [|n IH]; intros s i k Hi Hk; [lia|].
  cbn [seq map List.concat]. destruct i as [|i].
  - cbn [Nat.mul Nat.add]. rewrite Nat.add_0_r.
    apply nth_error_app1. rewrite Hf. exact Hk.
  - rewrite nth_error_app2 by (rewrite Hf; lia).
    rewrite Hf. replace (S i * c + k - c) with (i * c + k) by lia.
    rewrite (IH (S s) i k) by lia. f_equal. f_equal. lia.
Qed.

(** The bytes of a pixel of a buffer of the right size. *)
Lemma pixel_bytes_exist (rgbData : Buffer) (pixelCount channels i : nat) :
  3 <= channels -> List.length rgbData = pixelCount * channels ->
  i < pixelCount ->
  exists r g b,
    nth_error rgbData (i * channels) = Some r
    /\ nth_error rgbData (i * channels + 1) = Some g
    /\ nth_error rgbData (i * channels + 2) = Some b.
Proof.
  intros Hc Hlen Hi.
  assert (Hget : forall k, k < 3 ->
             exists c, nth_error rgbData (i * channels + k) = Some c).
  { intros k Hk.
    destruct (nth_error rgbData (i * channels + k)) as [c|] eqn:E;
      [exists c; reflexivity|].
    apply nth_error_None in E. nia. }
  destruct (Hget 0 ltac:(lia)) as [r Hr].
  destruct (Hget 1 ltac:(lia)) as [g Hg].
  destruct (Hget 2 ltac:(lia)) as [b Hb].
  rewrite Nat.add_0_r in Hr. exists r, g, b. repeat split; assumption.
Qed.

(** Within [17 * quality / 4 + 1 / 2] of a byte. *)
Definition byte_close (quality : Z) (original decoded : byte) : Prop :=
  (4 * Z.abs (Z.of_N (byteN decoded) - Z.of_N (byteN original))
   <= 17 * quality + 2)%Z.

(** The pixels decoded from coefficients that are near the ones
    [rgbToYCoCg] made. *)
Lemma pixel_out_close (rgbData : Buffer) (quality : Z)
    (width height channels : nat) (decoded : Float32Array) (i : nat) :
  (1 <= quality <= 49)%Z ->
  3 <= channels ->
  List.length rgbData = width * height * channels ->
  (forall idx, idx < width * height * 3 ->
               near (rgbToYCoCg rgbData width height channels) quality idx
                    (read decoded idx)) ->
  i < width * height ->
  exists r g b r' g' b',
    nth_error rgbData (i * channels) = Some r
    /\ nth_error rgbData (i * channels + 1) = Some g
    /\ nth_error rgbData (i * channels + 2) = Some b
    /\ ycocgToRgb_pixel (read decoded (i * 3)) (read decoded (i * 3 + 1))
                        (read decoded (i * 3 + 2))
       = (r', g', b')
    /\ byte_close quality r (toUint8 r')
    /\ byte_close quality g (toUint8 g')
    /\ byte_close quality b (toUint8 b').
Proof.
  intros Hq Hc Hlen Hnear Hi.
  destruct (pixel_bytes_exist rgbData _ _ i Hc Hlen Hi)
    as [r [g [b [Hr [Hg Hb]]]]].
  exists r, g, b.
  assert (Hseq : (i < List.length (seq 0 (width * height)))%nat)
    by (rewrite length_seq; exact Hi).
  pose proof (read_flat
                (fun j => rgbToYCoCg_pixel (sample rgbData (j * channels))
                            (sample rgbData (j * channels + 1))
                            (sample rgbData (j * channels + 2)))
                _ i (rgbToYCoCg rgbData width height channels) Hseq eq_refl)
    as E.
  rewrite seq_nth in E by exact Hi. cbn [Nat.add] in E.
  rewrite (sample_channel _ _ _ Hr), (sample_channel _ _ _ Hg),
    (sample_channel _ _ _ Hb), !channel_exact in E.
  pose proof (Hnear (i * 3) ltac:(lia)) as H0.
  pose proof (Hnear (i * 3 + 1) ltac:(lia)) as H1.
  pose proof (Hnear (i * 3 + 2) ltac:(lia)) as H2.
  unfold near in H0, H1, H2.
  replace ((i * 3) mod 3) with 0 in H0 by (rewrite Nat.Div0.mod_mul; reflexivity).
  replace ((i * 3 + 1) mod 3) with 1 in H1
    by (rewrite Nat.add_comm, Nat.Div0.mod_add; reflexivity).
  replace ((i * 3 + 2) mod 3) with 2 in H2
    by (rewrite Nat.add_comm, Nat.Div0.mod_add; reflexivity).
  destruct (pixel_close quality _ _ _ _ _ _ Hq (byteN_bound r) (byteN_bound g)
              (byteN_bound b) _ _ _ (eq_sym E) H0 H1 H2)
    as [R' [G' [B' [Hp [[HR HRc] [[HG HGc] [HB HBc]]]]]]].
  exists (Num (inject_Z R')), (Num (inject_Z G')), (Num (inject_Z B')).
  split; [exact Hr|]. split; [exact Hg|]. split; [exact Hb|].
  split; [exact Hp|].
  unfold byte_close. rewrite !toUint8_small by assumption.
  repeat split; assumption.
Qed.

(** X26.  At a quality from 1 to 49, what [encode] returns for an image
    of three or four channels is decoded to an image of the same
    dimensions, and every colour byte of the decoded image is within
    [17 * quality / 4 + 1 / 2] of the byte of the image that was
    encoded: within 4 at quality 1, within 21 at quality 5, within 85 at
    quality 20.  The smaller the quality, the finer the quantization. *)
Theorem low_quality_error_bound (image : RawImage) (quality : Z)
    (icfData : Buffer) :
  (1 <= quality <= 49)%Z ->
  info_channels image = 3 \/ info_channels image = 4 ->
  List.length (raw_data image)
  = info_width image * info_height image * info_channels image ->
  within_limits image quality ->
  encode image quality = Ok icfData ->
  exists data,
    decode icfData
    = Returns {| decoded_data := data;
                 decoded_width := info_width image;
                 decoded_height := info_height image;
                 decoded_channels := info_channels image |}
    /\ List.length data
       = info_width image * info_height image * info_channels image
    /\ forall i k original decoded,
         i < info_width image * info_height image -> k < 3 ->
         nth_error (raw_data image) (i * info_channels image + k)
         = Some original ->
         nth_error data (i * info_channels image + k) = Some decoded ->
         byte_close quality original decoded.
Proof.
  intros Hq Hc Hlen Hl He.
  assert (Hc3 : 3 <= info_channels image) by lia.
  apply encode_created in He.
  pose proof (parse_container _ _ _ (header_of_valid _ _ Hl) He) as Hp.
  destruct Hl as [Hw [Hh [Hch _]]].
  unfold header_json in Hp.
  rewrite (decode_object _ _ _ _ _ _ _ _ _ _ _ Hp).
  unfold decode_parsed.
  cbn [header_of h_magic h_version h_width h_height h_channels h_quality].
  destruct header_checks_pass as [-> ->].
  unfold payload_of. rewrite string_of_serializeBlocks.
  set (width := info_width image) in *.
  set (height := info_height image) in *.
  set (channels := info_channels image) in *.
  set (ycocgData := rgbToYCoCg (raw_data image) width height channels).
  set (blocks := compressBlocks ycocgData width height (ofZ quality)).
  assert (Hwithin : Forall (within (101 # 100)%Q) ycocgData).
  { apply rgbToYCoCg_within; assumption. }
  assert (Hz : Forall integral_block blocks).
  { apply compressBlocks_integral; try assumption;
      [lia|apply rgbToYCoCg_length]. }
  rewrite (parse_stringify _ (integral_blocks_printable blocks Hz)).
  cbn [lift obind].
  rewrite !dimension_ofNat by assumption. cbn [obind ToNumber].
  destruct (decompressBlocks_near ycocgData quality width height Hq
              (rgbToYCoCg_length _ _ _ _) Hwithin)
    as [out [Hout [Hlenout Hnear]]].
  fold blocks in Hout. rewrite Hout. cbn [obind].
  eexists. split; [reflexivity|].
  split; [apply ycocgToRgb_length|].
  intros i k original decoded Hi Hk Horig Hdec.
  rewrite (ycocgToRgb_out _ _ _ _ Hc) in Hdec.
  rewrite (nth_error_concat_map (pixel_out out channels) channels
             (fun a => pixel_out_length out channels a Hc)
             (width * height) 0 i k Hi ltac:(lia)) in Hdec.
  cbn [Nat.add] in Hdec.
  destruct (pixel_out_close (raw_data image) quality width height channels
              out i Hq Hc3 Hlen Hnear Hi)
    as [r [g [b [r' [g' [b' [Hr [Hg [Hb [Hpix [Cr [Cg Cb]]]]]]]]]]]].
  unfold pixel_out in Hdec. rewrite Hpix in Hdec.
  destruct k as [|[|[|k]]]; [| | |lia].
  - rewrite Nat.add_0_r in Horig. rewrite Hr in Horig.
    injection Horig as <-. cbn [app nth_error] in Hdec.
    injection Hdec as <-. exact Cr.
  - rewrite Hg in Horig.
    injection Horig as <-. cbn [app nth_error] in Hdec.
    injection Hdec as <-. exact Cg.
  - rewrite Hb in Horig.
    injection Horig as <-. cbn [app nth_error] in Hdec.
    injection Hdec as <-. exact Cb.
Qed.

Definition three_pixels : RawImage :=
  {| metadata_width := Some 3; metadata_height := Some 1;
     raw_data := [x10; x80; xf0; xff; x00; x7f; x33; x99; xcc];
     info_width := 3; info_height := 1; info_channels := 3 |}.

Definition three_pixels_icf : Buffer :=
  Eval vm_compute in unwrap (encode three_pixels 5).

Lemma low_quality_error_bound_witness :
  exists data,
    decode three_pixels_icf
    = Returns {| decoded_data := data;
                 decoded_width := 3;
                 decoded_height := 1;
                 decoded_channels := 3 |}
    /\ List.length data = 3 * 1 * 3
    /\ forall i k original decoded,
         i < 3 * 1 -> k < 3 ->
         nth_error [x10; x80; xf0; xff; x00; x7f; x33; x99; xcc] (i * 3 + k)
         = Some original ->
         nth_error data (i * 3 + k) = Some decoded ->
         byte_close 5 original decoded.
Proof.
  apply (low_quality_error_bound three_pixels 5).
  - lia.
  - left. reflexivity.
  - reflexivity.
  - repeat split; vm_compute; reflexivity.
  - vm_compute. reflexivity.
Defined.

End ImageLossy.

Module CLINumbers.
Import JSNumber JSNumberFacts RoundingFacts.
Local Open Scope Q_scope.

(** The double of an integer of magnitude 2^53 or more is within half
    of the integer's magnitude of it. *)
Lemma roundTo_large (x : Q) :
  9007199254740992 <= Qabs x ->
  - (Qabs x * (1 # 2)) <= roundTo 53 x - x <= Qabs x * (1 # 2).
Proof.
  intros Hx.
  assert (Hx0 : ~ x == 0).
  { intros E. rewrite E in Hx. vm_compute in Hx. apply Hx. reflexivity. }
  pose proof (roundTo_err 53 x Hx0) as Hr.
  pose proof (ilog2_lower x Hx0) as He.
  assert (Hs : two_pow (ilog2 x - 53)
               == two_pow (ilog2 x) * (1 # 2 ^ 53)).
  { replace (ilog2 x - 53)%Z with (ilog2 x + - 53)%Z by lia.
    rewrite two_pow_add. reflexivity. }
  rewrite Hs in Hr. clear Hs.
  change (1 # 2 ^ 53) with (1 # 9007199254740992) in Hr.
  pose proof (two_pow_pos (ilog2 x)) as Hp.
  apply Qabs_Qle_condition in Hr. lra.
Qed.

Lemma ofZ_large_positive (z : Z) :
  (2 ^ 53 <= z)%Z ->
  lt (ofZ z) (Num 1) = false /\ lt (Num 100) (ofZ z) = true.
Proof.
  intros Hz. change (2 ^ 53)%Z with 9007199254740992%Z in Hz.
  set (x := inject_Z z).
  assert (Hxv : 9007199254740992 <= x).
  { unfold x. change 9007199254740992 with (inject_Z 9007199254740992).
    rewrite <- Zle_Qle. lia. }
  pose proof (roundTo_large x) as Hr.
  rewrite Qabs_pos in Hr by lra. specialize (Hr Hxv).
  unfold ofZ, fl, overflow. fold x.
  set (r := roundTo 53 x) in *.
  assert (Hn : negQ x = false).
  { unfold negQ. destruct (Qcompare x 0) eqn:E0; try reflexivity.
    apply Qlt_alt in E0. lra. }
  rewrite Hn.
  destruct (Qle_bool (two_pow 1024) (Qabs r)); [split; reflexivity|].
  unfold lt. split.
  - destruct (Qcompare r 1) eqn:E; try reflexivity.
    apply Qlt_alt in E. lra.
  - destruct (Qcompare 100 r) eqn:E; try reflexivity.
    + apply Qeq_alt in E. lra.
    + apply Qgt_alt in E. lra.
Qed.

Lemma ofZ_large_negative (z : Z) :
  (z <= - 2 ^ 53)%Z -> lt (ofZ z) (Num 1) = true.
Proof.
  intros Hz. change (2 ^ 53)%Z with 9007199254740992%Z in Hz.
  set (x := inject_Z z).
  assert (Hxv : x <= - (9007199254740992)).
  { unfold x.
    change (- (9007199254740992)) with (inject_Z (-9007199254740992)).
    rewrite <- Zle_Qle. lia. }
  pose proof (roundTo_large x) as Hr.
  rewrite Qabs_neg in Hr by lra. specialize (Hr ltac:(lra)).
  unfold ofZ, fl, overflow. fold x.
  set (r := roundTo 53 x) in *.
  assert (Hn : negQ x = true).
  { unfold negQ. destruct (Qcompare x 0) eqn:E0; try reflexivity.
    - apply Qeq_alt in E0. lra.
    - apply Qgt_alt in E0. lra. }
  rewrite Hn.
  destruct (Qle_bool (two_pow 1024) (Qabs r)); [reflexivity|].
  unfold lt. destruct (Qcompare r 1) eqn:E; try reflexivity.
  - apply Qeq_alt in E. lra.
  - apply Qgt_alt in E. lra.
Qed.

(** A double that is not below 1, when it is the double of an integer,
    is the double of an integer that is at least 1. *)
Lemma ofZ_not_below_1 (z : Z) :
  lt (ofZ z) (Num 1) = false -> (1 <= z)%Z.
Proof.
  intros Hlo.
  destruct (Z.lt_ge_cases (Z.abs z) (2 ^ 53)) as [Hs|Hl].
  - rewrite (ofZ_exact Hs) in Hlo. unfold lt in Hlo.
    assert (H1 : ~ inject_Z z < 1).
    { intros Hc. apply (proj1 (Qlt_alt _ _)) in Hc. rewrite Hc in Hlo.
      discriminate. }
    change 1 with (inject_Z 1) in H1. rewrite <- Zlt_Qlt in H1. lia.
  - destruct (Z.lt_ge_cases z 0) as [Hneg|Hpos]; [|lia].
    rewrite ofZ_large_negative in Hlo by lia. discriminate.
Qed.

(** A number that is neither below 1 nor above 100, when it is the
    double of an integer, is that integer, and the integer is in the
    range. *)
Lemma ofZ_in_range (z : Z) :
  lt (ofZ z) (Num 1) = false -> lt (Num 100) (ofZ z) = false ->
  ofZ z = Num (inject_Z z) /\ (1 <= z <= 100)%Z.
Proof.
  intros Hlo Hhi. pose proof (ofZ_not_below_1 z Hlo) as H1.
  destruct (Z.lt_ge_cases z (2 ^ 53)) as [Hs|Hl].
  - rewrite (@ofZ_exact z) in * by lia. split; [reflexivity|].
    unfold lt in Hhi.
    assert (H2 : ~ 100 < inject_Z z).
    { intros Hc. apply (proj1 (Qlt_alt _ _)) in Hc. rewrite Hc in Hhi.
      discriminate. }
    change 100 with (inject_Z 100) in H2. rewrite <- Zlt_Qlt in H2. lia.
  - destruct (ofZ_large_positive z Hl) as [_ H]. congruence.
Qed.

End CLINumbers.

Module CLIFacts.
Import JSNumber JSNumberFacts JSON JSONFacts CLI CLINumbers.
Local Open Scope string_scope.

(** *** Reading a number *)

Lemma digit_not_space (c : ascii) (t : string) :
  leading c -> strip_any (map utf8 white_space) (String c t) = None.
Proof.
  unfold leading. cbn [list_ascii_of_string In].
  intros H.
  repeat (destruct H as [<-|H]; [vm_compute; reflexivity|]).
  contradiction.
Qed.

Lemma parseInt_value_digits (z : Z) (tail : string) :
  (0 < z)%Z -> no_digit_ahead tail ->
  parseInt_value (nat_string z ++ tail) = Some z.
Proof.
  intros Hz Htail.
  pose proof (take_digits_nat_string z tail Htail) as Ht.
  pose proof (digits_not_nil z Hz) as Hnil.
  pose proof (digits_value z ltac:(lia)) as Hv.
  destruct (nat_string_head z Hz) as [c [t [Hs Hc]]].
  unfold parseInt_value. rewrite Hs in *. cbn [append String.length] in *.
  cbn [trim_start]. rewrite (digit_not_space c _ Hc).
  assert (Hsign : forall (A : Type) (a b d : string -> A) (r : string),
             match String c r with
             | String "-" r' => a r'
             | String "+" r' => b r'
             | _ => d (String c r)
             end = d (String c r)).
  { intros A a b d r. unfold leading in Hc.
    cbn [list_ascii_of_string In] in Hc.
    repeat (destruct Hc as [<-|Hc]; [reflexivity|]). contradiction. }
  rewrite (Hsign _ (fun r => (true, r)) (fun r => (false, r))
                 (fun s => (false, s))).
  rewrite Ht. destruct (digits z) as [|d ds]; [contradiction|].
  rewrite Hv. reflexivity.
Qed.

(** X20.  [validateQuality] accepts only integers from 1 to 100, and it
    accepts each of them written in decimal, also when characters that
    are not digits follow the number ([85abc] and [85.7] are read
    as 85). *)
Theorem validateQuality_accepts :
  (forall (quality : string) (q : number),
      validateQuality quality = Accepted q ->
      exists z, q = Num (inject_Z z) /\ (1 <= z <= 100)%Z)
  /\ (forall (z : Z) (tail : string),
         (1 <= z <= 100)%Z -> no_digit_ahead tail ->
         validateQuality (nat_string z ++ tail)
         = Accepted (Num (inject_Z z))).
Proof.
  split.
  - intros quality q H. unfold validateQuality, parseInt in H.
    destruct (parseInt_value quality) as [z|]; [|discriminate].
    cbv zeta in H.
    destruct (isNaN (ofZ z)); [discriminate|]. cbn [orb] in H.
    destruct (lt (ofZ z) (Num 1)) eqn:Hlo; [discriminate|]. cbn [orb] in H.
    destruct (lt (Num 100) (ofZ z)) eqn:Hhi; [discriminate|].
    injection H as <-.
    destruct (ofZ_in_range z Hlo Hhi) as [-> Hz].
    exists z. split; [reflexivity|exact Hz].
  - intros z tail Hz Htail. unfold validateQuality, parseInt.
    rewrite (parseInt_value_digits z tail) by (try assumption; lia).
    rewrite ofZ_exact by (change (2 ^ 53)%Z with 9007199254740992%Z; lia).
    cbv zeta. cbn [isNaN orb].
    assert (Hlo : lt (Num (inject_Z z)) (Num 1) = false).
    { unfold lt. destruct (Qcompare (inject_Z z) 1) eqn:E; try reflexivity.
      apply Qlt_alt in E. change 1%Q with (inject_Z 1) in E.
      rewrite <- Zlt_Qlt in E. lia. }
    assert (Hhi : lt (Num 100) (Num (inject_Z z)) = false).
    { unfold lt. destruct (Qcompare 100 (inject_Z z)) eqn:E; try reflexivity.
      apply Qlt_alt in E. change 100%Q with (inject_Z 100) in E.
      rewrite <- Zlt_Qlt in E. lia. }
    rewrite Hlo, Hhi. reflexivity.
Qed.


(** *** The options of the video tool *)

(** What an accepted option holds. *)
Definition valid_options (options : Options) : Prop :=
  (forall q, quality options = Some q ->
             exists z, q = Num (inject_Z z) /\ (1 <= z <= 100)%Z)
  /\ (forall b, bitrate options = Some b ->
                exists z, b = ofZ z /\ (1 <= z)%Z)
  /\ (forall g, gopSize options = Some g ->
                exists z, g = ofZ z /\ (1 <= z)%Z).

Definition positional (arg : string) : Prop := startsWith "--" arg = false.

Lemma at_least_1 (value : string) :
  isNaN (parseInt value) || lt (parseInt value) (Num 1) = false ->
  exists z, parseInt value = ofZ z /\ (1 <= z)%Z.
Proof.
  unfold parseInt. destruct (parseInt_value value) as [z|]; [|discriminate].
  intros H. apply orb_false_iff in H. destruct H as [_ H].
  exists z. split; [reflexivity|apply ofZ_not_below_1, H].
Qed.

Lemma parseOptions_loop_accepts (args : list string) :
  forall (n : nat) (options : Options) (remainingArgs : list string)
         (options' : Options) (remainingArgs' : list string),
    List.length args <= n ->
    valid_options options -> Forall positional remainingArgs ->
    parseOptions_loop args options remainingArgs
    = Accepted (options', remainingArgs') ->
    valid_options options' /\ Forall positional remainingArgs'.
Proof.
  intros n. revert args.
  induction n as [|n IH]; intros args o rem o' rem' Hn Ho Hrem H.
  - destruct args; [|cbn [List.length] in Hn; lia].
    injection H as <- <-. split; assumption.
  - destruct args as [|arg rest].
    { injection H as <- <-. split; assumption. }
    cbn [List.length] in Hn.
    assert (Hpos :
              (if negb (startsWith "--" arg)
               then parseOptions_loop rest o (rem ++ [arg])
               else Rejected (UnknownOption arg))
              = Accepted (o', rem') ->
              valid_options o' /\ Forall positional rem').
    { destruct (startsWith "--" arg) eqn:Es; cbn [negb]; [discriminate|].
      intros H'. apply (IH rest o (rem ++ [arg])%list); try assumption;
        [lia|].
      apply Forall_app. split; [exact Hrem|]. constructor; [exact Es|].
      constructor. }
    cbn [parseOptions_loop] in H. cbv zeta in H.
    destruct rest as [|value rest']; [exact (Hpos H)|].
    cbn [List.length] in Hn.
    destruct Ho as [Hq [Hb Hg]].
    destruct (String.eqb arg "--quality").
    { destruct (isNaN (parseInt value) || lt (parseInt value) (Num 1)
                || lt (Num 100) (parseInt value)) eqn:E; [discriminate|].
      apply (IH rest') in H; try assumption; [lia|].
      repeat split; cbn [quality bitrate gopSize]; try assumption.
      intros q Eq. injection Eq as <-.
      apply orb_false_iff in E. destruct E as [E Ehi].
      apply orb_false_iff in E. destruct E as [En Elo].
      unfold parseInt in *.
      destruct (parseInt_value value) as [z|]; [|discriminate].
      destruct (ofZ_in_range z Elo Ehi) as [-> Hz].
      exists z. split; [reflexivity|exact Hz]. }
    destruct (String.eqb arg "--bitrate").
    { destruct (isNaN (parseInt value) || lt (parseInt value) (Num 1))
        eqn:E; [discriminate|].
      apply (IH rest') in H; try assumption; [lia|].
      repeat split; cbn [quality bitrate gopSize]; try assumption.
      intros b Eb. injection Eb as <-. apply at_least_1, E. }
    destruct (String.eqb arg "--gop").
    { destruct (isNaN (parseInt value) || lt (parseInt value) (Num 1))
        eqn:E; [discriminate|].
      apply (IH rest') in H; try assumption; [lia|].
      repeat split; cbn [quality bitrate gopSize]; try assumption.
      intros g Eg. injection Eg as <-. apply at_least_1, E. }
    exact (Hpos H).
Qed.

Lemma positional_not_flag (arg flag : string) :
  positional arg -> startsWith "--" flag = true ->
  String.eqb arg flag = false.
Proof.
  intros Ha Hf. destruct (String.eqb_spec arg flag) as [->|]; [|reflexivity].
  unfold positional in Ha. congruence.
Qed.

Lemma parseOptions_loop_positional (args : list string) :
  Forall positional args ->
  forall (options : Options) (remainingArgs : list string),
    parseOptions_loop args options remainingArgs
    = Accepted (options, remainingArgs ++ args)%list.
Proof.
  induction 1 as [|arg rest Ha Hrest IH]; intros o rem.
  - cbn [parseOptions_loop]. rewrite app_nil_r. reflexivity.
  - cbn [parseOptions_loop]. cbv zeta.
    rewrite (positional_not_flag arg "--quality" Ha eq_refl).
    rewrite (positional_not_flag arg "--bitrate" Ha eq_refl).
    rewrite (positional_not_flag arg "--gop" Ha eq_refl).
    unfold positional in Ha. rewrite Ha. cbn [negb].
    rewrite IH, <- app_assoc.
    destruct rest; reflexivity.
Qed.

(** X21.  When [parseOptions] accepts its arguments, the quality it
    returns is an integer from 1 to 100, the bitrate and the GOP size
    are read from integers that are at least 1, and none of the
    remaining arguments starts with two dashes; arguments none of which
    starts with two dashes are all returned, in their order, with no
    option set. *)
Theorem parseOptions_accepts :
  (forall (args : list string) (options : Options)
          (remainingArgs : list string),
      parseOptions args = Accepted (options, remainingArgs) ->
      valid_options options /\ Forall positional remainingArgs)
  /\ (forall args : list string,
         Forall positional args ->
         parseOptions args = Accepted (no_options, args)).
Proof.
  split.
  - intros args o rem H. unfold parseOptions in H.
    apply (parseOptions_loop_accepts args (List.length args) no_options []);
      try assumption; [lia| |constructor].
    repeat split; intros ? E; discriminate E.
  - intros args Ha. unfold parseOptions.
    rewrite (parseOptions_loop_positional args Ha). reflexivity.
Qed.

End CLIFacts.

(** ** What the command-line tools read from a container *)

Module CLIHeaderFacts.
Import JSNumber JSON JSONFacts JSONRoundTrip Container ContainerFacts CLIHeader.
Local Open Scope string_scope.

Lemma parseHeader_parseContainer (MAGIC : string) (data : Buffer) :
  parseHeader MAGIC data
  = match parseContainer MAGIC data with
    | Ok (header, _) => Ok header
    | Err e => Err e
    end.
Proof.
  unfold parseHeader, parseContainer.
  destruct (List.length data <? 8)%nat; [reflexivity|].
  destruct (negb (toString_ascii (firstn 4 data) =? MAGIC)); [reflexivity|].
  cbv zeta.
  destruct (List.length data <? 8 + N.to_nat (readUInt32LE_4 data))%nat;
    [reflexivity|].
  destruct (parse _); reflexivity.
Qed.

(** X24.  The header the ICF command line reads from a file that [encode]
    wrote is the header [encode] built: the dimensions and the channel
    count of the image, the quality asked for, the size of the block data
    and the checksum of the raw pixels. *)
Theorem parseICFHeader_encode (image : ImageCodec.RawImage) (quality : Z)
    (icfData : Buffer) :
  ImageEncodeFacts.within_limits image quality ->
  ImageCodec.encode image quality = Ok icfData ->
  parseICFHeader icfData
  = Ok (ImageCodec.header_json (ImageEncodeFacts.header_of image quality)).
Proof.
  intros Hl He.
  apply ImagePipelineFacts.encode_created in He.
  pose proof (ImageIntegrityFacts.parse_container _ _ _
                (ImagePipelineFacts.header_of_valid _ _ Hl) He) as Hp.
  unfold parseICFHeader. rewrite parseHeader_parseContainer.
  change (parseContainer "ICF1" icfData)
    with (ImageCodec.parseContainer icfData).
  rewrite Hp. reflexivity.
Qed.

Lemma parseICFHeader_encode_witness :
  parseICFHeader ImageAlphaFacts.two_pixels_icf
  = Ok (ImageCodec.header_json
          (ImageEncodeFacts.header_of ImageAlphaFacts.two_pixels 85)).
Proof.
  apply (parseICFHeader_encode ImageAlphaFacts.two_pixels 85).
  - repeat split; vm_compute; reflexivity.
  - vm_compute. reflexivity.
Defined.

Lemma vcf_MAGIC_length : List.length (list_byte_of_string "VCF1") = 4.
Proof. reflexivity. Qed.

Lemma vcf_MAGIC_ascii : toString_ascii (list_byte_of_string "VCF1") = "VCF1".
Proof. reflexivity. Qed.

(** X25.  The header the VCF command line reads from a container that the
    video codec's [createContainer] made is the header that was put in,
    whatever the frame data, for every header that [JSON.stringify] prints
    and [JSON.parse] reads back. *)
Theorem parseVCFHeader_createContainer (header : json)
    (compressedData vcfData : Buffer) :
  printable header ->
  VideoCodec.createContainer header compressedData = Ok vcfData ->
  parseVCFHeader vcfData = Ok header.
Proof.
  intros Hp Hc.
  unfold parseVCFHeader. rewrite parseHeader_parseContainer.
  unfold VideoCodec.createContainer in Hc.
  change VideoCodec.MAGIC with "VCF1" in Hc.
  rewrite (parseContainer_createContainer "VCF1" vcf_MAGIC_length
             vcf_MAGIC_ascii _ _ _ Hc).
  rewrite (parse_stringify _ Hp). reflexivity.
Qed.

Definition sample_header : json :=
  JObj [ ("magic", JStr "VCF1"); ("version", JNum (Num 1));
         ("width", JNum (Num 320)); ("height", JNum (Num 240));
         ("frameCount", JNum (Num 2)); ("gopSize", JNum (Num 30)) ].

Definition sample_vcf : Buffer :=
  Eval vm_compute in
    unwrap (VideoCodec.createContainer sample_header [x01; x02; x03]).

Lemma parseVCFHeader_createContainer_witness :
  parseVCFHeader sample_vcf = Ok sample_header.
Proof.
  apply (parseVCFHeader_createContainer sample_header [x01; x02; x03]).
  - cbn [sample_header printable fold_right snd].
    repeat split; eexists; (split; [reflexivity|vm_compute; reflexivity]).
  - vm_compute. reflexivity.
Defined.

End CLIHeaderFacts.
